(* ===== verification/_CoqProject ===== *)
-Q . S2P
Prelude.v
Utf8.v
GoText.v
GoTime.v
Sha256.v
GoJson.v
GoJsonRound.v
Canonical.v
Model.v
AuditChain.v
AuditRepo.v
AuditPostgres.v
AuditWriter.v
Netip.v
NetipRound.v
GoStruct.v
RateLimit.v
Rules.v
IPBlock.v
Patterns.v
Assembly.v
Regex.v
Signatures.v
GoMux.v
EngineApi.v
Traffic.v
Auth.v
Config.v
Support.v
GoParse.v
Events.v
Connect.v
RuleStore.v
Hub.v
Feed.v
Migrate.v
DashApi.v
Dashboard.v
Watch.v
Process.v
System.v
Proxy.v
Access.v
Shield.v
DemoBackend.v
