(* ===== verification/Prelude.v ===== *)
(** * Verification of open-shield

    open-shield is a request filter in front of a web site.  A proxy asks the engine about every
    request; the engine runs a chain of rules, answers, and records the answer on a hash-linked
    audit log.  A dashboard shows the log and changes the configuration.  This library models the
    Go program and the proxy's Lua hook (paths below are under [src/]) by a shallow embedding and
    proves what makes each part correct, and what the parts promise together.

    ** The program and where it is modelled

    Foundations, parts of Go's standard library the program is written in:
    - [Prelude]: results of fallible functions, machine integers, byte strings, lists, tactics.
    - [Utf8], [GoText], [GoTime], [GoParse]: [unicode/utf8], [strings], [strconv], printing and
      reading instants and durations, [url.ParseQuery].
    - [GoJson], [GoJsonRound], [GoStruct]: [encoding/json] byte for byte, its round trip, and
      decoding into structs.
    - [Sha256]: SHA-256 and HMAC, executable; [Netip]: [net/netip], whose texts [NetipRound] reads
      back; [GoMux]: how [http.ServeMux] reads a path.

    The audit log ([internal/model], [internal/audit]):
    - [Canonical] ([model/canonical.go]): the one encoding of a payload.
    - [Model] ([model/model.go], [rules.go], [audit.go]): requests, decisions, entries, hashes.
    - [AuditChain] ([audit/verify.go]): the walker, against the specification [chain].
    - [AuditRepo] ([audit/repository.go], [memory.go]): the contract of a store, as the class
      [Repository] with [RepositoryLaws], and the in-memory store, which satisfies it.
    - [AuditPostgres] ([audit/postgres.go]): the statements over a table of rows.
    - [AuditWriter] ([audit/writer.go]): the writer goroutine, proved from [RepositoryLaws] alone.

    The engine ([engine/]):
    - [Rules] ([internal/rules/rules.go]), [IPBlock] ([ipblock.go]), [RateLimit]
      ([ratelimit/ratelimit.go], [rules/ratelimit.go]), [Patterns] ([patterns.go]): the chain and
      its rules.
    - [Regex], [Signatures]: Go's [regexp] for the part of its syntax the signature file uses, and
      the file itself ([internal/rules/patterns.json]) with the corpus of requests it is tested on
      ([test/corpus/corpus.go], [attacks.json], [benign.json]), byte for byte.
    - [EngineApi] ([internal/httpapi/httpapi.go]): the handlers, the router, and what one request is
      answered ([serve]); [Traffic]: what of a request the record of it depends on.
    - [Assembly], [Watch], [Process] ([cmd/engine/main.go]): the chain that runs, the loop that
      keeps it in step with the configuration store, and the start and the end of the process.

    Configuration and messages ([internal/]):
    - [Config] ([config/config.go]), [RuleStore] ([rulestore/rulestore.go]), [Migrate]
      ([migrate/migrate.go]), [Events] ([events/events.go]); [Connect]: opening and closing the
      stores ([audit/postgres.go], [events/events.go]).

    The dashboard ([dashboard/api/internal/]):
    - [Auth] ([auth/]), [Support] ([httpapi/support.go]), [DashApi] ([httpapi/httpapi.go],
      [auditclient.go]), [Hub] ([ws/hub.go]).
    - [Dashboard] ([cmd/api/main.go]): the command that hashes the administrator's password, the
      start of the process, and the server answering one request after the other.

    The proxy and what is behind it:
    - [Proxy] ([proxy/lua/openshield.lua]): the hook nginx runs for every request, from the headers
      and the body it collects to the verdict it acts on.
    - [DemoBackend] ([examples/demo-backend/main.go]): the application the repository protects.

    [Feed] follows an entry from the writer to a browser; [System] a change from the dashboard to
    the verdicts of the engine; [Access] an entry of the access list from the dashboard to what
    the proxy answers; and [Shield] a client's request through the hook, JSON, the endpoint, the
    chain and the built-in signatures, and back.

    ** How state and operations correspond

    A struct is a [Record], a method a [Definition] of the same name that returns the new state;
    a name Rocq reserves gets an underscore ([Set_], [Require_], [fail_]).  [(T, error)] is
    [result T].  A handler returns the state, the calls it made, in order, and the response.
    Goroutines are step relations ([AuditWriter.wstep], [Rules.dstep], [Hub.step], [Watch.step],
    [Migrate.step], [Process.pstep], [Feed.fstep]) whose steps are the critical sections and channel
    operations of the code; the theorems about them hold in every reachable state.  Locks show as
    the guards of steps ([Hub.unlocked], [step_close]'s empty [w_inflight], [Migrate]'s advisory lock).
    Pointers that goroutines share are keys of a store ([Hub.h_heap]).  The hook's Lua tables are
    association lists, and what it ends with is an [outcome]: the request goes on, is answered
    with a page, or the hook fails.

    ** What the theorems show

    - Integrity of the log: [head_pins_log], [verify_exact], [misplaced_entry_reported],
      [compute_hash_content], [payload_store_roundtrip]; and its two known limits as theorems,
      [pg_verify_range_false_alarm] and [late_error_breaks_chain].
    - The writer under every interleaving: [writer_chain_intact] and [writer_accounts], and with the
      process around it [shutdown_outcome].  A store may report an append as failed after it stored
      the entry ([RepositoryLaws.append_err]); these theorems then say what is left: the log is
      intact up to and including the first such entry ([AuditWriter.late]).
    - Filtering: [ipblock_exact], [sliding_window_bound], [pattern_rule_exact],
      [chain_verdict]; with the built-in signatures, [injections_blocked] and [corpus_verdicts].
    - The way of a request: [proxied_verdict], [fail_mode_exact], [engine_surface],
      [proxied_injections], [id_correlates]; and what it hides, [broken_bytes_hide_the_rest].
    - What is recorded and shown: [traffic_payload_private], [event_roundtrip], [query_bounds].
    - Signing in: [session_verify_exact], [guesses_throttled],
      [client_ip_unforgeable], [no_session_no_access]; from the hashing command to a session,
      [setup_signs_in].
    - Changes: [change_recorded_first], [admin_record_end_to_end], [store_refines],
      [store_invariant], [config_follows_store]; enforced, [patch_enforced] and [ban_enforced]; and
      [entry_normal_form], by which an entry is stored as what was typed.
    - Start-up: [startup_exact], with every error around the migrations ([Migrate.faults]) and the
      size a channel can have ([makechan]); [migrations_in_order] and [migrations_terminate], with
      sessions that end, and free the lock, wherever an instance is ([Migrate.step_lose]).
    - The live feed: [hub_safe], [live_feed_committed].

    Further theorems support these or stand beside them, among them [patch_rule_outcomes],
    [decide_snapshot], [login_session], [dashboard_startup], [filterClause_bound], [pg_pagination],
    [page_inert], [nothing_left_open], [parse_prefix_str], [encoded_payload_blocked], [writer_fifo],
    [writer_close_flushes], [hub_in_order], [hub_never_blocks], [migrate_run], [login_throttled],
    [change_takes_effect], [engine_config_exact], [dashboard_config_exact], [pg_stats_consistent]
    and [load_signatures_exact]; [drain_cut_short], [late_client_not_told],
    [bad_escape_hides_payload] and [concurrent_guesses_pass] show limits of the code.

    ** Interfaces to what is not in the repository

    Each is a class or an argument with laws that state documented behaviour, and has a concrete
    instance on which the witnesses evaluate: [Redis] (sorted sets), [Regexp] (a match is a range of
    the text; [Regex.re2] is the instance for the built-in signatures), [Postgres] (what a column
    gives back), [CidrType] and [CidrNetwork] (the server's network type), [Cjson] (lua-cjson: it
    writes any table of text, and reads what Go writes), [Bcrypt] and [BcryptGenerate], [Compose]
    (Docker Compose's reading of a value), [UnicodePrint] ([strconv]'s table of printable runes),
    the SQL of a migration ([Migrate]'s [exec]), and the answers of other services ([DashApi.env]).
    Collisions of SHA-256 and HMAC appear as hypotheses on the entries or tokens concerned, or as a
    disjunct, never as injectivity.

    ** Bounds and fuel

    [Regex.plus] and [star] recurse on the length of the text that is left, and an iteration that
    consumes nothing ends them; [Regex.parse] on twice the length of the pattern.
    The JSON parser and the number readers recurse on fuel of the length of the text, which every
    step shortens, and on a depth of 10000, Go's own limit.  [Patterns]' scan and [Netip]'s
    readers recurse on the text.  The steps of [Watch] counted in [patch_enforced] are at most
    three per waiting announcement, of which there are at most eight, and a reload in progress.
    A request is at most 50,000 bytes of head and 65,536 of body, more than nginx keeps in memory;
    its encoding then fits the megabyte the engine reads ([request_room]).
    [migrations_terminate] is by a measure, [hub_never_blocks] by the clients still to be served.
    Integers are unbounded where the code cannot overflow; where it can ([time.Duration]
    arithmetic, counters parsed from text) the wrap is written out ([wrap64]).

    ** Simplifications

    - A time is an instant: the code moves every time it keeps to UTC.
    - Maps in payloads are association lists in an arbitrary order, and theorems are up to that
      order ([geq]); a nil and an empty map are the same.
    - A failed statement of a store has no effect, except where an error is reported after the
      commit ([RepositoryLaws.append_err], [AuditPostgres.db_late], [Migrate.AtCommit]).  A statement
      the server completes after its client gave up has completed when the client is told.
    - The writer's goroutine receives and appends in one step ([run_one]): [Stats] read in between
      would count one entry less.  Running out of memory is not modelled.
    - A login reads the clock once ([DashApi.handleLogin]): the time bcrypt takes between the check
      of the throttle and the count of the failure is left out, except in [concurrent_guesses_pass].
    - Of the keys of a JSON object that select one field the last counts ([GoStruct]).
    - Responses are status, body and cookie; the other fixed headers are a constant list
      ([DashApi.securityHeaders]).
    - Patterns outside the syntax [Regex] reads (Unicode classes, POSIX classes, named groups, flags
      but [i], nested counted repetitions, bytes above ASCII) are refused by it; the theorems on
      the signature rules themselves hold for any engine.
    - The hook reads its settings as texts, the inspected size as a number; a status is a whole
      number, not a text that reads as one; and its log lines show only where they refuse a table.
    - An instant inside a JSON message may be written with escapes, which Go's decoder refuses.

    ** Not modelled

    - TLS, sockets, signals, timeouts and the net/http servers (the [main.go] files beyond what
      [Assembly], [Watch], [Process], [Dashboard] and [DemoBackend] take from them), and nginx
      itself with [proxy/nginx.conf]: I/O around the modelled functions.
    - Reconnecting to Redis, which go-redis does: it shows as messages that are lost.
    - Logging, except where it is on the record.
    - Requests with the method CONNECT, which carry no path.
    - The React application and the test harness: not part of the protection layer. *)

From Stdlib Require Export ZArith Ascii String Lia.
From stdpp Require Export base tactics list strings gmap sorting option.

Open Scope Z_scope.
#[global] Arguments String.append : simpl nomatch.

(** ** Notation scope and results

    Go functions that return [(T, error)] are modelled by [result]; the monadic
    bind is stdpp's [x ← e; k]. *)

Declare Scope shield_scope.
Delimit Scope shield_scope with shield.

Inductive result (A : Type) : Type :=
| Ok (a : A)
| Err (msg : string).
Arguments Ok {A} a.
Arguments Err {A} msg.

#[export] Instance result_ret : MRet result := fun A a => Ok a.
#[export] Instance result_bind : MBind result :=
  fun A B f m => match m with Ok a => f a | Err e => Err e end.
#[export] Instance result_fmap : FMap result :=
  fun A B f m => match m with Ok a => Ok (f a) | Err e => Err e end.

Definition is_Ok {A} (r : result A) : bool :=
  match r with Ok _ => true | Err _ => false end.

Definition of_option {A} (msg : string) (o : option A) : result A :=
  match o with Some a => Ok a | None => Err msg end.

Open Scope shield_scope.

(** ** Machine integers *)

Definition wrap64 (z : Z) : Z := (z + 2 ^ 63) mod 2 ^ 64 - 2 ^ 63.
Definition int64_min : Z := - 2 ^ 63.
Definition int64_max : Z := 2 ^ 63 - 1.
Definition in_int64 (z : Z) : Prop := int64_min <= z <= int64_max.

(** ** Bytes *)

Definition bval (c : ascii) : Z := Z.of_N (N_of_ascii c).
Definition bof (z : Z) : ascii := ascii_of_N (Z.to_N (z mod 256)).

Definition str1 (c : ascii) : string := String c EmptyString.
Definition byte_str (z : Z) : string := str1 (bof z).

(** The double quote and the backslash, spelled by their codes. *)
Definition dquote : ascii := "034"%char.
Definition bslash : ascii := "092"%char.

(** ** Strings as byte sequences *)

Definition slen (s : string) : Z := Z.of_nat (String.length s).

Fixpoint stake (n : nat) (s : string) : string :=
  match n, s with
  | S n, String c s => String c (stake n s)
  | _, _ => EmptyString
  end.

Fixpoint sdrop (n : nat) (s : string) : string :=
  match n, s with
  | S n, String _ s => sdrop n s
  | _, _ => s
  end.

(** [s[i:j]] *)
Definition sslice (i j : Z) (s : string) : string :=
  stake (Z.to_nat (j - i)) (sdrop (Z.to_nat i) s).

Fixpoint sconcat (l : list string) : string :=
  match l with
  | [] => EmptyString
  | s :: l => s +:+ sconcat l
  end.

Fixpoint schars (s : string) : list ascii :=
  match s with
  | EmptyString => []
  | String c s => c :: schars s
  end.

Fixpoint sbytes (s : string) : list Z :=
  match s with
  | EmptyString => []
  | String c s => bval c :: sbytes s
  end.

Fixpoint of_bytes (l : list Z) : string :=
  match l with
  | [] => EmptyString
  | z :: l => String (bof z) (of_bytes l)
  end.

Fixpoint sall (p : ascii -> bool) (s : string) : bool :=
  match s with
  | EmptyString => true
  | String c s => p c && sall p s
  end.

Fixpoint has_prefix (p s : string) : bool :=
  match p, s with
  | EmptyString, _ => true
  | String c p, String d s => Ascii.eqb c d && has_prefix p s
  | String _ _, EmptyString => false
  end.

(** Byte-wise lexicographic order: [sort.Strings] and Go's [<] on strings. *)
Fixpoint str_leb (s t : string) : bool :=
  match s, t with
  | EmptyString, _ => true
  | String _ _, EmptyString => false
  | String c s, String d t =>
      if bval c <? bval d then true
      else if bval d <? bval c then false
      else str_leb s t
  end.

Definition str_le (s t : string) : Prop := str_leb s t = true.

#[export] Instance str_le_dec : RelDecision str_le.
Proof. intros s t. unfold str_le. apply _. Defined.

(** ** Association lists: Go maps in one of their iteration orders *)

Section Assoc.
Context {V : Type}.

Fixpoint assoc (k : string) (m : list (string * V)) : option V :=
  match m with
  | [] => None
  | (k', v) :: m => if String.eqb k k' then Some v else assoc k m
  end.

(** [m[k] = v]: overwrite in place, or add. *)
Fixpoint assoc_set (k : string) (v : V) (m : list (string * V)) : list (string * V) :=
  match m with
  | [] => [(k, v)]
  | (k', v') :: m =>
      if String.eqb k k' then (k, v) :: m else (k', v') :: assoc_set k v m
  end.

Definition key_le (p q : string * V) : Prop := str_le p.1 q.1.

#[export] Instance key_le_dec : RelDecision key_le.
Proof. intros p q. unfold key_le. apply _. Defined.

(** A map's members in the order [sort.Strings] gives their keys. *)
Definition sort_keys (m : list (string * V)) : list (string * V) :=
  merge_sort key_le m.
End Assoc.

(** A map with its values changed in place. *)
Definition map_vals {V W} (f : V -> W) (m : list (string * V)) : list (string * W) :=
  map (fun p => (p.1, f p.2)) m.

(** ** Shared lemmas *)

(** Linear arithmetic with [/] and [mod] by constants. *)
Ltac dlia := Z.to_euclidean_division_equations; lia.

Create HintDb shield.
Create Rewrite HintDb shield.

Lemma bval_bound c : 0 <= bval c < 256.
Proof. destruct c as [[] [] [] [] [] [] [] []]; vm_compute; split; congruence. Qed.

Lemma bof_bval c : bof (bval c) = c.
Proof. destruct c as [[] [] [] [] [] [] [] []]; reflexivity. Qed.

Lemma bval_bof z : 0 <= z < 256 -> bval (bof z) = z.
Proof.
  intros H. unfold bval, bof. rewrite N_ascii_embedding.
  - rewrite Z.mod_small by lia. lia.
  - rewrite Z.mod_small by lia. lia.
Qed.

Lemma bval_inj c d : bval c = bval d -> c = d.
Proof. intros H. rewrite <- (bof_bval c), <- (bof_bval d). congruence. Qed.

Lemma app_nil_str s : s +:+ EmptyString = s.
Proof. induction s; simpl; congruence. Qed.

Lemma app_assoc_str s t u : (s +:+ t) +:+ u = s +:+ (t +:+ u).
Proof. induction s; simpl; congruence. Qed.

Lemma length_app_str s t :
  String.length (s +:+ t) = (String.length s + String.length t)%nat.
Proof. induction s; simpl; congruence. Qed.

Lemma slen_app s t : slen (s +:+ t) = slen s + slen t.
Proof. unfold slen. rewrite length_app_str. lia. Qed.

Lemma slen_nonneg s : 0 <= slen s.
Proof. unfold slen. lia. Qed.

Lemma app_inj_len s1 s2 t1 t2 :
  String.length s1 = String.length s2 -> s1 +:+ t1 = s2 +:+ t2 -> s1 = s2 /\ t1 = t2.
Proof.
  revert s2. induction s1 as [|c s1 IH]; intros [|d s2] Hl He; simpl in *; try lia.
  - done.
  - simplify_eq. destruct (IH s2) as [-> ->]; [lia|done|done].
Qed.

Lemma sconcat_app l1 l2 : sconcat (l1 ++ l2) = sconcat l1 +:+ sconcat l2.
Proof. induction l1; simpl; [done|]. by rewrite IHl1, app_assoc_str. Qed.

Lemma stake_sdrop n s : stake n s +:+ sdrop n s = s.
Proof. revert s. induction n; intros [|c s]; simpl; [done..|]. by rewrite IHn. Qed.

Lemma length_stake n s : String.length (stake n s) = Nat.min n (String.length s).
Proof. revert s. induction n; intros [|c s]; simpl; auto. Qed.

Lemma length_sdrop n s : String.length (sdrop n s) = (String.length s - n)%nat.
Proof. revert s. induction n; intros [|c s]; simpl; auto. Qed.

Lemma stake_all n s : (String.length s <= n)%nat -> stake n s = s.
Proof.
  revert s. induction n; intros [|c s] H; simpl in *; [done|lia|done|].
  rewrite IHn; [done|lia].
Qed.

Lemma stake_app_len s t : stake (String.length s) (s +:+ t) = s.
Proof. induction s; simpl; [by destruct t|congruence]. Qed.

Lemma sdrop_app_len s t : sdrop (String.length s) (s +:+ t) = t.
Proof. induction s; simpl; [by destruct t|congruence]. Qed.

Lemma sall_app p s t : sall p (s +:+ t) = sall p s && sall p t.
Proof. induction s; simpl; [done|]. rewrite IHs. by destruct (p a). Qed.

Lemma sall_impl (p q : ascii -> bool) s :
  (forall c, p c = true -> q c = true) -> sall p s = true -> sall q s = true.
Proof.
  intros Hpq. induction s as [|c s IH]; simpl; [done|].
  destruct (p c) eqn:E; simpl; [|done]. rewrite (Hpq c E). exact IH.
Qed.

Lemma length_sbytes s : List.length (sbytes s) = String.length s.
Proof. induction s; simpl; congruence. Qed.

Lemma sbytes_app s t : sbytes (s +:+ t) = sbytes s ++ sbytes t.
Proof. induction s; simpl; congruence. Qed.

Lemma of_bytes_sbytes s : of_bytes (sbytes s) = s.
Proof. induction s; simpl; [done|]. by rewrite bof_bval, IHs. Qed.

Lemma sbytes_inj s t : sbytes s = sbytes t -> s = t.
Proof. intros H. by rewrite <- (of_bytes_sbytes s), H, of_bytes_sbytes. Qed.

Lemma has_prefix_app p s : has_prefix p (p +:+ s) = true.
Proof. induction p; simpl; [done|]. by rewrite Ascii.eqb_refl. Qed.

Lemma has_prefix_spec p s : has_prefix p s = true <-> exists t, s = p +:+ t.
Proof.
  split.
  - revert s. induction p as [|c p IH]; intros s H; simpl in *; [eauto|].
    destruct s as [|d s]; [done|]. apply andb_prop in H as [E H].
    apply Ascii.eqb_eq in E as ->. destruct (IH s H) as [t ->]. by exists t.
  - intros [t ->]. apply has_prefix_app.
Qed.

(** *** The order on strings *)

Lemma str_leb_refl s : str_leb s s = true.
Proof. induction s; simpl; [done|]. by rewrite Z.ltb_irrefl. Qed.

Lemma str_leb_total s t : str_leb s t = true \/ str_leb t s = true.
Proof.
  revert t. induction s as [|c s IH]; intros [|d t]; simpl; auto.
  destruct (Z.ltb_spec (bval c) (bval d)), (Z.ltb_spec (bval d) (bval c)); auto.
Qed.

Lemma str_leb_antisym s t : str_leb s t = true -> str_leb t s = true -> s = t.
Proof.
  revert t. induction s as [|c s IH]; intros [|d t]; simpl; auto; try done.
  destruct (Z.ltb_spec (bval c) (bval d)), (Z.ltb_spec (bval d) (bval c));
    try done; try lia.
  intros. f_equal; [apply bval_inj; lia|auto].
Qed.

Lemma str_leb_trans s t u :
  str_leb s t = true -> str_leb t u = true -> str_leb s u = true.
Proof.
  revert t u. induction s as [|c s IH]; intros [|d t] [|e u]; simpl; auto; try done.
  destruct (Z.ltb_spec (bval c) (bval d)), (Z.ltb_spec (bval d) (bval c)),
    (Z.ltb_spec (bval d) (bval e)), (Z.ltb_spec (bval e) (bval d)),
    (Z.ltb_spec (bval c) (bval e)), (Z.ltb_spec (bval e) (bval c));
    try done; try lia. apply IH.
Qed.

#[export] Instance str_le_preorder : PreOrder str_le.
Proof. split; [intros s; apply str_leb_refl|intros s t u; apply str_leb_trans]. Qed.

#[export] Instance str_le_antisymm : AntiSymm (=) str_le.
Proof. intros s t. apply str_leb_antisym. Qed.

#[export] Instance str_le_total : Total str_le.
Proof. intros s t. apply str_leb_total. Qed.

#[export] Instance key_le_trans {V} : Transitive (@key_le V).
Proof. intros p q r. unfold key_le. apply str_leb_trans. Qed.

#[export] Instance key_le_total {V} : Total (@key_le V).
Proof. intros p q. apply str_leb_total. Qed.

(** *** Association lists *)

Section AssocLemmas.
Context {V : Type}.
Implicit Types m : list (string * V).

Lemma assoc_elem k v m : assoc k m = Some v -> (k, v) ∈ m.
Proof.
  induction m as [|[k' v'] m IH]; simpl; [done|].
  destruct (String.eqb_spec k k') as [->|]; intros H.
  - simplify_eq. left.
  - right. auto.
Qed.

Lemma assoc_None k m : assoc k m = None <-> k ∉ m.*1.
Proof.
  induction m as [|[k' v'] m IH]; simpl; [split; [intros _ H; inversion H|done]|].
  rewrite not_elem_of_cons, <- IH.
  destruct (String.eqb_spec k k') as [->|]; split; intros H; try done; by destruct H.
Qed.

Lemma assoc_elem_iff k v m : NoDup m.*1 -> assoc k m = Some v <-> (k, v) ∈ m.
Proof.
  intros Hnd. split; [apply assoc_elem|].
  induction m as [|[k' v'] m IH]; simpl in *; [inversion 1|].
  apply list.NoDup_cons in Hnd as [Hk Hnd]. intros [[= -> ->]|Hin]%elem_of_cons.
  - by rewrite String.eqb_refl.
  - destruct (String.eqb_spec k k') as [->|]; [|auto].
    exfalso. apply Hk. apply (list_elem_of_fmap_2 fst) in Hin. exact Hin.
Qed.

Lemma assoc_perm k m1 m2 : NoDup m1.*1 -> m1 ≡ₚ m2 -> assoc k m1 = assoc k m2.
Proof.
  intros Hnd Hp. assert (Hnd2 : NoDup m2.*1) by by rewrite <- Hp.
  destruct (assoc k m2) as [v|] eqn:E.
  - apply assoc_elem_iff; [done|]. rewrite Hp. by apply assoc_elem.
  - apply assoc_None. rewrite Hp. by apply assoc_None.
Qed.

Lemma assoc_set_eq k v m : assoc k (assoc_set k v m) = Some v.
Proof.
  induction m as [|[k' v'] m IH]; simpl; [by rewrite String.eqb_refl|].
  destruct (String.eqb k k') eqn:E; simpl; [by rewrite String.eqb_refl|by rewrite E].
Qed.

Lemma assoc_set_ne k k' v m : k <> k' -> assoc k (assoc_set k' v m) = assoc k m.
Proof.
  intros Hne. induction m as [|[k2 v2] m IH]; simpl.
  - by destruct (String.eqb_spec k k').
  - destruct (String.eqb_spec k' k2) as [->|]; simpl.
    + by destruct (String.eqb_spec k k2).
    + by destruct (String.eqb_spec k k2).
Qed.

Lemma assoc_set_fresh k v m : k ∉ m.*1 -> assoc_set k v m = m ++ [(k, v)].
Proof.
  induction m as [|[k' v'] m IH]; simpl; [done|]. intros [Hne Hk]%not_elem_of_cons.
  destruct (String.eqb_spec k k') as [->|]; [done|]. by rewrite IH.
Qed.

Lemma assoc_set_keys k v m :
  (assoc_set k v m).*1 = if bool_decide (k ∈ m.*1) then m.*1 else m.*1 ++ [k].
Proof.
  case_bool_decide as Hk.
  - induction m as [|[k' v'] m IH]; csimpl in *; [by apply not_elem_of_nil in Hk|].
    destruct (String.eqb_spec k k') as [->|]; csimpl; [done|].
    apply elem_of_cons in Hk as [?|Hk]; [done|]. by rewrite IH.
  - rewrite assoc_set_fresh, fmap_app by done. done.
Qed.

Lemma assoc_set_NoDup k v m : NoDup m.*1 -> NoDup (assoc_set k v m).*1.
Proof.
  intros Hnd. rewrite assoc_set_keys. case_bool_decide as Hk; [done|].
  apply list.NoDup_app. split; [done|]. split; [|apply list.NoDup_singleton].
  intros x Hx ->%list_elem_of_singleton. done.
Qed.

(** *** Sorting by key *)

Lemma sort_keys_perm m : sort_keys m ≡ₚ m.
Proof. apply merge_sort_Permutation. Qed.

Lemma sort_keys_sorted m : StronglySorted key_le (sort_keys m).
Proof. apply StronglySorted_merge_sort; apply _. Qed.

(** Sorting erases the iteration order: the keys of a map are distinct. *)
Lemma sort_keys_unique m1 m2 : NoDup m1.*1 -> m1 ≡ₚ m2 -> sort_keys m1 = sort_keys m2.
Proof.
  intros Hnd Hp. apply (StronglySorted_unique_strong key_le).
  - intros [k1 v1] [k2 v2] H1 H2 Hle1 Hle2.
    assert (k1 = k2) as -> by by apply str_leb_antisym.
    rewrite sort_keys_perm in H1. rewrite sort_keys_perm, <- Hp in H2.
    apply assoc_elem_iff in H1, H2; [|done..]. congruence.
  - apply sort_keys_sorted.
  - apply sort_keys_sorted.
  - by rewrite !sort_keys_perm.
Qed.
End AssocLemmas.

Lemma sort_keys_id {V} (m : list (string * V)) :
  NoDup m.*1 -> StronglySorted key_le m -> sort_keys m = m.
Proof.
  intros Hnd Hs. apply (StronglySorted_unique_strong key_le); auto using sort_keys_sorted.
  - intros [k1 v1] [k2 v2] H1 H2 Hle1 Hle2.
    assert (k1 = k2) as -> by by apply str_leb_antisym.
    rewrite sort_keys_perm in H1. apply assoc_elem_iff in H1, H2; [|done..]. congruence.
  - apply sort_keys_perm.
Qed.

(** Sorting by key commutes with a change of the values. *)
Section SortMap.
Context {V W : Type} (f : V -> W).

Lemma list_merge_map_vals (l1 l2 : list (string * V)) :
  list_merge key_le (map_vals f l1) (map_vals f l2) = map_vals f (list_merge key_le l1 l2).
Proof.
  revert l2. induction l1 as [|[k v] l1 IH1]; intros l2; [by destruct l2|].
  induction l2 as [|[k' v'] l2 IH2]; [done|].
  cbn [map_vals map]. rewrite !list_merge_cons. unfold key_le. cbn [fst].
  destruct (decide (str_le k k')) as [Hle|Hle].
  - cbn [map_vals map]. f_equal.
    exact (IH1 ((k', v') :: l2)).
  - cbn [map_vals map]. f_equal. exact IH2.
Qed.

Lemma merge_list_to_stack_map_vals st l :
  merge_list_to_stack key_le (map (fmap (map_vals f)) st) (map_vals f l)
  = map (fmap (map_vals f)) (merge_list_to_stack key_le st l).
Proof.
  revert l. induction st as [|[l'|] st IH]; intros l; [done| |done].
  cbn. f_equal. by rewrite list_merge_map_vals, IH.
Qed.

Lemma merge_stack_map_vals st :
  merge_stack key_le (map (fmap (map_vals f)) st) = map_vals f (merge_stack key_le st).
Proof.
  induction st as [|[l'|] st IH]; [done| |exact IH]. cbn. by rewrite IH, list_merge_map_vals.
Qed.

Lemma sort_keys_map_vals m : sort_keys (map_vals f m) = map_vals f (sort_keys m).
Proof.
  unfold sort_keys, merge_sort.
  assert (forall st, merge_sort_aux key_le (map (fmap (map_vals f)) st) (map_vals f m)
    = map_vals f (merge_sort_aux key_le st m)) as H; [|exact (H [])].
  induction m as [|p m IH]; intros st; [apply merge_stack_map_vals|].
  cbn [map_vals map merge_sort_aux]. change [(p.1, f p.2)] with (map_vals f [p]).
  rewrite merge_list_to_stack_map_vals. apply IH.
Qed.
End SortMap.

Lemma map_vals_keys {V W} (f : V -> W) (m : list (string * V)) : map fst (map_vals f m) = map fst m.
Proof. unfold map_vals. induction m as [|[k v] m IH]; [done|]. cbn in *. by f_equal. Qed.

(** Two maps related member by member stay related once both are sorted. *)
Definition same_keys {V W} (P : V -> W -> Prop) (a : string * V) (b : string * W) : Prop :=
  a.1 = b.1 /\ P a.2 b.2.

Lemma sort_keys_Forall2 {V W} (P : V -> W -> Prop) l1 l2 :
  Forall2 (same_keys P) l1 l2 -> Forall2 (same_keys P) (sort_keys l1) (sort_keys l2).
Proof.
  intros H.
  assert (exists zs : list (string * (V * W)), l1 = map_vals fst zs /\ l2 = map_vals snd zs
    /\ Forall (fun z => P z.2.1 z.2.2) zs) as (zs & -> & -> & Hz).
  { induction H as [|[k v] [k' w] l1 l2 [Hk Hp] _ (zs & -> & -> & Hz)]; [by exists []|].
    simpl in *. subst. exists ((k', (v, w)) :: zs). repeat split. by constructor. }
  rewrite !sort_keys_map_vals. assert (Forall (fun z => P z.2.1 z.2.2) (sort_keys zs)) as Hs.
  { by rewrite sort_keys_perm. }
  induction Hs; constructor; done.
Qed.

#[export] Hint Rewrite app_nil_str app_assoc_str length_app_str slen_app sconcat_app
  sbytes_app sall_app : shield.
#[export] Hint Resolve bval_bound slen_nonneg str_leb_refl : shield.
