(* ===== verification/Utf8.v ===== *)
(** * UTF-8, as Go's [unicode/utf8] decodes and encodes it

    Go strings are byte sequences; ranging over one decodes runes and yields
    U+FFFD with width one for every byte that starts no valid encoding.  The
    JSON encoder, [strings.Map] and [strings.TrimSpace] all go through this. *)

From S2P Require Import Prelude.

(** ** Encoding and decoding *)

Definition rune_error : Z := 0xFFFD.

(** [utf8.ValidRune] *)
Definition valid_rune (r : Z) : bool :=
  ((0 <=? r) && (r <? 0xD800)) || ((0xE000 <=? r) && (r <=? 0x10FFFF)).

Definition enc2 (r : Z) : string :=
  String (bof (0xC0 + r / 64)) (String (bof (0x80 + r mod 64)) EmptyString).
Definition enc3 (r : Z) : string :=
  String (bof (0xE0 + r / 4096))
    (String (bof (0x80 + r / 64 mod 64)) (String (bof (0x80 + r mod 64)) EmptyString)).
Definition enc4 (r : Z) : string :=
  String (bof (0xF0 + r / 262144))
    (String (bof (0x80 + r / 4096 mod 64))
      (String (bof (0x80 + r / 64 mod 64)) (String (bof (0x80 + r mod 64)) EmptyString))).

(** [utf8.AppendRune]: an invalid rune is written as U+FFFD. *)
Definition encode_rune (r : Z) : string :=
  let r := if valid_rune r then r else rune_error in
  if r <? 0x80 then byte_str r
  else if r <? 0x800 then enc2 r
  else if r <? 0x10000 then enc3 r
  else enc4 r.

(** A decoded rune with the bytes it was decoded from. *)
Record grune := Rune { r_val : Z; r_src : string }.

Definition bad_rune (c : ascii) : grune := Rune rune_error (str1 c).

(** [r == utf8.RuneError && size == 1] *)
Definition is_bad (r : grune) : bool :=
  (r_val r =? rune_error) && (String.length (r_src r) =? 1)%nat.

Definition is_cont (z : Z) : bool := (0x80 <=? z) && (z <? 0xC0).

Definition dec2 (c0 c1 : Z) : option Z :=
  let r := (c0 - 0xC0) * 64 + (c1 - 0x80) in
  if (0xC0 <=? c0) && (c0 <? 0xE0) && is_cont c1 && (0x80 <=? r) then Some r else None.
Definition dec3 (c0 c1 c2 : Z) : option Z :=
  let r := (c0 - 0xE0) * 4096 + (c1 - 0x80) * 64 + (c2 - 0x80) in
  if (0xE0 <=? c0) && (c0 <? 0xF0) && is_cont c1 && is_cont c2 && (0x800 <=? r)
     && valid_rune r then Some r else None.
Definition dec4 (c0 c1 c2 c3 : Z) : option Z :=
  let r := (c0 - 0xF0) * 262144 + (c1 - 0x80) * 4096 + (c2 - 0x80) * 64 + (c3 - 0x80) in
  if (0xF0 <=? c0) && (c0 <? 0xF8) && is_cont c1 && is_cont c2 && is_cont c3
     && (0x10000 <=? r) && valid_rune r then Some r else None.

(** [utf8.DecodeRuneInString], with the remaining string. *)
Definition decode_rune (s : string) : option (grune * string) :=
  match s with
  | EmptyString => None
  | String b0 s0 =>
      let c0 := bval b0 in
      if c0 <? 0x80 then Some (Rune c0 (str1 b0), s0)
      else
        let bad := Some (bad_rune b0, s0) in
        match s0 with
        | EmptyString => bad
        | String b1 s1 =>
            match dec2 c0 (bval b1) with
            | Some r => Some (Rune r (String b0 (str1 b1)), s1)
            | None =>
                match s1 with
                | EmptyString => bad
                | String b2 s2 =>
                    match dec3 c0 (bval b1) (bval b2) with
                    | Some r => Some (Rune r (String b0 (String b1 (str1 b2))), s2)
                    | None =>
                        match s2 with
                        | EmptyString => bad
                        | String b3 s3 =>
                            match dec4 c0 (bval b1) (bval b2) (bval b3) with
                            | Some r =>
                                Some (Rune r (String b0 (String b1 (String b2 (str1 b3)))), s3)
                            | None => bad
                            end
                        end
                    end
                end
            end
        end
  end.

Fixpoint runes_fuel (fuel : nat) (s : string) : list grune :=
  match fuel with
  | O => []
  | S fuel =>
      match decode_rune s with
      | None => []
      | Some (r, s') => r :: runes_fuel fuel s'
      end
  end.

(** [for _, r := range s]; every step consumes a byte, so the length is enough fuel. *)
Definition runes (s : string) : list grune := runes_fuel (String.length s) s.

(** [strings.ToValidUTF8(s, "\uFFFD")] up to runs: each bad byte becomes U+FFFD.  This is
    what one pass through the JSON encoder and decoder makes of a string. *)
Definition fix_utf8 (s : string) : string :=
  sconcat (map (fun r => encode_rune (r_val r)) (runes s)).

(** [utf8.ValidString] *)
Definition valid_utf8 (s : string) : bool := forallb (fun r => negb (is_bad r)) (runes s).

(** [strings.Map] for a mapping that never drops a rune. *)
Definition map_runes (f : Z -> Z) (s : string) : string :=
  sconcat (map (fun r => encode_rune (f (r_val r))) (runes s)).

(** ** Lemmas *)

Definition rune_wf (r : grune) : Prop :=
  (is_bad r = false /\ valid_rune (r_val r) = true /\ r_src r = encode_rune (r_val r))
  \/ (exists c, r = bad_rune c /\ 0x80 <= bval c).

Ltac bsimp :=
  repeat match goal with
  | H : (_ && _)%bool = true |- _ => apply andb_prop in H as [? ?]
  | H : (_ || _)%bool = true |- _ => apply orb_prop in H as [?|?]
  | H : (_ && _)%bool = false |- _ => apply andb_false_iff in H as [?|?]
  | H : (_ || _)%bool = false |- _ => apply orb_false_iff in H as [? ?]
  | H : (_ <=? _) = true |- _ => apply Z.leb_le in H
  | H : (_ <? _) = true |- _ => apply Z.ltb_lt in H
  | H : (_ <=? _) = false |- _ => apply Z.leb_gt in H
  | H : (_ <? _) = false |- _ => apply Z.ltb_ge in H
  | H : (_ =? _) = true |- _ => apply Z.eqb_eq in H
  | H : (_ =? _) = false |- _ => apply Z.eqb_neq in H
  end.

(** Decides a boolean comparison in the goal by arithmetic. *)
Ltac zbool :=
  repeat match goal with
  | |- context [?a <? ?b] =>
      first [ rewrite (proj2 (Z.ltb_lt a b)) by lia | rewrite (proj2 (Z.ltb_ge a b)) by lia ]
  | |- context [?a <=? ?b] =>
      first [ rewrite (proj2 (Z.leb_le a b)) by lia | rewrite (proj2 (Z.leb_gt a b)) by lia ]
  | |- context [?a =? ?b] =>
      first [ rewrite (proj2 (Z.eqb_eq a b)) by lia | rewrite (proj2 (Z.eqb_neq a b)) by lia ]
  end; simpl.

Lemma valid_rune_range r :
  valid_rune r = true -> 0 <= r <= 0x10FFFF /\ (r < 0xD800 \/ 0xE000 <= r).
Proof. unfold valid_rune. intros H. bsimp; lia. Qed.

Lemma valid_rune_intro r :
  0 <= r <= 0x10FFFF -> r < 0xD800 \/ 0xE000 <= r -> valid_rune r = true.
Proof.
  intros ? H. unfold valid_rune. apply orb_true_iff.
  destruct H; [left|right]; apply andb_true_intro; split;
    try apply Z.leb_le; try apply Z.ltb_lt; lia.
Qed.

Ltac divmod r k :=
  pose proof (Z.div_mod r k ltac:(lia)); pose proof (Z.mod_pos_bound r k ltac:(lia)).

Lemma dec2_enc r : 0x80 <= r < 0x800 -> dec2 (0xC0 + r / 64) (0x80 + r mod 64) = Some r.
Proof. intros H. unfold dec2, is_cont. divmod r 64. zbool. f_equal. lia. Qed.

Lemma dec3_enc r :
  0x800 <= r < 0x10000 -> valid_rune r = true ->
  dec3 (0xE0 + r / 4096) (0x80 + r / 64 mod 64) (0x80 + r mod 64) = Some r.
Proof.
  intros H Hv. unfold dec3, is_cont.
  assert (r / 4096 = r / 64 / 64) as -> by (rewrite Z.div_div by lia; done).
  divmod r 64. divmod (r / 64) 64.
  replace (_ + (_ + r mod 64 - 128)) with r by lia.
  rewrite Hv. zbool. done.
Qed.

Lemma dec4_enc r :
  0x10000 <= r -> valid_rune r = true ->
  dec4 (0xF0 + r / 262144) (0x80 + r / 4096 mod 64) (0x80 + r / 64 mod 64)
    (0x80 + r mod 64) = Some r.
Proof.
  intros H Hv. pose proof (valid_rune_range r Hv). unfold dec4, is_cont.
  assert (r / 262144 = r / 64 / 64 / 64) as -> by (rewrite !Z.div_div by lia; done).
  assert (r / 4096 = r / 64 / 64) as -> by (rewrite Z.div_div by lia; done).
  divmod r 64. divmod (r / 64) 64. divmod (r / 64 / 64) 64.
  replace (_ + (_ + r mod 64 - 128)) with r by lia.
  rewrite Hv. zbool. done.
Qed.

Lemma dec2_big c0 c1 : 0xE0 <= c0 -> dec2 c0 c1 = None.
Proof. intros H. unfold dec2. case_match eqn:E; [bsimp; lia|done]. Qed.

Lemma dec3_big c0 c1 c2 : 0xF0 <= c0 -> dec3 c0 c1 c2 = None.
Proof. intros H. unfold dec3. case_match eqn:E; [bsimp; lia|done]. Qed.

(** Decoding what was encoded gives the rune back, whatever follows. *)
Lemma decode_encode r s :
  valid_rune r = true ->
  decode_rune (encode_rune r +:+ s) = Some (Rune r (encode_rune r), s).
Proof.
  intros Hv. pose proof (valid_rune_range r Hv) as [Hr Hsur].
  unfold encode_rune. rewrite Hv.
  destruct (Z.ltb_spec r 0x80); [|destruct (Z.ltb_spec r 0x800);
    [|destruct (Z.ltb_spec r 0x10000)]]; simpl.
  - rewrite bval_bof by lia. by zbool.
  - divmod r 64. rewrite !bval_bof by lia. zbool. by rewrite dec2_enc by lia.
  - divmod r 64. divmod (r / 64) 64. divmod r 4096.
    rewrite !bval_bof by lia. zbool.
    by rewrite dec2_big, dec3_enc by (done || lia).
  - divmod r 64. divmod (r / 64) 64. divmod (r / 4096) 64. divmod r 262144.
    rewrite !bval_bof by lia. zbool.
    by rewrite dec2_big, dec3_big, dec4_enc by (done || lia).
Qed.

Lemma dec2_src c0 c1 r :
  dec2 (bval c0) (bval c1) = Some r ->
  0x80 <= r < 0x800 /\ bof (0xC0 + r / 64) = c0 /\ bof (0x80 + r mod 64) = c1.
Proof.
  unfold dec2, is_cont. intros H. case_match eqn:E; simplify_eq. bsimp.
  set (r := (_ - 192) * 64 + _) in *.
  assert (r / 64 = bval c0 - 0xC0) as -> by (symmetry; apply (Z.div_unique r 64 _ (bval c1 - 0x80)); lia).
  assert (r mod 64 = bval c1 - 0x80) as ->
    by (symmetry; apply (Z.mod_unique r 64 (bval c0 - 0xC0)); lia).
  split; [lia|]. split; rewrite <- bof_bval; f_equal; lia.
Qed.

(** The digits of a base-64 expansion, recovered by division. *)
Lemma base64_digit q x : 0 <= x < 64 -> (q * 64 + x) / 64 = q /\ (q * 64 + x) mod 64 = x.
Proof.
  intros H. split; symmetry.
  - apply (Z.div_unique _ 64 _ x); lia.
  - apply (Z.mod_unique _ 64 q); lia.
Qed.

Lemma dec3_src c0 c1 c2 r :
  dec3 (bval c0) (bval c1) (bval c2) = Some r ->
  0x800 <= r < 0x10000 /\ valid_rune r = true /\ bof (0xE0 + r / 4096) = c0 /\
  bof (0x80 + r / 64 mod 64) = c1 /\ bof (0x80 + r mod 64) = c2.
Proof.
  unfold dec3, is_cont. intros H. case_match eqn:E; simplify_eq. bsimp.
  set (a := bval c0 - 224) in *. set (b := bval c1 - 128) in *.
  set (d := bval c2 - 128) in *.
  replace (a * 4096 + b * 64 + d) with ((a * 64 + b) * 64 + d) in * by lia.
  destruct (base64_digit (a * 64 + b) d) as [E1 E2]; [lia|].
  destruct (base64_digit a b) as [E3 E4]; [lia|].
  replace 4096 with (64 * 64) by done. rewrite <- Z.div_div by lia.
  rewrite E1, E2, E3, E4. split; [lia|]. split; [done|].
  subst a b d. repeat split; rewrite <- bof_bval; f_equal; lia.
Qed.

Lemma dec4_src c0 c1 c2 c3 r :
  dec4 (bval c0) (bval c1) (bval c2) (bval c3) = Some r ->
  0x10000 <= r /\ valid_rune r = true /\ bof (0xF0 + r / 262144) = c0 /\
  bof (0x80 + r / 4096 mod 64) = c1 /\ bof (0x80 + r / 64 mod 64) = c2 /\
  bof (0x80 + r mod 64) = c3.
Proof.
  unfold dec4, is_cont. intros H. case_match eqn:E; simplify_eq. bsimp.
  set (a := bval c0 - 240) in *. set (b := bval c1 - 128) in *.
  set (d := bval c2 - 128) in *. set (e := bval c3 - 128) in *.
  replace (a * 262144 + b * 4096 + d * 64 + e) with (((a * 64 + b) * 64 + d) * 64 + e)
    in * by lia.
  destruct (base64_digit ((a * 64 + b) * 64 + d) e) as [E1 E2]; [lia|].
  destruct (base64_digit (a * 64 + b) d) as [E3 E4]; [lia|].
  destruct (base64_digit a b) as [E5 E6]; [lia|].
  replace 262144 with (64 * 64 * 64) by done. replace 4096 with (64 * 64) by done.
  rewrite <- !Z.div_div by lia. rewrite E1, E2, E3, E4, E5, E6.
  split; [lia|]. split; [done|].
  subst a b d e. repeat split; rewrite <- bof_bval; f_equal; lia.
Qed.

Lemma encode_multi r src :
  0x80 <= r -> valid_rune r = true -> src = encode_rune r ->
  (1 < String.length src)%nat -> rune_wf (Rune r src).
Proof.
  intros Hr Hv -> Hl. left. split; [|done]. unfold is_bad. simpl.
  apply andb_false_iff. right. apply Nat.eqb_neq. lia.
Qed.

(** What one decoding step returns: either a valid rune with its encoding, or the
    replacement rune for one byte that is not ASCII. *)
Lemma decode_rune_wf s r s' :
  decode_rune s = Some (r, s') -> s = r_src r +:+ s' /\ rune_wf r.
Proof.
  destruct s as [|b0 s0]; [done|]. simpl. pose proof (bval_bound b0).
  destruct (Z.ltb_spec (bval b0) 0x80).
  { intros [= <- <-]. split; [done|]. left. unfold is_bad, encode_rune, byte_str. simpl.
    assert (valid_rune (bval b0) = true) as Hv by (apply valid_rune_intro; lia).
    rewrite Hv, bof_bval. unfold rune_error. by zbool. }
  assert (forall t, Some (bad_rune b0, s0) = Some (r, t) -> s0 = t ->
    String b0 s0 = r_src r +:+ t /\ rune_wf r) as Hbad.
  { intros t [= <-] <-. split; [done|]. right. by exists b0. }
  destruct s0 as [|b1 s1]; [intros [= <- <-]; by apply Hbad|].
  destruct (dec2 _ _) as [r2|] eqn:E2.
  { intros [= <- <-]. split; [done|]. apply dec2_src in E2 as (? & E0 & E1).
    assert (valid_rune r2 = true) as Hv by (apply valid_rune_intro; lia).
    apply encode_multi; [lia|done| |simpl; lia].
    unfold encode_rune, enc2, str1. rewrite Hv. zbool. by rewrite E0, E1. }
  destruct s1 as [|b2 s2]; [intros [= <- <-]; by apply Hbad|].
  destruct (dec3 _ _ _) as [r3|] eqn:E3.
  { intros [= <- <-]. split; [done|]. apply dec3_src in E3 as (? & Hv & E0 & E1 & E4).
    apply encode_multi; [lia|done| |simpl; lia].
    unfold encode_rune, enc3, str1. rewrite Hv. zbool. by rewrite E0, E1, E4. }
  destruct s2 as [|b3 s3]; [intros [= <- <-]; by apply Hbad|].
  destruct (dec4 _ _ _ _) as [r4|] eqn:E4; [|intros [= <- <-]; by apply Hbad].
  intros [= <- <-]. split; [done|]. apply dec4_src in E4 as (? & Hv & E0 & E1 & E5 & E6).
  apply encode_multi; [lia|done| |simpl; lia].
  unfold encode_rune, enc4, str1. rewrite Hv. zbool. by rewrite E0, E1, E5, E6.
Qed.

Lemma encode_nonempty r : (1 <= String.length (encode_rune r))%nat.
Proof. unfold encode_rune. repeat case_match; simpl; lia. Qed.

Lemma rune_wf_nonempty r : rune_wf r -> (1 <= String.length (r_src r))%nat.
Proof. intros [(_ & _ & ->)|(c & -> & _)]; [apply encode_nonempty|done]. Qed.

Lemma decode_rune_shorter s r s' :
  decode_rune s = Some (r, s') -> (String.length s' < String.length s)%nat.
Proof.
  intros H. apply decode_rune_wf in H as [-> Hwf]. rewrite length_app_str.
  apply rune_wf_nonempty in Hwf. lia.
Qed.

Lemma runes_fuel_enough fuel s :
  (String.length s <= fuel)%nat -> runes_fuel fuel s = runes s.
Proof.
  unfold runes. revert s.
  assert (forall n fuel s, (String.length s <= n)%nat -> (n <= fuel)%nat ->
    runes_fuel fuel s = runes_fuel n s) as Haux; [|intros; eapply Haux; lia].
  induction n as [|n IH]; intros f s Hl Hf.
  - destruct s; [|simpl in Hl; lia]. by destruct f.
  - destruct f as [|f]; [lia|]. simpl. destruct (decode_rune s) as [[r s']|] eqn:E; [|done].
    f_equal. apply IH; [|lia]. apply decode_rune_shorter in E. lia.
Qed.

(** The loop as an equation, with the fuel discharged. *)
Lemma runes_unfold s :
  runes s = match decode_rune s with None => [] | Some (r, s') => r :: runes s' end.
Proof.
  unfold runes at 1. destruct (String.length s) as [|n] eqn:El.
  - destruct s; [done|simpl in El; lia].
  - simpl. destruct (decode_rune s) as [[r s']|] eqn:E; [|done].
    f_equal. apply runes_fuel_enough. apply decode_rune_shorter in E. lia.
Qed.

Lemma string_len_ind (P : string -> Prop) :
  (forall s, (forall t, (String.length t < String.length s)%nat -> P t) -> P s) ->
  forall s, P s.
Proof.
  intros H s. remember (String.length s) as n. revert s Heqn.
  induction (lt_wf n) as [n _ IH]. intros s ->. apply H. intros t Ht. by eapply IH.
Qed.

Lemma runes_wf s : Forall rune_wf (runes s).
Proof.
  induction s as [s IH] using string_len_ind. rewrite runes_unfold.
  destruct (decode_rune s) as [[r s']|] eqn:E; [|constructor].
  constructor; [by eapply decode_rune_wf|]. apply IH. by eapply decode_rune_shorter.
Qed.

Lemma runes_concat s : sconcat (map r_src (runes s)) = s.
Proof.
  induction s as [s IH] using string_len_ind. rewrite runes_unfold.
  destruct (decode_rune s) as [[r s']|] eqn:E; simpl.
  - rewrite IH by (by eapply decode_rune_shorter).
    apply decode_rune_wf in E as [-> _]. done.
  - destruct s as [|b s]; [done|]. simpl in E. repeat (case_match; try done).
Qed.

Lemma runes_encode r s :
  valid_rune r = true -> runes (encode_rune r +:+ s) = Rune r (encode_rune r) :: runes s.
Proof. intros H. by rewrite runes_unfold, decode_encode. Qed.

Lemma encode_invalid r : valid_rune r = false -> encode_rune r = encode_rune rune_error.
Proof. intros H. unfold encode_rune. by rewrite H. Qed.

(** Every decoded rune value is encodable. *)
Lemma rune_wf_valid r : rune_wf r -> valid_rune (r_val r) = true.
Proof. intros [(_ & H & _)|(c & -> & _)]; done. Qed.

Lemma fix_utf8_valid s : valid_utf8 s = true -> fix_utf8 s = s.
Proof.
  intros Hv. unfold fix_utf8, valid_utf8 in *.
  transitivity (sconcat (map r_src (runes s))); [|apply runes_concat]. f_equal.
  pose proof (runes_wf s) as Hwf. induction (runes s) as [|r l IH]; [done|]. simpl in *.
  apply andb_prop in Hv as [Hb Hv]. apply list.Forall_cons in Hwf as [Hr Hwf].
  rewrite IH by done. f_equal. destruct Hr as [(_ & _ & ->)|(c & -> & _)]; [done|].
  by unfold is_bad in Hb.
Qed.

Lemma runes_map_encode l :
  Forall (fun r => valid_rune r = true) l ->
  runes (sconcat (map encode_rune l)) = map (fun r => Rune r (encode_rune r)) l.
Proof.
  induction 1 as [|r l Hr _ IH]; simpl; [done|]. by rewrite runes_encode, IH.
Qed.

Lemma valid_encode_not_bad r :
  valid_rune r = true -> is_bad (Rune r (encode_rune r)) = false.
Proof.
  intros Hv. unfold is_bad; simpl. destruct (Z.eqb_spec r rune_error) as [->|]; done.
Qed.

(** One pass through the replacement reaches a valid string, so a second changes nothing. *)
Lemma fix_utf8_is_valid s : valid_utf8 (fix_utf8 s) = true.
Proof.
  unfold valid_utf8, fix_utf8. rewrite <- (map_map r_val encode_rune).
  rewrite runes_map_encode.
  - pose proof (runes_wf s) as Hwf. induction Hwf as [|r l Hr _ IH]; [done|].
    simpl. rewrite valid_encode_not_bad by by apply rune_wf_valid. exact IH.
  - pose proof (runes_wf s) as Hwf. induction Hwf; simpl; constructor; auto using rune_wf_valid.
Qed.

(** Any encoded rune, bad ones replaced, keeps a string valid. *)
Lemma valid_utf8_encode r t : valid_utf8 (encode_rune r +:+ t) = valid_utf8 t.
Proof.
  assert (exists r', valid_rune r' = true /\ encode_rune r = encode_rune r') as (r' & Hv & ->).
  { destruct (valid_rune r) eqn:E; [by exists r|].
    exists rune_error. split; [done|]. by apply encode_invalid. }
  unfold valid_utf8. rewrite runes_encode by done. cbn [forallb].
  by rewrite valid_encode_not_bad.
Qed.

Lemma fix_utf8_idem s : fix_utf8 (fix_utf8 s) = fix_utf8 s.
Proof. apply fix_utf8_valid, fix_utf8_is_valid. Qed.

#[export] Hint Resolve fix_utf8_is_valid rune_wf_valid runes_wf : shield.

(** ** Where decoding can be cut *)

(** A byte that does not continue an encoding cuts the text in front of it. *)
Definition starts_fresh (t : string) : bool :=
  match t with EmptyString => true | String c _ => negb (is_cont (bval c)) end.

Lemma dec2_fresh c0 c1 : is_cont c1 = false -> dec2 c0 c1 = None.
Proof. intros E. unfold dec2. by rewrite E, andb_false_r. Qed.

Lemma dec3_fresh c0 c1 c2 : is_cont c1 = false \/ is_cont c2 = false -> dec3 c0 c1 c2 = None.
Proof. unfold dec3. intros [-> | ->]; by rewrite ?andb_false_r. Qed.

Lemma dec4_fresh c0 c1 c2 c3 : is_cont c1 = false \/ is_cont c2 = false \/ is_cont c3 = false ->
  dec4 c0 c1 c2 c3 = None.
Proof. unfold dec4. intros [-> |[-> | ->]]; by rewrite ?andb_false_r. Qed.

Lemma decode_rune_app a t : a <> EmptyString -> starts_fresh t = true ->
  decode_rune (a +:+ t) = (fun p : grune * string => (p.1, p.2 +:+ t)) <$> decode_rune a.
Proof.
  intros Ha Ht. destruct a as [|b0 s0]; [done|]. cbn [String.append decode_rune].
  destruct (bval b0 <? 0x80); [done|].
  assert (forall c t', t = String c t' -> is_cont (bval c) = false) as Hc
    by (intros c t' ->; by apply negb_true_iff in Ht).
  destruct s0 as [|b1 s1]; cbn [String.append].
  { destruct t as [|c1 t1]; [done|]. pose proof (Hc _ _ eq_refl). rewrite dec2_fresh by done.
    destruct t1 as [|c2 t2]; [done|]. rewrite dec3_fresh by auto. destruct t2; [done|]. by rewrite dec4_fresh by auto. }
  destruct (dec2 _ _); [done|]. destruct s1 as [|b2 s2]; cbn [String.append].
  { destruct t as [|c2 t2]; [done|]. pose proof (Hc _ _ eq_refl). rewrite dec3_fresh by auto.
    destruct t2; [done|]. by rewrite dec4_fresh by auto. }
  destruct (dec3 _ _ _); [done|]. destruct s2 as [|b3 s3]; cbn [String.append].
  { destruct t as [|c3 t3]; [done|]. pose proof (Hc _ _ eq_refl). by rewrite dec4_fresh by auto. }
  by destruct (dec4 _ _ _ _).
Qed.

Lemma decode_rune_some c s : decode_rune (String c s) <> None.
Proof. cbn [decode_rune]. repeat case_match; done. Qed.

Lemma runes_app a t : starts_fresh t = true -> runes (a +:+ t) = runes a ++ runes t.
Proof.
  intros Ht. induction a as [a IH] using string_len_ind. destruct a as [|c a]; [done|].
  rewrite (runes_unfold (String c a +:+ t)), (runes_unfold (String c a)), decode_rune_app by done.
  destruct (decode_rune (String c a)) as [[r s']|] eqn:E; cbn [fmap option_fmap option_map fst snd].
  - rewrite IH; [done|]. by apply decode_rune_shorter in E.
  - by apply decode_rune_some in E.
Qed.

Definition ascii_only (s : string) : bool := sall (fun c => bval c <? 0x80) s.

Lemma runes_ascii_cons c s : bval c < 0x80 -> runes (String c s) = Rune (bval c) (str1 c) :: runes s.
Proof. intros Hc. rewrite runes_unfold. cbn [decode_rune]. by rewrite (proj2 (Z.ltb_lt _ _) Hc). Qed.

Lemma runes_ascii_app s t : ascii_only s = true -> runes (s +:+ t) = runes s ++ runes t.
Proof.
  unfold ascii_only. induction s as [|c s IH]; [done|]. cbn [sall String.append].
  intros [Hc Hs]%andb_true_iff. apply Z.ltb_lt in Hc.
  rewrite !runes_ascii_cons by done. by rewrite IH.
Qed.

Lemma ascii_fresh s t : ascii_only s = true -> s <> EmptyString -> starts_fresh (s +:+ t) = true.
Proof.
  destruct s as [|c s]; [done|]. unfold ascii_only, starts_fresh, is_cont. cbn [sall String.append].
  intros [Hc%Z.ltb_lt _]%andb_true_iff _. by rewrite (proj2 (Z.leb_gt 0x80 (bval c)) Hc).
Qed.
