(* ===== verification/GoText.v ===== *)
(** * The parts of Go's [strings], [unicode] and [strconv] the program uses *)

From S2P Require Import Prelude Utf8.

(** ** Unicode classes *)

(** [unicode.IsSpace] *)
Definition is_space (r : Z) : bool :=
  ((9 <=? r) && (r <=? 13)) || (r =? 32) || (r =? 0x85) || (r =? 0xA0) || (r =? 0x1680)
  || ((0x2000 <=? r) && (r <=? 0x200a)) || (r =? 0x2028) || (r =? 0x2029)
  || (r =? 0x202f) || (r =? 0x205f) || (r =? 0x3000).

(** The simple lower-case mappings above ASCII, as (first, last, stride, delta). *)
Definition lower_ranges : list (Z * Z * Z * Z) :=
  [
   (192, 214, 1, 32); (216, 222, 1, 32); (256, 302, 2, 1); (304, 304, 1, (-199));
   (306, 310, 2, 1); (313, 327, 2, 1); (330, 374, 2, 1); (376, 376, 1, (-121));
   (377, 381, 2, 1); (385, 385, 1, 210); (386, 388, 2, 1); (390, 390, 1, 206);
   (391, 391, 1, 1); (393, 394, 1, 205); (395, 395, 1, 1); (398, 398, 1, 79);
   (399, 399, 1, 202); (400, 400, 1, 203); (401, 401, 1, 1); (403, 403, 1, 205);
   (404, 404, 1, 207); (406, 406, 1, 211); (407, 407, 1, 209); (408, 408, 1, 1);
   (412, 412, 1, 211); (413, 413, 1, 213); (415, 415, 1, 214); (416, 420, 2, 1);
   (422, 422, 1, 218); (423, 423, 1, 1); (425, 425, 1, 218); (428, 428, 1, 1);
   (430, 430, 1, 218); (431, 431, 1, 1); (433, 434, 1, 217); (435, 437, 2, 1);
   (439, 439, 1, 219); (440, 440, 1, 1); (444, 444, 1, 1); (452, 452, 1, 2);
   (453, 453, 1, 1); (455, 455, 1, 2); (456, 456, 1, 1); (458, 458, 1, 2);
   (459, 475, 2, 1); (478, 494, 2, 1); (497, 497, 1, 2); (498, 500, 2, 1);
   (502, 502, 1, (-97)); (503, 503, 1, (-56)); (504, 542, 2, 1); (544, 544, 1, (-130));
   (546, 562, 2, 1); (570, 570, 1, 10795); (571, 571, 1, 1); (573, 573, 1, (-163));
   (574, 574, 1, 10792); (577, 577, 1, 1); (579, 579, 1, (-195)); (580, 580, 1, 69);
   (581, 581, 1, 71); (582, 590, 2, 1); (880, 882, 2, 1); (886, 886, 1, 1);
   (895, 895, 1, 116); (902, 902, 1, 38); (904, 906, 1, 37); (908, 908, 1, 64);
   (910, 911, 1, 63); (913, 929, 1, 32); (931, 939, 1, 32); (975, 975, 1, 8);
   (984, 1006, 2, 1); (1012, 1012, 1, (-60)); (1015, 1015, 1, 1); (1017, 1017, 1, (-7));
   (1018, 1018, 1, 1); (1021, 1023, 1, (-130)); (1024, 1039, 1, 80); (1040, 1071, 1, 32);
   (1120, 1152, 2, 1); (1162, 1214, 2, 1); (1216, 1216, 1, 15); (1217, 1229, 2, 1);
   (1232, 1326, 2, 1); (1329, 1366, 1, 48); (4256, 4293, 1, 7264); (4295, 4295, 1, 7264);
   (4301, 4301, 1, 7264); (5024, 5103, 1, 38864); (5104, 5109, 1, 8); (7312, 7354, 1, (-3008));
   (7357, 7359, 1, (-3008)); (7680, 7828, 2, 1); (7838, 7838, 1, (-7615)); (7840, 7934, 2, 1);
   (7944, 7951, 1, (-8)); (7960, 7965, 1, (-8)); (7976, 7983, 1, (-8)); (7992, 7999, 1, (-8));
   (8008, 8013, 1, (-8)); (8025, 8031, 2, (-8)); (8040, 8047, 1, (-8)); (8072, 8079, 1, (-8));
   (8088, 8095, 1, (-8)); (8104, 8111, 1, (-8)); (8120, 8121, 1, (-8)); (8122, 8123, 1, (-74));
   (8124, 8124, 1, (-9)); (8136, 8139, 1, (-86)); (8140, 8140, 1, (-9)); (8152, 8153, 1, (-8));
   (8154, 8155, 1, (-100)); (8168, 8169, 1, (-8)); (8170, 8171, 1, (-112)); (8172, 8172, 1, (-7));
   (8184, 8185, 1, (-128)); (8186, 8187, 1, (-126)); (8188, 8188, 1, (-9)); (8486, 8486, 1, (-7517));
   (8490, 8490, 1, (-8383)); (8491, 8491, 1, (-8262)); (8498, 8498, 1, 28); (8544, 8559, 1, 16);
   (8579, 8579, 1, 1); (9398, 9423, 1, 26); (11264, 11311, 1, 48); (11360, 11360, 1, 1);
   (11362, 11362, 1, (-10743)); (11363, 11363, 1, (-3814)); (11364, 11364, 1, (-10727)); (11367, 11371, 2, 1);
   (11373, 11373, 1, (-10780)); (11374, 11374, 1, (-10749)); (11375, 11375, 1, (-10783)); (11376, 11376, 1, (-10782));
   (11378, 11378, 1, 1); (11381, 11381, 1, 1); (11390, 11391, 1, (-10815)); (11392, 11490, 2, 1);
   (11499, 11501, 2, 1); (11506, 11506, 1, 1); (42560, 42604, 2, 1); (42624, 42650, 2, 1);
   (42786, 42798, 2, 1); (42802, 42862, 2, 1); (42873, 42875, 2, 1); (42877, 42877, 1, (-35332));
   (42878, 42886, 2, 1); (42891, 42891, 1, 1); (42893, 42893, 1, (-42280)); (42896, 42898, 2, 1);
   (42902, 42920, 2, 1); (42922, 42922, 1, (-42308)); (42923, 42923, 1, (-42319)); (42924, 42924, 1, (-42315));
   (42925, 42925, 1, (-42305)); (42926, 42926, 1, (-42308)); (42928, 42928, 1, (-42258)); (42929, 42929, 1, (-42282));
   (42930, 42930, 1, (-42261)); (42931, 42931, 1, 928); (42932, 42946, 2, 1); (42948, 42948, 1, (-48));
   (42949, 42949, 1, (-42307)); (42950, 42950, 1, (-35384)); (42951, 42953, 2, 1); (42960, 42960, 1, 1);
   (42966, 42968, 2, 1); (42997, 42997, 1, 1); (65313, 65338, 1, 32); (66560, 66599, 1, 40);
   (66736, 66771, 1, 40); (66928, 66938, 1, 39); (66940, 66954, 1, 39); (66956, 66962, 1, 39);
   (66964, 66965, 1, 39); (68736, 68786, 1, 64); (71840, 71871, 1, 32); (93760, 93791, 1, 32);
   (125184, 125217, 1, 34)
  ].

Fixpoint lower_lookup (l : list (Z * Z * Z * Z)) (r : Z) : Z :=
  match l with
  | [] => r
  | (lo, hi, st, d) :: l =>
      if (lo <=? r) && (r <=? hi) && ((r - lo) mod st =? 0) then r + d
      else lower_lookup l r
  end.

(** [unicode.ToLower] *)
Definition rune_lower (r : Z) : Z :=
  if r <? 0x80 then (if (65 <=? r) && (r <=? 90) then r + 32 else r)
  else lower_lookup lower_ranges r.

(** ** [strings] *)

(** [strings.ToLower]: the ASCII fast path leaves bytes alone, which is what mapping the
    runes of an ASCII string does. *)
Definition to_lower (s : string) : string := map_runes rune_lower s.

Fixpoint drop_spaces (l : list grune) : list grune :=
  match l with
  | [] => []
  | r :: l' => if is_space (r_val r) then drop_spaces l' else l
  end.

(** [strings.TrimSpace] *)
Definition trim_space (s : string) : string :=
  sconcat (map r_src (rev (drop_spaces (rev (drop_spaces (runes s)))))).

(** [strings.Split(s, sep)] for a separator of one byte. *)
Fixpoint split_on (c : ascii) (s : string) : list string :=
  match s with
  | EmptyString => [EmptyString]
  | String d s =>
      if Ascii.eqb c d then EmptyString :: split_on c s
      else match split_on c s with
           | h :: t => String d h :: t
           | [] => [str1 d]
           end
  end.

(** [strings.Join] *)
Fixpoint join (sep : string) (l : list string) : string :=
  match l with
  | [] => EmptyString
  | [s] => s
  | s :: l => s +:+ sep +:+ join sep l
  end.

(** [strings.ReplaceAll(s, a, b)] for strings of one byte. *)
Fixpoint replace_char (a b : ascii) (s : string) : string :=
  match s with
  | EmptyString => EmptyString
  | String c s => String (if Ascii.eqb a c then b else c) (replace_char a b s)
  end.

Fixpoint fields_go (cur : string) (l : list grune) : list string :=
  match l with
  | [] => if String.eqb cur EmptyString then [] else [cur]
  | r :: l =>
      if is_space (r_val r)
      then (if String.eqb cur EmptyString then [] else [cur]) ++ fields_go EmptyString l
      else fields_go (cur +:+ r_src r) l
  end.

(** [strings.Fields] *)
Definition fields (s : string) : list string := fields_go EmptyString (runes s).

(** [strings.HasSuffix] *)
Definition has_suffix (suf s : string) : bool :=
  (slen suf <=? slen s) && String.eqb (sdrop (String.length s - String.length suf) s) suf.

(** ** [strconv] *)

Definition digit (d : Z) : ascii := bof (48 + d).
Definition is_digit (c : ascii) : bool := (48 <=? bval c) && (bval c <=? 57).

Fixpoint dec_digits (fuel : nat) (n : Z) (acc : string) : string :=
  match fuel with
  | O => acc
  | S fuel =>
      if n <? 10 then String (digit n) acc
      else dec_digits fuel (n / 10) (String (digit (n mod 10)) acc)
  end.

(** The decimal digits of a natural number. *)
Definition dec (n : Z) : string := dec_digits (S (Z.to_nat (Z.log2 n))) n EmptyString.

(** [strconv.Itoa], [strconv.FormatInt(_, 10)] *)
Definition itoa (n : Z) : string :=
  if n <? 0 then String "-"%char (dec (- n)) else dec n.

Fixpoint parse_digits (acc : Z) (s : string) : option Z :=
  match s with
  | EmptyString => Some acc
  | String c s => if is_digit c then parse_digits (acc * 10 + (bval c - 48)) s else None
  end.

Definition parse_udec (s : string) : option Z :=
  match s with EmptyString => None | _ => parse_digits 0 s end.

(** [strconv.ParseInt(s, 10, 64)] and, on a 64-bit platform, [strconv.Atoi]. *)
Definition parse_int (s : string) : option Z :=
  let '(neg, ds) :=
    match s with
    | String c s' =>
        if Ascii.eqb c "-"%char then (true, s')
        else if Ascii.eqb c "+"%char then (false, s')
        else (false, s)
    | EmptyString => (false, s)
    end in
  match parse_udec ds with
  | None => None
  | Some n =>
      let n := if neg : bool then - n else n in
      if (int64_min <=? n) && (n <=? int64_max) then Some n else None
  end.

(** [n] with exactly [w] decimal digits. *)
Fixpoint fixed_dec (w : nat) (n : Z) : string :=
  match w with
  | O => EmptyString
  | S w => fixed_dec w (n / 10) +:+ str1 (digit (n mod 10))
  end.

Fixpoint drop_zeros (l : list ascii) : list ascii :=
  match l with
  | [] => []
  | c :: l' => if Ascii.eqb c "0"%char then drop_zeros l' else l
  end.

(** A decimal fraction of [w] digits without its trailing zeros, and without the point when
    nothing is left: how [time] prints fractional seconds. *)
Definition frac_str (w : nat) (n : Z) : string :=
  match rev (drop_zeros (rev (schars (fixed_dec w n)))) with
  | [] => EmptyString
  | l => String "."%char (sconcat (map str1 l))
  end.

Definition hex_digit (d : Z) : ascii := bof (if d <? 10 then 48 + d else 87 + d).

(** [hex.EncodeToString] *)
Fixpoint hex (l : list Z) : string :=
  match l with
  | [] => EmptyString
  | z :: l => String (hex_digit (z / 16)) (String (hex_digit (z mod 16)) (hex l))
  end.

(** Which runes above ASCII [unicode.IsPrint] accepts is Unicode data of the Go release. *)
Class UnicodePrint := is_print : Z -> bool.

Section Quote.
Context `{UnicodePrint}.

Definition hex4 (r : Z) : string :=
  str1 (hex_digit (r / 4096 mod 16)) +:+ str1 (hex_digit (r / 256 mod 16))
  +:+ str1 (hex_digit (r / 16 mod 16)) +:+ str1 (hex_digit (r mod 16)).

Definition bs (c : ascii) : string := String bslash (str1 c).

Definition quote_rune (r : grune) : string :=
  let v := r_val r in
  if is_bad r then bs "x" +:+ hex (sbytes (r_src r))
  else if (v =? 34) || (v =? 92) then bs (bof v)
  else if v =? 7 then bs "a" else if v =? 8 then bs "b" else if v =? 12 then bs "f"
  else if v =? 10 then bs "n" else if v =? 13 then bs "r" else if v =? 9 then bs "t"
  else if v =? 11 then bs "v"
  else if ((32 <=? v) && (v <? 127)) || ((128 <=? v) && is_print v) then r_src r
  else if (v <? 32) || (v =? 127) then bs "x" +:+ hex [v]
  else if v <? 0x10000 then bs "u" +:+ hex4 v
  else bs "U" +:+ hex4 (v / 0x10000) +:+ hex4 v.

(** [fmt]'s [%q] verb on a string. *)
Definition quote (s : string) : string :=
  str1 dquote +:+ sconcat (map quote_rune (runes s)) +:+ str1 dquote.
End Quote.

(** ** Lemmas *)

Lemma bval_digit d : 0 <= d < 10 -> bval (digit d) = 48 + d.
Proof. intros H. unfold digit. apply bval_bof. lia. Qed.

Lemma is_digit_digit d : 0 <= d < 10 -> is_digit (digit d) = true.
Proof. intros H. unfold is_digit. rewrite bval_digit by done. by zbool. Qed.

Lemma dec_fuel_step n fuel : 10 <= n -> n < 2 ^ Z.of_nat (S fuel) -> n / 10 < 2 ^ Z.of_nat fuel.
Proof.
  intros Hn H. rewrite Nat2Z.inj_succ, Z.pow_succ_r in H by lia.
  apply Z.div_lt_upper_bound; lia.
Qed.

Lemma dec_fuel_ok n : 0 <= n -> n < 2 ^ Z.of_nat (S (Z.to_nat (Z.log2 n))).
Proof.
  intros Hn. rewrite Nat2Z.inj_succ, Z2Nat.id by apply Z.log2_nonneg.
  destruct (Z.eq_dec n 0) as [->|]; [done|]. apply Z.log2_spec. lia.
Qed.

(** Reading digits back from what the printer put in front of [acc]. *)
Lemma parse_dec_digits fuel n acc :
  0 <= n < 2 ^ Z.of_nat fuel ->
  parse_digits 0 (dec_digits fuel n acc) = parse_digits n acc.
Proof.
  revert n acc. induction fuel as [|fuel IH]; intros n acc Hn.
  - simpl in *. assert (n = 0) as -> by lia. done.
  - cbn [dec_digits]. destruct (Z.ltb_spec n 10).
    + cbn [parse_digits]. rewrite is_digit_digit, bval_digit by lia. f_equal. lia.
    + divmod n 10. rewrite IH.
      * cbn [parse_digits]. rewrite is_digit_digit, bval_digit by lia. f_equal. lia.
      * split; [apply Z.div_pos; lia|]. apply dec_fuel_step; lia.
Qed.

Lemma parse_dec n : 0 <= n -> parse_digits 0 (dec n) = Some n.
Proof.
  intros H. unfold dec. rewrite parse_dec_digits; [done|].
  split; [done|]. by apply dec_fuel_ok.
Qed.

Lemma dec_digits_all fuel n acc :
  0 <= n -> sall is_digit acc = true -> sall is_digit (dec_digits fuel n acc) = true.
Proof.
  revert n acc. induction fuel as [|fuel IH]; intros n acc Hn Ha; [done|].
  cbn [dec_digits]. destruct (Z.ltb_spec n 10).
  - cbn [sall]. by rewrite is_digit_digit, Ha by lia.
  - divmod n 10. apply IH; [apply Z.div_pos; lia|].
    cbn [sall]. by rewrite is_digit_digit, Ha by lia.
Qed.

Lemma dec_all_digits n : 0 <= n -> sall is_digit (dec n) = true.
Proof. intros. by apply dec_digits_all. Qed.

(** The printed number starts with its leading digit, which is zero only for zero. *)
Lemma dec_digits_head fuel n acc :
  0 < n < 2 ^ Z.of_nat fuel ->
  exists d t, dec_digits fuel n acc = String (digit d) t /\ 1 <= d <= 9.
Proof.
  revert n acc. induction fuel as [|fuel IH]; intros n acc Hn; [simpl in Hn; lia|].
  cbn [dec_digits]. destruct (Z.ltb_spec n 10).
  - exists n, acc. split; [done|lia].
  - apply IH. divmod n 10. split; [apply Z.div_str_pos; lia|apply dec_fuel_step; lia].
Qed.

Lemma dec_head n : 0 < n -> exists d t, dec n = String (digit d) t /\ 1 <= d <= 9.
Proof. intros H. apply dec_digits_head. split; [done|]. apply dec_fuel_ok. lia. Qed.

Lemma dec_zero : dec 0 = str1 "0".
Proof. done. Qed.

Lemma dec_nonempty n : 0 <= n -> dec n <> EmptyString.
Proof.
  intros H. destruct (Z.eq_dec n 0) as [->|]; [done|].
  destruct (dec_head n) as (d & t & -> & _); [lia|done].
Qed.

Lemma digit_not_sign d : 0 <= d <= 9 ->
  Ascii.eqb (digit d) "-"%char = false /\ Ascii.eqb (digit d) "+"%char = false.
Proof.
  assert (bval "-" = 45) by done. assert (bval "+" = 43) by done.
  intros Hd. split; apply Ascii.eqb_neq; intros He; apply (f_equal bval) in He;
    rewrite bval_digit in He by lia; lia.
Qed.

Lemma parse_udec_dec n : 0 <= n -> parse_udec (dec n) = Some n.
Proof.
  intros H. pose proof (dec_nonempty n H). unfold parse_udec.
  destruct (dec n) eqn:E; [done|]. rewrite <- E. by apply parse_dec.
Qed.

(** [strconv.ParseInt] reads back what [strconv.FormatInt] wrote. *)
Lemma parse_int_itoa n : in_int64 n -> parse_int (itoa n) = Some n.
Proof.
  unfold in_int64, parse_int, itoa, int64_min, int64_max. intros Hn.
  destruct (Z.ltb_spec n 0).
  - simpl (Ascii.eqb _ _). cbv iota. rewrite parse_udec_dec by lia. zbool. f_equal. lia.
  - assert (exists d t, dec n = String (digit d) t /\ 0 <= d <= 9) as (d & t & E & Hd).
    { destruct (Z.eq_dec n 0) as [->|]; [exists 0, EmptyString; split; [done|lia]|].
      destruct (dec_head n) as (d & t & ? & ?); [lia|]. exists d, t. split; [done|lia]. }
    rewrite E. destruct (digit_not_sign d Hd) as [-> ->]. rewrite <- E.
    rewrite parse_udec_dec by lia. zbool. done.
Qed.

(** *** Fixed-width numbers *)

Lemma length_fixed_dec w n : String.length (fixed_dec w n) = w.
Proof.
  revert n. induction w as [|w IH]; intros n; [done|]. cbn [fixed_dec].
  rewrite length_app_str, IH. simpl. lia.
Qed.

Lemma digit_inj a b : 0 <= a < 10 -> 0 <= b < 10 -> digit a = digit b -> a = b.
Proof. intros Ha Hb H. apply (f_equal bval) in H. rewrite !bval_digit in H by done. lia. Qed.

Lemma fixed_dec_inj w n m :
  0 <= n < 10 ^ Z.of_nat w -> 0 <= m < 10 ^ Z.of_nat w ->
  fixed_dec w n = fixed_dec w m -> n = m.
Proof.
  revert n m. induction w as [|w IH]; intros n m Hn Hm H; [simpl in *; lia|].
  cbn [fixed_dec] in H. apply app_inj_len in H as [H1 H2]; [|by rewrite !length_fixed_dec].
  divmod n 10. divmod m 10.
  rewrite Nat2Z.inj_succ, Z.pow_succ_r in Hn, Hm by lia.
  apply IH in H1; [|split; [apply Z.div_pos; lia|apply Z.div_lt_upper_bound; lia]..].
  unfold str1 in H2. simplify_eq. apply digit_inj in H2; lia.
Qed.

(** *** Trimmed fractions *)

Lemma drop_zeros_spec l : exists k, l = replicate k "0"%char ++ drop_zeros l.
Proof.
  induction l as [|c l [k IH]]; [by exists 0%nat|]. simpl.
  destruct (Ascii.eqb_spec c "0"%char) as [->|]; [|by exists 0%nat].
  exists (S k). simpl. by rewrite <- IH.
Qed.

(** The fraction without trailing zeros determines the digits, given their number. *)
Lemma trim_zeros_inj l1 l2 :
  List.length l1 = List.length l2 -> rev (drop_zeros (rev l1)) = rev (drop_zeros (rev l2)) ->
  l1 = l2.
Proof.
  intros Hl H. apply (f_equal (@rev _)) in H. rewrite !rev_involutive in H.
  destruct (drop_zeros_spec (rev l1)) as [k1 E1], (drop_zeros_spec (rev l2)) as [k2 E2].
  assert (k1 = k2) as ->.
  { apply (f_equal (@List.length _)) in E1, E2.
    rewrite length_app, length_replicate, length_rev in E1, E2. rewrite H in E1. lia. }
  rewrite H, <- E2 in E1. apply (f_equal (@rev _)) in E1. by rewrite !rev_involutive in E1.
Qed.

Lemma sconcat_str1 l : schars (sconcat (map str1 l)) = l.
Proof. induction l; simpl; [done|]. unfold str1. simpl. by f_equal. Qed.

Lemma schars_inj s t : schars s = schars t -> s = t.
Proof. revert t. induction s; intros [|]; simpl; try done. intros [= -> H]. f_equal. auto. Qed.

Lemma length_schars s : List.length (schars s) = String.length s.
Proof. induction s; simpl; auto. Qed.

Lemma frac_str_inj w n m :
  0 <= n < 10 ^ Z.of_nat w -> 0 <= m < 10 ^ Z.of_nat w -> frac_str w n = frac_str w m -> n = m.
Proof.
  intros Hn Hm H. apply (fixed_dec_inj w); [done..|]. apply schars_inj.
  apply trim_zeros_inj; [by rewrite !length_schars, !length_fixed_dec|].
  unfold frac_str in H.
  destruct (rev (drop_zeros (rev (schars (fixed_dec w n))))) eqn:E1,
    (rev (drop_zeros (rev (schars (fixed_dec w m))))) eqn:E2; try done.
  injection H as -> H. apply (f_equal schars) in H.
  rewrite !sconcat_str1 in H. by subst.
Qed.

(** *** Text without spaces *)

Definition visible (c : ascii) : bool := (33 <=? bval c) && (bval c <? 128).

Lemma drop_spaces_solid l : Forall (fun r => is_space (r_val r) = false) l -> drop_spaces l = l.
Proof. intros Hl. destruct Hl as [|r l Hr _]; [done|]. cbn. by rewrite Hr. Qed.

Lemma visible_runes s : sall visible s = true -> Forall (fun r => is_space (r_val r) = false) (runes s).
Proof.
  induction s as [|c s IH]; [constructor|]. cbn [sall]. intros [Hc Hs]%andb_prop.
  apply andb_prop in Hc as [H1%Z.leb_le H2%Z.ltb_lt]. rewrite runes_ascii_cons by lia. constructor; [|by apply IH].
  cbn [r_val]. unfold is_space. zbool. done.
Qed.

Lemma trim_visible s : sall visible s = true -> trim_space s = s.
Proof.
  intros Hs%visible_runes. unfold trim_space. rewrite (drop_spaces_solid (runes s)) by done.
  rewrite drop_spaces_solid by by apply List.Forall_rev. rewrite rev_involutive. apply runes_concat.
Qed.

(** *** Splitting *)

Lemma split_on_nonempty c s : split_on c s <> [].
Proof. destruct s; simpl; [done|]. repeat case_match; done. Qed.

Definition no_char (c : ascii) (s : string) : bool := sall (fun d => negb (Ascii.eqb c d)) s.

Lemma split_on_none c s : no_char c s = true -> split_on c s = [s].
Proof.
  unfold no_char. induction s as [|d s IH]; simpl; [done|]. intros [Hd Hs]%andb_prop.
  apply negb_true_iff in Hd. rewrite Hd. by rewrite IH.
Qed.

(** A field without separators in front of one is split off whole. *)
Lemma split_on_app c s t :
  no_char c s = true -> split_on c (s +:+ String c t) = s :: split_on c t.
Proof.
  unfold no_char. induction s as [|d s IH]; simpl; intros H.
  - by rewrite Ascii.eqb_refl.
  - apply andb_prop in H as [Hd Hs]. apply negb_true_iff in Hd. rewrite Hd. by rewrite IH.
Qed.

Lemma join_split c s : join (str1 c) (split_on c s) = s.
Proof.
  induction s as [|d s IH]; simpl; [done|].
  destruct (Ascii.eqb_spec c d) as [->|].
  - destruct (split_on d s) as [|h t] eqn:E; [by apply split_on_nonempty in E|].
    simpl. rewrite <- IH. done.
  - destruct (split_on c s) as [|h t] eqn:E; [by apply split_on_nonempty in E|].
    rewrite <- IH. by destruct t.
Qed.
