(* ===== verification/GoTime.v ===== *)
(** * Instants, durations and their text, as Go's [time] prints them

    A [time.Time] is modelled by the instant it denotes, in nanoseconds from the Unix epoch:
    every value the program keeps has been moved to UTC, so the location carries nothing.
    A [time.Duration] is its [int64] count of nanoseconds. *)

From S2P Require Import Prelude Utf8 GoText.

Definition nanosecond : Z := 1.
Definition microsecond : Z := 1000.
Definition millisecond : Z := 1000000.
Definition second : Z := 1000000000.
Definition minute : Z := 60 * second.
Definition hour : Z := 60 * minute.

(** [time.Time{}]: 1 January of the year 1. *)
Definition zero_time : Z := -62135596800 * second.
Definition is_zero_time (t : Z) : bool := t =? zero_time.

(** [t.Unix()], [t.UnixMilli()], [t.UnixNano()] *)
Definition unix (t : Z) : Z := t / second.
Definition unix_milli (t : Z) : Z := t / millisecond.

(** [t.Truncate(d)], which counts from the zero time. *)
Definition truncate_time (d t : Z) : Z := t - (t - zero_time) mod d.

(** ** The calendar *)

(** Year, month and day of a count of days from 1 January 1970, in the proleptic Gregorian
    calendar. *)
Definition year_of_era (doe : Z) : Z :=
  (doe - doe / 1460 + doe / 36524 - doe / 146096) / 365.
Definition day_of_year (doe : Z) : Z :=
  let yoe := year_of_era doe in doe - (365 * yoe + yoe / 4 - yoe / 100).

Definition civil (days : Z) : Z * Z * Z :=
  let z := days + 719468 in
  let era := z / 146097 in
  let doe := z mod 146097 in
  let yoe := year_of_era doe in
  let doy := day_of_year doe in
  let mp := (5 * doy + 2) / 153 in
  let d := doy - (153 * mp + 2) / 5 + 1 in
  let m := if mp <? 10 then mp + 3 else mp - 9 in
  (yoe + era * 400 + (if m <=? 2 then 1 else 0), m, d).

Definition days_of (t : Z) : Z := t / (86400 * second).
Definition year_of (t : Z) : Z := (civil (days_of t)).1.1.

(** A year, padded to four digits. *)
Definition year_str (y : Z) : string :=
  if (0 <=? y) && (y <? 10000) then fixed_dec 4 y
  else if y <? 0 then
    String "-"%char (if - y <? 10000 then fixed_dec 4 (- y) else dec (- y))
  else dec y.

Definition date_str (t : Z) : string :=
  let '(y, m, d) := civil (days_of t) in
  year_str y +:+ "-" +:+ fixed_dec 2 m +:+ "-" +:+ fixed_dec 2 d.

Definition clock_str (t : Z) : string :=
  let s := t / second mod 86400 in
  fixed_dec 2 (s / 3600) +:+ ":" +:+ fixed_dec 2 (s / 60 mod 60) +:+ ":" +:+ fixed_dec 2 (s mod 60).

(** [t.UTC().Format(time.RFC3339)] *)
Definition rfc3339 (t : Z) : string := date_str t +:+ "T" +:+ clock_str t +:+ "Z".

(** [t.UTC().Format(time.RFC3339Nano)] *)
Definition rfc3339_nano (t : Z) : string :=
  date_str t +:+ "T" +:+ clock_str t +:+ frac_str 9 (t mod second) +:+ "Z".

(** ** Durations *)

Definition frac_of (prec : nat) (u : Z) : string := frac_str prec (u mod 10 ^ Z.of_nat prec).
Definition whole_of (prec : nat) (u : Z) : string := dec (u / 10 ^ Z.of_nat prec).

Definition micro_sign : string := byte_str 0xC2 +:+ byte_str 0xB5.

(** [d.String()] *)
Definition duration_str (d : Z) : string :=
  let u := Z.abs d in
  let body :=
    if u =? 0 then "0s"
    else if u <? microsecond then dec u +:+ "ns"
    else if u <? millisecond then whole_of 3 u +:+ frac_of 3 u +:+ micro_sign +:+ "s"
    else if u <? second then whole_of 6 u +:+ frac_of 6 u +:+ "ms"
    else
      let secs := u / second in
      let s := dec (secs mod 60) +:+ frac_of 9 u +:+ "s" in
      let mins := secs / 60 in
      if mins =? 0 then s
      else
        let ms := dec (mins mod 60) +:+ "m" +:+ s in
        if mins / 60 =? 0 then ms else dec (mins / 60) +:+ "h" +:+ ms in
  if d <? 0 then String "-"%char body else body.

(** ** Lemmas *)

(** The year of the 400-year era and the day of that year stay in range. *)
Lemma yoe_bounds doe :
  0 <= doe < 146097 -> 0 <= year_of_era doe < 400 /\ 0 <= day_of_year doe <= 366.
Proof.
  intros H. unfold day_of_year, year_of_era. cbv zeta.
  set (yoe := (doe - doe / 1460 + doe / 36524 - doe / 146096) / 365).
  divmod doe 1460. divmod doe 36524. divmod doe 146096.
  set (p := doe / 1460) in *. set (q := doe / 36524) in *. set (r := doe / 146096) in *.
  assert (365 * yoe <= doe - p + q - r < 365 * yoe + 365) by
    (subst yoe; divmod (doe - p + q - r) 365; lia).
  clearbody yoe p q r.
  divmod yoe 4. divmod yoe 100. set (u := yoe / 4) in *. set (v := yoe / 100) in *.
  clearbody u v.
  assert (0 <= r <= 1) by lia. assert (0 <= q <= 4) by lia.
  assert (0 <= yoe < 400) by (assert (r = 0 \/ r = 1) as [->| ->] by lia; lia).
  assert (v = 0 \/ v = 1 \/ v = 2 \/ v = 3) as Hv by lia.
  assert (q = 0 \/ q = 1 \/ q = 2 \/ q = 3 \/ q = 4) as Hq by lia.
  assert (r = 0 \/ r = 1) as Hr by lia.
  split; [done|].
  destruct Hv as [->|[->|[->| ->]]], Hq as [->|[->|[->|[->| ->]]]], Hr as [->| ->]; lia.
Qed.

Lemma month_of_day_bounds doe :
  0 <= doe < 146097 ->
  let mp := (5 * day_of_year doe + 2) / 153 in
  0 <= mp <= 11 /\ 153 * mp <= 5 * day_of_year doe + 2 < 153 * mp + 153.
Proof.
  intros H mp. apply yoe_bounds in H as [_ H]. subst mp.
  divmod (5 * day_of_year doe + 2) 153. lia.
Qed.

Lemma civil_inj a b : civil a = civil b -> a = b.
Proof.
  unfold civil. cbv zeta. intros H.
  set (z := a + 719468) in *. set (w := b + 719468) in *.
  divmod z 146097. divmod w 146097.
  pose proof (yoe_bounds (z mod 146097) ltac:(lia)) as [Hya _].
  pose proof (yoe_bounds (w mod 146097) ltac:(lia)) as [Hyb _].
  pose proof (month_of_day_bounds (z mod 146097) ltac:(lia)) as [Hma _].
  pose proof (month_of_day_bounds (w mod 146097) ltac:(lia)) as [Hmb _].
  assert (day_of_year (z mod 146097) + (365 * year_of_era (z mod 146097)
    + year_of_era (z mod 146097) / 4 - year_of_era (z mod 146097) / 100)
    = z mod 146097) as Ez by (unfold day_of_year; lia).
  assert (day_of_year (w mod 146097) + (365 * year_of_era (w mod 146097)
    + year_of_era (w mod 146097) / 4 - year_of_era (w mod 146097) / 100)
    = w mod 146097) as Ew by (unfold day_of_year; lia).
  set (ya := year_of_era (z mod 146097)) in *. set (yb := year_of_era (w mod 146097)) in *.
  set (da := day_of_year (z mod 146097)) in *. set (db := day_of_year (w mod 146097)) in *.
  set (ma := (5 * da + 2) / 153) in *. set (mb := (5 * db + 2) / 153) in *.
  injection H as Hy Hm Hd.
  assert (ma = mb) as Em.
  { clearbody ma mb. destruct (Z.ltb_spec ma 10), (Z.ltb_spec mb 10); lia. }
  rewrite Em in Hy, Hd. assert (da = db) as Ed by lia.
  assert (ya = yb /\ z / 146097 = w / 146097) as [E1 E2] by lia.
  rewrite E1, Ed in Ez. lia.
Qed.

Lemma civil_month_day days :
  let '(_, m, d) := civil days in 1 <= m <= 12 /\ 1 <= d <= 31.
Proof.
  unfold civil. set (z := days + 719468). divmod z 146097.
  pose proof (month_of_day_bounds (z mod 146097) ltac:(lia)) as [Ha Hb].
  set (ma := (5 * _ + 2) / 153) in *. clearbody ma.
  assert (ma = 0 \/ ma = 1 \/ ma = 2 \/ ma = 3 \/ ma = 4 \/ ma = 5 \/ ma = 6 \/ ma = 7
    \/ ma = 8 \/ ma = 9 \/ ma = 10 \/ ma = 11) as Hm by lia.
  repeat destruct Hm as [->|Hm]; try subst ma; simpl; dlia.
Qed.

Lemma app_inj_suffix s t u : s +:+ u = t +:+ u -> s = t.
Proof.
  intros H. apply (app_inj_len s t u u); [|exact H].
  apply (f_equal String.length) in H. rewrite !length_app_str in H. lia.
Qed.

(** Years that RFC 3339 can write. *)
Definition rfc_year (t : Z) : Prop := 0 <= year_of t < 10000.

#[export] Instance rfc_year_dec t : Decision (rfc_year t).
Proof. unfold rfc_year. apply _. Defined.

Lemma year_str_fixed y : 0 <= y < 10000 -> year_str y = fixed_dec 4 y.
Proof. intros H. unfold year_str. by zbool. Qed.

Lemma length_date_str t : rfc_year t -> String.length (date_str t) = 10%nat.
Proof.
  unfold rfc_year, year_of, date_str. destruct (civil (days_of t)) as [[y m] d]. simpl.
  intros H. rewrite year_str_fixed by done.
  by rewrite !length_app_str, !length_fixed_dec.
Qed.

Lemma date_str_inj t u :
  rfc_year t -> rfc_year u -> date_str t = date_str u -> days_of t = days_of u.
Proof.
  unfold rfc_year, year_of, date_str. intros Ht Hu H. apply civil_inj.
  pose proof (civil_month_day (days_of t)) as Ht'.
  pose proof (civil_month_day (days_of u)) as Hu'.
  destruct (civil (days_of t)) as [[y m] d], (civil (days_of u)) as [[y' m'] d'].
  simpl in Ht, Hu. rewrite !year_str_fixed in H by done.
  apply app_inj_len in H as [Hy H]; [|by rewrite !length_fixed_dec].
  apply app_inj_len in H as [_ H]; [|done].
  apply app_inj_len in H as [Hm H]; [|by rewrite !length_fixed_dec].
  apply app_inj_len in H as [_ H]; [|done].
  apply fixed_dec_inj in Hy, Hm, H; [|simpl; lia..]. by subst.
Qed.

Lemma clock_str_inj t u :
  clock_str t = clock_str u -> t / second mod 86400 = u / second mod 86400.
Proof.
  unfold clock_str. cbv zeta. intros H.
  set (a := t / second mod 86400) in *. set (b := u / second mod 86400) in *.
  assert (0 <= a < 86400) by (apply Z.mod_pos_bound; lia).
  assert (0 <= b < 86400) by (apply Z.mod_pos_bound; lia).
  apply app_inj_len in H as [Hh H]; [|by rewrite !length_fixed_dec].
  apply app_inj_len in H as [_ H]; [|done].
  apply app_inj_len in H as [Hm H]; [|by rewrite !length_fixed_dec].
  apply app_inj_len in H as [_ H]; [|done].
  clearbody a b.
  apply fixed_dec_inj in Hh, Hm, H; [|simpl; dlia..]. dlia.
Qed.

Lemma length_clock_str t : String.length (clock_str t) = 8%nat.
Proof. unfold clock_str. by rewrite !length_app_str, !length_fixed_dec. Qed.

Lemma instant_split t :
  t = days_of t * (86400 * second) + (t / second mod 86400) * second + t mod second.
Proof. unfold days_of, second. dlia. Qed.

(** The text of an instant determines it. *)
Lemma rfc3339_nano_inj t u :
  rfc_year t -> rfc_year u -> rfc3339_nano t = rfc3339_nano u -> t = u.
Proof.
  unfold rfc3339_nano. intros Ht Hu H.
  apply app_inj_len in H as [Hd H]; [|by rewrite !length_date_str].
  apply app_inj_len in H as [_ H]; [|done].
  apply app_inj_len in H as [Hc H]; [|by rewrite !length_clock_str].
  apply app_inj_suffix in H. apply date_str_inj in Hd; [|done..].
  apply clock_str_inj in Hc.
  apply frac_str_inj in H; [|apply Z.mod_pos_bound; done..].
  rewrite (instant_split t), (instant_split u). congruence.
Qed.

Lemma truncate_time_idem d t : 0 < d -> truncate_time d (truncate_time d t) = truncate_time d t.
Proof.
  intros Hd. unfold truncate_time.
  replace (t - (t - zero_time) mod d - zero_time) with (d * ((t - zero_time) / d))
    by (divmod (t - zero_time) d; lia).
  rewrite (Z.mul_comm d), Z.mod_mul by lia. lia.
Qed.

Lemma truncate_time_bounds d t : 0 < d -> t - d < truncate_time d t <= t.
Proof. intros Hd. unfold truncate_time. divmod (t - zero_time) d. lia. Qed.

Lemma truncate_time_mono d t u : 0 < d -> t <= u -> truncate_time d t <= truncate_time d u.
Proof.
  intros Hd H. unfold truncate_time.
  assert ((t - zero_time) / d <= (u - zero_time) / d) by (apply Z.div_le_mono; lia).
  divmod (t - zero_time) d. divmod (u - zero_time) d. nia.
Qed.
