(* ===== verification/Sha256.v ===== *)
(** * SHA-256 and HMAC-SHA-256: Go's [crypto/sha256] and [crypto/hmac]

    Bytes are integers in [0, 256), words are integers in [0, 2^32).  The round constants are
    computed from their definition (the leading fractional bits of the roots of the first
    primes) and everything evaluates by [vm_compute]. *)

From S2P Require Import Prelude.

Definition word (z : Z) : Z := z mod 2 ^ 32.
Definition ror (n x : Z) : Z := Z.lor (Z.shiftr x n) (word (Z.shiftl x (32 - n))).

Definition primes : list Z :=
  [2; 3; 5; 7; 11; 13; 17; 19; 23; 29; 31; 37; 41; 43; 47; 53; 59; 61; 67; 71; 73; 79; 83;
   89; 97; 101; 103; 107; 109; 113; 127; 131; 137; 139; 149; 151; 157; 163; 167; 173; 179;
   181; 191; 193; 197; 199; 211; 223; 227; 229; 233; 239; 241; 251; 257; 263; 269; 271; 277;
   281; 283; 293; 307; 311].

(** The integer cube root, bit by bit. *)
Fixpoint cbrt_bits (bits : nat) (n r : Z) : Z :=
  match bits with
  | O => r
  | S b =>
      let r' := r + 2 ^ Z.of_nat b in
      cbrt_bits b n (if r' * r' * r' <=? n then r' else r)
  end.

Definition round_consts : list Z :=
  Eval vm_compute in map (fun p => word (cbrt_bits 40 (p * 2 ^ 96) 0)) primes.
Definition init_words : list Z :=
  Eval vm_compute in map (fun p => word (Z.sqrt (p * 2 ^ 64))) (take 8 primes).

Record hstate := HState { ha : Z; hb : Z; hc : Z; hd : Z; he : Z; hf : Z; hg : Z; hh : Z }.

Definition init_state : hstate :=
  match init_words with
  | [a; b; c; d; e; f; g; h] => HState a b c d e f g h
  | _ => HState 0 0 0 0 0 0 0 0
  end.

Definition choose (x y z : Z) : Z := Z.lxor (Z.land x y) (Z.land (Z.lxor x (2 ^ 32 - 1)) z).
Definition majority (x y z : Z) : Z :=
  Z.lxor (Z.land x y) (Z.lxor (Z.land x z) (Z.land y z)).
Definition big0 (x : Z) : Z := Z.lxor (ror 2 x) (Z.lxor (ror 13 x) (ror 22 x)).
Definition big1 (x : Z) : Z := Z.lxor (ror 6 x) (Z.lxor (ror 11 x) (ror 25 x)).
Definition small0 (x : Z) : Z := Z.lxor (ror 7 x) (Z.lxor (ror 18 x) (Z.shiftr x 3)).
Definition small1 (x : Z) : Z := Z.lxor (ror 17 x) (Z.lxor (ror 19 x) (Z.shiftr x 10)).

(** The sixteen latest words of the message schedule: drop the oldest, add the next. *)
Definition slide (ws : list Z) : list Z :=
  match ws with
  | w0 :: rest =>
      rest ++ [word (small1 (nth 13 rest 0) + nth 8 rest 0 + small0 (nth 0 rest 0) + w0)]
  | [] => []
  end.

Definition sha_round (st : hstate * list Z) (k : Z) : hstate * list Z :=
  let '(HState a b c d e f g h, ws) := st in
  let t1 := h + big1 e + choose e f g + k + nth 0 ws 0 in
  let t2 := big0 a + majority a b c in
  (HState (word (t1 + t2)) a b c (word (d + t1)) e f g, slide ws).

Definition add_state (s t : hstate) : hstate :=
  HState (word (ha s + ha t)) (word (hb s + hb t)) (word (hc s + hc t)) (word (hd s + hd t))
    (word (he s + he t)) (word (hf s + hf t)) (word (hg s + hg t)) (word (hh s + hh t)).

Definition compress (st : hstate) (ws : list Z) : hstate :=
  add_state st (fold_left sha_round round_consts (st, ws)).1.

(** ** Padding and blocks *)

Fixpoint be_bytes (n : nat) (z : Z) : list Z :=
  match n with
  | O => []
  | S n => be_bytes n (z / 256) ++ [z mod 256]
  end.

Definition pad_len (len : Z) : nat := Z.to_nat ((55 - len) mod 64).

Definition pad (msg : list Z) : list Z :=
  let len := Z.of_nat (List.length msg) in
  msg ++ [0x80] ++ replicate (pad_len len) 0 ++ be_bytes 8 (len * 8).

Fixpoint words_of (l : list Z) : list Z :=
  match l with
  | a :: b :: c :: d :: l => (((a * 256 + b) * 256 + c) * 256 + d) :: words_of l
  | _ => []
  end.

Fixpoint blocks (n : nat) (st : hstate) (ws : list Z) : hstate :=
  match n with
  | O => st
  | S n => blocks n (compress st (take 16 ws)) (drop 16 ws)
  end.

Definition state_bytes (s : hstate) : list Z :=
  concat (map (be_bytes 4) [ha s; hb s; hc s; hd s; he s; hf s; hg s; hh s]).

(** [sha256.Sum256] *)
Definition sha256 (msg : list Z) : list Z :=
  let ws := words_of (pad msg) in
  state_bytes (blocks (List.length ws / 16) init_state ws).

#[global] Arguments sha256 : simpl never.

(** ** HMAC *)

Definition hmac_key (key : list Z) : list Z :=
  let key := if (64 <? Z.of_nat (List.length key)) then sha256 key else key in
  key ++ replicate (64 - List.length key) 0.

(** [hmac.New(sha256.New, key)], one [Write] and [Sum(nil)]. *)
Definition hmac_sha256 (key msg : list Z) : list Z :=
  let k := hmac_key key in
  sha256 (map (Z.lxor 0x5c) k ++ sha256 (map (Z.lxor 0x36) k ++ msg)).

(** ** Lemmas *)

Lemma length_be_bytes n z : List.length (be_bytes n z) = n.
Proof.
  revert z. induction n as [|n IH]; intros z; [done|]. simpl.
  rewrite length_app, IH. simpl. lia.
Qed.

Lemma be_bytes_range n z : Forall (fun b => 0 <= b < 256) (be_bytes n z).
Proof.
  revert z. induction n as [|n IH]; intros z; simpl; [constructor|].
  apply list.Forall_app. split; [apply IH|]. constructor; [|constructor].
  apply Z.mod_pos_bound. lia.
Qed.

(** Big-endian bytes of a number that fits determine it. *)
Lemma be_bytes_inj n a b :
  0 <= a < 256 ^ Z.of_nat n -> 0 <= b < 256 ^ Z.of_nat n ->
  be_bytes n a = be_bytes n b -> a = b.
Proof.
  revert a b. induction n as [|n IH]; intros a b Ha Hb H; [simpl in *; lia|].
  cbn [be_bytes] in H. apply app_inj_2 in H as [H1 H2]; [|done].
  rewrite Nat2Z.inj_succ, Z.pow_succ_r in Ha, Hb by lia.
  apply IH in H1.
  - injection H2 as H2. dlia.
  - split; [apply Z.div_pos; lia|apply Z.div_lt_upper_bound; lia].
  - split; [apply Z.div_pos; lia|apply Z.div_lt_upper_bound; lia].
Qed.

Lemma length_sha256 m : List.length (sha256 m) = 32%nat.
Proof.
  unfold sha256, state_bytes. cbn [map concat].
  by rewrite !length_app, !length_be_bytes.
Qed.

Lemma sha256_range m : Forall (fun b => 0 <= b < 256) (sha256 m).
Proof.
  unfold sha256, state_bytes. cbn [map concat].
  repeat (apply list.Forall_app; split; [apply be_bytes_range|]). constructor.
Qed.

(** The padded message is a whole number of blocks. *)
Lemma pad_aligned m : Z.of_nat (List.length (pad m)) mod 64 = 0.
Proof.
  unfold pad, pad_len. cbv zeta. set (n := List.length m).
  rewrite !length_app, length_replicate, length_be_bytes. simpl List.length.
  pose proof (Z.mod_pos_bound (55 - Z.of_nat n) 64 ltac:(lia)). dlia.
Qed.
