(* ===== verification/GoJson.v ===== *)
(** * Go values and [encoding/json]

    [gval] is the part of Go's [any] that payloads are made of; [marshal] and [decode_json]
    are [json.Marshal] and a [json.Decoder] with [UseNumber], byte for byte. *)

From Stdlib Require Export SpecFloat.
From S2P Require Import Prelude Utf8 GoText.

(** ** Values

    Maps are association lists in one of their iteration orders, with distinct keys.
    [VInt] stands for the ten integer kinds, [VFloat] for [float64]; [VStrings] is a
    [[]string], and [VUnsupported] a value JSON cannot hold (a channel, a function). *)

Unset Elimination Schemes.
Inductive gval : Type :=
| VNil
| VBool (b : bool)
| VString (s : string)
| VNumber (lit : string)
| VInt (z : Z)
| VFloat (f : spec_float)
| VArray (l : list gval)
| VObject (m : list (string * gval))
| VStringMap (m : list (string * string))
| VStrings (l : list string)
| VUnsupported.
Set Elimination Schemes.

Definition gobj : Type := list (string * gval).

Lemma gval_ind (P : gval -> Prop) :
  P VNil -> (forall b, P (VBool b)) -> (forall s, P (VString s)) ->
  (forall l, P (VNumber l)) -> (forall z, P (VInt z)) -> (forall f, P (VFloat f)) ->
  (forall l, Forall P l -> P (VArray l)) ->
  (forall m, Forall (fun p => P p.2) m -> P (VObject m)) ->
  (forall m, P (VStringMap m)) -> (forall l, P (VStrings l)) -> P VUnsupported ->
  forall v, P v.
Proof.
  intros H1 H2 H3 H4 H5 H6 Harr Hobj H9 H10 H11. fix IH 1. intros [].
  - exact H1.
  - apply H2.
  - apply H3.
  - apply H4.
  - apply H5.
  - apply H6.
  - apply Harr. induction l as [|v l IHl]; constructor; [apply IH|exact IHl].
  - apply Hobj. induction m as [|[k v] m IHm]; constructor; [apply IH|exact IHm].
  - apply H9.
  - apply H10.
  - exact H11.
Qed.

(** ** Floats

    The shortest decimal that rounds back to the float, as [strconv.AppendFloat(_, 'f' or 'e',
    -1, 64)] finds it: the fewest digits such that some decimal lies in the rounding interval
    of [m * 2^e], and the one closest to the value among those. *)

Fixpoint shortest_loop (fuel : nat) (lo num hi e k : Z) (incl : bool) : option (Z * Z) :=
  match fuel with
  | O => None
  | S fuel =>
      let p := 10 ^ Z.max k 0 * 2 ^ Z.max (- e) 0 in
      let q := 2 ^ Z.max e 0 * 10 ^ Z.max (- k) 0 in
      let d := num * q / p in
      let ok1 := if incl then lo * q <=? d * p else lo * q <? d * p in
      let ok2 := if incl then (d + 1) * p <=? hi * q else (d + 1) * p <? hi * q in
      let near1 := num * q - d * p <=? (d + 1) * p - num * q in
      if ok1 && (near1 || negb ok2) then Some (d, k)
      else if ok2 then Some (d + 1, k)
      else shortest_loop fuel lo num hi e (k - 1) incl
  end.

(** Digits and decimal exponent of a positive finite float; the exact expansion is the answer
    should the search give up. *)
Definition shortest (m : positive) (e : Z) : Z * Z :=
  let m := Z.pos m in
  let lo := if (m =? 2 ^ 52) && (-1074 <? e) then 4 * m - 1 else 4 * m - 2 in
  let k0 := (Z.log2 m + 1 + e) * 30103 / 100000 + 1 in
  let exact := if 0 <=? e then (m * 2 ^ e, 0) else (m * 5 ^ (- e), e) in
  match shortest_loop 40 lo (4 * m) (4 * m + 2) (e - 2) k0 (Z.even m) with
  | Some (d, k) => if 0 <? d then (d, k) else exact
  | None => exact
  end.

Definition zeros (n : Z) : string := sconcat (replicate (Z.to_nat n) "0").

(** The digits with the point [dp] places in, plain or with an exponent as ES6 does. *)
Definition float_digits (d k : Z) : string :=
  let ds := dec d in
  let n := slen ds in
  let dp := n + k in
  if (dp <=? -6) || (22 <=? dp) then
    let x := dp - 1 in
    stake 1 ds +:+ (if n =? 1 then EmptyString else "." +:+ sdrop 1 ds)
    +:+ "e" +:+ (if x <? 0 then "-" else "+") +:+ dec (Z.abs x)
  else if dp <=? 0 then "0." +:+ zeros (- dp) +:+ ds
  else if n <=? dp then ds +:+ zeros (dp - n)
  else stake (Z.to_nat dp) ds +:+ "." +:+ sdrop (Z.to_nat dp) ds.

Definition sign_str (neg : bool) : string := if neg then "-" else EmptyString.

(** What [encoding/json] writes for a [float64]; it refuses infinities and NaN. *)
Definition float_lit (f : spec_float) : option string :=
  match f with
  | S754_zero s => Some (sign_str s +:+ "0")
  | S754_finite s m e => let '(d, k) := shortest m e in Some (sign_str s +:+ float_digits d k)
  | S754_infinity _ | S754_nan => None
  end.

(** [float64(n)] for an integer, and division: IEEE double precision, nearest even. *)
Definition float_of_int (z : Z) : spec_float := binary_normalize 53 1024 z 0 false.
Definition float_div (a b : spec_float) : spec_float := SFdiv 53 1024 a b.

(** ** Number literals *)

Fixpoint span_digits (s : string) : string * string :=
  match s with
  | String c s' =>
      if is_digit c then let '(a, b) := span_digits s' in (String c a, b) else (EmptyString, s)
  | EmptyString => (EmptyString, EmptyString)
  end.

Definition scan_int (s : string) : option (string * string) :=
  match s with
  | String c s' =>
      if Ascii.eqb c "0" then Some (str1 c, s')
      else if is_digit c then Some (span_digits s) else None
  | EmptyString => None
  end.

Definition digits1 (s : string) : option (string * string) :=
  let '(a, b) := span_digits s in
  if String.eqb a EmptyString then None else Some (a, b).

Definition scan_frac (s : string) : option (string * string) :=
  match s with
  | String c s' =>
      if Ascii.eqb c "." then '(a, b) ← digits1 s'; Some (String c a, b)
      else Some (EmptyString, s)
  | EmptyString => Some (EmptyString, s)
  end.

Definition scan_exp (s : string) : option (string * string) :=
  match s with
  | String c s' =>
      if Ascii.eqb c "e" || Ascii.eqb c "E" then
        match s' with
        | String d s'' =>
            if Ascii.eqb d "+" || Ascii.eqb d "-"
            then '(a, b) ← digits1 s''; Some (String c (String d a), b)
            else '(a, b) ← digits1 s'; Some (String c a, b)
        | EmptyString => None
        end
      else Some (EmptyString, s)
  | EmptyString => Some (EmptyString, s)
  end.

Definition scan_unsigned (sg s1 : string) : option (string * string) :=
  '(i, s2) ← scan_int s1;
  '(f, s3) ← scan_frac s2;
  '(x, s4) ← scan_exp s3;
  Some (sg +:+ i +:+ f +:+ x, s4).

(** The longest number literal at the head of the input. *)
Definition scan_number (s : string) : option (string * string) :=
  let '(sg, s1) :=
    match s with
    | String c s' => if Ascii.eqb c "-" then (str1 c, s') else (EmptyString, s)
    | EmptyString => (EmptyString, s)
    end in
  scan_unsigned sg s1.

(** [isValidNumber] *)
Definition valid_number (l : string) : bool :=
  match scan_number l with
  | Some (_, rest) => String.eqb rest EmptyString
  | None => false
  end.

(** ** Encoding *)

Definition esc_hex (v : Z) : string :=
  bs "u" +:+ hex4 v.

Definition esc_rune (html : bool) (r : grune) : string :=
  let v := r_val r in
  if is_bad r then esc_hex rune_error
  else if (v =? 34) || (v =? 92) then bs (bof v)
  else if v =? 8 then bs "b" else if v =? 12 then bs "f" else if v =? 10 then bs "n"
  else if v =? 13 then bs "r" else if v =? 9 then bs "t"
  else if (v <? 32) || (html && ((v =? 60) || (v =? 62) || (v =? 38)))
          || (v =? 0x2028) || (v =? 0x2029) then esc_hex v
  else r_src r.

Definition json_body (html : bool) (s : string) : string :=
  sconcat (map (esc_rune html) (runes s)).

(** A string as a JSON string, with or without HTML escaping. *)
Definition json_quote (html : bool) (s : string) : string :=
  str1 dquote +:+ json_body html s +:+ str1 dquote.

Definition enc_array (es : list string) : string := "[" +:+ join "," es +:+ "]".

Definition enc_object (html : bool) (es : list (string * string)) : string :=
  "{" +:+ join "," (map (fun p => json_quote html p.1 +:+ ":" +:+ p.2) (sort_keys es)) +:+ "}".

Definition number_lit (l : string) : option string :=
  if String.eqb l EmptyString then Some (str1 "0")
  else if valid_number l then Some l else None.

Definition bool_str (b : bool) : string := if b then "true" else "false".

(** The encoder of [encoding/json]; map keys are written in sorted order. *)
Fixpoint encode (html : bool) (v : gval) : option string :=
  match v with
  | VNil => Some "null"
  | VBool b => Some (bool_str b)
  | VString s => Some (json_quote html s)
  | VNumber l => number_lit l
  | VInt z => Some (itoa z)
  | VFloat f => float_lit f
  | VArray l => es ← mapM (encode html) l; Some (enc_array es)
  | VObject m =>
      es ← mapM (fun p : string * gval => e ← encode html p.2; Some (p.1, e)) m;
      Some (enc_object html es)
  | VStringMap m =>
      Some (enc_object html (map (fun p : string * string => (p.1, json_quote html p.2)) m))
  | VStrings l => Some (enc_array (map (json_quote html) l))
  | VUnsupported => None
  end.

(** [json.Marshal] *)
Definition marshal (v : gval) : option string := encode true v.

(** ** Decoding *)

Definition is_ws (c : ascii) : bool :=
  let z := bval c in (z =? 32) || (z =? 9) || (z =? 10) || (z =? 13).

Fixpoint skip_ws (s : string) : string :=
  match s with
  | String c s' => if is_ws c then skip_ws s' else s
  | EmptyString => EmptyString
  end.

Definition hex_val (c : ascii) : option Z :=
  let z := bval c in
  if (48 <=? z) && (z <=? 57) then Some (z - 48)
  else if (97 <=? z) && (z <=? 102) then Some (z - 87)
  else if (65 <=? z) && (z <=? 70) then Some (z - 55)
  else None.

(** Four hexadecimal digits. *)
Definition hex4_val (s : string) : option (Z * string) :=
  match s with
  | String a (String b (String c (String d s))) =>
      x ← hex_val a; y ← hex_val b; z ← hex_val c; w ← hex_val d;
      Some (((x * 16 + y) * 16 + z) * 16 + w, s)
  | _ => None
  end.

(** [getu4]: the next escape of the form backslash, u and four digits. *)
Definition getu4 (s : string) : option (Z * string) :=
  match s with
  | String a (String b s) =>
      if Ascii.eqb a bslash && Ascii.eqb b "u" then hex4_val s else None
  | _ => None
  end.

(** What follows the u of an escape: a rune, or a surrogate pair. *)
Definition parse_uesc (s : string) : option (Z * string) :=
  '(r, s1) ← hex4_val s;
  if (0xD800 <=? r) && (r <? 0xE000) then
    match getu4 s1 with
    | Some (r2, s2) =>
        if (r <? 0xDC00) && (0xDC00 <=? r2) && (r2 <? 0xE000)
        then Some ((r - 0xD800) * 1024 + (r2 - 0xDC00) + 0x10000, s2)
        else Some (rune_error, s1)
    | None => Some (rune_error, s1)
    end
  else Some (r, s1).

Definition simple_esc (c : ascii) : option Z :=
  let z := bval c in
  if (z =? 34) || (z =? 92) || (z =? 47) then Some z
  else if z =? 98 then Some 8 else if z =? 102 then Some 12 else if z =? 110 then Some 10
  else if z =? 114 then Some 13 else if z =? 116 then Some 9 else None.

(** The rest of a string literal, after its opening quote. *)
Fixpoint parse_str (fuel : nat) (s : string) : option (string * string) :=
  match fuel with
  | O => None
  | S fuel =>
      match s with
      | EmptyString => None
      | String c s' =>
          if Ascii.eqb c dquote then Some (EmptyString, s')
          else if Ascii.eqb c bslash then
            match s' with
            | EmptyString => None
            | String d s'' =>
                '(r, s3) ← (if Ascii.eqb d "u" then parse_uesc s''
                            else r ← simple_esc d; Some (r, s''));
                '(t, rest) ← parse_str fuel s3;
                Some (encode_rune r +:+ t, rest)
            end
          else if bval c <? 32 then None
          else
            '(r, s3) ← decode_rune s;
            '(t, rest) ← parse_str fuel s3;
            Some (encode_rune (r_val r) +:+ t, rest)
      end
  end.

Definition parse_string (s : string) : option (string * string) :=
  parse_str (S (String.length s)) s.

Fixpoint strip_prefix (p s : string) : option string :=
  match p, s with
  | EmptyString, _ => Some s
  | String c p, String d s => if Ascii.eqb c d then strip_prefix p s else None
  | String _ _, EmptyString => None
  end.

Definition parse_word (w : string) (v : gval) (s : string) : option (gval * string) :=
  s' ← strip_prefix w s; Some (v, s').

(** [maxNestingDepth] *)
Definition max_depth : Z := 10000.

(** One value.  [depth] is how many more containers may be opened; the elements of an array
    and the members of an object are read up to their closing bracket. *)
Fixpoint parse_value (fuel : nat) (depth : Z) (s : string) : option (gval * string) :=
  match fuel with
  | O => None
  | S fuel =>
      match s with
      | EmptyString => None
      | String c s' =>
          if Ascii.eqb c dquote then '(t, rest) ← parse_string s'; Some (VString t, rest)
          else if Ascii.eqb c "[" then
            if depth <=? 0 then None
            else
              match skip_ws s' with
              | String d rest =>
                  if Ascii.eqb d "]" then Some (VArray [], rest)
                  else '(l, rest) ← parse_elems fuel (depth - 1) (skip_ws s');
                       Some (VArray l, rest)
              | EmptyString => None
              end
          else if Ascii.eqb c "{" then
            if depth <=? 0 then None
            else
              match skip_ws s' with
              | String d rest =>
                  if Ascii.eqb d "}" then Some (VObject [], rest)
                  else '(m, rest) ← parse_members fuel (depth - 1) [] (skip_ws s');
                       Some (VObject m, rest)
              | EmptyString => None
              end
          else if Ascii.eqb c "n" then parse_word "null" VNil s
          else if Ascii.eqb c "t" then parse_word "true" (VBool true) s
          else if Ascii.eqb c "f" then parse_word "false" (VBool false) s
          else '(l, rest) ← scan_number s; Some (VNumber l, rest)
      end
  end
with parse_elems (fuel : nat) (depth : Z) (s : string) : option (list gval * string) :=
  match fuel with
  | O => None
  | S fuel =>
      '(v, s1) ← parse_value fuel depth s;
      match skip_ws s1 with
      | String d rest =>
          if Ascii.eqb d "]" then Some ([v], rest)
          else if Ascii.eqb d "," then
            '(l, rest) ← parse_elems fuel depth (skip_ws rest); Some (v :: l, rest)
          else None
      | EmptyString => None
      end
  end
with parse_members (fuel : nat) (depth : Z) (acc : gobj) (s : string) : option (gobj * string) :=
  match fuel with
  | O => None
  | S fuel =>
      match s with
      | String q s0 =>
          if Ascii.eqb q dquote then
            '(k, s1) ← parse_string s0;
            match skip_ws s1 with
            | String c s2 =>
                if Ascii.eqb c ":" then
                  '(v, s3) ← parse_value fuel depth (skip_ws s2);
                  match skip_ws s3 with
                  | String d rest =>
                      if Ascii.eqb d "}" then Some (assoc_set k v acc, rest)
                      else if Ascii.eqb d ","
                      then parse_members fuel depth (assoc_set k v acc) (skip_ws rest)
                      else None
                  | EmptyString => None
                  end
                else None
            | EmptyString => None
            end
          else None
      | EmptyString => None
      end
  end.

(** [json.NewDecoder(bytes.NewReader(raw)).Decode(&out)] with [UseNumber]: one value; what
    follows it is left in the reader. *)
Definition decode_json (raw : string) : option gval :=
  fst <$> parse_value (S (String.length raw)) max_depth (skip_ws raw).
