(* ===== verification/GoJsonRound.v ===== *)
(** * The JSON encoder and decoder are inverse

    What [json.Marshal] writes, a decoder with [UseNumber] reads back as the normal form of the
    value: strings with replacement runes for bad bytes, numbers as their literals, objects with
    their members in key order. *)

From S2P Require Import Prelude Utf8 GoText GoJson.

(** ** The normal form *)

Definition build_object (m : gobj) : gobj :=
  foldl (fun acc (p : string * gval) => assoc_set (fix_utf8 p.1) p.2 acc) [] (sort_keys m).

(** What a value reads back as. *)
Fixpoint norm (v : gval) : gval :=
  match v with
  | VString s => VString (fix_utf8 s)
  | VNumber l => VNumber (if String.eqb l EmptyString then str1 "0" else l)
  | VInt z => VNumber (itoa z)
  | VFloat f => match float_lit f with Some l => VNumber l | None => VUnsupported end
  | VArray l => VArray (map norm l)
  | VObject m => VObject (build_object (map (fun p : string * gval => (p.1, norm p.2)) m))
  | VStringMap m =>
      VObject (build_object
        (map (fun p : string * string => (p.1, VString (fix_utf8 p.2))) m))
  | VStrings l => VArray (map (fun s => VString (fix_utf8 s)) l)
  | VNil | VBool _ | VUnsupported => v
  end.

(** How deeply containers nest. *)
Fixpoint depth (v : gval) : Z :=
  match v with
  | VArray l => 1 + foldr Z.max 0 (map depth l)
  | VObject m => 1 + foldr Z.max 0 (map (fun p : string * gval => depth p.2) m)
  | VStringMap _ | VStrings _ => 1
  | _ => 0
  end.

(** ** Strings *)

Lemma hex_val_digit d : 0 <= d < 16 -> hex_val (hex_digit d) = Some d.
Proof.
  intros H. unfold hex_digit, hex_val. rewrite bval_bof by (case_match; lia).
  destruct (Z.ltb_spec d 10); zbool; f_equal; lia.
Qed.

Lemma hex4_roundtrip r s : 0 <= r < 0x10000 -> hex4_val (hex4 r +:+ s) = Some (r, s).
Proof.
  intros H. unfold hex4, str1. simpl.
  rewrite !hex_val_digit by (apply Z.mod_pos_bound; lia). simpl. do 2 f_equal. dlia.
Qed.

(** One rune of a JSON string is read back as the rune it stands for. *)
Definition parse_rest (f : nat) (r : Z) (s : string) : option (string * string) :=
  '(t, rest) ← parse_str f s; Some (encode_rune r +:+ t, rest).

Lemma parse_uesc_hex4 f r s :
  0 <= r < 0x10000 -> valid_rune r = true ->
  parse_str (S f) (esc_hex r +:+ s) = parse_rest f r s.
Proof.
  intros H Hv. unfold esc_hex, bs, str1. rewrite app_assoc_str.
  simpl (_ +:+ (hex4 r +:+ s)). cbn [parse_str].
  replace (Ascii.eqb bslash dquote) with false by done.
  replace (Ascii.eqb bslash bslash) with true by done.
  replace (Ascii.eqb "u" "u") with true by done.
  unfold parse_uesc. change (hex4_val _) with (hex4_val (hex4 r +:+ s)).
  rewrite hex4_roundtrip by done. simpl.
  apply valid_rune_range in Hv as [_ Hv].
  assert ((0xD800 <=? r) && (r <? 0xE000) = false) as -> by
    (apply andb_false_iff; destruct Hv; [left; apply Z.leb_gt|right; apply Z.ltb_ge]; lia).
  done.
Qed.

Lemma parse_simple_esc f c r s :
  Ascii.eqb c "u" = false -> simple_esc c = Some r ->
  parse_str (S f) (bs c +:+ s) = parse_rest f r s.
Proof.
  intros Hu Hc. unfold bs, str1. simpl (_ +:+ s). cbn [parse_str].
  replace (Ascii.eqb bslash dquote) with false by done.
  replace (Ascii.eqb bslash bslash) with true by done.
  rewrite Hu, Hc. done.
Qed.

(** A rune that is not escaped starts with a byte that is neither a quote, a backslash nor a
    control character. *)
Lemma encode_head v :
  valid_rune v = true -> 32 <= v -> v <> 34 -> v <> 92 ->
  exists c t, encode_rune v = String c t /\ 32 <= bval c /\ c <> dquote /\ c <> bslash.
Proof.
  intros Hv H1 H2 H3. unfold encode_rune. rewrite Hv.
  pose proof (valid_rune_range v Hv) as [Hr _].
  assert (forall z, 32 <= z < 256 -> z <> 34 -> z <> 92 ->
    32 <= bval (bof z) /\ bof z <> dquote /\ bof z <> bslash) as Haux.
  { intros z Hz N1 N2. rewrite bval_bof by lia. split; [lia|].
    split; intros He; apply (f_equal bval) in He; rewrite bval_bof in He by lia.
    - by assert (bval dquote = 34) by done; lia.
    - by assert (bval bslash = 92) by done; lia. }
  destruct (Z.ltb_spec v 0x80); [|destruct (Z.ltb_spec v 0x800);
    [|destruct (Z.ltb_spec v 0x10000)]]; unfold byte_str, str1, enc2, enc3, enc4;
    do 2 eexists; (split; [reflexivity|]); apply Haux; dlia.
Qed.

Lemma parse_plain f v s :
  valid_rune v = true -> 32 <= v -> v <> 34 -> v <> 92 ->
  parse_str (S f) (encode_rune v +:+ s) = parse_rest f v s.
Proof.
  intros Hv H1 H2 H3. destruct (encode_head v) as (c & t & E & Hc & Hq & Hb); [done..|].
  pose proof (decode_encode v s Hv) as Hd. rewrite E in Hd |- *.
  simpl (_ +:+ s) in *. cbn [parse_str].
  destruct (Ascii.eqb_spec c dquote); [done|]. destruct (Ascii.eqb_spec c bslash); [done|].
  destruct (Z.ltb_spec (bval c) 32); [lia|]. rewrite Hd. done.
Qed.

Lemma parse_esc_rune html f r s :
  rune_wf r -> parse_str (S f) (esc_rune html r +:+ s) = parse_rest f (r_val r) s.
Proof.
  intros Hwf. pose proof (rune_wf_valid r Hwf) as Hv. unfold esc_rune.
  pose proof (valid_rune_range _ Hv) as [Hr _].
  destruct Hwf as [(Hb & _ & Hs)|(c & -> & _)]; [|by apply parse_uesc_hex4].
  rewrite Hb.
  destruct (Z.eqb_spec (r_val r) 34) as [E|]; [rewrite E; by apply parse_simple_esc|].
  destruct (Z.eqb_spec (r_val r) 92) as [E|]; [rewrite E; by apply parse_simple_esc|].
  destruct (Z.eqb_spec (r_val r) 8) as [E|]; [rewrite E; by apply parse_simple_esc|].
  destruct (Z.eqb_spec (r_val r) 12) as [E|]; [rewrite E; by apply parse_simple_esc|].
  destruct (Z.eqb_spec (r_val r) 10) as [E|]; [rewrite E; by apply parse_simple_esc|].
  destruct (Z.eqb_spec (r_val r) 13) as [E|]; [rewrite E; by apply parse_simple_esc|].
  destruct (Z.eqb_spec (r_val r) 9) as [E|]; [rewrite E; by apply parse_simple_esc|].
  cbn [orb]. destruct (_ || _) eqn:E.
  - apply parse_uesc_hex4; [|done]. bsimp; lia.
  - bsimp; rewrite Hs; by apply parse_plain.
Qed.

Lemma esc_rune_nonempty html r : rune_wf r -> (1 <= String.length (esc_rune html r))%nat.
Proof.
  intros Hwf. apply rune_wf_nonempty in Hwf. unfold esc_rune, esc_hex, bs.
  repeat case_match; simpl; lia.
Qed.

Lemma parse_str_runes html l f rest :
  Forall rune_wf l ->
  (String.length (sconcat (map (esc_rune html) l)) < f)%nat ->
  parse_str f (sconcat (map (esc_rune html) l) +:+ String dquote rest)
  = Some (sconcat (map (fun r => encode_rune (r_val r)) l), rest).
Proof.
  intros Hwf. revert f. induction Hwf as [|r l Hr Hl IH]; intros f Hf; simpl in *.
  - destruct f as [|f]; [lia|]. done.
  - rewrite length_app_str in Hf. pose proof (esc_rune_nonempty html r Hr).
    destruct f as [|f]; [lia|]. rewrite app_assoc_str, parse_esc_rune by done.
    unfold parse_rest. rewrite IH by lia. done.
Qed.

(** A quoted string reads back with U+FFFD for every byte that was not UTF-8. *)
Lemma parse_string_quote html s rest :
  parse_string (json_body html s +:+ String dquote rest) = Some (fix_utf8 s, rest).
Proof.
  unfold parse_string, json_body. apply parse_str_runes; [apply runes_wf|].
  rewrite length_app_str. simpl. lia.
Qed.

(** ** Number literals *)

(** What may follow a number so that the literal ends there. *)
Definition num_end (s : string) : bool :=
  match s with
  | EmptyString => true
  | String c _ =>
      negb (is_digit c) && negb (Ascii.eqb c ".") && negb (Ascii.eqb c "e")
      && negb (Ascii.eqb c "E") && negb (Ascii.eqb c "+") && negb (Ascii.eqb c "-")
  end.

Ltac num_end_split H :=
  repeat match type of H with
  | (_ && _)%bool = true => let H' := fresh H in apply andb_prop in H as [H H']
  end;
  repeat match goal with X : negb _ = true |- _ => apply negb_true_iff in X end.

Lemma span_digits_app s t :
  num_end t = true -> span_digits (s +:+ t) = ((span_digits s).1, (span_digits s).2 +:+ t).
Proof.
  intros Ht. induction s as [|c s IH]; simpl.
  - destruct t as [|c t]; simpl in *; [done|]. num_end_split Ht.
    match goal with X : is_digit c = false |- _ => by rewrite X end.
  - destruct (is_digit c); [|done]. rewrite IH. by destruct (span_digits s).
Qed.

Lemma digits1_app s t a b :
  num_end t = true -> digits1 s = Some (a, b) -> digits1 (s +:+ t) = Some (a, b +:+ t).
Proof.
  intros Ht. unfold digits1. rewrite span_digits_app by done.
  destruct (span_digits s) as [x y]. simpl. case_match; intros; by simplify_eq.
Qed.

Lemma scan_int_app s t a b :
  num_end t = true -> scan_int s = Some (a, b) -> scan_int (s +:+ t) = Some (a, b +:+ t).
Proof.
  intros Ht. destruct s as [|c s]; [done|]. cbn [scan_int String.append].
  destruct (Ascii.eqb c "0"); [intros; by simplify_eq|].
  destruct (is_digit c) eqn:Ec; [|done]. change (String c (s +:+ t)) with (String c s +:+ t).
  rewrite span_digits_app by done. destruct (span_digits (String c s)). simpl.
  intros; by simplify_eq.
Qed.

Lemma scan_frac_app s t a b :
  num_end t = true -> scan_frac s = Some (a, b) -> scan_frac (s +:+ t) = Some (a, b +:+ t).
Proof.
  intros Ht. destruct s as [|c s]; cbn [scan_frac String.append].
  - intros [= <- <-]. destruct t as [|c t]; [done|]. simpl in *. num_end_split Ht.
    match goal with X : Ascii.eqb c "." = false |- _ => by rewrite X end.
  - destruct (Ascii.eqb c "."); [|intros; by simplify_eq].
    destruct (digits1 s) as [[x y]|] eqn:E; [|done]. simpl. intros; simplify_eq.
    by rewrite (digits1_app _ _ _ _ Ht E).
Qed.

Lemma scan_exp_app s t a b :
  num_end t = true -> scan_exp s = Some (a, b) -> scan_exp (s +:+ t) = Some (a, b +:+ t).
Proof.
  intros Ht. destruct s as [|c s]; cbn [scan_exp String.append].
  - intros [= <- <-]. destruct t as [|c t]; [done|]. simpl in *. num_end_split Ht.
    repeat match goal with X : Ascii.eqb c _ = false |- _ => rewrite X; clear X end. done.
  - destruct (_ || _); [|intros; by simplify_eq].
    destruct s as [|d s]; [done|]. cbn [String.append].
    destruct (_ || _).
    + destruct (digits1 s) as [[x y]|] eqn:E; [|done]. simpl. intros; simplify_eq.
      by rewrite (digits1_app _ _ _ _ Ht E).
    + destruct (digits1 (String d s)) as [[x y]|] eqn:E; [|done]. simpl. intros; simplify_eq.
      change (String d (s +:+ t)) with (String d s +:+ t).
      by rewrite (digits1_app _ _ _ _ Ht E).
Qed.

Lemma span_digits_concat s : (span_digits s).1 +:+ (span_digits s).2 = s.
Proof.
  induction s as [|c s IH]; simpl; [done|]. destruct (is_digit c); [|done].
  destruct (span_digits s). simpl in *. congruence.
Qed.

Lemma digits1_concat s a b : digits1 s = Some (a, b) -> a +:+ b = s.
Proof.
  unfold digits1. pose proof (span_digits_concat s).
  destruct (span_digits s). simpl in *. case_match; intros; by simplify_eq.
Qed.

Lemma scan_int_concat s a b : scan_int s = Some (a, b) -> a +:+ b = s.
Proof.
  destruct s as [|c s]; [done|]. cbn [scan_int].
  destruct (Ascii.eqb c "0"); [intros; by simplify_eq|].
  destruct (is_digit c) eqn:Ec; [|done]. intros H.
  pose proof (span_digits_concat (String c s)) as Hc.
  assert (span_digits (String c s) = (a, b)) as Hsp by exact (inj Some _ _ H).
  by rewrite Hsp in Hc.
Qed.

Lemma scan_frac_concat s a b : scan_frac s = Some (a, b) -> a +:+ b = s.
Proof.
  destruct s as [|c s]; cbn [scan_frac]; [intros; by simplify_eq|].
  destruct (Ascii.eqb c "."); [|intros; by simplify_eq].
  destruct (digits1 s) as [[x y]|] eqn:E; [|done]. apply digits1_concat in E.
  intros H; simpl in H; simplify_eq; simpl; congruence.
Qed.

Lemma scan_exp_concat s a b : scan_exp s = Some (a, b) -> a +:+ b = s.
Proof.
  destruct s as [|c s]; cbn [scan_exp]; [intros; by simplify_eq|].
  destruct (_ || _); [|intros; by simplify_eq]. destruct s as [|d s]; [done|].
  destruct (_ || _).
  - destruct (digits1 s) as [[x y]|] eqn:E; [|done]. apply digits1_concat in E.
    intros H; simpl in H; simplify_eq; simpl; congruence.
  - destruct (digits1 (String d s)) as [[x y]|] eqn:E; [|done].
    apply digits1_concat in E. intros H; simpl in H; simplify_eq; simpl; congruence.
Qed.

(** A valid literal is scanned whole, and the scan stops where it ends. *)
Lemma scan_valid_number l rest :
  valid_number l = true -> num_end rest = true -> scan_number (l +:+ rest) = Some (l, rest).
Proof.
  unfold valid_number. intros Hv Hr.
  destruct (scan_number l) as [[l' r]|] eqn:E; [|done]. apply String.eqb_eq in Hv as ->.
  unfold scan_number in *.
  assert (forall sg s1, scan_unsigned sg s1 = Some (l', EmptyString) ->
    sg +:+ s1 = l' /\ scan_unsigned sg (s1 +:+ rest) = Some (l', rest)) as Haux.
  { unfold scan_unsigned. intros sg s1 H.
    destruct (scan_int s1) as [[i s2]|] eqn:E1; [|done]. simpl in H.
    destruct (scan_frac s2) as [[f s3]|] eqn:E2; [|done]. simpl in H.
    destruct (scan_exp s3) as [[x s4]|] eqn:E3; [|done]. simpl in H. simplify_eq.
    rewrite (scan_int_app _ _ _ _ Hr E1). simpl. rewrite (scan_frac_app _ _ _ _ Hr E2). simpl.
    rewrite (scan_exp_app _ _ _ _ Hr E3). simpl.
    apply scan_int_concat in E1 as <-. apply scan_frac_concat in E2 as <-.
    apply scan_exp_concat in E3 as <-. by rewrite !app_nil_str. }
  destruct l as [|c l]; [done|]. cbn [String.append]. destruct (Ascii.eqb c "-").
  - apply Haux in E as [E1 E2]. rewrite E2. by rewrite <- E1.
  - change (String c (l +:+ rest)) with (String c l +:+ rest).
    apply Haux in E as [E1 E2]. rewrite E2. by rewrite <- E1.
Qed.

(** *** The literals the encoder prints are valid *)

Definition nonzero_head (s : string) : Prop :=
  exists c t, s = String c t /\ is_digit c = true /\ Ascii.eqb c "0" = false.

Lemma span_digits_all s t :
  sall is_digit s = true ->
  match t with String c _ => is_digit c = false | EmptyString => True end ->
  span_digits (s +:+ t) = (s, t).
Proof.
  intros Hs Ht. induction s as [|c s IH]; simpl in *.
  - destruct t as [|c t]; simpl; [done|]. by rewrite Ht.
  - apply andb_prop in Hs as [-> Hs]. by rewrite IH.
Qed.

Lemma digits1_all s t :
  sall is_digit s = true -> s <> EmptyString ->
  match t with String c _ => is_digit c = false | EmptyString => True end ->
  digits1 (s +:+ t) = Some (s, t).
Proof.
  intros Hs Hne Ht. unfold digits1. rewrite span_digits_all by done.
  by destruct (String.eqb_spec s EmptyString).
Qed.

Definition frac_ok (f : string) : Prop :=
  f = EmptyString \/ exists ds, f = String "." ds /\ sall is_digit ds = true /\ ds <> EmptyString.
Definition exp_ok (x : string) : Prop :=
  x = EmptyString \/ exists c sg ds, x = String c (sg +:+ ds) /\
    (c = "e"%char \/ c = "E"%char) /\
    (sg = EmptyString \/ sg = str1 "+" \/ sg = str1 "-") /\
    sall is_digit ds = true /\ ds <> EmptyString.

Lemma digit_not_exp_sign c : is_digit c = true -> Ascii.eqb c "+" || Ascii.eqb c "-" = false.
Proof.
  intros H. apply orb_false_iff. split; apply Ascii.eqb_neq; intros ->; done.
Qed.

Lemma scan_exp_ok x : exp_ok x -> scan_exp x = Some (x, EmptyString).
Proof.
  intros [->|(c & sg & ds & -> & Hc & Hs & Hd & Hne)]; [done|]. cbn [scan_exp].
  assert (Ascii.eqb c "e" || Ascii.eqb c "E" = true) as -> by by destruct Hc as [-> | ->].
  assert (digits1 ds = Some (ds, EmptyString)) as E.
  { rewrite <- (app_nil_str ds) at 1. by apply digits1_all. }
  destruct Hs as [->|[-> | ->]]; cbn [String.append str1 Ascii.eqb orb].
  - destruct ds as [|d ds]; [done|]. cbn [sall] in Hd. apply andb_prop in Hd as [Hd1 Hd].
    rewrite digit_not_exp_sign by done. by rewrite E.
  - simpl. by rewrite E.
  - simpl. by rewrite E.
Qed.

Lemma exp_ok_head x :
  exp_ok x -> match x with String c _ => is_digit c = false | EmptyString => True end.
Proof. by intros [->|(c & sg & ds & -> & [-> | ->] & _)]. Qed.

Lemma scan_frac_ok f x : frac_ok f -> exp_ok x -> scan_frac (f +:+ x) = Some (f, x).
Proof.
  intros [->|(ds & -> & Hd & Hne)] Hx.
  - destruct Hx as [->|(c & sg & ds & -> & [-> | ->] & _)]; done.
  - cbn [scan_frac String.append]. simpl (Ascii.eqb _ _). cbv iota.
    by rewrite digits1_all by (done || by apply exp_ok_head).
Qed.

Lemma valid_number_parts neg i f x :
  (i = str1 "0" \/ (sall is_digit i = true /\ nonzero_head i)) -> frac_ok f -> exp_ok x ->
  valid_number (sign_str neg +:+ i +:+ f +:+ x) = true.
Proof.
  intros Hi Hf Hx. unfold valid_number.
  assert (match f +:+ x with String c _ => is_digit c = false | EmptyString => True end) as Hh.
  { destruct Hf as [->|(ds & -> & _)]; [by apply exp_ok_head|done]. }
  assert (scan_int (i +:+ f +:+ x) = Some (i, f +:+ x)) as Es.
  { destruct Hi as [->|[Hd (c & t & -> & Hc & H0)]]; [done|].
    cbn [scan_int String.append]. rewrite H0, Hc.
    change (String c (t +:+ f +:+ x)) with (String c t +:+ f +:+ x).
    by rewrite span_digits_all. }
  assert (forall sg, scan_unsigned sg (i +:+ f +:+ x)
    = Some (sg +:+ i +:+ f +:+ x, EmptyString)) as Haux.
  { intros sg. unfold scan_unsigned. rewrite Es. simpl. rewrite scan_frac_ok by done. simpl.
    by rewrite scan_exp_ok. }
  unfold scan_number. destruct neg; simpl.
  - by rewrite Haux.
  - assert (exists c t, i +:+ f +:+ x = String c t /\ Ascii.eqb c "-" = false)
      as (c & t & E & Hc).
    { destruct Hi as [->|[Hd (c & t & -> & Hc & H0)]]; [by do 2 eexists|].
      do 2 eexists. split; [done|]. destruct (Ascii.eqb_spec c "-") as [->|]; done. }
    rewrite E, Hc, <- E. by rewrite Haux.
Qed.

Lemma dec_nonzero_head n : 0 < n -> nonzero_head (dec n).
Proof.
  intros H. destruct (dec_head n H) as (d & t & E & Hd). exists (digit d), t.
  split; [done|]. split; [apply is_digit_digit; lia|].
  apply Ascii.eqb_neq. intros He. apply (f_equal bval) in He.
  rewrite bval_digit in He by lia. by assert (bval "0" = 48) by done; lia.
Qed.

Lemma dec_int_ok n :
  0 <= n -> dec n = str1 "0" \/ (sall is_digit (dec n) = true /\ nonzero_head (dec n)).
Proof.
  intros H. destruct (Z.eq_dec n 0) as [->|]; [by left|]. right.
  split; [by apply dec_all_digits|]. apply dec_nonzero_head. lia.
Qed.

Lemma valid_itoa z : valid_number (itoa z) = true.
Proof.
  assert (forall neg n, 0 <= n -> valid_number (sign_str neg +:+ dec n) = true) as Haux.
  { intros neg n Hn. rewrite <- (app_nil_str (dec n)).
    apply (valid_number_parts neg (dec n) EmptyString EmptyString); [by apply dec_int_ok|by left|by left]. }
  unfold itoa. destruct (Z.ltb_spec z 0); [apply (Haux true); lia|apply (Haux false); lia].
Qed.

Lemma zeros_digits n : sall is_digit (zeros n) = true.
Proof. unfold zeros. induction (Z.to_nat n); simpl; done. Qed.

Lemma sall_stake p n s : sall p s = true -> sall p (stake n s) = true.
Proof.
  intros H. rewrite <- (stake_sdrop n s), sall_app in H. by apply andb_prop in H as [? _].
Qed.

Lemma sall_sdrop p n s : sall p s = true -> sall p (sdrop n s) = true.
Proof.
  intros H. rewrite <- (stake_sdrop n s), sall_app in H. by apply andb_prop in H as [_ ?].
Qed.

Lemma nonzero_head_app s t : nonzero_head s -> nonzero_head (s +:+ t).
Proof. intros (c & u & -> & H). exists c, (u +:+ t). done. Qed.

Lemma nonempty_len s : (0 < String.length s)%nat -> s <> EmptyString.
Proof. destruct s; simpl; [lia|done]. Qed.

(** Every float the encoder accepts is written as a valid number. *)
Lemma valid_float_digits neg d k :
  0 < d -> valid_number (sign_str neg +:+ float_digits d k) = true.
Proof.
  intros Hd. unfold float_digits. cbv zeta.
  pose proof (dec_all_digits d ltac:(lia)) as Hall. pose proof (dec_nonzero_head d Hd) as Hnz.
  set (ds := dec d) in *. clearbody ds. set (dp := slen ds + k).
  pose proof Hnz as (c & t & Et & Hc & H0).
  destruct (_ || _).
  - set (x := dec (Z.abs (dp - 1))).
    assert (stake 1 ds = str1 c) as -> by (rewrite Et; by destruct t).
    apply (valid_number_parts neg (str1 c)).
    + right. split; [by simpl; rewrite Hc|]. by exists c, EmptyString.
    + destruct (Z.eqb_spec (slen ds) 1) as [|Hn]; [by left|]. right. exists (sdrop 1 ds).
      split; [done|]. split; [by apply sall_sdrop|]. apply nonempty_len.
      rewrite length_sdrop. unfold slen in Hn. rewrite Et in *. simpl in *. lia.
    + right. exists "e"%char, (if dp - 1 <? 0 then str1 "-" else str1 "+"), x.
      split; [by destruct (dp - 1 <? 0)|]. split; [by left|].
      split; [destruct (dp - 1 <? 0); auto|].
      split; [apply dec_all_digits|apply dec_nonempty]; lia.
  - destruct (Z.leb_spec dp 0); [|destruct (Z.leb_spec (slen ds) dp)].
    + rewrite <- (app_nil_str (zeros (- dp) +:+ ds)).
      apply (valid_number_parts neg (str1 "0") (String "." (zeros (- dp) +:+ ds))); [by left| |by left].
      right. eexists. split; [done|]. rewrite sall_app, zeros_digits, Hall. split; [done|].
      rewrite Et. by destruct (zeros (- dp)).
    + rewrite <- (app_nil_str (ds +:+ _)).
      apply (valid_number_parts neg (ds +:+ zeros _) EmptyString EmptyString); [|by left|by left].
      right. rewrite sall_app, Hall, zeros_digits. split; [done|]. by apply nonzero_head_app.
    + rewrite <- (app_nil_str (sdrop _ ds)).
      apply (valid_number_parts neg (stake (Z.to_nat dp) ds)
        (String "." (sdrop (Z.to_nat dp) ds))); [right| |by left].
      * split; [by apply sall_stake|]. rewrite Et. destruct (Z.to_nat dp) eqn:En; [lia|].
        simpl. by exists c, (stake n t).
      * right. eexists. split; [done|]. split; [by apply sall_sdrop|].
        apply nonempty_len. rewrite length_sdrop. unfold slen in *. lia.
Qed.

Lemma shortest_pos m e : 0 < (shortest m e).1.
Proof.
  assert (0 < (if 0 <=? e then (Z.pos m * 2 ^ e, 0) else (Z.pos m * 5 ^ (- e), e)).1) as Hx.
  { destruct (Z.leb_spec 0 e); simpl; apply Z.mul_pos_pos; try lia; apply Z.pow_pos_nonneg; lia. }
  unfold shortest. cbv zeta. destruct (shortest_loop _ _ _ _ _ _ _) as [[d k]|]; [|exact Hx].
  destruct (Z.ltb_spec 0 d); [done|exact Hx].
Qed.

Lemma valid_float_lit f l : float_lit f = Some l -> valid_number l = true.
Proof.
  destruct f as [s|s| |s m e]; simpl; try done.
  - intros [= <-]. by destruct s.
  - pose proof (shortest_pos m e). destruct (shortest m e) as [d k]. intros [= <-].
    by apply valid_float_digits.
Qed.

Lemma valid_number_lit l e : number_lit l = Some e -> valid_number e = true.
Proof.
  unfold number_lit. destruct (String.eqb l EmptyString); [by intros [= <-]|].
  destruct (valid_number l) eqn:E; [by intros [= <-]|done].
Qed.

Lemma valid_number_head l :
  valid_number l = true -> exists c t, l = String c t /\ (is_digit c = true \/ c = "-"%char).
Proof.
  unfold valid_number, scan_number, scan_unsigned. destruct l as [|c l]; [done|].
  intros H. exists c, l. split; [done|].
  destruct (Ascii.eqb_spec c "-") as [|]; [by right|]. left.
  cbn [scan_int] in H. destruct (Ascii.eqb_spec c "0") as [->|]; [done|].
  by destruct (is_digit c).
Qed.

(** ** Values *)

(** [e] is a text that a parser with [d] levels of nesting left reads as [n]. *)
Definition reads (d : Z) (e : string) (n : gval) : Prop :=
  forall f rest, (String.length e <= f)%nat -> num_end rest = true ->
    parse_value f d (e +:+ rest) = Some (n, rest).

(** The first byte of a value: no space and no closing bracket. *)
Definition good_head (e : string) : Prop :=
  exists c t, e = String c t /\ is_ws c = false /\ c <> "]"%char /\ c <> "}"%char.

Lemma skip_ws_good e rest : good_head e -> skip_ws (e +:+ rest) = e +:+ rest.
Proof. intros (c & t & -> & H & _). simpl. by rewrite H. Qed.

Lemma good_head_nonempty e : good_head e -> (1 <= String.length e)%nat.
Proof. intros (c & t & -> & _). simpl. lia. Qed.

Lemma good_head_app s t : good_head s -> good_head (s +:+ t).
Proof. intros (c & u & -> & H). by exists c, (u +:+ t). Qed.

Lemma good_head_join sep s l : good_head s -> good_head (join sep (s :: l)).
Proof. intros H. destruct l; [done|]. by apply good_head_app. Qed.

Lemma json_quote_head html s : good_head (json_quote html s).
Proof. unfold json_quote, str1. do 2 eexists. split; [reflexivity|]. done. Qed.

Lemma digit_head c : is_digit c = true -> is_ws c = false /\ c <> "]"%char /\ c <> "}"%char /\
  c <> dquote /\ c <> "["%char /\ c <> "{"%char /\ c <> "n"%char /\ c <> "t"%char /\ c <> "f"%char.
Proof.
  unfold is_digit, is_ws. intros H. bsimp.
  split; [repeat (apply orb_false_iff; split); apply Z.eqb_neq; lia|].
  repeat split; intros ->; match goal with X : bval ?c <= 57 |- _ =>
    let v := eval vm_compute in (bval c) in assert (bval c = v) by done end; lia.
Qed.

Lemma reads_number d l : valid_number l = true -> reads d l (VNumber l) /\ good_head l.
Proof.
  intros Hv. destruct (valid_number_head l Hv) as (c & t & El & Hc).
  assert (is_ws c = false /\ c <> "]"%char /\ c <> "}"%char /\
    c <> dquote /\ c <> "["%char /\ c <> "{"%char /\ c <> "n"%char /\ c <> "t"%char
    /\ c <> "f"%char) as (Hw & H1 & H2 & H3 & H4 & H5 & H6 & H7 & H8).
  { destruct Hc as [Hc| ->]; [by apply digit_head|]. by repeat split. }
  split; [|by exists c, t]. intros f rest Hf Hr. rewrite El in Hf.
  destruct f as [|f]; [simpl in Hf; lia|].
  pose proof (scan_valid_number l rest Hv Hr) as Hs. rewrite El in Hs |- *.
  cbn [String.append] in Hs |- *. cbn [parse_value].
  repeat match goal with
  | |- context [Ascii.eqb c ?x] => destruct (Ascii.eqb_spec c x); [done|]
  end. by rewrite Hs.
Qed.

Lemma reads_string html d s : reads d (json_quote html s) (VString (fix_utf8 s)).
Proof.
  intros f rest Hf Hr. unfold json_quote, str1 in *. simpl in *.
  destruct f as [|f]; [lia|]. cbn [parse_value].
  replace (Ascii.eqb dquote dquote) with true by done.
  rewrite app_assoc_str. change (String dquote EmptyString +:+ rest) with (String dquote rest).
  by rewrite parse_string_quote.
Qed.

Lemma join_cons2 sep s s' l : join sep (s :: s' :: l) = s +:+ sep +:+ join sep (s' :: l).
Proof. done. Qed.

Lemma parse_elems_join d es ns f rest :
  Forall2 (fun e n => reads d e n /\ good_head e) es ns -> es <> [] ->
  (String.length (join "," es) < f)%nat ->
  parse_elems f d (join "," es +:+ String "]" rest) = Some (ns, rest).
Proof.
  intros H. revert f. induction H as [|e n es ns [Hr Hg] Hes IH]; intros f Hne Hf; [done|].
  destruct f as [|f]; [lia|]. destruct es as [|e2 es].
  - inversion Hes; subst. cbn [join] in *. cbn [parse_elems]. rewrite Hr by (lia || done).
    done.
  - rewrite join_cons2 in Hf |- *. rewrite !length_app_str in Hf. simpl in Hf.
    cbn [parse_elems]. rewrite !app_assoc_str. rewrite Hr by (lia || done). simpl.
    assert (good_head e2) as Hg2 by (inversion Hes as [|? ? ? ? Hx ?]; apply Hx).
    assert (skip_ws (join "," (e2 :: es) +:+ String "]" rest)
      = join "," (e2 :: es) +:+ String "]" rest) as Hsk.
    { by apply skip_ws_good, good_head_join. }
    simpl in Hsk. rewrite Hsk. rewrite IH; [done|done|]. simpl. lia.
Qed.

Definition member_str (html : bool) (p : string * string) : string :=
  json_quote html p.1 +:+ ":" +:+ p.2.

Lemma parse_members_join html d (es : list (string * string)) (ns : gobj) acc f rest :
  Forall2 (same_keys (fun e n => reads d e n /\ good_head e)) es ns -> es <> [] ->
  (String.length (join "," (map (member_str html) es)) < f)%nat ->
  parse_members f d acc (join "," (map (member_str html) es) +:+ String "}" rest)
  = Some (foldl (fun acc p => assoc_set (fix_utf8 p.1) p.2 acc) acc ns, rest).
Proof.
  intros H. revert f acc.
  induction H as [|[k e] [k' n] es ns (Hk & Hr & Hg) Hes IH]; intros f acc Hne Hf; [done|].
  simpl in Hk, Hr, Hg. subst k'. destruct f as [|f]; [lia|].
  assert (forall tail, parse_members (S f) d acc (member_str html (k, e) +:+ tail)
    = '(v, s3) ← parse_value f d (e +:+ tail);
      match skip_ws s3 with
      | String d' rest =>
          if Ascii.eqb d' "}" then Some (assoc_set (fix_utf8 k) v acc, rest)
          else if Ascii.eqb d' ","
          then parse_members f d (assoc_set (fix_utf8 k) v acc) (skip_ws rest)
          else None
      | EmptyString => None
      end) as Hstep.
  { intros tail. unfold member_str, json_quote, str1. cbn [fst snd]. rewrite !app_assoc_str.
    cbn [String.append]. cbn [parse_members].
    replace (Ascii.eqb dquote dquote) with true by done.
    rewrite parse_string_quote. cbn [mbind option_bind]. cbn [String.append skip_ws].
    change (is_ws ":") with false. cbv iota. change (Ascii.eqb ":" ":") with true. cbv iota.
    by rewrite skip_ws_good. }
  destruct es as [|p es].
  - inversion Hes; subst. cbn [map join] in *. rewrite Hstep.
    assert (String.length e <= f)%nat.
    { unfold member_str in Hf. cbn [fst snd] in Hf. rewrite !length_app_str in Hf. lia. }
    by rewrite Hr by done.
  - cbn [map] in Hf |- *. rewrite join_cons2 in Hf |- *. rewrite !app_assoc_str, Hstep.
    rewrite !length_app_str in Hf. unfold member_str at 1 in Hf. cbn [fst snd] in Hf.
    rewrite !length_app_str in Hf. simpl (String.length ",") in Hf.
    rewrite Hr by (lia || done). cbn [mbind option_bind].
    cbn [String.append skip_ws]. change (is_ws ",") with false. cbv iota.
    change (Ascii.eqb "," "}") with false. change (Ascii.eqb "," ",") with true. cbv iota.
    assert (skip_ws (join "," (member_str html p :: map (member_str html) es) +:+ String "}" rest)
      = join "," (member_str html p :: map (member_str html) es) +:+ String "}" rest) as Hsk.
    { apply skip_ws_good, good_head_join, good_head_app, json_quote_head. }
    rewrite Hsk. change (member_str html p :: map (member_str html) es)
      with (map (member_str html) (p :: es)).
    rewrite IH; [done|done|]. cbn [map]. lia.
Qed.

Lemma reads_array d es ns :
  1 <= d -> Forall2 (fun e n => reads (d - 1) e n /\ good_head e) es ns ->
  reads d (enc_array es) (VArray ns) /\ good_head (enc_array es).
Proof.
  intros Hd H. split; [|unfold enc_array; by do 2 eexists].
  intros f rest Hf Hr. unfold enc_array in *. cbn [String.append] in *.
  rewrite app_assoc_str. cbn [String.append]. cbn [String.length] in Hf.
  rewrite length_app_str in Hf. simpl (String.length "]") in Hf.
  destruct f as [|f]; [lia|]. cbn [parse_value].
  change (Ascii.eqb "[" dquote) with false. change (Ascii.eqb "[" "[") with true. cbv iota.
  destruct (Z.leb_spec d 0); [lia|].
  destruct es as [|e es]; inversion H as [|? n ? ns' [He Hg] Hes]; subst; [done|].
  rewrite skip_ws_good by by apply good_head_join.
  rewrite parse_elems_join with (ns := n :: ns') by (done || lia).
  destruct (good_head_join "," e es Hg) as (c & t & E & _ & Hc & _). rewrite E.
  cbn [String.append]. by destruct (Ascii.eqb_spec c "]").
Qed.

Lemma reads_object html d es ns :
  1 <= d -> Forall2 (same_keys (fun e n => reads (d - 1) e n /\ good_head e)) es ns ->
  reads d (enc_object html es) (VObject (build_object ns)) /\ good_head (enc_object html es).
Proof.
  intros Hd H. split; [|unfold enc_object; by do 2 eexists].
  intros f rest Hf Hr. unfold enc_object, build_object in *.
  apply sort_keys_Forall2 in H. fold (member_str html) in *.
  cbn [String.append] in *. rewrite app_assoc_str. cbn [String.append].
  cbn [String.length] in Hf. rewrite length_app_str in Hf. simpl (String.length "}") in Hf.
  destruct f as [|f]; [lia|]. cbn [parse_value].
  change (Ascii.eqb "{" dquote) with false. change (Ascii.eqb "{" "[") with false.
  change (Ascii.eqb "{" "{") with true. cbv iota. destruct (Z.leb_spec d 0); [lia|].
  destruct (sort_keys es) as [|e es']; inversion H as [|? n ? ns' He Hes]; subst; [done|].
  assert (good_head (join "," (map (member_str html) (e :: es')))) as Hg.
  { apply good_head_join, good_head_app, json_quote_head. }
  rewrite skip_ws_good by done.
  rewrite parse_members_join with (ns := n :: ns') by first [done | by constructor | lia].
  destruct Hg as (c & t & E & _ & _ & Hc). rewrite E.
  cbn [String.append]. by destruct (Ascii.eqb_spec c "}").
Qed.

Lemma foldr_max_nonneg l : 0 <= foldr Z.max 0 l.
Proof. induction l; simpl; lia. Qed.

Lemma depth_elem d l : 1 + foldr Z.max 0 l <= d -> Forall (fun x => x <= d - 1) l.
Proof. induction l as [|x l IH]; simpl; intros H; constructor; [lia|apply IH; lia]. Qed.

Lemma reads_word d w v : good_head w ->
  (forall f rest, (1 <= f)%nat -> parse_value f d (w +:+ rest) = Some (v, rest)) ->
  reads d w v /\ good_head w.
Proof.
  intros Hg H. split; [|done]. intros f rest Hf _. apply H.
  apply good_head_nonempty in Hg. lia.
Qed.

(** What the encoder writes, a parser with enough nesting left reads as the normal form. *)
Lemma encode_reads html v e d :
  encode html v = Some e -> depth v <= d -> reads d e (norm v) /\ good_head e.
Proof.
  revert e d. induction v using gval_ind; intros e d He Hd; cbn [encode norm] in He |- *;
    try (injection He as <-).
  - apply reads_word; [by do 2 eexists|]. by intros [|f] rest Hf; [lia|].
  - destruct b; (apply reads_word; [by do 2 eexists|]; by intros [|f] rest Hf; [lia|]).
  - split; [apply reads_string|apply json_quote_head].
  - pose proof (valid_number_lit _ _ He) as Hv. unfold number_lit in He.
    destruct (String.eqb l EmptyString); [|destruct (valid_number l)]; simplify_eq;
      by apply reads_number.
  - apply reads_number, valid_itoa.
  - rewrite He. apply reads_number. by eapply valid_float_lit.
  - destruct (mapM (encode html) l) as [es|] eqn:Em; [|done]. injection He as <-.
    cbn [depth] in Hd. assert (1 <= d) by (pose proof (foldr_max_nonneg (map depth l)); lia).
    apply reads_array; [done|]. apply mapM_Some in Em. apply depth_elem in Hd.
    revert H Hd. induction Em as [|v e l es Hv _ IH]; intros H Hd; simpl in *; constructor.
    + apply list.Forall_cons in H as [H _]. apply list.Forall_cons in Hd as [Hd _]. by apply H.
    + apply list.Forall_cons in H as [_ H]. apply list.Forall_cons in Hd as [_ Hd]. by apply IH.
  - destruct (mapM _ m) as [es|] eqn:Em; [|done]. injection He as <-.
    cbn [depth] in Hd. assert (1 <= d) by
      (pose proof (foldr_max_nonneg (map (fun p : string * gval => depth p.2) m)); lia).
    apply reads_object; [done|]. apply mapM_Some in Em. apply depth_elem in Hd.
    revert H Hd. induction Em as [|[k v] e m es Hv _ IH]; intros H Hd; simpl in *; constructor.
    + apply list.Forall_cons in H as [H _]. apply list.Forall_cons in Hd as [Hd _].
      destruct (encode html v) as [e'|] eqn:Ee; [|done]. simpl in Hv. simplify_eq.
      split; [done|]. by apply H.
    + apply list.Forall_cons in H as [_ H]. apply list.Forall_cons in Hd as [_ Hd]. by apply IH.
  - cbn [depth] in Hd. apply reads_object; [done|]. clear -Hd. induction m as [|[k s] m IH]; [constructor|].
    simpl. constructor; [|done]. split; [done|]. split; [apply reads_string|apply json_quote_head].
  - cbn [depth] in Hd. apply reads_array; [done|]. clear -Hd. induction l as [|s l IH]; [constructor|].
    simpl. constructor; [|done]. split; [apply reads_string|apply json_quote_head].
  - done.
Qed.

(** Decoding what was encoded gives the normal form, whatever follows in the reader. *)
Lemma decode_encode_json html v e rest :
  encode html v = Some e -> depth v <= max_depth -> num_end rest = true ->
  decode_json (e +:+ rest) = Some (norm v).
Proof.
  intros He Hd Hr. destruct (encode_reads html v e max_depth He Hd) as [H Hg].
  unfold decode_json. rewrite skip_ws_good by done. rewrite H; [done| |done].
  rewrite length_app_str. lia.
Qed.

(** ** What the decoder gives is well formed *)

Lemma span_digits_digits s : sall is_digit (span_digits s).1 = true.
Proof.
  induction s as [|c s IH]; [done|]. simpl. destruct (is_digit c) eqn:Ec; [|done].
  destruct (span_digits s). simpl in *. by rewrite Ec.
Qed.

Lemma digits1_digits s a b :
  digits1 s = Some (a, b) -> sall is_digit a = true /\ a <> EmptyString.
Proof.
  unfold digits1. pose proof (span_digits_digits s).
  destruct (span_digits s) as [x y]. destruct (String.eqb_spec x EmptyString); [done|].
  intros; by simplify_eq.
Qed.

Lemma scan_int_ok s a b : scan_int s = Some (a, b) ->
  a = str1 "0" \/ (sall is_digit a = true /\ nonzero_head a).
Proof.
  destruct s as [|c s]; [done|]. cbn [scan_int].
  destruct (Ascii.eqb_spec c "0") as [->|Hne]; [intros; simplify_eq; by left|].
  destruct (is_digit c) eqn:Ec; [|done]. intros H. right.
  pose proof (span_digits_digits (String c s)) as Hd.
  assert (span_digits (String c s) = (a, b)) as E by exact (inj Some _ _ H).
  rewrite E in Hd. split; [done|]. cbn [span_digits] in E. rewrite Ec in E.
  destruct (span_digits s) as [x y]. simplify_eq. exists c, x. repeat split; [done|].
  by apply Ascii.eqb_neq.
Qed.

Lemma scan_frac_inv s a b : scan_frac s = Some (a, b) -> frac_ok a.
Proof.
  destruct s as [|c s]; cbn [scan_frac]; [intros; simplify_eq; by left|].
  destruct (Ascii.eqb_spec c ".") as [->|]; [|intros; simplify_eq; by left].
  destruct (digits1 s) as [[x y]|] eqn:E; [|done]. apply digits1_digits in E as [Ha Hb].
  intros H; simpl in H; simplify_eq. right. by exists x.
Qed.

Lemma scan_exp_inv s a b : scan_exp s = Some (a, b) -> exp_ok a.
Proof.
  destruct s as [|c s]; cbn [scan_exp]; [intros; simplify_eq; by left|].
  destruct (Ascii.eqb c "e" || Ascii.eqb c "E") eqn:Ec; [|intros; simplify_eq; by left].
  assert (c = "e"%char \/ c = "E"%char) as Hc.
  { apply orb_true_iff in Ec as [Ec|Ec]; apply Ascii.eqb_eq in Ec; auto. }
  destruct s as [|d s]; [done|]. destruct (Ascii.eqb d "+" || Ascii.eqb d "-") eqn:Ed.
  - destruct (digits1 s) as [[x y]|] eqn:E; [|done]. apply digits1_digits in E as [Ha Hb].
    intros H; simpl in H; simplify_eq. right. exists c, (str1 d), x. split; [done|].
    split; [done|]. split; [|done].
    apply orb_true_iff in Ed as [Ed|Ed]; apply Ascii.eqb_eq in Ed as ->; auto.
  - destruct (digits1 (String d s)) as [[x y]|] eqn:E; [|done].
    apply digits1_digits in E as [Ha Hb].
    intros H; simpl in H; simplify_eq. right. exists c, EmptyString, x.
    split; [done|]. split; [done|]. split; [by left|done].
Qed.

(** The literal a scan stops after is a valid number on its own. *)
Lemma scan_number_valid s l rest : scan_number s = Some (l, rest) -> valid_number l = true.
Proof.
  assert (forall neg s1, scan_unsigned (sign_str neg) s1 = Some (l, rest) ->
    valid_number l = true) as Haux.
  { intros neg s1. unfold scan_unsigned.
    destruct (scan_int s1) as [[i s2]|] eqn:E1; [|done]. simpl.
    destruct (scan_frac s2) as [[f s3]|] eqn:E2; [|done]. simpl.
    destruct (scan_exp s3) as [[x s4]|] eqn:E3; [|done]. simpl. intros H; simplify_eq.
    apply valid_number_parts;
      [by eapply scan_int_ok|by eapply scan_frac_inv|by eapply scan_exp_inv]. }
  unfold scan_number. destruct s as [|c s]; [exact (Haux false _)|].
  destruct (Ascii.eqb_spec c "-") as [->|]; [exact (Haux true s)|exact (Haux false _)].
Qed.

Lemma parse_str_valid f s t rest : parse_str f s = Some (t, rest) -> valid_utf8 t = true.
Proof.
  revert s t. induction f as [|f IH]; intros s t; [done|]. cbn [parse_str].
  destruct s as [|c s]; [done|].
  destruct (Ascii.eqb c dquote); [intros; by simplify_eq|].
  destruct (Ascii.eqb c bslash).
  - destruct s as [|d s]; [done|].
    destruct (if Ascii.eqb d "u" then _ else _) as [[r s3]|]; [|done]. cbn.
    destruct (parse_str f s3) as [[t' r']|] eqn:E; [|done]. cbn.
    intros; simplify_eq. rewrite valid_utf8_encode. eauto.
  - destruct (bval c <? 32); [done|].
    destruct (decode_rune (String c s)) as [[r s3]|]; [|done]. cbn.
    destruct (parse_str f s3) as [[t' r']|] eqn:E; [|done]. cbn.
    intros; simplify_eq. rewrite valid_utf8_encode. eauto.
Qed.
