(* ===== verification/Canonical.v ===== *)
(** * Canonical JSON

    [internal/model/canonical.go]: the one byte representation a payload has in the audit
    chain, the shape payloads are normalised to before they are sealed, and the shape they are
    read back in.  Values that are equal as data ([geq]) are written the same, normal values
    that are written the same are equal, and what is written reads back. *)

From S2P Require Import Prelude Utf8 GoText GoJson GoJsonRound.

#[local] Set Warnings "-register-all".

(** ** The encoder *)

(** [writeCanonicalString]: the JSON encoder without HTML escaping, less its newline. *)
Definition writeCanonicalString (s : string) : string := json_quote false s.

(** [writeCanonicalObject] on members already written: keys in sorted order, the first error
    wins. *)
Definition writeCanonicalObject (m : list (string * result string)) : result string :=
  es ← mapM (fun p : string * result string =>
               e ← p.2; Ok (writeCanonicalString p.1 +:+ ":" +:+ e)) (sort_keys m);
  Ok ("{" +:+ join "," es +:+ "}").

(** The cases of [writeCanonical]; [other] is its [default] branch. *)
Fixpoint write_with (other : gval -> result string) (v : gval) : result string :=
  match v with
  | VNil => Ok "null"
  | VBool b => Ok (bool_str b)
  | VString s => Ok (writeCanonicalString s)
  | VNumber l =>
      if String.eqb l EmptyString then Err "canonical json: empty json.Number" else Ok l
  | VInt _ | VFloat _ => of_option "json: unsupported value" (marshal v)
  | VArray l => es ← mapM (write_with other) l; Ok ("[" +:+ join "," es +:+ "]")
  | VObject m => writeCanonicalObject (map_vals (write_with other) m)
  | VStringMap m =>
      writeCanonicalObject (map_vals (fun s => Ok (writeCanonicalString s)) m)
  | VStrings _ | VUnsupported => other v
  end.

Definition normalizeValue (v : gval) : result gval :=
  raw ← of_option "canonical json: unsupported value" (marshal v);
  of_option "canonical json: decode" (decode_json raw).

Definition is_container (v : gval) : bool :=
  match v with VArray _ | VObject _ => true | _ => false end.

(** The [default] branch: normalise, then write what came out.  The decoder never gives back a
    value that would land here again ([normal_no_default]). *)
Definition write_default (v : gval) : result string :=
  normalized ← normalizeValue v;
  if is_container normalized
  then write_with (fun _ => Err "canonical json: not normalised") normalized
  else of_option "json: unsupported value" (marshal normalized).

Definition writeCanonical : gval -> result string := write_with write_default.

Definition CanonicalJSON (v : gval) : result string := writeCanonical v.

(** [NormalizePayload]; [None] is the nil map. *)
Definition NormalizePayload (payload : option gobj) : result gobj :=
  match payload with
  | None => Ok []
  | Some p =>
      v ← normalizeValue (VObject p);
      match v with
      | VObject m => Ok m
      | _ => Err "canonical json: payload did not normalise to an object"
      end
  end.

Definition DecodeJSONPayload (raw : string) : result gobj :=
  if String.eqb raw EmptyString then Ok []
  else
    match decode_json raw with
    | Some (VObject m) => Ok m
    | Some VNil => Ok []
    | _ => Err "decode audit payload"
    end.

(** ** Specification: equality as data, well-formed and normal values *)

(** Maps are equal when they have the same members, whatever order they are iterated in. *)
Inductive geq : gval -> gval -> Prop :=
| geq_leaf v : geq v v
| geq_array l l' : Forall2 geq l l' -> geq (VArray l) (VArray l')
| geq_object m m1 m' :
    m ≡ₚ m1 -> Forall2 (same_keys geq) m1 m' -> geq (VObject m) (VObject m').

Definition scalar (v : gval) : bool :=
  match v with VArray _ | VObject _ | VStringMap _ => false | _ => true end.

(** The keys of every map are distinct: what a Go map is. *)
Inductive wf : gval -> Prop :=
| wf_scalar v : scalar v = true -> wf v
| wf_array l : Forall wf l -> wf (VArray l)
| wf_object (m : gobj) : NoDup m.*1 -> Forall (fun p => wf p.2) m -> wf (VObject m)
| wf_string_map (m : list (string * string)) : NoDup m.*1 -> wf (VStringMap m).

(** What the store reads back: valid UTF-8, numbers as their literals, [map[string]any] and
    [[]any] as the only containers. *)
Inductive normal : gval -> Prop :=
| normal_nil : normal VNil
| normal_bool b : normal (VBool b)
| normal_string s : valid_utf8 s = true -> normal (VString s)
| normal_number l : valid_number l = true -> normal (VNumber l)
| normal_array l : Forall normal l -> normal (VArray l)
| normal_object (m : gobj) :
    NoDup m.*1 -> Forall (fun p => valid_utf8 p.1 = true /\ normal p.2) m ->
    normal (VObject m).

(** A payload in the shape the store gives it: an object the decoder can read. *)
Definition normal_payload (m : gobj) : Prop :=
  normal (VObject m) /\ depth (VObject m) <= max_depth.

(** ** [geq] is an equivalence *)

Lemma Forall2_refl_on {A} (R : A -> A -> Prop) l : Forall (fun x => R x x) l -> Forall2 R l l.
Proof. induction 1; constructor; auto. Qed.

Lemma geq_refl v : geq v v.
Proof. constructor. Qed.

Lemma geq_sym v w : geq v w -> geq w v.
Proof.
  revert w. induction v using gval_ind; intros w Hg;
    inversion Hg as [|? l' Hf|? m1 m' Hp Hf]; subst; try by constructor.
  - constructor. clear Hg. revert l' Hf. induction H; intros l' Hf; inversion Hf; subst;
      constructor; auto.
  - assert (Forall (fun p => forall w, geq p.2 w -> geq w p.2) m1) as Hm by by rewrite <- Hp.
    assert (Forall2 (same_keys geq) m' m1) as Hf'.
    { clear - Hm Hf. induction Hf as [|p q m1 m' [E G] _ IH]; constructor;
        apply list.Forall_cons in Hm as [Hq Hm]; [split; auto|auto]. }
    symmetry in Hp. destruct (Permutation_Forall2 Hp (Forall2_flip Hf')) as (m2 & Hp2 & Hf2).
    apply geq_object with m2; [done|]. by apply Forall2_flip.
Qed.

Lemma geq_trans v w u : geq v w -> geq w u -> geq v u.
Proof.
  revert w u. induction v using gval_ind; intros w u Hvw Hwu;
    inversion Hvw as [|? l1 Ha|? m1 m2 Hp Hf]; subst; try done.
  - inversion Hwu as [|? l2 Hb|]; subst; [done|]. constructor. clear Hvw Hwu.
    revert l1 l2 Ha Hb. induction H as [|x l Hx _ IH]; intros l1 l2 Ha Hb;
      inversion Ha; subst; inversion Hb; subst; constructor; eauto.
  - inversion Hwu as [|?|? m3 m4 Hp' Hf']; subst; [done|].
    destruct (Permutation_Forall2 Hp' (Forall2_flip Hf)) as (m5 & Hp5 & Hf5).
    apply Forall2_flip in Hf5. apply geq_object with m5; [by rewrite Hp|].
    assert (Forall (fun p => forall w u, geq p.2 w -> geq w u -> geq p.2 u) m5) as Hm.
    { by rewrite <- Hp5, <- Hp. }
    clear - Hm Hf' Hf5. revert m4 Hf'. induction Hf5 as [|p q m5 m3 [E G] _ IH]; intros m4 Hf';
      inversion Hf' as [|? r ? m4' [E' G'] Hf'']; subst; constructor;
      apply list.Forall_cons in Hm as [Hp Hm]; [|by apply IH].
    split; [congruence|eauto].
Qed.

#[export] Instance geq_equivalence : Equivalence geq.
Proof. split; [intros v; apply geq_refl|intros v w; apply geq_sym|intros v w u; apply geq_trans]. Qed.

(** ** Equal data is written the same *)

Lemma mapM_Forall2_eq {A B} (f : A -> result B) l l' :
  Forall2 (fun x y => f x = f y) l l' -> mapM f l = mapM f l'.
Proof. induction 1 as [|x y l l' Hxy _ IH]; [done|]. cbn. by rewrite Hxy, IH. Qed.

Lemma mapM_Ok {A B} (f : A -> result B) (g : A -> B) l :
  Forall (fun x => f x = Ok (g x)) l -> mapM f l = Ok (map g l).
Proof. induction 1 as [|x l Hx _ IH]; [done|]. cbn. by rewrite Hx, IH. Qed.

Lemma map_vals_same_keys {V W} (f : V -> W) m m' :
  Forall2 (same_keys (fun x y => f x = f y)) m m' -> map_vals f m = map_vals f m'.
Proof.
  induction 1 as [|[k v] [k' v'] m m' [E H] _ IH]; [done|]. simpl in *. by rewrite E, H, IH.
Qed.

Lemma map_vals_perm {V W} (f : V -> W) m m' : m ≡ₚ m' -> map_vals f m ≡ₚ map_vals f m'.
Proof. intros H. by apply Permutation_map. Qed.

Lemma write_with_geq other v w : wf v -> geq v w -> write_with other v = write_with other w.
Proof.
  revert w. induction v using gval_ind; intros w Hwf Hg;
    inversion Hg as [|? l' Hf|? m1 m' Hp Hf]; subst; try done.
  - inversion Hwf as [|? Hl| |]; subst; [done|]. cbn [write_with].
    rewrite (mapM_Forall2_eq _ l l'); [done|]. clear Hg Hwf. revert l' Hf.
    induction H; intros l' Hf; inversion Hf; subst; constructor;
      apply list.Forall_cons in Hl as [? ?]; auto.
  - inversion Hwf as [| |? Hnd Hm|]; subst; [done|]. cbn [write_with].
    unfold writeCanonicalObject.
    assert (map_vals (write_with other) m1 = map_vals (write_with other) m') as <-.
    { apply map_vals_same_keys.
      assert (Forall (fun p => wf p.2 /\ forall w, wf p.2 -> geq p.2 w ->
                write_with other p.2 = write_with other w) m1) as Hm1.
      { rewrite <- Hp. apply list.Forall_and; done. }
      clear - Hm1 Hf. induction Hf as [|p q m1 m' [E G] _ IH]; constructor;
        apply list.Forall_cons in Hm1 as [[Hp1 Hp2] Hm1]; [split; auto|auto]. }
    rewrite (sort_keys_unique (map_vals _ m) (map_vals (write_with other) m1)); [done| |].
    + change (NoDup (map fst (map_vals (write_with other) m))). by rewrite map_vals_keys.
    + by apply map_vals_perm.
Qed.

(** ** Normal values are written as [json.Marshal] without HTML escaping would *)

Lemma write_object_ok (es : list (string * string)) :
  writeCanonicalObject (map_vals Ok es) = Ok (enc_object false es).
Proof.
  unfold writeCanonicalObject. rewrite sort_keys_map_vals.
  rewrite mapM_Ok with (g := fun p : string * result string =>
    writeCanonicalString p.1 +:+ ":" +:+ match p.2 with Ok e => e | Err _ => EmptyString end).
  - cbn. unfold enc_object, map_vals. by rewrite map_map.
  - apply list.Forall_forall. intros [k r] Hin. unfold map_vals in Hin.
    apply list_elem_of_In, in_map_iff in Hin as ([k' e] & [= <- <-] & _). done.
Qed.

Lemma write_normal other v :
  normal v -> exists e, encode false v = Some e /\ write_with other v = Ok e.
Proof.
  induction v using gval_ind; intros Hn;
    inversion Hn as [| | |? Hv|? Hl|? Hnd Hm]; subst; cbn [encode write_with]; eauto.
  - unfold number_lit. destruct (String.eqb_spec l EmptyString) as [->|]; [done|].
    rewrite Hv. eauto.
  - assert (exists es, mapM (encode false) l = Some es /\ mapM (write_with other) l = Ok es)
      as (es & He & Hw); [|rewrite He, Hw; eauto].
    clear Hn. induction H as [|v l Hv _ IH]; [by exists []|].
    apply list.Forall_cons in Hl as [H1 H2]. destruct (Hv H1) as (e & Ee & Ew).
    destruct (IH H2) as (es & Ees & Ews). exists (e :: es).
    cbn. by rewrite Ee, Ees, Ew, Ews.
  - assert (exists es, mapM (fun p : string * gval => e ← encode false p.2; Some (p.1, e)) m
      = Some es /\ map_vals (write_with other) m = map_vals Ok es) as (es & He & Hw).
    { clear Hn Hnd. induction H as [|[k v] m Hv _ IH]; [by exists []|].
      apply list.Forall_cons in Hm as [[_ H1] H2]. destruct (Hv H1) as (e & Ee & Ew).
      destruct (IH H2) as (es & Ees & Ews). exists ((k, e) :: es). cbn in Ee, Ew, Ees |- *.
      rewrite Ee. cbn. rewrite Ees, Ew. split; [done|]. f_equal. exact Ews. }
    rewrite He, Hw, write_object_ok. cbn. eauto.
Qed.

Lemma normal_wf v : normal v -> wf v.
Proof.
  induction v using gval_ind; intros Hn;
    inversion Hn as [| | | |? Hl|? Hnd Hm]; subst; try by constructor.
  - apply wf_array. clear Hn. induction H; constructor;
      apply list.Forall_cons in Hl as [? ?]; auto.
  - apply wf_object; [done|]. clear Hn Hnd. induction H; constructor;
      apply list.Forall_cons in Hm as [[? ?] ?]; auto.
Qed.

(** ** Normal values read back as themselves *)

Lemma build_object_fresh (acc m : gobj) :
  NoDup (map fst (acc ++ m)) -> Forall (fun p => valid_utf8 p.1 = true) m ->
  foldl (fun acc (p : string * gval) => assoc_set (fix_utf8 p.1) p.2 acc) acc m = acc ++ m.
Proof.
  revert acc. induction m as [|[k v] m IH]; intros acc Hnd Hv; [by rewrite app_nil_r|].
  apply list.Forall_cons in Hv as [Hk Hv]. simpl in Hk |- *.
  rewrite fix_utf8_valid, assoc_set_fresh; [|
    |done].
  - rewrite IH; [by rewrite <- app_assoc|by rewrite <- app_assoc|done].
  - rewrite map_app in Hnd. apply list.NoDup_app in Hnd as (_ & Hd & _).
    intros Hin. apply (Hd k); [done|]. left.
Qed.

Lemma build_object_sorted (m : gobj) :
  NoDup m.*1 -> Forall (fun p => valid_utf8 p.1 = true) m -> build_object m = sort_keys m.
Proof.
  intros Hnd Hv. unfold build_object.
  rewrite build_object_fresh; [done| |by rewrite sort_keys_perm].
  simpl. change (NoDup (sort_keys m).*1). by rewrite sort_keys_perm.
Qed.

Lemma normal_norm v : normal v -> geq (norm v) v.
Proof.
  induction v using gval_ind; intros Hn;
    inversion Hn as [| |? Hs| |? Hl|? Hnd Hm]; subst; cbn [norm]; try done.
  - by rewrite fix_utf8_valid.
  - destruct (String.eqb_spec l EmptyString) as [->|]; done.
  - constructor. clear Hn. induction H; constructor;
      apply list.Forall_cons in Hl as [? ?]; auto.
  - assert (Forall (fun p : string * gval => valid_utf8 p.1 = true) m) as Hk.
    { eapply list.Forall_impl; [exact Hm|]. by intros p [? ?]. }
    change (map _ m) with (map_vals norm m).
    rewrite build_object_sorted.
    + apply geq_object with (map_vals norm m); [by rewrite sort_keys_perm|].
      clear Hn Hnd Hk. induction H; constructor;
        apply list.Forall_cons in Hm as [[? ?] ?]; [split; auto|auto].
    + change (NoDup (map fst (map_vals norm m))). by rewrite map_vals_keys.
    + unfold map_vals. apply List.Forall_map. exact Hk.
Qed.

(** ** Whatever the decoder returns is normal and not too deep *)

Definition fits (d : Z) (v : gval) : Prop := normal v /\ depth v <= d.
Definition member_fits (d : Z) (p : string * gval) : Prop :=
  valid_utf8 p.1 = true /\ fits d p.2.

Lemma assoc_set_Forall {V} (P : string * V -> Prop) k v m :
  P (k, v) -> Forall P m -> Forall P (assoc_set k v m).
Proof.
  intros Hp. induction 1 as [|[k' v'] m Hq Hm IH]; simpl; [by repeat constructor|].
  destruct (String.eqb k k'); by constructor.
Qed.

Lemma foldr_max_le {A} (f : A -> Z) d l :
  0 <= d -> Forall (fun x => f x <= d) l -> foldr Z.max 0 (map f l) <= d.
Proof. intros H. induction 1; simpl; lia. Qed.

Lemma fits_array d l : 0 < d -> Forall (fits (d - 1)) l -> fits d (VArray l).
Proof.
  intros Hd Hl. apply list.Forall_and in Hl as [Hn Hl]. split; [by constructor|].
  cbn [depth]. apply foldr_max_le in Hl; lia.
Qed.

Lemma fits_object d (m : gobj) :
  0 < d -> NoDup m.*1 -> Forall (member_fits (d - 1)) m -> fits d (VObject m).
Proof.
  intros Hd Hnd Hm. split.
  - constructor; [done|]. eapply list.Forall_impl; [exact Hm|]. by intros p (? & ? & ?).
  - cbn [depth]. assert (Forall (fun p : string * gval => depth p.2 <= d - 1) m) as Hl.
    { eapply list.Forall_impl; [exact Hm|]. by intros p (? & ? & ?). }
    apply foldr_max_le in Hl; lia.
Qed.

Definition elems_fit (f : nat) : Prop := forall d s l rest,
  0 <= d -> parse_elems f d s = Some (l, rest) -> Forall (fits d) l.
Definition members_fit (f : nat) : Prop := forall d acc s (m : gobj) rest,
  0 <= d -> NoDup acc.*1 -> Forall (member_fits d) acc ->
  parse_members f d acc s = Some (m, rest) -> NoDup m.*1 /\ Forall (member_fits d) m.
Definition value_fits (f : nat) : Prop := forall d s v rest,
  0 <= d -> parse_value f d s = Some (v, rest) -> fits d v.

Lemma parse_value_fits f : elems_fit f -> members_fit f -> value_fits (S f).
Proof.
  intros IHe IHm d s v rest Hd. destruct s as [|c s]; [done|]. cbn [parse_value].
  destruct (Ascii.eqb c dquote).
  { destruct (parse_string s) as [[t r]|] eqn:E; [|done]. cbn. intros; simplify_eq.
    split; [constructor|simpl; lia]. by eapply parse_str_valid. }
  destruct (Ascii.eqb c "[").
  { destruct (Z.leb_spec d 0); [done|]. destruct (skip_ws s) as [|e s'] eqn:Es; [done|].
    destruct (Ascii.eqb e "]"); [intros; simplify_eq; by apply fits_array|].
    destruct (parse_elems f (d - 1) _) as [[l r]|] eqn:E; [|done]. cbn. intros; simplify_eq.
    apply fits_array; [done|]. apply IHe in E; [done|lia]. }
  destruct (Ascii.eqb c "{").
  { destruct (Z.leb_spec d 0); [done|]. destruct (skip_ws s) as [|e s'] eqn:Es; [done|].
    destruct (Ascii.eqb e "}").
    - intros; simplify_eq. apply fits_object; [done|apply NoDup_nil_2|constructor].
    - destruct (parse_members f (d - 1) [] _) as [[m r]|] eqn:E; [|done]. cbn.
      intros; simplify_eq.
      apply IHm in E as [? ?]; [by apply fits_object|lia|apply NoDup_nil_2|constructor]. }
  assert (forall w u, parse_word w u (String c s) = Some (v, rest) -> u = v) as Hw.
  { intros w u. unfold parse_word. destruct (strip_prefix w _); [|done]. cbn. by intros [= ->]. }
  repeat (destruct (Ascii.eqb c _);
    [intros H; apply Hw in H as <-; split; [constructor|simpl; lia]|]).
  destruct (scan_number _) as [[l r]|] eqn:E; [|done]. cbn. intros; simplify_eq.
  split; [constructor|simpl; lia]. by eapply scan_number_valid.
Qed.

Lemma parse_elems_fits f : value_fits f -> elems_fit f -> elems_fit (S f).
Proof.
  intros IHv IHe d s l rest Hd. cbn [parse_elems].
  destruct (parse_value f d s) as [[v s1]|] eqn:Ev; [|done]. cbn.
  destruct (skip_ws s1) as [|c r]; [done|].
  destruct (Ascii.eqb c "]"); [intros; simplify_eq; eauto|].
  destruct (Ascii.eqb c ","); [|done].
  destruct (parse_elems f d _) as [[l' r']|] eqn:Ee; [|done]. cbn. intros; simplify_eq. eauto.
Qed.

Lemma parse_members_fits f : value_fits f -> members_fit f -> members_fit (S f).
Proof.
  intros IHv IHm d acc s m rest Hd Hnd Hacc. cbn [parse_members].
  destruct s as [|q s]; [done|]. destruct (Ascii.eqb q dquote); [|done].
  destruct (parse_string s) as [[k s1]|] eqn:Ek; [|done]. cbn.
  destruct (skip_ws s1) as [|c s2]; [done|]. destruct (Ascii.eqb c ":"); [|done].
  destruct (parse_value f d _) as [[v s3]|] eqn:Ev; [|done]. cbn.
  assert (Forall (member_fits d) (assoc_set k v acc)) as Hs.
  { apply assoc_set_Forall; [|done]. split; [by eapply parse_str_valid|eauto]. }
  pose proof (assoc_set_NoDup k v acc Hnd) as Hnd'.
  destruct (skip_ws s3) as [|e r]; [done|]. destruct (Ascii.eqb e "}").
  - intros; by simplify_eq.
  - destruct (Ascii.eqb e ","); [|done]. by apply IHm.
Qed.

Lemma parse_fits f : value_fits f /\ elems_fit f /\ members_fit f.
Proof.
  induction f as [|f (IHv & IHe & IHm)]; [split; [|split]; by intros ?|].
  split; [by apply parse_value_fits|]. split; [by apply parse_elems_fits|].
  by apply parse_members_fits.
Qed.

Lemma decode_json_fits s v : decode_json s = Some v -> fits max_depth v.
Proof.
  unfold decode_json. destruct (parse_value _ _ _) as [[u r]|] eqn:E; [|done].
  intros [= <-]. destruct (parse_fits (S (String.length s))) as [Hv _].
  by eapply Hv; [|exact E].
Qed.

Lemma decode_object_normal s m : decode_json s = Some (VObject m) -> normal_payload m.
Proof. apply decode_json_fits. Qed.

Lemma nil_normal : normal_payload [].
Proof. split; [constructor; [apply NoDup_nil_2|constructor]|done]. Qed.

Lemma decode_payload_normal raw m : DecodeJSONPayload raw = Ok m -> normal_payload m.
Proof.
  assert (normal_payload []) as He by apply nil_normal.
  unfold DecodeJSONPayload. destruct (String.eqb raw EmptyString); [intros; simplify_eq; apply nil_normal|].
  destruct (decode_json raw) as [[]|] eqn:E; intros; simplify_eq;
    [apply nil_normal|]. by eapply decode_object_normal.
Qed.

Lemma normalize_payload_normal p m : NormalizePayload p = Ok m -> normal_payload m.
Proof.
  destruct p as [p|]; [|intros [= <-]; apply nil_normal].
  unfold NormalizePayload, normalizeValue. destruct (marshal _) as [raw|]; cbn -[decode_json]; [|done].
  destruct (decode_json raw) as [v|] eqn:E; cbn; [|done].
  destruct v; intros; simplify_eq. by eapply decode_object_normal.
Qed.

(** ** Writing and reading back *)

Lemma canonical_normal v : normal v -> exists e, encode false v = Some e /\ CanonicalJSON v = Ok e.
Proof. apply write_normal. Qed.

Lemma canonical_decodes v : normal v -> depth v <= max_depth ->
  exists e w, CanonicalJSON v = Ok e /\ decode_json e = Some w /\ geq w v.
Proof.
  intros Hn Hd. destruct (canonical_normal v Hn) as (e & He & Hw).
  exists e, (norm v). split; [done|]. split; [|by apply normal_norm].
  rewrite <- (app_nil_str e). by eapply decode_encode_json.
Qed.

Lemma geq_object_inv m w : geq (VObject m) w -> exists m', w = VObject m'.
Proof. inversion 1; eauto. Qed.

Lemma canonical_inj v w : normal v -> normal w -> depth v <= max_depth -> depth w <= max_depth ->
  CanonicalJSON v = CanonicalJSON w -> geq v w.
Proof.
  intros Hv Hw Dv Dw E.
  destruct (canonical_decodes v Hv Dv) as (e & u & E1 & D1 & G1).
  destruct (canonical_decodes w Hw Dw) as (e' & u' & E2 & D2 & G2).
  assert (e = e') as <- by congruence. rewrite <- G1, <- G2. by assert (u = u') as -> by congruence.
Qed.

Lemma payload_decodes m : normal_payload m ->
  exists e m', CanonicalJSON (VObject m) = Ok e /\ DecodeJSONPayload e = Ok m' /\
    geq (VObject m') (VObject m).
Proof.
  intros [Hn Hd]. destruct (canonical_decodes _ Hn Hd) as (e & w & E & D & G).
  destruct (geq_object_inv m w) as [m' ->]; [by symmetry|].
  exists e, m'. split; [done|]. split; [|done]. unfold DecodeJSONPayload.
  destruct (String.eqb_spec e EmptyString) as [->|]; [done|]. by rewrite D.
Qed.

Lemma normalize_total p e :
  marshal (VObject p) = Some e -> depth (VObject p) <= max_depth ->
  exists q, NormalizePayload (Some p) = Ok q /\ VObject q = norm (VObject p).
Proof.
  intros He Hd. unfold NormalizePayload, normalizeValue. rewrite He. cbn -[decode_json norm].
  rewrite <- (app_nil_str e). erewrite decode_encode_json by done. cbn. eauto.
Qed.

Lemma canonical_geq v w : wf v -> geq v w -> CanonicalJSON v = CanonicalJSON w.
Proof. apply write_with_geq. Qed.

Lemma payload_rehash m : normal_payload m ->
  exists e m', CanonicalJSON (VObject m) = Ok e /\ DecodeJSONPayload e = Ok m' /\
    geq (VObject m') (VObject m) /\ CanonicalJSON (VObject m') = Ok e.
Proof.
  intros Hm. destruct (payload_decodes m Hm) as (e & m' & E & D & G).
  exists e, m'. repeat split; try done. rewrite <- E. symmetry.
  apply canonical_geq; [apply normal_wf, Hm|by symmetry].
Qed.

(** ** Properties *)

(** payloads that are equal as data have the same canonical encoding, whatever order their
    maps are iterated in: the encoding (or the error) is a function of the data. *)
Theorem canonical_proper v w : wf v -> geq v w -> CanonicalJSON v = CanonicalJSON w.
Proof. apply canonical_geq. Qed.

Definition sample_payload : gobj :=
  [("path", VString "/login"); ("score", VNumber "1.50");
   ("rules", VArray [VString "ip_block"; VBool true; VNil])].

Definition sample_reordered : gobj :=
  [("score", VNumber "1.50"); ("path", VString "/login");
   ("rules", VArray [VString "ip_block"; VBool true; VNil])].

Lemma sample_NoDup : NoDup sample_payload.*1.
Proof. by apply (bool_decide_unpack _). Qed.

Lemma sample_normal : normal (VObject sample_payload).
Proof. constructor; [apply sample_NoDup|]. repeat constructor. Qed.

Theorem canonical_proper_witness :
  CanonicalJSON (VObject sample_payload) = CanonicalJSON (VObject sample_reordered).
Proof.
  apply canonical_proper; [apply normal_wf, sample_normal|].
  apply geq_object with sample_reordered; [apply Permutation_swap|].
  repeat constructor.
Defined.

(** the canonical encoding is injective on normalised values: two normal values with the
    same bytes are equal as data, so the hash of the bytes pins the data. *)
Theorem canonical_injective v w :
  normal v -> normal w -> depth v <= max_depth -> depth w <= max_depth ->
  CanonicalJSON v = CanonicalJSON w -> geq v w.
Proof. apply canonical_inj. Qed.

Theorem canonical_injective_witness :
  geq (VObject sample_payload) (VObject sample_payload).
Proof.
  apply canonical_injective; [apply sample_normal|apply sample_normal| | |reflexivity];
    vm_compute; discriminate.
Defined.

(** [NormalizePayload] succeeds on every payload the JSON encoder accepts that nests at
    most as deep as the decoder allows, and gives a normal payload: strings valid UTF-8,
    numbers as literals, only [map[string]any] and [[]any] as containers. *)
Theorem normalize_payload_total p e :
  marshal (VObject p) = Some e -> depth (VObject p) <= max_depth ->
  exists q, NormalizePayload (Some p) = Ok q /\ VObject q = norm (VObject p) /\ normal_payload q.
Proof.
  intros He Hd. destruct (normalize_total p e He Hd) as (q & E & Hq).
  exists q. split; [done|]. split; [done|]. by eapply normalize_payload_normal.
Qed.

Theorem normalize_payload_total_witness :
  exists q, NormalizePayload (Some [("n", VInt (-7)); ("tags", VStrings ["a"; "b"])]) = Ok q /\
    VObject q = norm (VObject [("n", VInt (-7)); ("tags", VStrings ["a"; "b"])]) /\
    normal_payload q.
Proof.
  eapply normalize_payload_total; [reflexivity|]. vm_compute. discriminate.
Defined.

(** C24: what is sealed is what is verified.  A payload that [NormalizePayload] accepted is
    encoded canonically without error, [DecodeJSONPayload] reads those bytes back to a payload
    equal as data, and encoding that again gives the very same bytes. *)
Theorem payload_store_roundtrip p q : NormalizePayload p = Ok q ->
  exists raw q', CanonicalJSON (VObject q) = Ok raw /\ DecodeJSONPayload raw = Ok q' /\
    geq (VObject q') (VObject q) /\ CanonicalJSON (VObject q') = Ok raw.
Proof. intros H. apply payload_rehash. by eapply normalize_payload_normal. Qed.

Definition sample_stored : gobj :=
  [("path", VString "/login"); ("rules", VArray [VString "ip_block"; VBool true; VNil]);
   ("score", VNumber "1.50")].

Theorem payload_store_roundtrip_witness :
  exists raw q', CanonicalJSON (VObject sample_stored) = Ok raw /\
    DecodeJSONPayload raw = Ok q' /\ geq (VObject q') (VObject sample_stored) /\
    CanonicalJSON (VObject q') = Ok raw.
Proof. by apply (payload_store_roundtrip (Some sample_reordered)). Defined.
