(* ===== verification/Model.v ===== *)
(** * The shared types and the audit entry

    [internal/model/model.go], [rules.go] and [audit.go]: requests, decisions, stored rules,
    and the hash that links one audit entry to the one before it.  The bytes that are hashed
    determine the entry's content, and equal content gives equal bytes. *)

From S2P Require Import Prelude Utf8 GoText GoTime Sha256 GoJson GoJsonRound Canonical.

(** ** [model.go] *)

Inductive Verdict := Allow | Block.

#[export] Instance Verdict_eq_dec : EqDecision Verdict.
Proof. solve_decision. Defined.

Definition verdict_str (v : Verdict) : string :=
  match v with Allow => "allow" | Block => "block" end.

Definition KindTraffic : string := "traffic".
Definition KindSystem : string := "system".
Definition KindAdmin : string := "admin".

Record RequestContext := Request {
  RequestID : string;
  IP : string;
  Method : string;
  Path : string;
  Query : string;
  Headers : list (string * string);
  Body : string;
  BodyTruncated : bool;
  ReceivedAt : Z
}.

(** [RequestContext.Header] *)
Definition Header (r : RequestContext) (name : string) : string :=
  default EmptyString (assoc name (Headers r)).

Record Decision := MkDecision {
  d_Verdict : Verdict;
  d_Rule : string;
  d_Reason : string;
  d_Status : Z;
  DecisionMS : spec_float
}.

(** ** [rules.go] *)

Definition ActionAllow : string := "allow".
Definition ActionDeny : string := "deny".

Record IPRule := MkIPRule {
  CIDR : string;
  Action : string;
  Note : string;
  CreatedAt : Z;
  CreatedBy : string
}.

Record RuleConfig := MkRuleConfig {
  rc_Name : string;
  rc_Enabled : bool;
  rc_Config : gobj;
  UpdatedAt : Z;
  UpdatedBy : string
}.

(** ** [audit.go] *)

Definition GenesisHash : string := sconcat (replicate 64 "0").

#[global] Arguments GenesisHash : simpl never.

(** A nil payload and an empty one hash, match and print the same: both are []. *)
Record AuditEntry := Entry {
  e_ID : string;
  e_RequestID : string;
  e_Timestamp : Z;
  e_Kind : string;
  e_Payload : gobj;
  e_PrevHash : string;
  e_Hash : string
}.

(** [writeField]: what the digest has been given so far, then the length of the field as eight
    big-endian bytes, then the field. *)
Definition writeField (h : list Z) (b : string) : list Z :=
  h ++ be_bytes 8 (slen b) ++ sbytes b.

Definition canonical_payload (e : AuditEntry) : string :=
  match CanonicalJSON (VObject (e_Payload e)) with
  | Ok payload => payload
  | Err _ => String zero "uncanonicalizable"
  end.

Definition fields_of (e : AuditEntry) : list string :=
  [e_PrevHash e; e_ID e; e_RequestID e; rfc3339_nano (e_Timestamp e); e_Kind e;
   canonical_payload e].

(** What [ComputeHash] feeds to the digest. *)
Definition preimage (e : AuditEntry) : list Z := foldl writeField [] (fields_of e).

Definition ComputeHash (e : AuditEntry) : string := hex (sha256 (preimage e)).

#[global] Arguments ComputeHash : simpl never.

(** [Seal]: the sealed entry; its [e_Hash] is the new head. *)
Definition Seal (e : AuditEntry) (prevHash : string) : AuditEntry :=
  let prevHash := if String.eqb prevHash EmptyString then GenesisHash else prevHash in
  let e := Entry (e_ID e) (e_RequestID e) (e_Timestamp e) (e_Kind e) (e_Payload e)
             prevHash (e_Hash e) in
  Entry (e_ID e) (e_RequestID e) (e_Timestamp e) (e_Kind e) (e_Payload e) prevHash
    (ComputeHash e).

(** ** Specification: the content of an entry *)

(** Two entries record the same event after the same predecessor; their own hashes aside. *)
Record same_content (a b : AuditEntry) : Prop := {
  sc_prev : e_PrevHash a = e_PrevHash b;
  sc_id : e_ID a = e_ID b;
  sc_request : e_RequestID a = e_RequestID b;
  sc_time : e_Timestamp a = e_Timestamp b;
  sc_kind : e_Kind a = e_Kind b;
  sc_payload : geq (VObject (e_Payload a)) (VObject (e_Payload b))
}.

#[export] Instance same_content_equivalence : Equivalence same_content.
Proof.
  split.
  - intros a. split; done.
  - intros a b []. split; done.
  - intros a b c [] []. split; etransitivity; done.
Qed.

(** A string of a length a Go [int] can hold. *)
Definition go_sized (s : string) : Prop := slen s <= int64_max.

(** An entry as the writer builds it and the store reads it back: a normal payload, a
    timestamp RFC 3339 can print, fields that fit in memory. *)
Record entry_ok (e : AuditEntry) : Prop := {
  ok_payload : normal_payload (e_Payload e);
  ok_time : rfc_year (e_Timestamp e);
  ok_sized : Forall go_sized (fields_of e)
}.

(** SHA-256 tells the given messages apart. *)
Definition collision_free (l : list (list Z)) : Prop :=
  forall x y, x ∈ l -> y ∈ l -> sha256 x = sha256 y -> x = y.

(** ** The hashed bytes determine the fields *)

Lemma writeField_app h b : writeField h b = h ++ writeField [] b.
Proof. done. Qed.

Lemma writeField_cons_inj a b x y :
  go_sized a -> go_sized b ->
  writeField [] a ++ x = writeField [] b ++ y -> a = b /\ x = y.
Proof.
  unfold writeField, go_sized, int64_max. intros Ha Hb H. rewrite !app_nil_l in H.
  rewrite <- !app_assoc in H. apply app_inj_1 in H as [Hl H]; [|done].
  apply be_bytes_inj in Hl;
    [|pose proof (slen_nonneg a); simpl; lia|pose proof (slen_nonneg b); simpl; lia].
  unfold slen in Hl. apply app_inj_1 in H as [H ->]; [|rewrite !length_sbytes; lia].
  split; [by apply sbytes_inj|done].
Qed.

Lemma foldl_writeField h l : foldl writeField h l = h ++ concat (map (writeField []) l).
Proof.
  revert h. induction l as [|b l IH]; intros h; cbn [foldl map concat].
  - by rewrite app_nil_r.
  - rewrite IH, writeField_app. by rewrite app_assoc.
Qed.

Lemma fields_inj l1 l2 :
  List.length l1 = List.length l2 -> Forall go_sized l1 -> Forall go_sized l2 ->
  foldl writeField [] l1 = foldl writeField [] l2 -> l1 = l2.
Proof.
  rewrite !foldl_writeField. cbn [app]. revert l2.
  induction l1 as [|a l1 IH]; intros [|b l2] Hl H1 H2 H; simpl in Hl; try done.
  apply list.Forall_cons in H1 as [Ha H1]. apply list.Forall_cons in H2 as [Hb H2].
  cbn [map concat] in H. apply writeField_cons_inj in H as [-> H]; [|done..].
  f_equal. apply IH; auto.
Qed.

Lemma canonical_payload_inj a b :
  normal_payload (e_Payload a) -> normal_payload (e_Payload b) ->
  canonical_payload a = canonical_payload b ->
  geq (VObject (e_Payload a)) (VObject (e_Payload b)).
Proof.
  intros [Na Da] [Nb Db]. unfold canonical_payload.
  destruct (canonical_normal _ Na) as (ea & _ & Ea).
  destruct (canonical_normal _ Nb) as (eb & _ & Eb). rewrite Ea, Eb. intros <-.
  apply canonical_inj; congruence.
Qed.

Lemma preimage_inj a b :
  entry_ok a -> entry_ok b -> preimage a = preimage b -> same_content a b.
Proof.
  intros [Pa Ta Sa] [Pb Tb Sb] H. apply fields_inj in H; [|done..].
  unfold fields_of in H. injection H as Hp Hi Hr Ht Hk Hc.
  split; try done; [by apply rfc3339_nano_inj|by apply canonical_payload_inj].
Qed.

Lemma preimage_geq a b :
  wf (VObject (e_Payload a)) -> same_content a b -> preimage a = preimage b.
Proof.
  intros Hwf []. unfold preimage, fields_of, canonical_payload.
  by rewrite sc_prev0, sc_id0, sc_request0, sc_time0, sc_kind0,
    (canonical_geq _ (VObject (e_Payload b))).
Qed.

Lemma entry_ok_wf e : entry_ok e -> wf (VObject (e_Payload e)).
Proof. intros [[Hn _] _ _]. by apply normal_wf. Qed.

Lemma bval_hex_digit a : 0 <= a < 16 -> bval (hex_digit a) = if a <? 10 then 48 + a else 87 + a.
Proof. intros H. unfold hex_digit. rewrite bval_bof; [done|]. case_match; lia. Qed.

Lemma hex_digit_inj a b : 0 <= a < 16 -> 0 <= b < 16 -> hex_digit a = hex_digit b -> a = b.
Proof.
  intros Ha Hb H. apply (f_equal bval) in H. rewrite !bval_hex_digit in H by done.
  destruct (Z.ltb_spec a 10), (Z.ltb_spec b 10); lia.
Qed.

Lemma hex_inj l1 l2 :
  Forall (fun b => 0 <= b < 256) l1 -> Forall (fun b => 0 <= b < 256) l2 ->
  hex l1 = hex l2 -> l1 = l2.
Proof.
  intros H1. revert l2. induction H1 as [|a l1 Ha H1 IH]; intros [|b l2] H2 H; try done.
  apply list.Forall_cons in H2 as [Hb H2]. cbv beta in Ha, Hb. cbn [hex] in H. injection H as Hh Hl H.
  apply hex_digit_inj in Hh; [|dlia..]. apply hex_digit_inj in Hl; [|dlia..].
  f_equal; [dlia|auto].
Qed.

Lemma length_hex l : String.length (hex l) = (2 * List.length l)%nat.
Proof. induction l as [|z l IH]; [done|]. cbn [hex String.length List.length]. lia. Qed.

Lemma length_hash e : String.length (ComputeHash e) = 64%nat.
Proof. unfold ComputeHash. by rewrite length_hex, length_sha256. Qed.

Lemma hash_inj l a b : collision_free l -> preimage a ∈ l -> preimage b ∈ l ->
  ComputeHash a = ComputeHash b -> preimage a = preimage b.
Proof.
  intros Hc Ha Hb H. apply Hc; [done..|]. apply hex_inj in H; auto using sha256_range.
Qed.

Lemma hash_content l a b : collision_free l -> preimage a ∈ l -> preimage b ∈ l ->
  entry_ok a -> entry_ok b -> ComputeHash a = ComputeHash b -> same_content a b.
Proof. intros Hc Ha Hb Oa Ob H. apply preimage_inj; [done..|]. by eapply hash_inj. Qed.

Lemma hash_proper a b :
  wf (VObject (e_Payload a)) -> same_content a b -> ComputeHash a = ComputeHash b.
Proof. intros Hwf H. unfold ComputeHash. by rewrite (preimage_geq a b). Qed.

Lemma seal_hash e prev : e_Hash (Seal e prev) = ComputeHash (Seal e prev).
Proof. done. Qed.

(** A collision-free list, by evaluation. *)
Lemma collision_free_NoDup l : NoDup (map sha256 l) -> collision_free l.
Proof.
  intros Hnd x y Hx Hy E. induction l as [|z l IH]; [by apply elem_of_nil in Hx|].
  simpl in Hnd. apply list.NoDup_cons in Hnd as [Hz Hnd].
  apply elem_of_cons in Hx as [->|Hx], Hy as [->|Hy]; auto; exfalso; apply Hz.
  - rewrite E. by apply list_elem_of_fmap_2.
  - rewrite <- E. by apply list_elem_of_fmap_2.
Qed.

#[export] Hint Resolve preimage_geq entry_ok_wf : shield.

(** ** Properties *)

Lemma collision_free_same x y : x = y -> collision_free [x; y].
Proof.
  intros -> a b Ha Hb _. apply elem_of_cons in Ha as [->|Ha], Hb as [->|Hb]; auto.
  - by apply list_elem_of_singleton in Hb as ->.
  - by apply list_elem_of_singleton in Ha as ->.
  - by apply list_elem_of_singleton in Ha as ->, Hb as ->.
Qed.

Definition sample_entry (p : gobj) : AuditEntry :=
  Entry "id-1" "req-1" (1700000000 * second + 5 * millisecond) KindTraffic p GenesisHash "".

Lemma sample_reordered_normal : normal (VObject sample_reordered).
Proof. constructor; [by apply (bool_decide_unpack _)|]. repeat constructor. Qed.

Lemma sample_entry_ok p :
  normal (VObject p) -> bool_decide (depth (VObject p) <= max_depth) = true ->
  forallb (fun s => slen s <=? int64_max) (fields_of (sample_entry p)) = true ->
  entry_ok (sample_entry p).
Proof.
  intros Hn Hd Hs. split.
  - split; [done|]. by apply bool_decide_eq_true in Hd.
  - split; vm_compute; congruence.
  - apply list.Forall_forall. intros s Hin. rewrite forallb_forall in Hs.
    apply Z.leb_le, Hs. by apply list_elem_of_In.
Qed.

(** C11: the hash is a function of the content and, as long as SHA-256 tells the two byte strings
    apart, of nothing less: two entries have the same [ComputeHash] exactly when they agree on
    predecessor, id, request id, instant and kind and their payloads are equal as data.  No
    other split of the same bytes into fields exists, and map order does not matter. *)
Theorem compute_hash_content a b :
  entry_ok a -> entry_ok b -> collision_free [preimage a; preimage b] ->
  ComputeHash a = ComputeHash b <-> same_content a b.
Proof.
  intros Ha Hb Hc. split.
  - intros H. eapply hash_content; [exact Hc|left|right; left|done..].
  - intros H. apply hash_proper; auto with shield.
Qed.

Theorem compute_hash_content_witness :
  ComputeHash (sample_entry sample_payload) = ComputeHash (sample_entry sample_reordered)
  <-> same_content (sample_entry sample_payload) (sample_entry sample_reordered).
Proof.
  apply compute_hash_content.
  - apply sample_entry_ok; [apply sample_normal|reflexivity|reflexivity].
  - apply sample_entry_ok; [apply sample_reordered_normal|reflexivity|reflexivity].
  - apply collision_free_same. reflexivity.
Defined.
