(* ===== verification/AuditChain.v ===== *)
(** * Verifying the chain

    [internal/audit/verify.go]: the walker that recomputes a run of entries, and what a
    verified log promises.  [chain] is the specification (every entry names the hash before it
    and carries its own); the walker decides it and reports the first entry that breaks it. *)

From S2P Require Import Prelude Utf8 GoText GoTime Sha256 GoJson GoJsonRound Canonical Model.

#[local] Set Warnings "-clear-no-such-hyp".

(** ** The report ([repository.go]) *)

Record VerifyResult := VResult {
  v_OK : bool;
  v_Checked : Z;
  v_From : string;
  v_To : string;
  v_BrokenAt : string;
  v_Position : Z;
  v_Timestamp : string;
  v_Detail : string
}.

(** ** The walker *)

Record chainWalker := Walker { w_prev : string; w_position : Z }.

Definition newChainWalker (anchor : string) : chainWalker :=
  Walker (if String.eqb anchor EmptyString then GenesisHash else anchor) 0.

Definition short (hash : string) : string :=
  if slen hash <=? 12 then hash else stake 12 hash +:+ "…".

Definition broken (w : chainWalker) (entry : AuditEntry) (detail : string) : VerifyResult :=
  VResult false (w_position w) EmptyString EmptyString (e_ID entry) (w_position w)
    (rfc3339_nano (e_Timestamp entry)) detail.

Definition detail_link (recorded expected : string) : string :=
  "prev_hash does not match the previous entry: entry records " +:+ short recorded +:+
  ", chain expects " +:+ short expected +:+
  " (an entry was deleted, reordered or inserted here)".

Definition detail_content (stored recomputed : string) : string :=
  "stored hash " +:+ short stored +:+ " does not match the recomputed hash " +:+
  short recomputed +:+ " (this entry's content was modified after it was written)".

(** One entry: the walker afterwards, and the break it found. *)
Definition step (w : chainWalker) (entry : AuditEntry) : chainWalker * option VerifyResult :=
  let w := Walker (w_prev w) (w_position w + 1) in
  if negb (String.eqb (e_PrevHash entry) (w_prev w)) then
    (w, Some (broken w entry (detail_link (e_PrevHash entry) (w_prev w))))
  else
    let recomputed := ComputeHash entry in
    if negb (String.eqb recomputed (e_Hash entry)) then
      (w, Some (broken w entry (detail_content (e_Hash entry) recomputed)))
    else (Walker (e_Hash entry) (w_position w), None).

Definition result_of (w : chainWalker) : VerifyResult :=
  VResult true (w_position w) EmptyString EmptyString EmptyString 0 EmptyString EmptyString.

(** The loop both stores run: stop at the first break, report a clean range otherwise. *)
Fixpoint walk (w : chainWalker) (es : list AuditEntry) : VerifyResult :=
  match es with
  | [] => result_of w
  | e :: es =>
      match step w e with
      | (_, Some report) => report
      | (w, None) => walk w es
      end
  end.

Definition stampRange (r : VerifyResult) (from to : Z) : VerifyResult :=
  VResult (v_OK r) (v_Checked r)
    (if is_zero_time from then v_From r else rfc3339 from)
    (if is_zero_time to then v_To r else rfc3339 to)
    (v_BrokenAt r) (v_Position r) (v_Timestamp r) (v_Detail r).

(** ** Specification *)

Inductive chain : string -> list AuditEntry -> Prop :=
| chain_nil p : chain p []
| chain_cons p e es :
    e_PrevHash e = p -> e_Hash e = ComputeHash e -> chain (e_Hash e) es -> chain p (e :: es).

(** The head of a log: the hash of its last entry, or where it started. *)
Fixpoint head_hash (p : string) (es : list AuditEntry) : string :=
  match es with
  | [] => p
  | e :: es => head_hash (e_Hash e) es
  end.

(** What makes one entry fail at the point the walker has reached. *)
Definition breaks (p : string) (e : AuditEntry) : Prop :=
  e_PrevHash e <> p \/ e_Hash e <> ComputeHash e.

Definition break_detail (p : string) (e : AuditEntry) : string :=
  if String.eqb (e_PrevHash e) p then detail_content (e_Hash e) (ComputeHash e)
  else detail_link (e_PrevHash e) p.

(** ** The walker decides the specification *)

Lemma chain_app p a b : chain p (a ++ b) <-> chain p a /\ chain (head_hash p a) b.
Proof.
  revert p. induction a as [|e a IH]; intros p; simpl.
  - split; [intros H; split; [constructor|done]|by intros [_ H]].
  - split.
    + inversion 1; subst. apply IH in H5 as [H1 H2]. split; [by constructor|done].
    + intros [H1 H2]. inversion H1; subst. constructor; [done..|]. by apply IH.
Qed.

Lemma head_hash_app p a b : head_hash p (a ++ b) = head_hash (head_hash p a) b.
Proof. revert p. induction a; simpl; auto. Qed.

Lemma head_hash_snoc p a e : head_hash p (a ++ [e]) = e_Hash e.
Proof. by rewrite head_hash_app. Qed.

Lemma step_ok w e :
  e_PrevHash e = w_prev w -> e_Hash e = ComputeHash e ->
  step w e = (Walker (e_Hash e) (w_position w + 1), None).
Proof. intros H1 H2. unfold step. by rewrite H1, H2, !String.eqb_refl. Qed.

Lemma step_breaks w e : breaks (w_prev w) e ->
  step w e = (Walker (w_prev w) (w_position w + 1),
    Some (broken (Walker (w_prev w) (w_position w + 1)) e (break_detail (w_prev w) e))).
Proof.
  unfold step, break_detail. cbn [w_prev w_position].
  destruct (String.eqb_spec (e_PrevHash e) (w_prev w)) as [E|E]; [|done].
  intros [H|H]; [done|]. destruct (String.eqb_spec (ComputeHash e) (e_Hash e)) as [E'|E']; [|done].
  by rewrite E' in H.
Qed.

Lemma walk_chain w es rest : chain (w_prev w) es ->
  walk w (es ++ rest)
  = walk (Walker (head_hash (w_prev w) es) (w_position w + Z.of_nat (List.length es))) rest.
Proof.
  revert w. induction es as [|e es IH]; intros w H; cbn [app head_hash List.length].
  - rewrite Z.add_0_r. by destruct w.
  - inversion H; subst. cbn [walk]. rewrite step_ok by done. rewrite IH by done.
    cbn [w_prev w_position]. do 2 f_equal. lia.
Qed.

Lemma walk_breaks w e rest : breaks (w_prev w) e ->
  walk w (e :: rest) = broken (Walker (w_prev w) (w_position w + 1)) e (break_detail (w_prev w) e).
Proof. intros H. cbn [walk]. by rewrite step_breaks. Qed.

Lemma breaks_dec p e : breaks p e \/ (e_PrevHash e = p /\ e_Hash e = ComputeHash e).
Proof.
  unfold breaks. destruct (String.eqb_spec (e_PrevHash e) p); [|by left; left].
  destruct (String.eqb_spec (e_Hash e) (ComputeHash e)); [by right|by left; right].
Qed.

(** A log is a chain, or it has a longest intact prefix and an entry that breaks it. *)
Lemma chain_or_break p es :
  chain p es \/ exists a e b, es = a ++ e :: b /\ chain p a /\ breaks (head_hash p a) e.
Proof.
  revert p. induction es as [|e es IH]; intros p; [left; constructor|].
  destruct (breaks_dec p e) as [H|[H1 H2]].
  - right. exists [], e, es. split; [done|]. split; [constructor|done].
  - destruct (IH (e_Hash e)) as [H|(a & x & b & -> & Ha & Hx)]; [left; by constructor|].
    right. exists (e :: a), x, b. split; [done|]. split; [by constructor|done].
Qed.

Lemma not_breaks_chain p a e b : chain p (a ++ e :: b) -> breaks (head_hash p a) e -> False.
Proof.
  intros H [Hb|Hb]; apply chain_app in H as [_ H]; inversion H; subst; done.
Qed.

Lemma walk_intact w es : chain (w_prev w) es ->
  walk w es = result_of (Walker (head_hash (w_prev w) es) (w_position w + Z.of_nat (List.length es))).
Proof. intros H. rewrite <- (app_nil_r es) at 1. by rewrite walk_chain. Qed.

(** The report for a break after [n] intact entries. *)
Lemma walk_broken w a e b :
  chain (w_prev w) a -> breaks (head_hash (w_prev w) a) e ->
  walk w (a ++ e :: b)
  = broken (Walker (head_hash (w_prev w) a) (w_position w + Z.of_nat (List.length a) + 1)) e
      (break_detail (head_hash (w_prev w) a) e).
Proof. intros Ha He. rewrite walk_chain by done. by rewrite walk_breaks. Qed.

Lemma walk_OK_iff w es : v_OK (walk w es) = true <-> chain (w_prev w) es.
Proof.
  split; [|intros H; by rewrite walk_intact].
  destruct (chain_or_break (w_prev w) es) as [H|(a & e & b & -> & Ha & He)]; [done|].
  by rewrite walk_broken.
Qed.

Lemma newChainWalker_prev anchor : anchor <> EmptyString -> newChainWalker anchor = Walker anchor 0.
Proof. intros H. unfold newChainWalker. by destruct (String.eqb_spec anchor EmptyString). Qed.

(** ** What an intact log promises *)

Definition anchor_of (anchor : string) : string := w_prev (newChainWalker anchor).

(** [VerifyChain] over entries already selected, from an anchor. *)
Definition verify_from (anchor : string) (es : list AuditEntry) : VerifyResult :=
  walk (newChainWalker anchor) es.

(** The assumptions under which a hash chain protects a log that starts at [p]: SHA-256 tells
    the entries' bytes apart, and none of them hashes to the anchor. *)
Record hash_sound (p : string) (es : list AuditEntry) : Prop := {
  hs_free : collision_free (map preimage es);
  hs_anchor : Forall (fun e => ComputeHash e <> p) es;
  hs_ok : Forall entry_ok es
}.

Lemma hash_sound_incl p es es' : (forall e, e ∈ es' -> e ∈ es) -> hash_sound p es -> hash_sound p es'.
Proof.
  intros Hin [Hf Ha Ho]. rewrite list.Forall_forall in Ha, Ho. split.
  - intros x y Hx Hy. apply Hf.
    + apply list_elem_of_fmap in Hx as (e & -> & He). by apply list_elem_of_fmap_2, Hin.
    + apply list_elem_of_fmap in Hy as (e & -> & He). by apply list_elem_of_fmap_2, Hin.
  - apply list.Forall_forall. auto.
  - apply list.Forall_forall. auto.
Qed.

Lemma chain_snoc_inv p a e : chain p (a ++ [e]) ->
  chain p a /\ e_PrevHash e = head_hash p a /\ e_Hash e = ComputeHash e.
Proof. intros H. apply chain_app in H as [H1 H2]. by inversion H2; subst. Qed.

Lemma hash_sound_entry p es e : hash_sound p es -> e ∈ es ->
  preimage e ∈ map preimage es /\ ComputeHash e <> p /\ entry_ok e.
Proof.
  intros [Hf Ha Ho] He. rewrite list.Forall_forall in Ha, Ho. split; [|auto].
  by apply list_elem_of_fmap_2.
Qed.

(** Two intact logs from the same anchor with the same head are the same log. *)
Lemma chain_head_inj p es a b :
  hash_sound p es -> (forall e, e ∈ a -> e ∈ es) -> (forall e, e ∈ b -> e ∈ es) ->
  chain p a -> chain p b -> head_hash p a = head_hash p b -> Forall2 same_content a b.
Proof.
  intros Hs. revert b.
  induction a as [|e a IH] using rev_ind; intros b Ia Ib Ca Cb E;
    destruct b as [|x b _] using rev_ind; [constructor| | |].
  - apply chain_snoc_inv in Cb as (_ & _ & Hx). rewrite head_hash_snoc in E. simpl in E.
    destruct (hash_sound_entry p es x Hs (Ib x ltac:(set_solver))) as (_ & Hne & _). congruence.
  - apply chain_snoc_inv in Ca as (_ & _ & Hx). rewrite head_hash_snoc in E. simpl in E.
    destruct (hash_sound_entry p es e Hs (Ia e ltac:(set_solver))) as (_ & Hne & _). congruence.
  - rewrite !head_hash_snoc in E.
    apply chain_snoc_inv in Ca as (Ca & Pe & He). apply chain_snoc_inv in Cb as (Cb & Px & Hx).
    destruct (hash_sound_entry p es e Hs (Ia e ltac:(set_solver))) as (Me & _ & Oe).
    destruct (hash_sound_entry p es x Hs (Ib x ltac:(set_solver))) as (Mx & _ & Ox).
    assert (same_content e x) as Hc.
    { eapply hash_content; [apply Hs|exact Me|exact Mx|done|done|congruence]. }
    apply Forall2_app; [|by constructor]. apply IH; [set_solver|set_solver|done|done|].
    rewrite <- Pe, <- Px. apply Hc.
Qed.

(** An entry found at one place of an intact log does not fit at another. *)
Lemma chain_misplaced p log a b a' x b' :
  hash_sound p log -> chain p log -> log = a ++ b -> log = a' ++ x :: b' ->
  List.length a' <> List.length a -> breaks (head_hash p a) x.
Proof.
  intros Hs Hc E E' Hl. left. intros Heq. apply Hl.
  assert (chain p a /\ chain p a' /\ e_PrevHash x = head_hash p a') as (Ca & Ca' & Px).
  { split; [rewrite E in Hc; by apply chain_app in Hc as [? _]|].
    rewrite E' in Hc. apply chain_app in Hc as [? Hx]. by inversion Hx; subst. }
  assert (Forall2 same_content a' a) as Hf; [|by apply Forall2_length in Hf].
  eapply chain_head_inj; [exact Hs| | |done|done|congruence]; intros e He.
  - rewrite E'. set_solver.
  - rewrite E. set_solver.
Qed.

(** Reseal a history: what somebody who can recompute every hash would write. *)
Fixpoint reseal (p : string) (es : list AuditEntry) : list AuditEntry :=
  match es with
  | [] => []
  | e :: es => let e' := Seal e p in e' :: reseal (e_Hash e') es
  end.

Lemma hash_nonempty e : ComputeHash e <> EmptyString.
Proof. intros H. pose proof (length_hash e) as Hl. rewrite H in Hl. done. Qed.

Lemma seal_prev e p : p <> EmptyString -> e_PrevHash (Seal e p) = p.
Proof. intros H. unfold Seal. cbn. by destruct (String.eqb_spec p EmptyString). Qed.

Lemma seal_chain e p : p <> EmptyString -> chain p [Seal e p].
Proof. intros H. constructor; [by apply seal_prev|done|constructor]. Qed.

Lemma reseal_chain p es : p <> EmptyString -> chain p (reseal p es).
Proof.
  revert p. induction es as [|e es IH]; intros p Hp; cbn [reseal]; constructor.
  - by apply seal_prev.
  - done.
  - apply IH. rewrite seal_hash. apply hash_nonempty.
Qed.

Lemma GenesisHash_nonempty : GenesisHash <> EmptyString.
Proof. done. Qed.

Lemma anchor_of_nonempty p : p <> EmptyString -> anchor_of p = p.
Proof. intros H. unfold anchor_of. by rewrite newChainWalker_prev. Qed.

#[export] Hint Resolve hash_nonempty GenesisHash_nonempty seal_chain reseal_chain : shield.

(** ** Properties *)

(** C2: the walker decides the specification and its report is exact on every branch.  Either
    the entries are a chain from the anchor, and the result is OK with all of them checked; or
    they split into an intact prefix, the first entry that breaks it, and the rest, and the
    report names that entry, its 1-based position, its time and what is wrong with it. *)
Theorem verify_exact anchor es :
  let p := anchor_of anchor in
  (chain p es /\ verify_from anchor es
     = VResult true (Z.of_nat (List.length es)) "" "" "" 0 "" "") \/
  (exists a e b, es = a ++ e :: b /\ chain p a /\ breaks (head_hash p a) e /\
     let n := Z.of_nat (List.length a) + 1 in
     verify_from anchor es
     = VResult false n "" "" (e_ID e) n (rfc3339_nano (e_Timestamp e))
         (break_detail (head_hash p a) e)).
Proof.
  cbv zeta. unfold verify_from, anchor_of.
  destruct (chain_or_break (w_prev (newChainWalker anchor)) es) as [H|(a & e & b & -> & Ha & He)].
  - left. split; [done|]. by rewrite walk_intact.
  - right. exists a, e, b. repeat split; try done. by rewrite walk_broken.
Qed.

(** C1: the head hash pins the whole log.  Two logs that both verify from the same anchor and
    end in the same head have the same number of entries and agree, entry by entry, on every
    recorded field: rewriting history without changing the head needs a SHA-256 collision. *)
Theorem head_pins_log anchor a b :
  let p := anchor_of anchor in
  hash_sound p (a ++ b) ->
  v_OK (verify_from anchor a) = true -> v_OK (verify_from anchor b) = true ->
  head_hash p a = head_hash p b -> Forall2 same_content a b.
Proof.
  cbv zeta. intros Hs Ha Hb. apply walk_OK_iff in Ha, Hb.
  apply (chain_head_inj _ _ _ _ Hs); try done; intros e He; apply elem_of_app; auto.
Qed.

(** an entry whose content was changed in place is reported at its own position, wherever it
    stands and whatever follows it: the row keeps its hash column, the content no longer
    matches. *)
Theorem modified_entry_reported anchor a e e' b :
  let p := anchor_of anchor in
  v_OK (verify_from anchor (a ++ e :: b)) = true ->
  hash_sound p [e; e'] -> e_Hash e' = e_Hash e -> ~ same_content e e' ->
  let r := verify_from anchor (a ++ e' :: b) in
  v_OK r = false /\ v_BrokenAt r = e_ID e' /\ v_Position r = Z.of_nat (List.length a) + 1.
Proof.
  cbv zeta. intros Hok Hs Hh Hd. apply walk_OK_iff in Hok.
  apply chain_app in Hok as [Ha He]. inversion He as [|? ? ? _ Hce]; subst.
  assert (breaks (head_hash (anchor_of anchor) a) e') as Hb.
  { right. intros Hc. apply Hd.
    destruct (hash_sound_entry _ _ e Hs) as (M & _ & O); [left|].
    destruct (hash_sound_entry _ _ e' Hs) as (M' & _ & O'); [right; left|].
    eapply hash_content; [apply Hs|exact M|exact M'|done|done|congruence]. }
  unfold verify_from. by rewrite walk_broken.
Qed.

(** recomputing the hash of a changed entry does not help while an entry follows it: the
    next entry still names the old hash.  The log is reported broken at the changed entry or
    at the one after it. *)
Theorem resealed_entry_reported anchor a e e' x b :
  let p := anchor_of anchor in
  v_OK (verify_from anchor (a ++ e :: x :: b)) = true ->
  hash_sound p [e; e'] -> ~ same_content e e' ->
  let r := verify_from anchor (a ++ e' :: x :: b) in
  let n := Z.of_nat (List.length a) in
  v_OK r = false /\
  ((v_BrokenAt r = e_ID e' /\ v_Position r = n + 1) \/
   (v_BrokenAt r = e_ID x /\ v_Position r = n + 2)).
Proof.
  cbv zeta. intros Hok Hs Hd. apply walk_OK_iff in Hok.
  apply chain_app in Hok as [Ha He]. inversion He as [|? ? ? Pe Hce Hx]; subst.
  inversion Hx as [|? ? ? Px _ _]; subst. unfold verify_from.
  destruct (breaks_dec (head_hash (anchor_of anchor) a) e') as [Hb|[Pe' Hc']].
  - rewrite walk_broken by done. split; [done|]. by left.
  - assert (breaks (head_hash (anchor_of anchor) (a ++ [e'])) x) as Hb.
    { rewrite head_hash_snoc. left. intros E. apply Hd.
      destruct (hash_sound_entry _ _ e Hs) as (M & _ & O); [left|].
      destruct (hash_sound_entry _ _ e' Hs) as (M' & _ & O'); [right; left|].
      eapply hash_content; [apply Hs|exact M|exact M'|done|done|congruence]. }
    assert (chain (anchor_of anchor) (a ++ [e'])) as Hc.
    { apply chain_app. split; [done|]. constructor; [done|done|constructor]. }
    change (a ++ e' :: x :: b) with (a ++ [e'] ++ x :: b). rewrite app_assoc.
    rewrite walk_broken by done. split; [done|]. right.
    cbn. rewrite length_app. simpl. split; [done|]. unfold newChainWalker. simpl. lia.
Qed.

(** C18: deletion, reordering and duplication are reported where they happen.  Keep the first
    entries of an intact log and go on with any entry of the same log that is not the next
    one: the report names that entry, at the position right after the kept ones. *)
Theorem misplaced_entry_reported anchor log a b a' x b' rest :
  let p := anchor_of anchor in
  hash_sound p log -> v_OK (verify_from anchor log) = true ->
  log = a ++ b -> log = a' ++ x :: b' -> List.length a' <> List.length a ->
  let r := verify_from anchor (a ++ x :: rest) in
  v_OK r = false /\ v_BrokenAt r = e_ID x /\ v_Position r = Z.of_nat (List.length a) + 1 /\
  v_Detail r = detail_link (e_PrevHash x) (head_hash p a).
Proof.
  cbv zeta. intros Hs Hok E E' Hl. apply walk_OK_iff in Hok.
  assert (chain (anchor_of anchor) a) as Ha by (rewrite E in Hok; by apply chain_app in Hok as [? _]).
  assert (chain (head_hash (anchor_of anchor) a') (x :: b')) as Hx.
  { rewrite E' in Hok. by apply chain_app in Hok as [_ ?]. }
  pose proof (chain_misplaced _ log a b a' x b' Hs Hok E E' Hl) as Hb.
  unfold verify_from. rewrite walk_broken by done. repeat split.
  cbn [broken v_Detail]. unfold break_detail. fold (anchor_of anchor).
  destruct (String.eqb_spec (e_PrevHash x) (head_hash (anchor_of anchor) a)) as [Ep|]; [|done].
  inversion Hx as [|? ? ? _ Hc]; subst. by destruct Hb.
Qed.

(** what the chain alone does not detect.  Every prefix of an intact log verifies, so
    deleting the newest entries leaves no trace; and anybody who can recompute hashes can
    reseal any history from any point so that it verifies. *)
Theorem truncation_and_reseal_verify p log a b es :
  p <> "" -> log = a ++ b -> v_OK (verify_from p log) = true ->
  v_OK (verify_from p a) = true /\
  v_OK (verify_from p (a ++ reseal (head_hash p a) es)) = true.
Proof.
  intros Hp -> Hok. apply walk_OK_iff in Hok. fold (anchor_of p) in Hok.
  rewrite anchor_of_nonempty in Hok by done. apply chain_app in Hok as [Ha _].
  unfold verify_from. split; apply walk_OK_iff; fold (anchor_of p); rewrite anchor_of_nonempty by done.
  - done.
  - apply chain_app. split; [done|]. apply reseal_chain.
    destruct a as [|e a _] using rev_ind; [done|].
    apply chain_snoc_inv in Ha as (_ & _ & He). rewrite head_hash_snoc, He. apply hash_nonempty.
Qed.

(** ** The properties on a concrete log *)

Definition sample_events : list AuditEntry :=
  [Entry "a" "r1" (1700000000 * second) KindTraffic [("verdict", VString "block")] "" "";
   Entry "b" "" (1700000001 * second) KindSystem [] "" "";
   Entry "c" "r3" (1700000002 * second) KindAdmin [] "" ""].

Definition sample_log : list AuditEntry := Eval vm_compute in reseal GenesisHash sample_events.

(** The first entry with its verdict rewritten, its hash column left alone. *)
Definition sample_edit : AuditEntry := Eval vm_compute in
  match sample_log with
  | e :: _ => Entry (e_ID e) (e_RequestID e) (e_Timestamp e) (e_Kind e)
      [("verdict", VString "allow")] (e_PrevHash e) (e_Hash e)
  | [] => Entry "" "" 0 "" [] "" ""
  end.

Lemma hashes_eq es digests :
  map (fun e => sha256 (preimage e)) es = digests -> map ComputeHash es = map hex digests.
Proof. intros <-. by rewrite map_map. Qed.

Lemma sound_from_digests p es digests :
  map (fun e => sha256 (preimage e)) es = digests ->
  NoDup digests -> Forall (fun h => h <> p) (map hex digests) -> Forall entry_ok es ->
  hash_sound p es.
Proof.
  intros E Hnd Hp Ho. split; [| |done].
  - apply collision_free_NoDup. by rewrite map_map, E.
  - apply List.Forall_map with (P := fun h => h <> p). by rewrite (hashes_eq _ _ E).
Qed.

Lemma hashes_from_digests es digests :
  map (fun e => sha256 (preimage e)) es = digests -> map hex digests = map e_Hash es ->
  map ComputeHash es = map e_Hash es.
Proof. intros E <-. by apply hashes_eq. Qed.

Fixpoint links (p : string) (es : list AuditEntry) : bool :=
  match es with
  | [] => true
  | e :: es => String.eqb (e_PrevHash e) p && links (e_Hash e) es
  end.

Lemma chain_links p es : links p es = true -> map ComputeHash es = map e_Hash es -> chain p es.
Proof.
  revert p. induction es as [|e es IH]; intros p Hl Hh; constructor; cbn [map links] in Hl, Hh.
  - apply andb_prop in Hl as [Hl _]. by apply String.eqb_eq.
  - by injection Hh as -> _.
  - apply andb_prop in Hl as [_ Hl]. injection Hh as _ Hh. by apply IH.
Qed.

Lemma entry_ok_check e :
  normal (VObject (e_Payload e)) -> (depth (VObject (e_Payload e)) <=? max_depth) = true ->
  ((0 <=? year_of (e_Timestamp e)) && (year_of (e_Timestamp e) <? 10000)) = true ->
  forallb (fun s => slen s <=? int64_max) (fields_of e) = true -> entry_ok e.
Proof.
  intros Hn Hd%Z.leb_le [H1%Z.leb_le H2%Z.ltb_lt]%andb_prop Hf. split; [done|done|].
  apply list.Forall_forall. intros s Hs. rewrite forallb_forall in Hf.
  apply Z.leb_le, Hf. by apply list_elem_of_In.
Qed.

Lemma normal_nil_object : normal (VObject []).
Proof. apply nil_normal. Qed.

Lemma entry_ok_empty e : e_Payload e = [] ->
  ((0 <=? year_of (e_Timestamp e)) && (year_of (e_Timestamp e) <? 10000)) = true ->
  forallb (fun s => slen s <=? int64_max) (fields_of e) = true -> entry_ok e.
Proof.
  intros E Hy Hf. apply entry_ok_check; rewrite ?E; try done. apply normal_nil_object.
Qed.

Definition sample_all : list AuditEntry := sample_log ++ [sample_edit].

Definition sample_digests : list (list Z) := Eval vm_compute in
  map (fun e => sha256 (preimage e)) sample_all.

Lemma sample_digests_eq : map (fun e => sha256 (preimage e)) sample_all = sample_digests.
Proof. vm_compute. reflexivity. Qed.

Lemma sample_chain : chain GenesisHash sample_log.
Proof.
  apply chain_links; [reflexivity|].
  pose proof (hashes_eq _ _ sample_digests_eq) as H. unfold sample_all in H.
  rewrite map_app in H. apply (f_equal (take 3)) in H.
  rewrite take_app_length' in H by reflexivity. rewrite H. reflexivity.
Qed.

Lemma sample_log_intact : v_OK (verify_from GenesisHash sample_log) = true.
Proof.
  unfold verify_from. rewrite newChainWalker_prev by discriminate.
  apply walk_OK_iff, sample_chain.
Qed.

Lemma sample_verdict_normal v : valid_utf8 v = true -> normal (VObject [("verdict", VString v)]).
Proof. intros Hv. constructor; [by apply (bool_decide_unpack _)|]. by repeat constructor. Qed.

Lemma sample_sound : hash_sound GenesisHash sample_all.
Proof.
  apply (sound_from_digests _ _ _ sample_digests_eq).
  - by apply (bool_decide_unpack _).
  - repeat constructor; discriminate.
  - do 4 (apply List.Forall_cons;
      [apply entry_ok_check; [|reflexivity..]; first [apply normal_nil_object|by apply sample_verdict_normal]|]).
    apply List.Forall_nil.
Qed.

Definition sample_first : AuditEntry := Eval vm_compute in nth 0 sample_log sample_edit.
Definition sample_second : AuditEntry := Eval vm_compute in nth 1 sample_log sample_edit.
Definition sample_third : AuditEntry := Eval vm_compute in nth 2 sample_log sample_edit.

Lemma sample_edit_differs : ~ same_content sample_first sample_edit.
Proof.
  intros H. pose proof (sc_payload _ _ H) as Hg.
  cbn in Hg. inversion Hg as [|?|? m1 ? Hp Hf]. subst.
  apply Permutation_length_1_inv in Hp. subst. inversion Hf as [|? ? ? ? [_ Hv] _].
  inversion Hv.
Qed.

Theorem head_pins_log_witness : Forall2 same_content sample_log sample_log.
Proof.
  apply (head_pins_log GenesisHash sample_log sample_log);
    [|exact sample_log_intact..|reflexivity].
  apply (hash_sound_incl _ sample_all); [|exact sample_sound].
  intros e He. apply elem_of_app. left. by apply elem_of_app in He as [He|He].
Defined.

Theorem modified_entry_reported_witness :
  let r := verify_from GenesisHash ([] ++ sample_edit :: [sample_second; sample_third]) in
  v_OK r = false /\ v_BrokenAt r = "a" /\ v_Position r = 1.
Proof.
  apply (modified_entry_reported GenesisHash [] sample_first sample_edit).
  - exact sample_log_intact.
  - apply (hash_sound_incl _ sample_all); [|exact sample_sound].
    intros e He. unfold sample_all, sample_log, sample_first in *. set_solver.
  - reflexivity.
  - exact sample_edit_differs.
Defined.

Theorem resealed_entry_reported_witness :
  let r := verify_from GenesisHash ([] ++ sample_edit :: sample_second :: [sample_third]) in
  v_OK r = false /\
  ((v_BrokenAt r = "a" /\ v_Position r = 1) \/ (v_BrokenAt r = "b" /\ v_Position r = 2)).
Proof.
  apply (resealed_entry_reported GenesisHash [] sample_first sample_edit).
  - exact sample_log_intact.
  - apply (hash_sound_incl _ sample_all); [|exact sample_sound].
    intros e He. unfold sample_all, sample_log, sample_first in *. set_solver.
  - exact sample_edit_differs.
Defined.

Theorem misplaced_entry_reported_witness :
  let r := verify_from GenesisHash ([sample_first] ++ sample_third :: []) in
  v_OK r = false /\ v_BrokenAt r = "c" /\ v_Position r = 2 /\
  v_Detail r = detail_link (e_PrevHash sample_third) (e_Hash sample_first).
Proof.
  apply (misplaced_entry_reported GenesisHash sample_log [sample_first]
    [sample_second; sample_third] [sample_first; sample_second] sample_third []).
  - apply (hash_sound_incl _ sample_all); [|exact sample_sound].
    intros e He. apply elem_of_app. by left.
  - exact sample_log_intact.
  - reflexivity.
  - reflexivity.
  - discriminate.
Defined.

Theorem truncation_and_reseal_verify_witness :
  v_OK (verify_from GenesisHash [sample_first]) = true /\
  v_OK (verify_from GenesisHash ([sample_first] ++ reseal (head_hash GenesisHash [sample_first]) [sample_edit]))
  = true.
Proof.
  apply (truncation_and_reseal_verify GenesisHash sample_log [sample_first]
    [sample_second; sample_third] [sample_edit]); [discriminate|reflexivity|exact sample_log_intact].
Defined.
