(* ===== verification/AuditRepo.v ===== *)
(** * The audit repository and its in-memory store

    [internal/audit/repository.go] and [memory.go]: filters and their clamping, the contract
    every store has with its clients (a class of operations and a class of laws), and the
    in-memory store, which is a list in append order. *)

From S2P Require Import Prelude Utf8 GoText GoTime Sha256 GoJson GoJsonRound Canonical Model AuditChain.

(** ** Filters and summaries *)

Record Filter := MkFilter {
  f_Kind : string;
  f_Verdict : string;
  f_IP : string;
  f_Rule : string;
  f_RequestID : string;
  f_From : Z;
  f_To : Z;
  f_Limit : Z;
  f_Offset : Z
}.

Definition Normalized (f : Filter) : Filter :=
  let limit := if f_Limit f <=? 0 then 50 else f_Limit f in
  let limit := if 500 <? limit then 500 else limit in
  let offset := if f_Offset f <? 0 then 0 else f_Offset f in
  MkFilter (f_Kind f) (f_Verdict f) (f_IP f) (f_Rule f) (f_RequestID f) (f_From f) (f_To f)
    limit offset.

Record CountedBy := Counted { Label : string; Count : Z }.

Record Bucket := MkBucket { b_Start : Z; b_Allowed : Z; b_Blocked : Z }.

Record Stats := MkStats {
  s_Window : string;
  s_Total : Z;
  s_Allowed : Z;
  s_Blocked : Z;
  TopIPs : list CountedBy;
  TopRules : list CountedBy;
  Series : list Bucket
}.

(** ** The contract ([Repository])

    [S] is the state of the store, connections and pending failures included. *)

Class Repository (S : Type) := {
  Append : S -> AuditEntry -> S * option string;
  VerifyChain : S -> Z -> Z -> result VerifyResult;
  Head : S -> result string;
  List_ : S -> Filter -> result (list AuditEntry);
  Count_ : S -> Filter -> result Z
}.

(** The same entry, up to the order of the members of its payload. *)
Definition same_entry (a b : AuditEntry) : Prop := same_content a b /\ e_Hash a = e_Hash b.

#[export] Instance same_entry_equivalence : Equivalence same_entry.
Proof.
  split.
  - intros a. done.
  - intros a b [H1 H2]. by split.
  - intros a b c [H1 H2] [H3 H4]. split; etransitivity; done.
Qed.

(** What a client may rely on.  The store holds a log in append order ([log]); an append that
    succeeds adds one entry at its end; one that fails has added nothing, or has added the entry
    and lost the answer; the head is the hash of the last entry; an unbounded verification checks
    the whole log.  [accepts] says which entries the store gives
    back as they went in, [inv] is the store's own invariant. *)
Class RepositoryLaws (S : Type) `{Repository S} := {
  log : S -> list AuditEntry;
  inv : S -> Prop;
  accepts : AuditEntry -> Prop;
  append_inv s s' e m : inv s -> Append s e = (s', m) -> inv s';
  append_ok s s' e : inv s -> entry_ok e -> accepts e -> Append s e = (s', None) ->
    Forall2 same_entry (log s') (log s ++ [e]);
  append_err s s' e m : inv s -> entry_ok e -> accepts e -> Append s e = (s', Some m) ->
    log s' = log s \/ Forall2 same_entry (log s') (log s ++ [e]);
  head_ok s h : inv s -> Head s = Ok h -> h = head_hash GenesisHash (log s);
  verify_ok s r : inv s -> VerifyChain s zero_time zero_time = Ok r ->
    r = verify_from GenesisHash (log s)
}.

(** ** Matching *)

Definition payloadString (e : AuditEntry) (key : string) : string :=
  match assoc key (e_Payload e) with
  | Some (VString v) => trim_space v
  | _ => EmptyString
  end.

Definition memoryMatches (e : AuditEntry) (f : Filter) : bool :=
  let unset s := String.eqb s EmptyString in
  if negb (unset (f_Kind f)) && negb (String.eqb (e_Kind e) (f_Kind f)) then false
  else if negb (unset (f_RequestID f)) && negb (String.eqb (e_RequestID e) (f_RequestID f)) then false
  else if negb (unset (f_Verdict f)) && negb (String.eqb (payloadString e "verdict") (f_Verdict f))
  then false
  else if negb (unset (f_IP f)) && negb (String.eqb (payloadString e "ip") (f_IP f)) then false
  else if negb (unset (f_Rule f)) && negb (String.eqb (payloadString e "rule") (f_Rule f)) then false
  else if negb (is_zero_time (f_From f)) && (e_Timestamp e <? f_From f) then false
  else if negb (is_zero_time (f_To f)) && (f_To f <? e_Timestamp e) then false
  else true.

(** ** Sorting *)

Section StableSort.
Context {A : Type} (less : A -> A -> bool).

Fixpoint insert_stable (x : A) (l : list A) : list A :=
  match l with
  | [] => [x]
  | y :: l' => if less y x then y :: insert_stable x l' else x :: l
  end.

(** [sort.SliceStable] *)
Definition stable_sort (l : list A) : list A := foldr insert_stable [] l.
End StableSort.

(** The order of [topCounts]: larger counts first, then labels. *)
Definition counted_less (a b : CountedBy) : bool :=
  if negb (Count a =? Count b) then Count b <? Count a
  else str_leb (Label a) (Label b) && negb (String.eqb (Label a) (Label b)).

Definition topCounts (counts : list (string * Z)) (limit : nat) : list CountedBy :=
  let out := map (fun p : string * Z => Counted p.1 p.2) counts in
  let out := stable_sort counted_less out in
  if (limit <? List.length out)%nat then take limit out else out.

(** [counts[label]++] *)
Definition count_up (label : string) (counts : list (string * Z)) : list (string * Z) :=
  assoc_set label (default 0 (assoc label counts) + 1) counts.

(** ** The in-memory store *)

Module Memory.

Definition NewMemory : list AuditEntry := [].

Definition Append (m : list AuditEntry) (entry : AuditEntry) : list AuditEntry * option string :=
  (m ++ [entry], None).

Definition Head (m : list AuditEntry) : result string :=
  match list.last m with
  | None => Ok GenesisHash
  | Some e => Ok (e_Hash e)
  end.

(** The anchor and what is left after the leading entries that are before [from]. *)
Fixpoint skip_before (from : Z) (anchor : string) (es : list AuditEntry)
  : string * list AuditEntry :=
  match es with
  | [] => (anchor, [])
  | e :: es' =>
      if negb (is_zero_time from) && (e_Timestamp e <? from)
      then skip_before from (e_Hash e) es'
      else (anchor, es)
  end.

(** The entries up to the first one after [to]. *)
Fixpoint until (to : Z) (es : list AuditEntry) : list AuditEntry :=
  match es with
  | [] => []
  | e :: es =>
      if negb (is_zero_time to) && (to <? e_Timestamp e) then [] else e :: until to es
  end.

Definition VerifyChain (m : list AuditEntry) (from to : Z) : result VerifyResult :=
  let '(anchor, es) := skip_before from GenesisHash m in
  Ok (stampRange (walk (newChainWalker anchor) (until to es)) from to).

Definition newer (a b : AuditEntry) : bool := e_Timestamp b <? e_Timestamp a.

Definition List_ (m : list AuditEntry) (f : Filter) : result (list AuditEntry) :=
  let f := Normalized f in
  let matched := filter (fun e => memoryMatches e f = true) m in
  let matched := stable_sort newer matched in
  if Z.of_nat (List.length matched) <=? f_Offset f then Ok []
  else
    let matched := drop (Z.to_nat (f_Offset f)) matched in
    Ok (if f_Limit f <? Z.of_nat (List.length matched)
        then take (Z.to_nat (f_Limit f)) matched else matched).

Definition Count_ (m : list AuditEntry) (f : Filter) : result Z :=
  Ok (Z.of_nat (List.length (filter (fun e => memoryMatches e f = true) m))).

Record tally := Tally {
  t_total : Z; t_allowed : Z; t_blocked : Z;
  t_ips : list (string * Z); t_rules : list (string * Z)
}.

(** One turn of the loop of [Stats]. *)
Definition tally_entry (cutoff : Z) (t : tally) (e : AuditEntry) : tally :=
  if negb (String.eqb (e_Kind e) KindTraffic) || (e_Timestamp e <? cutoff) then t
  else if String.eqb (payloadString e "verdict") (verdict_str Block) then
    let rule := payloadString e "rule" in
    let ip := payloadString e "ip" in
    Tally (t_total t + 1) (t_allowed t) (t_blocked t + 1)
      (if String.eqb ip EmptyString then t_ips t else count_up ip (t_ips t))
      (if String.eqb rule EmptyString then t_rules t else count_up rule (t_rules t))
  else Tally (t_total t + 1) (t_allowed t + 1) (t_blocked t) (t_ips t) (t_rules t).

Definition Stats_ (m : list AuditEntry) (now window : Z) : result Stats :=
  let cutoff := now - window in
  let t := foldl (tally_entry cutoff) (Tally 0 0 0 [] []) m in
  Ok (MkStats (duration_str window) (t_total t) (t_allowed t) (t_blocked t)
        (topCounts (t_ips t) 10) (topCounts (t_rules t) 10) []).

(** [Tamper] and [Truncate], out of range where Go panics. *)
Definition Tamper (m : list AuditEntry) (i : nat) (mutate : AuditEntry -> AuditEntry)
  : option (list AuditEntry) :=
  e ← m !! i; Some (<[i := mutate e]> m).

Definition Truncate (m : list AuditEntry) (i : nat) : option (list AuditEntry) :=
  _ ← m !! i; Some (take i m ++ drop (S i) m).

End Memory.

#[export] Instance memory_repository : Repository (list AuditEntry) := {
  Append := Memory.Append;
  VerifyChain := Memory.VerifyChain;
  Head := Memory.Head;
  List_ := Memory.List_;
  Count_ := Memory.Count_
}.

(** ** The clamp *)

Lemma clamp_bounds n : let l := if n <=? 0 then 50 else n in
  1 <= (if 500 <? l then 500 else l) <= 500.
Proof.
  cbv zeta. destruct (Z.leb_spec n 0) as [H|H]; [simpl; lia|].
  destruct (Z.ltb_spec 500 n); lia.
Qed.

Lemma Normalized_bounds f :
  1 <= f_Limit (Normalized f) <= 500 /\ 0 <= f_Offset (Normalized f).
Proof.
  split; [apply clamp_bounds|]. cbn. destruct (Z.ltb_spec (f_Offset f) 0); lia.
Qed.

Lemma Normalized_id f :
  1 <= f_Limit f <= 500 -> 0 <= f_Offset f -> Normalized f = f.
Proof.
  intros Hl Ho. destruct f; unfold Normalized; cbn in *.
  destruct (Z.leb_spec f_Limit0 0); [lia|]. destruct (Z.ltb_spec 500 f_Limit0); [lia|].
  destruct (Z.ltb_spec f_Offset0 0); [lia|]. done.
Qed.

Lemma Normalized_idem f : Normalized (Normalized f) = Normalized f.
Proof. apply Normalized_id; apply Normalized_bounds. Qed.

(** ** Stable sorting *)

Section StableSortLemmas.
Context {A : Type} (less : A -> A -> bool).
Context (Htrans : forall x y z, less x y = false -> less y z = false -> less x z = false)
        (Hasym : forall x y, less x y = true -> less y x = false).

Lemma insert_stable_perm x l : insert_stable less x l ≡ₚ x :: l.
Proof.
  induction l as [|y l IH]; cbn; [done|]. destruct (less y x); [|done].
  rewrite IH. apply Permutation_swap.
Qed.

Lemma stable_sort_perm l : stable_sort less l ≡ₚ l.
Proof. induction l as [|x l IH]; [done|]. cbn. by rewrite insert_stable_perm, IH. Qed.

Definition in_order (x y : A) : Prop := less y x = false.

Lemma insert_stable_sorted x l :
  StronglySorted in_order l -> StronglySorted in_order (insert_stable less x l).
Proof.
  induction 1 as [|y l Hs IH Hy]; cbn; [by repeat constructor|].
  destruct (less y x) eqn:E.
  - constructor; [done|]. rewrite insert_stable_perm. constructor; [by apply Hasym|done].
  - constructor; [by constructor|]. constructor; [done|].
    eapply list.Forall_impl; [exact Hy|]. intros z Hz. unfold in_order in *. by eapply Htrans.
Qed.

Lemma stable_sort_sorted l : StronglySorted in_order (stable_sort less l).
Proof. induction l; cbn; [constructor|by apply insert_stable_sorted]. Qed.

(** Elements the order does not separate keep their places: any class of elements that are
    mutually unordered is listed as it was. *)
Lemma insert_stable_filter (P : A -> bool) x l :
  (forall y, P x = true -> P y = true -> less y x = false) ->
  List.filter P (insert_stable less x l) = List.filter P (x :: l).
Proof.
  intros HP. induction l as [|y l IH]; cbn [insert_stable]; [done|].
  destruct (less y x) eqn:E; [|done]. cbn [List.filter] in *. rewrite IH.
  destruct (P x) eqn:Px, (P y) eqn:Py; try done. by rewrite HP in E.
Qed.

Lemma stable_sort_filter (P : A -> bool) l :
  (forall x y, P x = true -> P y = true -> less y x = false) ->
  List.filter P (stable_sort less l) = List.filter P l.
Proof.
  intros HP. induction l as [|x l IH]; [done|]. cbn [stable_sort foldr].
  rewrite insert_stable_filter by auto. cbn [List.filter]. unfold stable_sort in IH.
  by rewrite IH.
Qed.

(** Sorting depends on the elements alone when the order separates them. *)
Lemma stable_sort_unique l1 l2 :
  (forall x y, x ∈ l1 -> y ∈ l1 -> less x y = false -> less y x = false -> x = y) ->
  l1 ≡ₚ l2 -> stable_sort less l1 = stable_sort less l2.
Proof.
  intros Hsep Hp. apply (StronglySorted_unique_strong in_order); auto using stable_sort_sorted.
  - intros x y Hx Hy H1 H2. rewrite stable_sort_perm in Hx, Hy. rewrite <- Hp in Hy.
    by apply Hsep.
  - by rewrite !stable_sort_perm.
Qed.
End StableSortLemmas.

(** ** Rankings *)

Lemma counted_less_spec a b : counted_less a b = true <->
  Count b < Count a \/ (Count a = Count b /\ str_le (Label a) (Label b) /\ Label a <> Label b).
Proof.
  unfold counted_less, str_le. destruct (Z.eqb_spec (Count a) (Count b)) as [E|E]; cbn [negb].
  - rewrite andb_true_iff, negb_true_iff, String.eqb_neq. intuition lia.
  - rewrite Z.ltb_lt. intuition lia.
Qed.

Lemma counted_less_false a b : counted_less a b = false <->
  Count a < Count b \/ (Count a = Count b /\ str_le (Label b) (Label a)).
Proof.
  rewrite <- not_true_iff_false, counted_less_spec. unfold str_le. split.
  - intros H. destruct (Z.lt_trichotomy (Count a) (Count b)) as [?|[E|?]]; [by left| |lia].
    right. split; [done|]. destruct (String.eqb_spec (Label a) (Label b)) as [->|Hne].
    + apply str_leb_refl.
    + destruct (str_leb_total (Label a) (Label b)) as [Hl|Hl]; [|done].
      exfalso. apply H. by right.
  - intros [H|[E H]] [H'|(E' & H' & Hne)]; try lia. by apply Hne, str_leb_antisym.
Qed.

Lemma counted_less_trans x y z :
  counted_less x y = false -> counted_less y z = false -> counted_less x z = false.
Proof.
  rewrite !counted_less_false. intros [?|[? H1]] [?|[? H2]]; try (left; lia).
  right. split; [lia|]. by etransitivity.
Qed.

Lemma counted_less_asym x y : counted_less x y = true -> counted_less y x = false.
Proof.
  rewrite counted_less_spec, counted_less_false. intros [?|(? & ? & ?)]; [by left|by right].
Qed.

Lemma topCounts_take counts limit :
  topCounts counts limit
  = take limit (stable_sort counted_less (map (fun p : string * Z => Counted p.1 p.2) counts)).
Proof.
  unfold topCounts. set (l := stable_sort _ _).
  destruct (Nat.ltb_spec limit (List.length l)); [done|]. by rewrite take_ge.
Qed.

Lemma topCounts_perm counts counts' limit :
  NoDup counts.*1 -> counts ≡ₚ counts' -> topCounts counts limit = topCounts counts' limit.
Proof.
  intros Hnd Hp. rewrite !topCounts_take. f_equal.
  apply stable_sort_unique; [exact counted_less_trans|exact counted_less_asym| |].
  - intros x y Hx Hy H1 H2. apply counted_less_false in H1, H2.
    assert (Count x = Count y /\ Label x = Label y) as [Hc Hl].
    { destruct H1 as [?|[? H1]], H2 as [?|[? H2]]; try lia. split; [done|].
      symmetry. by apply str_leb_antisym. }
    destruct x, y; simpl in *; by subst.
  - by apply Permutation_map.
Qed.

(** ** The in-memory store *)

Lemma until_zero es : Memory.until zero_time es = es.
Proof. induction es as [|e es IH]; [done|]. cbn. by rewrite IH. Qed.

Lemma skip_before_zero p es : Memory.skip_before zero_time p es = (p, es).
Proof. by destruct es. Qed.

(** The entries skipped are a prefix of the log and the anchor is its head. *)
Lemma skip_before_split from p es :
  exists a b, es = a ++ b /\ Memory.skip_before from p es = (head_hash p a, b) /\
    Forall (fun e => e_Timestamp e < from) a.
Proof.
  revert p. induction es as [|e es IH]; intros p; [by exists [], []|]. cbn [Memory.skip_before].
  destruct (negb (is_zero_time from) && (e_Timestamp e <? from)) eqn:E.
  - apply andb_prop in E as [_ E%Z.ltb_lt].
    destruct (IH (e_Hash e)) as (a & b & -> & Hs & Ha). exists (e :: a), b.
    split; [done|]. split; [done|by constructor].
  - by exists [], (e :: es).
Qed.

Lemma until_split to es : exists a b, es = a ++ b /\ Memory.until to es = a.
Proof.
  induction es as [|e es IH]; [by exists [], []|]. cbn. destruct (_ && _).
  - by exists [], (e :: es).
  - destruct IH as (a & b & -> & ->). by exists (e :: a), b.
Qed.

Lemma stampRange_zero r : stampRange r zero_time zero_time = r.
Proof. by destruct r. Qed.

Lemma memory_verify_unbounded m :
  Memory.VerifyChain m zero_time zero_time = Ok (verify_from GenesisHash m).
Proof.
  unfold Memory.VerifyChain. rewrite skip_before_zero, until_zero. f_equal. apply stampRange_zero.
Qed.

Lemma memory_head m : Memory.Head m = Ok (head_hash GenesisHash m).
Proof.
  unfold Memory.Head. destruct m as [|e m _] using rev_ind; [done|].
  by rewrite last_snoc, head_hash_snoc.
Qed.

#[export] Instance memory_laws : RepositoryLaws (list AuditEntry).
Proof.
  refine {| log := fun m => m; inv := fun _ => True; accepts := fun _ => True |}.
  - done.
  - intros s s' e _ _ _ [= <-]. by apply Forall2_refl_on, list.Forall_true.
  - done.
  - intros s h _ H. cbn in H. rewrite memory_head in H. by injection H.
  - intros s r _ H. cbn in H. rewrite memory_verify_unbounded in H. by injection H.
Defined.

Lemma chain_head_nonempty p a : p <> EmptyString -> chain p a -> head_hash p a <> EmptyString.
Proof.
  intros Hp H. destruct a as [|e a _] using rev_ind; [done|].
  apply chain_snoc_inv in H as (_ & _ & He). rewrite head_hash_snoc, He. apply hash_nonempty.
Qed.

Lemma memory_verify_ranges m from to r :
  chain GenesisHash m -> Memory.VerifyChain m from to = Ok r -> v_OK r = true.
Proof.
  intros Hc. unfold Memory.VerifyChain.
  destruct (skip_before_split from GenesisHash m) as (a & b & -> & -> & _).
  destruct (until_split to b) as (c & d & -> & ->). intros [= <-]. cbn [stampRange v_OK].
  apply walk_OK_iff. apply chain_app in Hc as [Ha Hb]. apply chain_app in Hb as [Hb _].
  rewrite newChainWalker_prev; [done|]. by apply chain_head_nonempty.
Qed.

(** *** Listing *)

Definition matching (m : list AuditEntry) (f : Filter) : list AuditEntry :=
  filter (fun e => memoryMatches e f = true) m.

Definition sorted_matches (m : list AuditEntry) (f : Filter) : list AuditEntry :=
  stable_sort Memory.newer (matching m f).

Lemma memoryMatches_normalized e f : memoryMatches e (Normalized f) = memoryMatches e f.
Proof. done. Qed.

Lemma memory_list_window m f :
  Memory.List_ m f = Ok (take (Z.to_nat (f_Limit (Normalized f)))
    (drop (Z.to_nat (f_Offset (Normalized f))) (sorted_matches m f))).
Proof.
  unfold Memory.List_, sorted_matches, matching. cbv zeta.
  assert (filter (fun e => memoryMatches e (Normalized f) = true) m
    = filter (fun e => memoryMatches e f = true) m) as -> by done.
  set (l := stable_sort _ _). destruct (Z.leb_spec (Z.of_nat (List.length l)) (f_Offset (Normalized f))).
  - rewrite drop_ge by lia. by rewrite take_nil.
  - destruct (Z.ltb_spec (f_Limit (Normalized f))
      (Z.of_nat (List.length (drop (Z.to_nat (f_Offset (Normalized f))) l)))); [done|].
    rewrite (take_ge (drop _ _)); [done|lia].
Qed.

Definition with_offset (f : Filter) (o : Z) : Filter :=
  MkFilter (f_Kind f) (f_Verdict f) (f_IP f) (f_Rule f) (f_RequestID f) (f_From f) (f_To f)
    (f_Limit f) o.

Lemma take_pages {A} (n k : nat) (l : list A) :
  concat (map (fun i => take n (drop (i * n) l)) (seq 0 k)) = take (k * n) l.
Proof.
  induction k as [|k IH]; [done|].
  rewrite seq_S, map_app, concat_app, IH. cbn [map concat Nat.add]. rewrite app_nil_r.
  rewrite take_take_drop. f_equal. lia.
Qed.

Lemma newer_trans x y z :
  Memory.newer x y = false -> Memory.newer y z = false -> Memory.newer x z = false.
Proof. unfold Memory.newer. rewrite !Z.ltb_ge. lia. Qed.

Lemma newer_asym x y : Memory.newer x y = true -> Memory.newer y x = false.
Proof. unfold Memory.newer. rewrite Z.ltb_lt, Z.ltb_ge. lia. Qed.

(** *** Counting *)

Definition in_window (cutoff : Z) (e : AuditEntry) : bool :=
  String.eqb (e_Kind e) KindTraffic && (cutoff <=? e_Timestamp e).

Definition blocked (e : AuditEntry) : bool :=
  String.eqb (payloadString e "verdict") (verdict_str Block).

Definition count_where (p : AuditEntry -> bool) (m : list AuditEntry) : Z :=
  Z.of_nat (List.length (List.filter p m)).

(** How many blocked entries in the window carry a label in a payload field. *)
Definition count_label (cutoff : Z) (key label : string) (m : list AuditEntry) : Z :=
  count_where (fun e => in_window cutoff e && blocked e
    && String.eqb (payloadString e key) label) m.

(** A tally agrees with the entries it was taken over. *)
Record tally_of (cutoff : Z) (m : list AuditEntry) (t : Memory.tally) : Prop := {
  to_total : Memory.t_total t = count_where (in_window cutoff) m;
  to_blocked : Memory.t_blocked t = count_where (fun e => in_window cutoff e && blocked e) m;
  to_allowed : Memory.t_allowed t
    = count_where (fun e => in_window cutoff e && negb (blocked e)) m;
  to_ips_nodup : NoDup (Memory.t_ips t).*1;
  to_ips l : l <> EmptyString ->
    default 0 (assoc l (Memory.t_ips t)) = count_label cutoff "ip" l m;
  to_rules_nodup : NoDup (Memory.t_rules t).*1;
  to_rules l : l <> EmptyString ->
    default 0 (assoc l (Memory.t_rules t)) = count_label cutoff "rule" l m;
  to_ips_pos : Forall (fun p => p.1 <> EmptyString /\ 0 < p.2) (Memory.t_ips t);
  to_rules_pos : Forall (fun p => p.1 <> EmptyString /\ 0 < p.2) (Memory.t_rules t)
}.

Lemma count_where_snoc p m e : count_where p (m ++ [e]) = count_where p m + (if p e then 1 else 0).
Proof.
  unfold count_where. rewrite List.filter_app, length_app. cbn. destruct (p e); cbn; lia.
Qed.

Lemma count_up_spec l l' counts :
  default 0 (assoc l (count_up l' counts))
  = default 0 (assoc l counts) + (if String.eqb l l' then 1 else 0).
Proof.
  unfold count_up. destruct (String.eqb_spec l l') as [->|Hne].
  - by rewrite assoc_set_eq.
  - rewrite assoc_set_ne by done. lia.
Qed.

Definition bump (label : string) (counts : list (string * Z)) : list (string * Z) :=
  if String.eqb label EmptyString then counts else count_up label counts.

Lemma bump_nodup label counts : NoDup counts.*1 -> NoDup (bump label counts).*1.
Proof. intros H. unfold bump. destruct (String.eqb _ _); [done|]. by apply assoc_set_NoDup. Qed.

Lemma bump_spec l label counts : l <> EmptyString ->
  default 0 (assoc l (bump label counts))
  = default 0 (assoc l counts) + (if String.eqb label l then 1 else 0).
Proof.
  intros Hl. unfold bump. rewrite (String.eqb_sym label l).
  destruct (String.eqb_spec label EmptyString) as [->|Hne].
  - destruct (String.eqb_spec l EmptyString); [done|lia].
  - apply count_up_spec.
Qed.

Lemma assoc_Forall {V} (P : string * V -> Prop) k v (m : list (string * V)) :
  Forall P m -> assoc k m = Some v -> P (k, v).
Proof. intros H Hk%assoc_elem. rewrite list.Forall_forall in H. by apply H. Qed.

Lemma bump_pos label counts :
  Forall (fun p => p.1 <> EmptyString /\ 0 < p.2) counts ->
  Forall (fun p => p.1 <> EmptyString /\ 0 < p.2) (bump label counts).
Proof.
  intros H. unfold bump. destruct (String.eqb_spec label EmptyString) as [|Hne]; [done|].
  apply assoc_set_Forall; [|done]. split; [done|]. cbn.
  destruct (assoc label counts) as [n|] eqn:E; [|done]. cbn.
  apply (assoc_Forall _ _ _ _ H) in E as [_ E]. cbn in E. lia.
Qed.

Lemma tally_step cutoff m t e : tally_of cutoff m t ->
  tally_of cutoff (m ++ [e]) (Memory.tally_entry cutoff t e).
Proof.
  intros [Ht Hb Ha Ni Hi Nr Hr Pi Pr]. unfold Memory.tally_entry.
  assert (negb (String.eqb (e_Kind e) KindTraffic) || (e_Timestamp e <? cutoff)
    = negb (in_window cutoff e)) as ->.
  { unfold in_window. rewrite negb_andb, Z.leb_antisym, negb_involutive. done. }
  fold (blocked e). destruct (in_window cutoff e) eqn:Ew; cbn [negb].
  - destruct (blocked e) eqn:Eb; cbv zeta; split; cbn;
      try (intros l Hl); unfold count_label in *;
      rewrite ?count_where_snoc, ?Ew, ?Eb; cbn [andb negb]; rewrite ?Z.add_0_r;
      try (by apply bump_nodup); try (by apply bump_pos); try (by f_equal); auto.
    + fold (bump (payloadString e "ip") (Memory.t_ips t)). rewrite bump_spec by done.
      by rewrite Hi.
    + fold (bump (payloadString e "rule") (Memory.t_rules t)). rewrite bump_spec by done.
      by rewrite Hr.
  - split; try done; try (intros l Hl); unfold count_label in *;
      rewrite count_where_snoc, Ew; cbn [andb]; rewrite Z.add_0_r; auto.
Qed.

Lemma tally_all cutoff m :
  tally_of cutoff m (foldl (Memory.tally_entry cutoff) (Memory.Tally 0 0 0 [] []) m).
Proof.
  induction m as [|e m IH] using rev_ind.
  - split; try done; apply NoDup_nil_2.
  - rewrite foldl_app. by apply tally_step.
Qed.

(** The ranking of labels by a count: the labels that occur, largest counts first and labels in
    order among equals, cut to a limit. *)
Definition ranking (count : string -> Z) (limit : nat) (out : list CountedBy) : Prop :=
  exists all, NoDup (map Label all) /\
    (forall l n, Counted l n ∈ all <-> l <> EmptyString /\ n = count l /\ 0 < n) /\
    StronglySorted (in_order counted_less) all /\ out = take limit all.

Lemma topCounts_ranking (count : string -> Z) counts limit :
  NoDup counts.*1 -> Forall (fun p => p.1 <> EmptyString /\ 0 < p.2) counts ->
  (forall l, l <> EmptyString -> default 0 (assoc l counts) = count l) ->
  ranking count limit (topCounts counts limit).
Proof.
  intros Hnd Hpos Hc. rewrite topCounts_take.
  set (cs := map (fun p : string * Z => Counted p.1 p.2) counts).
  exists (stable_sort counted_less cs). split; [|split; [|split; [|done]]].
  - assert (map Label (stable_sort counted_less cs) ≡ₚ map Label cs) as ->.
    { apply Permutation_map, stable_sort_perm. }
    unfold cs. rewrite map_map. exact Hnd.
  - intros l n. rewrite stable_sort_perm. unfold cs. rewrite list_elem_of_In, in_map_iff. split.
    + intros ([l' n'] & [= -> ->] & Hin%list_elem_of_In).
      rewrite list.Forall_forall in Hpos. destruct (Hpos _ Hin) as [Hl Hn]. cbn in Hl, Hn.
      split; [done|]. split; [|done]. rewrite <- Hc by done.
      apply assoc_elem_iff in Hin; [|done]. by rewrite Hin.
    + intros (Hl & -> & Hn). exists (l, count l). split; [done|].
      apply list_elem_of_In, assoc_elem_iff; [done|]. rewrite <- (Hc l Hl) in Hn |- *.
      by destruct (assoc l counts).
  - apply stable_sort_sorted; [exact counted_less_trans|exact counted_less_asym].
Qed.

Lemma count_where_split p q m :
  count_where p m
  = count_where (fun e => p e && q e) m + count_where (fun e => p e && negb (q e)) m.
Proof.
  unfold count_where. induction m as [|e m IH]; [done|]. cbn.
  destruct (p e), (q e); cbn [andb negb List.length]; lia.
Qed.

(** ** Properties *)

(** [Normalized] always gives a page of 1 to 500 entries at a non-negative offset, leaves a
    filter that is already in bounds alone, and applying it twice is applying it once. *)
Theorem filter_clamp f :
  1 <= f_Limit (Normalized f) <= 500 /\ 0 <= f_Offset (Normalized f) /\
  Normalized (Normalized f) = Normalized f /\
  (1 <= f_Limit f <= 500 -> 0 <= f_Offset f -> Normalized f = f).
Proof.
  destruct (Normalized_bounds f) as [Hl Ho].
  repeat split; try lia; [apply Normalized_idem|apply Normalized_id].
Qed.

(** verifying a window of the in-memory log never raises a false alarm.  On an intact log
    every range, with any pair of bounds, verifies, and the unbounded range is the whole log. *)
Theorem memory_verify_any_range m from to :
  chain GenesisHash m ->
  exists r, Memory.VerifyChain m from to = Ok r /\ v_OK r = true /\
    (is_zero_time from = true -> is_zero_time to = true ->
     v_Checked r = Z.of_nat (List.length m)).
Proof.
  intros Hc. destruct (Memory.VerifyChain m from to) as [r|] eqn:E.
  - exists r. split; [done|]. split; [by eapply memory_verify_ranges|].
    intros Hf%Z.eqb_eq Ht%Z.eqb_eq. subst. rewrite memory_verify_unbounded in E.
    injection E as <-. unfold verify_from. by rewrite walk_intact.
  - unfold Memory.VerifyChain in E. by destruct (Memory.skip_before _ _ _).
Qed.

Theorem memory_verify_any_range_witness :
  exists r, Memory.VerifyChain sample_log (1700000001 * second) zero_time = Ok r /\
    v_OK r = true /\
    (is_zero_time (1700000001 * second) = true -> is_zero_time zero_time = true ->
     v_Checked r = Z.of_nat (List.length sample_log)).
Proof.
  apply memory_verify_any_range. exact sample_chain.
Defined.

(** pages tile the matches.  Asking for pages one after the other, each at the offset where
    the last one ended, yields every matching entry exactly once, newest first, with entries of
    equal time in append order; a page is never longer than the limit the clamp reports. *)
Theorem memory_pagination m f k :
  let n := Z.to_nat (f_Limit (Normalized f)) in
  let page i := Memory.List_ m (with_offset f (Z.of_nat (i * n))) in
  exists pages, map page (seq 0 k) = map Ok pages /\
    Forall (fun p => (List.length p <= n)%nat) pages /\
    concat pages = take (k * n) (sorted_matches m f) /\
    sorted_matches m f ≡ₚ matching m f /\
    StronglySorted (fun a b => e_Timestamp b <= e_Timestamp a) (sorted_matches m f) /\
    (forall t, List.filter (fun e => e_Timestamp e =? t) (sorted_matches m f)
       = List.filter (fun e => e_Timestamp e =? t) (matching m f)).
Proof.
  cbv zeta. set (n := Z.to_nat (f_Limit (Normalized f))).
  exists (map (fun i => take n (drop (i * n) (sorted_matches m f))) (seq 0 k)).
  split; [|split; [|split; [apply take_pages|split; [apply stable_sort_perm|split]]]].
  - rewrite map_map. apply map_ext. intros i. rewrite memory_list_window. f_equal.
    assert (f_Offset (Normalized (with_offset f (Z.of_nat (i * n)))) = Z.of_nat (i * n)) as ->.
    { cbn. destruct (Z.ltb_spec (Z.of_nat (i * n)) 0); lia. }
    by rewrite Nat2Z.id.
  - apply List.Forall_map, list.Forall_true. intros i. rewrite length_take. lia.
  - assert (forall l, StronglySorted (in_order Memory.newer) l ->
      StronglySorted (fun a b => e_Timestamp b <= e_Timestamp a) l) as Himp.
    { intros l. induction 1 as [|x l Hs IH Hx]; constructor; [done|].
      eapply list.Forall_impl; [exact Hx|]. intros y. unfold in_order, Memory.newer. by rewrite Z.ltb_ge. }
    apply Himp, stable_sort_sorted; [exact newer_trans|exact newer_asym].
  - intros t. apply stable_sort_filter. intros x y. unfold Memory.newer.
    rewrite !Z.eqb_eq, Z.ltb_ge. lia.
Qed.

(** the overview counts what is in the log.  Over the traffic entries of the window,
    allowed and blocked add up to the total, blocked are those whose verdict is block, and the
    two rankings are the ten most frequent addresses and rules among the blocked ones. *)
Theorem memory_stats_exact m now window :
  exists s, Memory.Stats_ m now window = Ok s /\
    let cutoff := now - window in
    s_Total s = count_where (in_window cutoff) m /\
    s_Blocked s = count_where (fun e => in_window cutoff e && blocked e) m /\
    s_Total s = s_Allowed s + s_Blocked s /\
    ranking (fun l => count_label cutoff "ip" l m) 10 (TopIPs s) /\
    ranking (fun l => count_label cutoff "rule" l m) 10 (TopRules s).
Proof.
  unfold Memory.Stats_. cbv zeta. eexists. split; [done|]. cbn.
  destruct (tally_all (now - window) m) as [Ht Hb Ha Ni Hi Nr Hr Pi Pr].
  split; [done|]. split; [done|]. split; [|split; by apply topCounts_ranking].
  rewrite Ht, Ha, Hb, (count_where_split _ blocked). lia.
Qed.
