(* ===== verification/AuditPostgres.v ===== *)
(** * The PostgreSQL store

    [internal/audit/postgres.go] over the table of [migrations/postgres/001_audit_log.sql].
    The statements are queries over a list of rows; what the server and the driver do to a
    value on its way through a column is the interface [Postgres]. *)

From S2P Require Import Prelude Utf8 GoText GoTime Sha256 GoJson GoJsonRound Canonical Model AuditChain AuditRepo.

#[local] Set Warnings "-clear-no-such-hyp".

(** ** The database *)

(** A row of [audit_log]; the payload is the text the column reads back as. *)
Record row := Row {
  r_seq : Z;
  r_id : string;
  r_request_id : string;
  r_ts : Z;
  r_kind : string;
  r_payload : string;
  r_prev_hash : string;
  r_hash : string
}.

(** What the driver and the server do to values: [pg_ts] is the instant a timestamptz value is
    after the driver sent it, as a column or as a bound of a query, [pg_jsonb] the text of a jsonb column, [pg_text p k] is [p ->> k], and
    [pg_reject] the reason the server refuses a statement for, if any. *)
Class Postgres := {
  pg_ts : Z -> Z;
  pg_jsonb : string -> result string;
  pg_text : string -> string -> option string;
  pg_reject : AuditEntry -> option string
}.

(** A number jsonb gives back digit for digit: no exponent, no negative zero, not outlandishly
    long. *)
Definition plain_number (l : string) : bool :=
  sall (fun c => is_digit c || Ascii.eqb c "." || Ascii.eqb c "-") l
  && (negb (has_prefix "-" l) || negb (sall (fun c => negb (is_digit c) || Ascii.eqb c "0") l))
  && (slen l <=? 1000).

Fixpoint plain (v : gval) : bool :=
  match v with
  | VNumber l => plain_number l
  | VArray l => forallb plain l
  | VObject m => forallb (fun p : string * gval => plain p.2) m
  | _ => true
  end.

Definition aligned (t : Z) : Prop := t mod microsecond = 0.

(** The documented behaviour the store relies on: microseconds are kept, jsonb gives back JSON
    for an object, with the data of the text it was given when its numbers are plain. *)
Class PostgresLaws `{Postgres} := {
  pg_ts_aligned t : aligned t -> pg_ts t = t;
  pg_jsonb_object raw raw' : pg_jsonb raw = Ok raw' -> exists m, DecodeJSONPayload raw' = Ok m;
  pg_jsonb_data raw raw' m : pg_jsonb raw = Ok raw' -> DecodeJSONPayload raw = Ok m ->
    plain (VObject m) = true ->
    exists m', DecodeJSONPayload raw' = Ok m' /\ geq (VObject m') (VObject m)
}.

(** The table, the next value of its sequence, the error the connection is in, if any, and what
    the client sees of the coming commits: nothing (or [None]) for the server's answer, an error
    when the answer does not arrive in time. *)
Record db := DB {
  db_rows : list row;
  db_next : Z;
  db_fault : option string;
  db_late : list (option string)
}.

Section Store.
Context `{Postgres}.

(** [ORDER BY seq ASC] *)
Definition by_seq (rs : list row) : list row := stable_sort (fun a b => r_seq a <? r_seq b) rs.

(** One round trip: the answer, or the error the connection is in. *)
Definition query {A} (d : db) (what : string) (a : A) : result A :=
  match db_fault d with
  | Some m => Err ("audit: " +:+ what +:+ ": " +:+ m)
  | None => Ok a
  end.

(** [INSERT INTO audit_log]: the next sequence value is spent, the constraints of the table are
    checked.  The row is committed before the client is told. *)
Definition insert (d : db) (e : AuditEntry) (payload : string) : db * option string :=
  let d' := DB (db_rows d) (db_next d + 1) (db_fault d) (db_late d) in
  match db_fault d, pg_reject e, pg_jsonb payload with
  | Some m, _, _ => (d, Some m)
  | None, Some m, _ => (d', Some m)
  | None, None, Err m => (d', Some m)
  | None, None, Ok payload =>
      if existsb (fun r => String.eqb (r_id r) (e_ID e)) (db_rows d) then
        (d', Some "duplicate key value violates unique constraint audit_log_id_key")
      else if existsb (fun r => String.eqb (r_hash r) (e_Hash e)) (db_rows d) then
        (d', Some "duplicate key value violates unique constraint audit_log_hash_key")
      else if negb (existsb (String.eqb (e_Kind e)) [KindTraffic; KindSystem; KindAdmin]) then
        (d', Some "new row violates check constraint audit_log_kind_check")
      else
        (DB (db_rows d ++ [Row (db_next d) (e_ID e) (e_RequestID e) (pg_ts (e_Timestamp e))
               (e_Kind e) payload (e_PrevHash e) (e_Hash e)]) (db_next d + 1) (db_fault d) (tail (db_late d)),
         default None (head (db_late d)))
  end.

Definition pg_Append (d : db) (entry : AuditEntry) : db * option string :=
  match CanonicalJSON (VObject (e_Payload entry)) with
  | Err m => (d, Some ("audit: encode payload for entry " +:+ e_ID entry +:+ ": " +:+ m))
  | Ok payload =>
      match insert d entry payload with
      | (d, Some m) => (d, Some ("audit: append entry " +:+ e_ID entry +:+ ": " +:+ m))
      | (d, None) => (d, None)
      end
  end.

Definition pg_Head (d : db) : result string :=
  top ← query d "read chain head" (list.last (by_seq (db_rows d)));
  match top with
  | None => Ok GenesisHash
  | Some r => Ok (r_hash r)
  end.

Definition scanEntry (r : row) : result AuditEntry :=
  payload ← DecodeJSONPayload (r_payload r);
  Ok (Entry (r_id r) (r_request_id r) (r_ts r) (r_kind r) payload (r_prev_hash r) (r_hash r)).

Definition anchorBefore (d : db) (from : Z) : result string :=
  if is_zero_time from then Ok GenesisHash
  else
    top ← query d "read chain anchor"
            (list.last (by_seq (filter (fun r => r_ts r < pg_ts from) (db_rows d))));
    match top with
    | None => Ok GenesisHash
    | Some r => Ok (r_hash r)
    end.

(** *** Clauses

    A condition of a [WHERE] clause: its text with a question mark for the value, the value
    that is bound, and what the text means for a row. *)

Inductive sqlval := SqlText (s : string) | SqlTime (t : Z) | SqlInt (n : Z).

Record clause := Clause { c_sql : string; c_arg : sqlval; c_holds : row -> bool }.

Definition text_is (o : option string) (v : string) : bool :=
  match o with Some s => String.eqb s v | None => false end.

Definition ts_from (from : Z) (sql : string) : list clause :=
  if is_zero_time from then [] else [Clause sql (SqlTime from) (fun r => pg_ts from <=? r_ts r)].
Definition ts_to (to : Z) (sql : string) : list clause :=
  if is_zero_time to then [] else [Clause sql (SqlTime to) (fun r => r_ts r <=? pg_ts to)].

Definition range_clauses (from to : Z) : list clause := ts_from from "ts >= ?" ++ ts_to to "ts <= ?".

Definition text_clause (v sql : string) (get : row -> option string) : list clause :=
  if String.eqb v EmptyString then []
  else [Clause sql (SqlText v) (fun r => text_is (get r) v)].

Definition filter_clauses (f : Filter) : list clause :=
  text_clause (f_Kind f) "kind = ?" (fun r => Some (r_kind r)) ++
  text_clause (f_RequestID f) "request_id = ?" (fun r => Some (r_request_id r)) ++
  text_clause (f_Verdict f) "payload ->> 'verdict' = ?" (fun r => pg_text (r_payload r) "verdict") ++
  text_clause (f_IP f) "payload ->> 'ip' = ?" (fun r => pg_text (r_payload r) "ip") ++
  text_clause (f_Rule f) "payload ->> 'rule' = ?" (fun r => pg_text (r_payload r) "rule") ++
  ts_from (f_From f) "ts >= ?" ++ ts_to (f_To f) "ts <= ?".

(** [strings.Replace(sql, "?", by, 1)] *)
Fixpoint replace_mark (by_ s : string) : string :=
  match s with
  | EmptyString => EmptyString
  | String c s => if Ascii.eqb c "?" then by_ +:+ s else String c (replace_mark by_ s)
  end.

(** The text and the arguments [timeRange] and [filterClause] hand to the driver. *)
Definition render (cs : list clause) : string * list sqlval :=
  let texts := imap (fun i c => replace_mark ("$" +:+ itoa (Z.of_nat i + 1)) (c_sql c)) cs in
  (match cs with [] => EmptyString | _ => "WHERE " +:+ join " AND " texts end, map c_arg cs).

Definition timeRange (from to : Z) : string * list sqlval := render (range_clauses from to).
Definition filterClause (f : Filter) : string * list sqlval := render (filter_clauses f).

(** The rows a [WHERE] clause keeps. *)
Definition where_ (cs : list clause) (rs : list row) : list row :=
  filter (fun r => forallb (fun c => c_holds c r) cs = true) rs.

(** *** Reads *)

(** The loop of [VerifyChain]: rows are decoded as they stream in. *)
Fixpoint walk_rows (w : chainWalker) (rs : list row) : result VerifyResult :=
  match rs with
  | [] => Ok (result_of w)
  | r :: rs =>
      entry ← scanEntry r;
      match step w entry with
      | (_, Some report) => Ok report
      | (w, None) => walk_rows w rs
      end
  end.

Definition pg_VerifyChain (d : db) (from to : Z) : result VerifyResult :=
  anchor ← anchorBefore d from;
  rows ← query d "read chain" (by_seq (where_ (range_clauses from to) (db_rows d)));
  r ← walk_rows (newChainWalker anchor) rows;
  Ok (stampRange r from to).

Definition pg_List (d : db) (f : Filter) : result (list AuditEntry) :=
  let f := Normalized f in
  rows ← query d "list entries"
           (take (Z.to_nat (f_Limit f)) (drop (Z.to_nat (f_Offset f))
              (rev (by_seq (where_ (filter_clauses f) (db_rows d))))));
  mapM scanEntry rows.

Definition pg_Count (d : db) (f : Filter) : result Z :=
  query d "count entries" (Z.of_nat (List.length (where_ (filter_clauses f) (db_rows d)))).

(** *** Statistics *)

Definition since_rows (since : Z) (rs : list row) : list row :=
  filter (fun r => String.eqb (r_kind r) KindTraffic && (pg_ts since <=? r_ts r) = true) rs.

Definition verdict_is (v : Verdict) (r : row) : bool :=
  text_is (pg_text (r_payload r) "verdict") (verdict_str v).

Definition count_rows (p : row -> bool) (rs : list row) : Z :=
  Z.of_nat (List.length (List.filter p rs)).

(** [GROUP BY label] with its counts. *)
Definition group_labels (field : string) (rs : list row) : list (string * Z) :=
  foldl (fun counts r => match pg_text (r_payload r) field with
                         | Some label => count_up label counts
                         | None => counts
                         end) [] rs.

Definition topBlocked (d : db) (since : Z) (field : string) : result (list CountedBy) :=
  if negb (String.eqb field "ip" || String.eqb field "rule") then
    Err "audit: unsupported ranking field"
  else
    query d ("top " +:+ field)
      (topCounts (group_labels field
         (List.filter (verdict_is Block) (since_rows since (db_rows d)))) 10).

(** [int(window.Seconds())] *)
Definition float_trunc (f : spec_float) : Z :=
  match f with
  | S754_finite s m e =>
      let v := if 0 <=? e then Z.pos m * 2 ^ e else Z.pos m / 2 ^ (- e) in
      if s then - v else v
  | _ => 0
  end.

Definition duration_seconds (d : Z) : spec_float :=
  SFadd 53 1024 (float_of_int (Z.quot d second))
    (float_div (float_of_int (Z.rem d second)) (float_of_int second)).

Definition bucketSeconds (window : Z) : Z :=
  let n := Z.quot (float_trunc (duration_seconds window)) 60 in
  if n <? 1 then 1 else n.

Definition bucket_of (secs t : Z) : Z := t / (secs * second) * (secs * second).

(** [GROUP BY bucket ORDER BY bucket ASC] *)
Definition series_rows (secs : Z) (rs : list row) : list Bucket :=
  let starts := stable_sort Z.ltb (remove_dups (map (fun r => bucket_of secs (r_ts r)) rs)) in
  map (fun t =>
         let here := List.filter (fun r => bucket_of secs (r_ts r) =? t) rs in
         MkBucket t (count_rows (verdict_is Allow) here) (count_rows (verdict_is Block) here))
    starts.

Definition series (d : db) (since window : Z) : result (list Bucket) :=
  query d "traffic series" (series_rows (bucketSeconds window) (since_rows since (db_rows d))).

Definition pg_Stats (d : db) (now window : Z) : result Stats :=
  let window := if window <=? 0 then hour else window in
  let since := now - window in
  let rs := since_rows since (db_rows d) in
  totals ← query d "traffic totals"
    (Z.of_nat (List.length rs), count_rows (verdict_is Allow) rs, count_rows (verdict_is Block) rs);
  ips ← topBlocked d since "ip";
  rules ← topBlocked d since "rule";
  buckets ← series d since window;
  let '(total, allowed, blocked) := totals in
  Ok (MkStats (duration_str window) total allowed blocked ips rules buckets).
End Store.

#[export] Instance postgres_repository `{Postgres} : Repository db := {
  Append := pg_Append;
  VerifyChain := pg_VerifyChain;
  Head := pg_Head;
  List_ := pg_List;
  Count_ := pg_Count
}.

(** ** The table's invariant *)

Lemma forallb_Forall2 {A} (p : A -> bool) l l' :
  Forall2 (fun x y => p x = p y) l l' -> forallb p l = forallb p l'.
Proof. induction 1 as [|x y l l' E _ IH]; [done|]. cbn. by rewrite E, IH. Qed.

Lemma forallb_perm {A} (p : A -> bool) l l' : l ≡ₚ l' -> forallb p l = forallb p l'.
Proof.
  induction 1; cbn; [done|congruence| |congruence].
  by rewrite !andb_assoc, (andb_comm (p y)).
Qed.

Lemma plain_geq v w : geq v w -> plain v = plain w.
Proof.
  revert w. induction v using gval_ind; intros w Hg;
    inversion Hg as [|? l' Hf|? m1 m' Hp Hf]; subst; try done; cbn [plain].
  - apply forallb_Forall2. clear Hg. revert l' Hf. induction H; intros l' Hf; inversion Hf; subst;
      constructor; auto.
  - rewrite (forallb_perm _ _ _ Hp). apply forallb_Forall2.
    assert (Forall (fun p => forall w, geq p.2 w -> plain p.2 = plain w) m1) as Hm by by rewrite <- Hp.
    clear - Hm Hf. induction Hf as [|p q m1 m' [E G] _ IH]; constructor;
      apply list.Forall_cons in Hm as [Hq Hm]; auto.
Qed.

Section StoreLemmas.
Context `{PostgresLaws}.

Definition seq_lt (a b : row) : Prop := r_seq a < r_seq b.

Definition scan_ok (r : row) : option AuditEntry :=
  match scanEntry r with Ok e => Some e | Err _ => None end.

(** Rows stand in the order of their sequence numbers, below the next one, and decode. *)
Record db_inv (d : db) : Prop := {
  inv_sorted : StronglySorted seq_lt (db_rows d);
  inv_next : Forall (fun r => r_seq r < db_next d) (db_rows d);
  inv_scan : Forall (fun r => exists e, scanEntry r = Ok e) (db_rows d)
}.

(** The log a table holds. *)
Definition db_log (d : db) : list AuditEntry := omap scan_ok (by_seq (db_rows d)).

Lemma by_seq_sorted rs : StronglySorted seq_lt rs -> by_seq rs = rs.
Proof.
  induction 1 as [|r rs Hs IH Hr]; [done|]. unfold by_seq in *. cbn [stable_sort foldr].
  unfold stable_sort in IH. rewrite IH. destruct rs as [|r' rs]; [done|]. cbn.
  apply list.Forall_cons in Hr as [Hr _]. unfold seq_lt in Hr.
  by destruct (Z.ltb_spec (r_seq r') (r_seq r)); [lia|].
Qed.

Lemma sorted_filter (P : row -> Prop) `{!forall r, base.Decision (P r)} rs :
  StronglySorted seq_lt rs -> StronglySorted seq_lt (filter P rs).
Proof.
  induction 1 as [|r rs Hs IH Hr]; [constructor|]. rewrite filter_cons.
  destruct (decide (P r)); [|done]. constructor; [done|].
  apply list.Forall_forall. intros x [_ Hx]%list_elem_of_filter.
  rewrite list.Forall_forall in Hr. by apply Hr.
Qed.

Lemma by_seq_filter (P : row -> Prop) `{!forall r, base.Decision (P r)} rs :
  StronglySorted seq_lt rs -> by_seq (filter P rs) = filter P rs.
Proof. intros Hs. by apply by_seq_sorted, sorted_filter. Qed.

Lemma scan_all rs : Forall (fun r => exists e, scanEntry r = Ok e) rs ->
  mapM scanEntry rs = Ok (omap scan_ok rs).
Proof.
  induction 1 as [|r rs [e He] _ IH]; [done|]. cbn. unfold scan_ok at 1. by rewrite He, IH.
Qed.

Lemma walk_rows_scan w rs es :
  mapM scanEntry rs = Ok es -> walk_rows w rs = Ok (walk w es).
Proof.
  revert w es. induction rs as [|r rs IH]; intros w es Hm; cbn in Hm |- *.
  - by injection Hm as <-.
  - destruct (scanEntry r) as [e|]; cbn in Hm |- *; [|done].
    destruct (mapM scanEntry rs) as [es'|]; cbn in Hm; [|done]. injection Hm as <-.
    cbn [walk]. destruct (step w e) as [w' [b|]]; [done|]. by apply IH.
Qed.

Lemma inv_log d : db_inv d -> db_log d = omap scan_ok (db_rows d).
Proof. intros [Hs _ _]. unfold db_log. by rewrite by_seq_sorted. Qed.

Lemma scanEntry_fields r e : scanEntry r = Ok e ->
  e_ID e = r_id r /\ e_Timestamp e = r_ts r /\ e_PrevHash e = r_prev_hash r /\ e_Hash e = r_hash r.
Proof.
  unfold scanEntry. destruct (DecodeJSONPayload (r_payload r)); cbn; [|done].
  by intros [= <-].
Qed.

(** *** Appending *)

(** What the server and the driver give back as it went in. *)
Definition pg_accepts (e : AuditEntry) : Prop :=
  aligned (e_Timestamp e) /\ plain (VObject (e_Payload e)) = true.

Definition new_row (d : db) (e : AuditEntry) (payload : string) : row :=
  Row (db_next d) (e_ID e) (e_RequestID e) (pg_ts (e_Timestamp e)) (e_Kind e) payload
    (e_PrevHash e) (e_Hash e).

Lemma append_cases d e d' m : pg_Append d e = (d', m) ->
  (exists raw raw' late, CanonicalJSON (VObject (e_Payload e)) = Ok raw /\ pg_jsonb raw = Ok raw' /\
     d' = DB (db_rows d ++ [new_row d e raw']) (db_next d + 1) (db_fault d) late) \/
  (m <> None /\ db_rows d' = db_rows d /\ db_next d <= db_next d').
Proof.
  unfold pg_Append. destruct (CanonicalJSON _) as [raw|] eqn:Er.
  2: { intros [= <- <-]. right. split; [done|]. split; [done|lia]. }
  unfold insert. destruct (db_fault d) as [f|] eqn:Ef.
  { intros [= <- <-]. right. split; [done|]. split; [done|lia]. }
  assert (forall x, (DB (db_rows d) (db_next d + 1) None (db_late d), Some x) = (d', m) ->
    m <> None /\ db_rows d' = db_rows d /\ db_next d <= db_next d') as Hfail.
  { intros x [= <- <-]. split; [done|]. split; [done|cbn; lia]. }
  destruct (pg_reject e) as [x|]; [intros Hx; right; by eapply Hfail|].
  destruct (pg_jsonb raw) as [raw'|x] eqn:Ej; [|intros Hx; right; by eapply Hfail].
  repeat (match goal with |- context [if ?c then _ else _] => destruct c end;
    [intros Hx; right; by eapply Hfail|]).
  intros Hx. left. exists raw, raw', (tail (db_late d)).
  destruct (head (db_late d)) as [[x|]|]; by injection Hx as <- _.
Qed.

Lemma new_row_scans d e raw raw' : pg_jsonb raw = Ok raw' ->
  exists x, scanEntry (new_row d e raw') = Ok x.
Proof.
  intros Hj. destruct (pg_jsonb_object raw raw' Hj) as [m Hm].
  unfold scanEntry, new_row. cbn. rewrite Hm. cbn. eauto.
Qed.

Lemma append_keeps_inv d e d' m : db_inv d -> pg_Append d e = (d', m) -> db_inv d'.
Proof.
  intros [Hs Hn Hc] Ha. apply append_cases in Ha as [(raw & raw' & late & _ & Hj & ->)|(_ & Hr & Hle)].
  - split; cbn.
    + assert (forall rs, StronglySorted seq_lt rs -> Forall (fun r => r_seq r < db_next d) rs ->
        StronglySorted seq_lt (rs ++ [new_row d e raw'])) as Haux; [|by apply Haux].
      intros rs Hrs. induction Hrs as [|r rs Hrs IH Hr]; intros Hf; cbn; [by repeat constructor|].
      apply list.Forall_cons in Hf as [Hf1 Hf2]. constructor; [by apply IH|].
      apply list.Forall_app. split; [done|]. by constructor.
    + apply list.Forall_app. split; [|constructor; [cbn; lia|constructor]].
      eapply list.Forall_impl; [exact Hn|]. cbn. intros; lia.
    + apply list.Forall_app. split; [done|]. constructor; [|constructor]. by eapply new_row_scans.
  - split; rewrite Hr; [done| |done]. eapply list.Forall_impl; [exact Hn|]. cbn. intros; lia.
Qed.

(** An append adds nothing or the entry; it adds the entry when it succeeds. *)
Lemma append_stores d e d' m :
  db_inv d -> entry_ok e -> pg_accepts e -> pg_Append d e = (d', m) ->
  (m <> None /\ db_log d' = db_log d) \/ Forall2 same_entry (db_log d') (db_log d ++ [e]).
Proof.
  intros Hi Ho [Ht Hp] Ha. pose proof (append_keeps_inv _ _ _ _ Hi Ha) as Hi'.
  apply append_cases in Ha as [(raw & raw' & late & Hc & Hj & ->)|(Hm & Hr & _)].
  2: { left. split; [done|]. unfold db_log. by rewrite Hr. }
  right. rewrite (inv_log (DB _ _ _ _)) by done. rewrite (inv_log d) by done. cbn.
  rewrite omap_app. apply Forall2_app; [by apply Forall2_refl_on, list.Forall_true|].
  destruct (payload_rehash _ (ok_payload _ Ho)) as (raw2 & m' & E1 & E2 & G & _).
  rewrite Hc in E1. injection E1 as <-.
  assert (plain (VObject m') = true) as Hpm by by rewrite (plain_geq _ _ G).
  destruct (pg_jsonb_data raw raw' m' Hj E2 Hpm) as (m2 & E3 & G').
  cbn. unfold scan_ok, scanEntry, new_row. cbn -[DecodeJSONPayload]. rewrite E3. cbn.
  constructor; [|constructor]. split; [|done]. split; cbn; try done.
  - by apply pg_ts_aligned.
  - by rewrite G'.
Qed.

(** *** Reading *)

Lemma scanned rs : Forall (fun r => exists e, scanEntry r = Ok e) rs ->
  Forall2 (fun r e => scanEntry r = Ok e) rs (omap scan_ok rs).
Proof.
  induction 1 as [|r rs [e He] _ IH]; [constructor|]. cbn. unfold scan_ok at 1. rewrite He.
  by constructor.
Qed.

Lemma head_hash_rows p rs r : (exists e, scanEntry r = Ok e) ->
  head_hash p (omap scan_ok (rs ++ [r])) = r_hash r.
Proof.
  intros [e He]. rewrite omap_app. cbn. unfold scan_ok at 2. rewrite He, head_hash_snoc.
  by apply scanEntry_fields in He as (_ & _ & _ & ->).
Qed.

Lemma last_hash rs : Forall (fun r => exists e, scanEntry r = Ok e) rs ->
  match list.last rs with Some r => r_hash r | None => GenesisHash end
  = head_hash GenesisHash (omap scan_ok rs).
Proof.
  destruct rs as [|r rs _] using rev_ind; [done|]. rewrite last_snoc.
  intros [_ Hr]%list.Forall_app. apply list.Forall_cons in Hr as [Hr _].
  by rewrite head_hash_rows.
Qed.

Lemma pg_head_log d h : db_inv d -> pg_Head d = Ok h -> h = head_hash GenesisHash (db_log d).
Proof.
  intros Hi. pose proof (inv_scan _ Hi) as Hs. unfold pg_Head, query.
  destruct (db_fault d); [done|]. cbn. rewrite by_seq_sorted by apply Hi.
  rewrite inv_log, <- last_hash by done. destruct (list.last (db_rows d)); by intros [= <-].
Qed.

Lemma where_nil rs : where_ [] rs = rs.
Proof.
  unfold where_. induction rs as [|r rs IH]; [done|]. rewrite filter_cons, decide_True by done.
  by rewrite IH.
Qed.

Lemma pg_verify_log d r : db_inv d -> pg_VerifyChain d zero_time zero_time = Ok r ->
  r = verify_from GenesisHash (db_log d).
Proof.
  intros Hi. pose proof (inv_scan _ Hi) as Hs. unfold pg_VerifyChain, query.
  change (anchorBefore d zero_time) with (@Ok string GenesisHash).
  destruct (db_fault d); [done|]. cbn -[walk_rows].
  rewrite where_nil, by_seq_sorted by apply Hi.
  rewrite (walk_rows_scan _ _ (omap scan_ok (db_rows d))) by by apply scan_all.
  cbn. rewrite stampRange_zero, inv_log by done. by intros [= <-].
Qed.

#[export] Instance postgres_laws : RepositoryLaws db.
Proof.
  refine {| log := db_log; inv := db_inv; accepts := pg_accepts |}.
  - exact (fun s s' e m => append_keeps_inv s e s' m).
  - intros s s' e Hi Ho Hp Ha. by destruct (append_stores s e s' None Hi Ho Hp Ha) as [[? _]|?].
  - intros s s' e m Hi Ho Hp Ha. destruct (append_stores s e s' (Some m) Hi Ho Hp Ha) as [[_ ?]|?]; auto.
  - exact pg_head_log.
  - exact pg_verify_log.
Defined.

(** *** Ranges over a log whose timestamps do not go back *)

Definition ts_le (a b : row) : Prop := r_ts a <= r_ts b.

Lemma ts_split t rs : StronglySorted ts_le rs ->
  exists a b, rs = a ++ b /\ Forall (fun r => r_ts r < t) a /\ Forall (fun r => t <= r_ts r) b.
Proof.
  induction 1 as [|r rs Hs (a & b & -> & Ha & Hb) Hr]; [by exists [], []|].
  destruct (Z.lt_ge_cases (r_ts r) t) as [Hlt|Hge].
  - exists (r :: a), b. split; [done|]. split; [by constructor|done].
  - exists [], (r :: a ++ b). split; [done|]. split; [constructor|]. constructor; [done|].
    eapply list.Forall_impl; [exact Hr|]. unfold ts_le. intros; lia.
Qed.

Lemma omap_scan_ts (P : Z -> Prop) rs : Forall (fun r => exists e, scanEntry r = Ok e) rs ->
  Forall (fun r => P (r_ts r)) rs -> Forall (fun e => P (e_Timestamp e)) (omap scan_ok rs).
Proof.
  induction 1 as [|r rs [e He] _ IH]; [constructor|]. intros [Hr Hrs]%list.Forall_cons. cbn.
  unfold scan_ok at 1. rewrite He. constructor; [|by apply IH].
  by apply scanEntry_fields in He as (_ & -> & _).
Qed.

Lemma filter_where rs (P : row -> Prop) `{!forall r, base.Decision (P r)} :
  Forall P rs -> filter P rs = rs.
Proof.
  induction 1 as [|r rs Hr _ IH]; [done|]. rewrite filter_cons. by rewrite decide_True, IH.
Qed.

Lemma filter_none rs (P : row -> Prop) `{!forall r, base.Decision (P r)} :
  Forall (fun r => ~ P r) rs -> filter P rs = [].
Proof.
  induction 1 as [|r rs Hr _ IH]; [done|]. rewrite filter_cons. by rewrite decide_False, IH.
Qed.

(** The three parts of a log a range cuts it into. *)
Lemma range_split from to rs : StronglySorted ts_le rs ->
  exists a b c, rs = a ++ b ++ c /\
    Forall (fun r => is_zero_time from = false /\ r_ts r < from) a /\
    Forall (fun r => is_zero_time from = true \/ from <= r_ts r) (b ++ c) /\
    Forall (fun r => is_zero_time to = true \/ r_ts r <= to) b /\
    Forall (fun r => is_zero_time to = false /\ to < r_ts r) c.
Proof.
  intros Hs.
  assert (exists a bc, rs = a ++ bc /\ Forall (fun r => is_zero_time from = false /\ r_ts r < from) a
    /\ Forall (fun r => is_zero_time from = true \/ from <= r_ts r) bc) as (a & bc & -> & Ha & Hbc).
  { destruct (is_zero_time from); [exists [], rs; repeat split; try constructor|].
    - apply list.Forall_true. by left.
    - destruct (ts_split from rs Hs) as (a & b & -> & Ha & Hb). exists a, b. split; [done|].
      split; eapply list.Forall_impl; try done; cbn; auto. }
  assert (StronglySorted ts_le bc) as Hs'.
  { clear - Hs. induction a as [|r a IH]; [done|]. inversion Hs; subst. by apply IH. }
  destruct (is_zero_time to).
  - exists a, bc, []. rewrite app_nil_r. repeat split; try done. apply list.Forall_true. by left.
  - destruct (ts_split (to + 1) bc Hs') as (b & c & -> & Hb & Hc). exists a, b, c.
    repeat split; try done; eapply list.Forall_impl; try done; cbn; intros; [right|split]; lia || done.
Qed.

Lemma range_holds from to r :
  forallb (fun c => c_holds c r) (range_clauses from to)
  = (is_zero_time from || (pg_ts from <=? r_ts r)) && (is_zero_time to || (r_ts r <=? pg_ts to)).
Proof.
  unfold range_clauses, ts_from, ts_to.
  destruct (is_zero_time from), (is_zero_time to); cbn; rewrite ?andb_true_r; done.
Qed.

Lemma where_range from to a b c :
  Forall (fun r => is_zero_time from = false /\ r_ts r < pg_ts from) a ->
  Forall (fun r => is_zero_time from = true \/ pg_ts from <= r_ts r) (b ++ c) ->
  Forall (fun r => is_zero_time to = true \/ r_ts r <= pg_ts to) b ->
  Forall (fun r => is_zero_time to = false /\ pg_ts to < r_ts r) c ->
  where_ (range_clauses from to) (a ++ b ++ c) = b.
Proof.
  intros Ha Hbc Hb Hc. apply list.Forall_app in Hbc as [Hb' _].
  unfold where_. rewrite !list.filter_app, filter_none, filter_where, filter_none.
  - by rewrite app_nil_r.
  - eapply list.Forall_impl; [exact Hc|]. cbn. intros r [E Hr]. rewrite range_holds, E. cbn.
    rewrite (proj2 (Z.leb_gt _ _) Hr). by rewrite andb_false_r.
  - apply list.Forall_forall. rewrite list.Forall_forall in Hb, Hb'. intros r Hin.
    rewrite range_holds. apply andb_true_iff. split; apply orb_true_iff.
    + destruct (Hb' r Hin); [by left|right; by apply Z.leb_le].
    + destruct (Hb r Hin); [by left|right; by apply Z.leb_le].
  - eapply list.Forall_impl; [exact Ha|]. cbn. intros r [E Hr]. rewrite range_holds, E. cbn.
    by rewrite (proj2 (Z.leb_gt _ _) Hr).
Qed.

Lemma skip_before_app from p a b :
  Forall (fun e => is_zero_time from = false /\ e_Timestamp e < from) a ->
  Forall (fun e => is_zero_time from = true \/ from <= e_Timestamp e) b ->
  Memory.skip_before from p (a ++ b) = (head_hash p a, b).
Proof.
  intros Ha Hb. revert p. induction Ha as [|e a [E He] _ IH]; intros p; cbn [app head_hash].
  - destruct Hb as [|e b He _]; [done|]. cbn [Memory.skip_before].
    destruct (is_zero_time from) eqn:Ez; [done|]. destruct He as [?|He]; [done|].
    cbn [negb andb]. by rewrite (proj2 (Z.ltb_ge _ _) He).
  - cbn [Memory.skip_before]. rewrite E, (proj2 (Z.ltb_lt _ _) He). apply IH.
Qed.

Lemma until_app to a b :
  Forall (fun e => is_zero_time to = true \/ e_Timestamp e <= to) a ->
  Forall (fun e => is_zero_time to = false /\ to < e_Timestamp e) b ->
  Memory.until to (a ++ b) = a.
Proof.
  intros Ha Hb. induction Ha as [|e a He _ IH]; cbn [app].
  - destruct Hb as [|e b [Ez He] _]; [done|]. cbn. by rewrite Ez, (proj2 (Z.ltb_lt _ _) He).
  - cbn [Memory.until]. destruct (is_zero_time to); cbn [negb andb]; [by rewrite IH|].
    destruct He as [?|He]; [done|]. by rewrite (proj2 (Z.ltb_ge _ _) He), IH.
Qed.

Lemma anchor_rows d from a bc :
  db_inv d -> db_fault d = None -> db_rows d = a ++ bc ->
  Forall (fun r => is_zero_time from = false /\ r_ts r < pg_ts from) a ->
  Forall (fun r => is_zero_time from = true \/ pg_ts from <= r_ts r) bc ->
  anchorBefore d from = Ok (head_hash GenesisHash (omap scan_ok a)).
Proof.
  intros Hi Hf Hd Ha Hb. pose proof (inv_scan _ Hi) as Hs. unfold anchorBefore, query.
  destruct (is_zero_time from) eqn:Ez.
  { by destruct Ha as [|r a [? _] _]. }
  rewrite Hf, by_seq_filter, Hd, list.filter_app by apply Hi.
  rewrite (filter_where a), (filter_none bc), app_nil_r.
  - cbn. rewrite Hd in Hs. apply list.Forall_app in Hs as [Hs _]. rewrite <- last_hash by done.
    by destruct (list.last a).
  - eapply list.Forall_impl; [exact Hb|]. cbn. intros r [?|?]; [done|lia].
  - eapply list.Forall_impl; [exact Ha|]. by intros r [_ ?].
Qed.

Lemma verify_range_agrees d from to :
  db_inv d -> db_fault d = None -> aligned from -> aligned to -> StronglySorted ts_le (db_rows d) ->
  pg_VerifyChain d from to = Memory.VerifyChain (db_log d) from to.
Proof.
  intros Hi Hf Hfrom%pg_ts_aligned Hto%pg_ts_aligned Hts. destruct (range_split from to _ Hts) as (a & b & c & Hd & Ha & Hbc & Hb & Hc).
  pose proof (inv_scan _ Hi) as Hs. pose proof Hs as Hs'. rewrite Hd in Hs'.
  apply list.Forall_app in Hs' as [Sa Sbc]. pose proof Sbc as Sbc'.
  apply list.Forall_app in Sbc' as [Sb Sc].
  unfold pg_VerifyChain. rewrite (anchor_rows d from a (b ++ c)) by (rewrite ?Hfrom; done).
  unfold query. rewrite Hf. cbn -[walk_rows].
  rewrite Hd, where_range by (rewrite ?Hfrom, ?Hto; done).
  rewrite by_seq_sorted.
  2: { pose proof (inv_sorted _ Hi) as Hq. rewrite Hd in Hq.
       clear - Hq. induction a as [|r a IH]; cbn in Hq; [|inversion Hq; subst; by apply IH].
       by eapply StronglySorted_app_1_l. }
  rewrite (walk_rows_scan _ _ _ (scan_all b Sb)). cbn.
  unfold Memory.VerifyChain. rewrite inv_log, Hd, omap_app by done.
  rewrite skip_before_app.
  - rewrite omap_app, until_app; [done| |].
    + apply (omap_scan_ts (fun t => is_zero_time to = true \/ t <= to)); done.
    + apply (omap_scan_ts (fun t => is_zero_time to = false /\ to < t)); done.
  - apply (omap_scan_ts (fun t => is_zero_time from = false /\ t < from)); done.
  - apply (omap_scan_ts (fun t => is_zero_time from = true \/ from <= t)); done.
Qed.
End StoreLemmas.

(** ** A server that keeps what it is given *)

Definition jsonb_text (v : gval) : option string :=
  match v with
  | VNil => None
  | VString s => Some s
  | v => match CanonicalJSON v with Ok s => Some s | Err _ => None end
  end.

Definition plain_postgres : Postgres := {|
  pg_ts t := t / microsecond * microsecond;
  pg_jsonb raw := match DecodeJSONPayload raw with Ok _ => Ok raw | Err m => Err m end;
  pg_text raw key := match DecodeJSONPayload raw with
                     | Ok m => v ← assoc key m; jsonb_text v
                     | Err _ => None
                     end;
  pg_reject _ := None
|}.

Lemma plain_postgres_laws : @PostgresLaws plain_postgres.
Proof.
  split.
  - intros t Ht. unfold aligned in Ht. cbn. pose proof (Z.div_mod t microsecond ltac:(done)). lia.
  - intros raw raw'. cbn. destruct (DecodeJSONPayload raw) as [m|] eqn:E; [|done].
    intros [= <-]. by exists m.
  - intros raw raw' m. cbn. destruct (DecodeJSONPayload raw) as [m'|] eqn:E; [|done].
    intros [= <-] [= <-] _. exists m'. split; [done|constructor].
Qed.

(** ** Properties *)

Section PostgresProperties.
Context `{PostgresLaws}.

Lemma db_log_app d a b : db_inv d -> db_rows d = a ++ b ->
  db_log d = omap scan_ok a ++ omap scan_ok b.
Proof. intros Hi E. by rewrite inv_log, E, omap_app. Qed.

Lemma scan_row d r : db_inv d -> r ∈ db_rows d -> exists e, scanEntry r = Ok e.
Proof. intros Hi Hr. pose proof (inv_scan _ Hi) as Hs. rewrite list.Forall_forall in Hs. auto. Qed.

Lemma length_scanned rs : Forall (fun r => exists e, scanEntry r = Ok e) rs ->
  List.length (omap scan_ok rs) = List.length rs.
Proof. intros Hs. symmetry. by eapply Forall2_length, scanned. Qed.

(** on a log whose timestamps never go back, verifying a range in PostgreSQL and verifying it
    over the same entries in memory give the same report, anchor and window included, when the
    bounds are whole microseconds. *)
Theorem pg_verify_range_monotone d from to :
  db_inv d -> db_fault d = None -> aligned from -> aligned to -> StronglySorted ts_le (db_rows d) ->
  pg_VerifyChain d from to = Memory.VerifyChain (db_log d) from to.
Proof. apply verify_range_agrees. Qed.

Lemma last_filter_before from rs y b :
  r_ts y < pg_ts from -> Forall (fun r => pg_ts from <= r_ts r) b ->
  list.last (filter (fun r => r_ts r < pg_ts from) (rs ++ y :: b)) = Some y.
Proof.
  intros Hy Hb. rewrite list.filter_app, filter_cons, decide_True by done.
  rewrite (filter_none b); [by rewrite last_snoc|].
  eapply list.Forall_impl; [exact Hb|]. cbn. intros; lia.
Qed.

Lemma scan_ok_eq r e : scanEntry r = Ok e -> scan_ok r = Some e.
Proof. unfold scan_ok. by intros ->. Qed.

(** *** A range that cuts through a log with a later entry before an earlier one *)

Section FalseAlarm.
Context (d : db) (from : Z) (a : list row) (x : row) (m : list row) (y : row) (b : list row).
Context (Hi : db_inv d) (Hf : db_fault d = None) (Hz : is_zero_time from = false)
  (Hc : chain GenesisHash (db_log d)) (Hs : hash_sound GenesisHash (db_log d))
  (Hd : db_rows d = a ++ x :: m ++ y :: b)
  (Ha : Forall (fun r => r_ts r < pg_ts from) a) (Hx : pg_ts from <= r_ts x) (Hy : r_ts y < pg_ts from)
  (Hb : Forall (fun r => pg_ts from <= r_ts r) b).

Lemma alarm_rows : exists rest,
  by_seq (where_ (range_clauses from zero_time) (db_rows d)) = x :: rest.
Proof.
  unfold where_. rewrite by_seq_filter, Hd, list.filter_app by apply Hi.
  rewrite (filter_none a).
  - rewrite filter_cons, decide_True; [by eexists|]. rewrite range_holds, Hz.
    cbn. by rewrite (proj2 (Z.leb_le _ _) Hx).
  - eapply list.Forall_impl; [exact Ha|]. cbn. intros r Hr. rewrite range_holds, Hz. cbn.
    by rewrite (proj2 (Z.leb_gt _ _) Hr).
Qed.

Lemma alarm_anchor : anchorBefore d from = Ok (r_hash y).
Proof.
  unfold anchorBefore, query. rewrite Hz, Hf, by_seq_filter, Hd by apply Hi. cbn -[filter].
  change (a ++ x :: m ++ y :: b) with (a ++ (x :: m) ++ y :: b). rewrite app_assoc.
  by rewrite last_filter_before.
Qed.

(** The entries before [x], and those up to [y], with what the chain says of them. *)
Lemma alarm_prefixes :
  let l1 := omap scan_ok a in
  let l2 := omap scan_ok ((a ++ x :: m) ++ [y]) in
  (forall e, e ∈ l1 -> e ∈ db_log d) /\ (forall e, e ∈ l2 -> e ∈ db_log d) /\
  chain GenesisHash l1 /\ chain GenesisHash l2 /\
  r_prev_hash x = head_hash GenesisHash l1 /\ r_hash y = head_hash GenesisHash l2 /\
  (List.length l1 < List.length l2)%nat.
Proof.
  cbv zeta. set (l1 := omap scan_ok a). set (l2 := omap scan_ok ((a ++ x :: m) ++ [y])).
  assert (db_log d = l1 ++ omap scan_ok (x :: m ++ y :: b)) as E1 by by apply db_log_app.
  assert (db_log d = l2 ++ omap scan_ok b) as E2.
  { apply db_log_app; [done|]. by rewrite Hd, <- !app_assoc. }
  destruct (scan_row d x Hi) as [ex Ex]; [rewrite Hd; set_solver|].
  destruct (scan_row d y Hi) as [ey Ey]; [rewrite Hd; set_solver|].
  split; [rewrite E1; set_solver|]. split; [rewrite E2; set_solver|].
  pose proof Hc as C1. pose proof Hc as C2. rewrite E1 in C1. rewrite E2 in C2.
  apply chain_app in C1 as [C1 Cx]. apply chain_app in C2 as [C2 _].
  split; [done|]. split; [done|]. split; [|split].
  - cbn in Cx. rewrite (scan_ok_eq _ _ Ex) in Cx. inversion Cx; subst.
    by destruct (scanEntry_fields _ _ Ex) as (_ & _ & <- & _).
  - unfold l2. by rewrite head_hash_rows by eauto.
  - unfold l1, l2. rewrite !omap_app, !length_app. cbn.
    rewrite (scan_ok_eq _ _ Ex), (scan_ok_eq _ _ Ey). cbn. lia.
Qed.

Lemma alarm_link : r_prev_hash x <> r_hash y /\ r_hash y <> EmptyString.
Proof.
  destruct alarm_prefixes as (I1 & I2 & C1 & C2 & P1 & P2 & Hl). split.
  - intros E. rewrite P1, P2 in E.
    pose proof (chain_head_inj _ _ _ _ Hs I1 I2 C1 C2 E) as Hf2.
    apply Forall2_length in Hf2. lia.
  - rewrite P2. by apply chain_head_nonempty.
Qed.

Lemma alarm_report : exists r, pg_VerifyChain d from zero_time = Ok r /\ v_OK r = false /\
  v_Position r = 1 /\ v_BrokenAt r = r_id x.
Proof.
  destruct alarm_rows as [rest Hrest]. destruct alarm_link as [Hne Hy0].
  destruct (scan_row d x Hi) as [ex Ex]; [rewrite Hd; set_solver|].
  destruct (scanEntry_fields _ _ Ex) as (Eid & _ & Eprev & _).
  unfold pg_VerifyChain. rewrite alarm_anchor. unfold query. rewrite Hf, Hrest.
  cbn [mbind result_bind walk_rows]. rewrite Ex. cbn [mbind result_bind].
  rewrite newChainWalker_prev by done. rewrite step_breaks.
  - eexists. split; [reflexivity|]. cbn. by rewrite <- Eid.
  - left. by rewrite Eprev.
Qed.
End FalseAlarm.

(** C37: on a log whose timestamps do go back, verifying a range reports tampering where there is
    none.  Take an intact log and a start of range such that some entry [x] is inside the range
    while a later entry [y] is before it, as the server compares them: the anchor is then the hash of [y], no entry of the
    range follows it, and the report says that an entry was deleted, reordered or inserted
    before [x]. *)
Theorem pg_verify_range_false_alarm d from a x m y b :
  db_inv d -> db_fault d = None -> is_zero_time from = false ->
  chain GenesisHash (db_log d) -> hash_sound GenesisHash (db_log d) ->
  db_rows d = a ++ x :: m ++ y :: b ->
  Forall (fun r => r_ts r < pg_ts from) a -> pg_ts from <= r_ts x -> r_ts y < pg_ts from ->
  Forall (fun r => pg_ts from <= r_ts r) b ->
  exists r, pg_VerifyChain d from zero_time = Ok r /\ v_OK r = false /\ v_Position r = 1 /\
    v_BrokenAt r = r_id x.
Proof. intros. by eapply alarm_report. Qed.
End PostgresProperties.

(** *** Concrete tables *)

#[local] Existing Instance plain_postgres.
#[local] Existing Instance plain_postgres_laws.

Definition append_all (d : db) (es : list AuditEntry) : db :=
  foldl (fun d e => (@pg_Append plain_postgres d e).1) d es.

Definition sample_db : db := Eval vm_compute in append_all (DB [] 1 None []) sample_log.

Lemma sample_db_inv : db_inv sample_db.
Proof.
  split; [|by repeat constructor|].
  - unfold sample_db. repeat constructor.
  - repeat constructor; eexists; reflexivity.
Qed.

Theorem pg_verify_range_monotone_witness :
  pg_VerifyChain sample_db (1700000001 * second) zero_time
  = Memory.VerifyChain (db_log sample_db) (1700000001 * second) zero_time.
Proof.
  apply pg_verify_range_monotone.
  - exact sample_db_inv.
  - reflexivity.
  - reflexivity.
  - reflexivity.
  - unfold sample_db. repeat constructor; discriminate.
Defined.

(** Two entries stamped in one order and appended in the other. *)
Definition skew_events : list AuditEntry :=
  [Entry "a" "" (1700000002 * second) KindSystem [] "" "";
   Entry "b" "" (1700000001 * second) KindSystem [] "" ""].

Definition skew_log : list AuditEntry := Eval vm_compute in reseal GenesisHash skew_events.
Definition skew_db : db := Eval vm_compute in append_all (DB [] 1 None []) skew_log.

Definition skew_digests : list (list Z) := Eval vm_compute in
  map (fun e => sha256 (preimage e)) skew_log.

Lemma skew_digests_eq : map (fun e => sha256 (preimage e)) skew_log = skew_digests.
Proof. vm_compute. reflexivity. Qed.

Lemma skew_sound : hash_sound GenesisHash skew_log.
Proof.
  apply (sound_from_digests _ _ _ skew_digests_eq).
  - by apply (bool_decide_unpack _).
  - repeat constructor; discriminate.
  - do 2 (apply List.Forall_cons; [apply entry_ok_empty; reflexivity|]). apply List.Forall_nil.
Qed.

Lemma skew_chain : chain GenesisHash skew_log.
Proof.
  apply chain_links; [reflexivity|]. by apply (hashes_from_digests _ _ skew_digests_eq).
Qed.

Lemma skew_db_inv : db_inv skew_db.
Proof.
  split; [|by repeat constructor|].
  - unfold skew_db. repeat constructor.
  - repeat constructor; eexists; reflexivity.
Qed.

Theorem pg_verify_range_false_alarm_witness :
  exists r, pg_VerifyChain skew_db (1700000002 * second) zero_time = Ok r /\ v_OK r = false /\
    v_Position r = 1 /\ v_BrokenAt r = "a".
Proof.
  apply (pg_verify_range_false_alarm (H := plain_postgres) (H0 := plain_postgres_laws) skew_db (1700000002 * second) []
    (nth 0 (db_rows skew_db) (Row 0 "" "" 0 "" "" "" "")) []
    (nth 1 (db_rows skew_db) (Row 0 "" "" 0 "" "" "" "")) []).
  - exact skew_db_inv.
  - reflexivity.
  - reflexivity.
  - exact skew_chain.
  - exact skew_sound.
  - reflexivity.
  - constructor.
  - discriminate.
  - reflexivity.
  - constructor.
Defined.

(** ** Queries *)

Section QueryProperties.
Context `{Postgres}.

(** Which of its fields a filter constrains. *)
Definition filter_shape (f : Filter) : list bool :=
  [String.eqb (f_Kind f) EmptyString; String.eqb (f_RequestID f) EmptyString;
   String.eqb (f_Verdict f) EmptyString; String.eqb (f_IP f) EmptyString;
   String.eqb (f_Rule f) EmptyString; is_zero_time (f_From f); is_zero_time (f_To f)].

(** The values of the constrained fields, in the order of the clauses. *)
Definition filter_values (f : Filter) : list sqlval :=
  let text v := if String.eqb v EmptyString then [] else [SqlText v] in
  let time t := if is_zero_time t then [] else [SqlTime t] in
  text (f_Kind f) ++ text (f_RequestID f) ++ text (f_Verdict f) ++ text (f_IP f)
  ++ text (f_Rule f) ++ time (f_From f) ++ time (f_To f).

(** nothing from a request reaches the SQL text.  Two filters that constrain the same fields
    produce the same text, whatever their values are; the values are bound parameters, in the
    order of the placeholders $1, $2, ... *)
Theorem filterClause_bound f g :
  filter_shape f = filter_shape g ->
  fst (filterClause f) = fst (filterClause g) /\ snd (filterClause f) = filter_values f.
Proof.
  unfold filter_shape. intros [= E1 E2 E3 E4 E5 E6 E7]. split.
  - unfold filterClause, filter_clauses, text_clause, ts_from, ts_to.
    rewrite <- E1, <- E2, <- E3, <- E4, <- E5, <- E6, <- E7.
    destruct (String.eqb (f_Kind f) EmptyString), (String.eqb (f_RequestID f) EmptyString),
      (String.eqb (f_Verdict f) EmptyString), (String.eqb (f_IP f) EmptyString),
      (String.eqb (f_Rule f) EmptyString), (is_zero_time (f_From f)), (is_zero_time (f_To f));
      reflexivity.
  - unfold filterClause, render, filter_clauses, filter_values, text_clause, ts_from, ts_to.
    cbn [snd]. rewrite !map_app.
    destruct (String.eqb (f_Kind f) EmptyString), (String.eqb (f_RequestID f) EmptyString),
      (String.eqb (f_Verdict f) EmptyString), (String.eqb (f_IP f) EmptyString),
      (String.eqb (f_Rule f) EmptyString), (is_zero_time (f_From f)), (is_zero_time (f_To f));
      reflexivity.
Qed.

Definition where_log (d : db) (f : Filter) : list AuditEntry :=
  omap scan_ok (where_ (filter_clauses f) (db_rows d)).

Lemma omap_length_scan rs : Forall (fun r => exists e, scanEntry r = Ok e) rs ->
  List.length (omap scan_ok rs) = List.length rs.
Proof. intros Hs. symmetry. by eapply Forall2_length, scanned. Qed.

Lemma Forall_where cs rs (P : row -> Prop) : Forall P rs -> Forall P (where_ cs rs).
Proof.
  intros Hp. apply list.Forall_forall. intros r [_ Hr]%list_elem_of_filter.
  rewrite list.Forall_forall in Hp. by apply Hp.
Qed.

Lemma omap_take_drop_scan n k rs : Forall (fun r => exists e, scanEntry r = Ok e) rs ->
  omap scan_ok (take n (drop k rs)) = take n (drop k (omap scan_ok rs)).
Proof.
  intros Hs. revert k n. induction Hs as [|r rs [e He] _ IH]; intros k n; [by destruct k, n|].
  pose proof (scan_ok_eq _ _ He) as Hr. destruct k as [|k].
  - destruct n as [|n]; [done|]. cbn. rewrite Hr. cbn. f_equal. apply (IH 0%nat).
  - cbn. rewrite Hr. cbn. apply IH.
Qed.

Lemma omap_rev_scan rs : omap scan_ok (rev rs) = rev (omap scan_ok rs).
Proof.
  induction rs as [|r rs IH]; [done|]. cbn. rewrite omap_app, IH. cbn.
  destruct (scan_ok r); [done|]. by rewrite app_nil_r.
Qed.

Lemma pg_list_window d f : db_inv d -> db_fault d = None ->
  pg_List d f = Ok (take (Z.to_nat (f_Limit (Normalized f)))
    (drop (Z.to_nat (f_Offset (Normalized f))) (rev (where_log d f)))).
Proof.
  intros Hi Hf. unfold pg_List, query. cbv zeta. rewrite Hf. cbn [mbind result_bind].
  unfold where_log. unfold where_ at 1. rewrite by_seq_filter by apply Hi.
  fold (where_ (filter_clauses (Normalized f)) (db_rows d)).
  assert (Forall (fun r => exists e, scanEntry r = Ok e) (where_ (filter_clauses f) (db_rows d)))
    as Hs by apply Forall_where, Hi.
  change (filter_clauses (Normalized f)) with (filter_clauses f).
  assert (Forall (fun r => exists e, scanEntry r = Ok e)
    (rev (where_ (filter_clauses f) (db_rows d)))) as Hr.
  { apply List.Forall_rev in Hs. exact Hs. }
  rewrite scan_all by by apply list.Forall_take, list.Forall_drop.
  by rewrite omap_take_drop_scan, omap_rev_scan.
Qed.

(** the dashboard's pages tile the log.  On a table that answers, asking for pages one after
    the other yields exactly the matching entries, newest append first, each once; together
    they are as many as [Count] says. *)
Theorem pg_pagination d f k :
  db_inv d -> db_fault d = None ->
  let n := Z.to_nat (f_Limit (Normalized f)) in
  exists pages,
    map (fun i => pg_List d (with_offset f (Z.of_nat (i * n)))) (seq 0 k) = map Ok pages /\
    Forall (fun p => (List.length p <= n)%nat) pages /\
    concat pages = take (k * n) (rev (where_log d f)) /\
    pg_Count d f = Ok (Z.of_nat (List.length (where_log d f))).
Proof.
  cbv zeta. intros Hi Hf. set (n := Z.to_nat (f_Limit (Normalized f))).
  exists (map (fun i => take n (drop (i * n) (rev (where_log d f)))) (seq 0 k)).
  split; [|split; [|split; [apply take_pages|]]].
  - rewrite map_map. apply map_ext. intros i. rewrite pg_list_window by done. f_equal.
    assert (f_Offset (Normalized (with_offset f (Z.of_nat (i * n)))) = Z.of_nat (i * n)) as ->.
    { cbn. destruct (Z.ltb_spec (Z.of_nat (i * n)) 0); lia. }
    by rewrite Nat2Z.id.
  - apply List.Forall_map, list.Forall_true. intros i. rewrite length_take. lia.
  - unfold pg_Count, query, where_log. rewrite Hf. rewrite omap_length_scan; [done|].
    apply Forall_where, Hi.
Qed.

(** *** The overview *)

Definition sum (l : list Z) : Z := foldr Z.add 0 l.

Lemma sum_cons x l : sum (x :: l) = x + sum l.
Proof. done. Qed.

Lemma sum_zero {A} (f : A -> Z) l : Forall (fun x => f x = 0) l -> sum (map f l) = 0.
Proof. induction 1 as [|x l Hx _ IH]; [done|]. cbn [map]. by rewrite sum_cons, Hx, IH. Qed.

Lemma sum_indicator (v : Z) l : NoDup l -> v ∈ l ->
  sum (map (fun t => if v =? t then 1 else 0) l) = 1.
Proof.
  induction 1 as [|x l Hx _ IH]; [by intros ?%elem_of_nil|]. cbn [map]. rewrite sum_cons.
  intros [->|Hv]%elem_of_cons.
  - rewrite Z.eqb_refl, sum_zero; [done|]. apply list.Forall_forall. intros y Hy.
    by destruct (Z.eqb_spec x y) as [->|].
  - rewrite IH by done. by destruct (Z.eqb_spec v x) as [->|].
Qed.

Lemma sum_plus {A} (f g : A -> Z) l :
  sum (map (fun t => f t + g t) l) = sum (map f l) + sum (map g l).
Proof. induction l as [|x l IH]; [done|]. cbn [map]. rewrite !sum_cons. lia. Qed.

Lemma count_rows_cons p r rs : count_rows p (r :: rs) = (if p r then 1 else 0) + count_rows p rs.
Proof. unfold count_rows. cbn. destruct (p r); cbn [List.length]; lia. Qed.

(** Counting bucket by bucket is counting. *)
Lemma sum_buckets (key : row -> Z) p l rs : NoDup l -> Forall (fun r => key r ∈ l) rs ->
  sum (map (fun t => count_rows p (List.filter (fun r => key r =? t) rs)) l) = count_rows p rs.
Proof.
  intros Hl. induction 1 as [|r rs Hr _ IH]; [by apply sum_zero, list.Forall_true|].
  transitivity (sum (map (fun t => (if key r =? t then (if p r then 1 else 0) else 0)
    + count_rows p (List.filter (fun r => key r =? t) rs)) l)).
  - f_equal. apply map_ext. intros t. cbn [List.filter].
    destruct (key r =? t); [apply count_rows_cons|done].
  - rewrite sum_plus, IH, count_rows_cons. f_equal. destruct (p r).
    + by apply sum_indicator.
    + apply sum_zero, list.Forall_true. intros t. by destruct (key r =? t).
Qed.

Lemma count_rows_disjoint rs :
  count_rows (verdict_is Allow) rs + count_rows (verdict_is Block) rs <= Z.of_nat (List.length rs).
Proof.
  induction rs as [|r rs IH]; [done|]. rewrite !count_rows_cons.
  assert (verdict_is Allow r && verdict_is Block r = false) as Hd.
  { unfold verdict_is, text_is. destruct (pg_text _ _) as [s|]; [|done].
    destruct (String.eqb_spec s (verdict_str Allow)) as [->|]; done. }
  destruct (verdict_is Allow r), (verdict_is Block r); cbn [List.length]; try done; lia.
Qed.

Definition bucket_starts (secs : Z) (rs : list row) : list Z :=
  stable_sort Z.ltb (remove_dups (map (fun r => bucket_of secs (r_ts r)) rs)).

Lemma bucket_starts_nodup secs rs : NoDup (bucket_starts secs rs).
Proof. unfold bucket_starts. rewrite stable_sort_perm. apply NoDup_remove_dups. Qed.

Lemma bucket_starts_elem secs rs t :
  t ∈ bucket_starts secs rs <-> exists r, r ∈ rs /\ t = bucket_of secs (r_ts r).
Proof.
  unfold bucket_starts. rewrite stable_sort_perm, elem_of_remove_dups.
  rewrite list_elem_of_fmap. naive_solver.
Qed.

Lemma series_rows_sums secs rs :
  sum (map b_Allowed (series_rows secs rs)) = count_rows (verdict_is Allow) rs /\
  sum (map b_Blocked (series_rows secs rs)) = count_rows (verdict_is Block) rs.
Proof.
  assert (Forall (fun r => bucket_of secs (r_ts r) ∈ bucket_starts secs rs) rs) as Hk.
  { apply list.Forall_forall. intros r Hr. apply bucket_starts_elem. eauto. }
  unfold series_rows. fold (bucket_starts secs rs). rewrite !map_map. cbv zeta.
  cbn [b_Allowed b_Blocked].
  split; apply (sum_buckets (fun r => bucket_of secs (r_ts r))); auto using bucket_starts_nodup.
Qed.

Lemma series_rows_starts secs rs : map b_Start (series_rows secs rs) = bucket_starts secs rs.
Proof. unfold series_rows. rewrite map_map. apply map_id. Qed.

Lemma series_rows_sorted secs rs : StronglySorted Z.lt (map b_Start (series_rows secs rs)).
Proof.
  rewrite series_rows_starts. pose proof (bucket_starts_nodup secs rs) as Hnd.
  assert (StronglySorted (in_order Z.ltb) (bucket_starts secs rs)) as Hs.
  { apply stable_sort_sorted; intros x y; rewrite ?Z.ltb_lt, ?Z.ltb_ge; [intros z|];
      rewrite ?Z.ltb_ge; lia. }
  induction Hs as [|t l _ IH Ht]; constructor; apply list.NoDup_cons in Hnd as [Hn Hnd]; [auto|].
  apply list.Forall_forall. intros u Hu. rewrite list.Forall_forall in Ht.
  specialize (Ht u Hu). unfold in_order in Ht. apply Z.ltb_ge in Ht.
  assert (t <> u) by (intros ->; done). lia.
Qed.

Lemma series_rows_aligned secs rs : 0 < secs ->
  Forall (fun b => b_Start b mod (secs * second) = 0) (series_rows secs rs).
Proof.
  intros Hn. assert (Forall (fun t => t mod (secs * second) = 0) (map b_Start (series_rows secs rs)))
    as H'; [|by apply List.Forall_map in H'].
  rewrite series_rows_starts. apply list.Forall_forall. intros t Ht.
  apply bucket_starts_elem in Ht as (r & _ & ->). unfold bucket_of. by rewrite Z_mod_mult.
Qed.

(** the overview is consistent.  On a table that answers, allowed and blocked requests do not
    exceed the total, the chart's buckets add up to exactly those two totals and stand in
    strictly increasing order of time, each starting at a multiple of its width. *)
Theorem pg_stats_consistent d now window :
  db_fault d = None ->
  exists s, pg_Stats d now window = Ok s /\
    s_Allowed s + s_Blocked s <= s_Total s /\
    sum (map b_Allowed (Series s)) = s_Allowed s /\
    sum (map b_Blocked (Series s)) = s_Blocked s /\
    StronglySorted Z.lt (map b_Start (Series s)) /\
    exists width, 0 < width /\ Forall (fun b => b_Start b mod (width * second) = 0) (Series s).
Proof.
  intros Hf. unfold pg_Stats, topBlocked, series, query. rewrite Hf. cbv zeta.
  cbn -[series_rows since_rows topCounts bucketSeconds]. eexists. split; [reflexivity|].
  cbn -[series_rows since_rows topCounts bucketSeconds].
  set (w := if window <=? 0 then hour else window).
  set (rs := since_rows (now - w) (db_rows d)). set (n := bucketSeconds w).
  assert (0 < n) as Hn.
  { unfold n, bucketSeconds. destruct (Z.ltb_spec (Z.quot (float_trunc (duration_seconds w)) 60) 1); lia. }
  destruct (series_rows_sums n rs) as [Ha Hb].
  split; [apply count_rows_disjoint|]. split; [done|]. split; [done|].
  split; [apply series_rows_sorted|]. exists n. split; [done|]. by apply series_rows_aligned.
Qed.
End QueryProperties.

Definition sample_filter (ip : string) : Filter :=
  MkFilter "traffic" "" ip "" "" zero_time (1700000005 * second) 2 0.

Theorem filterClause_bound_witness :
  fst (@filterClause plain_postgres (sample_filter "10.0.0.1"))
  = fst (@filterClause plain_postgres (sample_filter "' OR 1=1 --")) /\
  snd (@filterClause plain_postgres (sample_filter "10.0.0.1"))
  = filter_values (sample_filter "10.0.0.1").
Proof. apply (@filterClause_bound plain_postgres). reflexivity. Defined.

Theorem pg_pagination_witness :
  let f := MkFilter "" "" "" "" "" zero_time zero_time 2 0 in
  let n := Z.to_nat (f_Limit (Normalized f)) in
  exists pages,
    map (fun i => @pg_List plain_postgres sample_db (with_offset f (Z.of_nat (i * n)))) (seq 0 2)
    = map Ok pages /\
    Forall (fun p => (List.length p <= n)%nat) pages /\
    concat pages = take (2 * n) (rev (@where_log plain_postgres sample_db f)) /\
    @pg_Count plain_postgres sample_db f
    = Ok (Z.of_nat (List.length (@where_log plain_postgres sample_db f))).
Proof.
  apply (@pg_pagination plain_postgres sample_db); [exact sample_db_inv|reflexivity].
Defined.

Theorem pg_stats_consistent_witness :
  exists s, @pg_Stats plain_postgres sample_db (1700000003 * second) hour = Ok s /\
    s_Allowed s + s_Blocked s <= s_Total s /\
    sum (map b_Allowed (Series s)) = s_Allowed s /\
    sum (map b_Blocked (Series s)) = s_Blocked s /\
    StronglySorted Z.lt (map b_Start (Series s)) /\
    exists width, 0 < width /\ Forall (fun b => b_Start b mod (width * second) = 0) (Series s).
Proof. apply (@pg_stats_consistent plain_postgres sample_db). reflexivity. Defined.
