(* ===== verification/AuditWriter.v ===== *)
(** * The audit writer

    [internal/audit/writer.go]: the goroutine behind a buffered channel that is the only
    component allowed to append.  The operations are functions on the writer's state; [wstep]
    interleaves them as the locks and the channel allow.  The proofs use the store through
    [RepositoryLaws] alone. *)

From S2P Require Import Prelude Utf8 GoText GoTime Sha256 GoJson GoJsonRound Canonical Model AuditChain AuditRepo.

(** ** State *)

(** [queued]; [q_done] says whether a synchronous caller waits for the outcome. *)
Record queued := Queued { q_entry : AuditEntry; q_done : bool }.

Record WriterStats := MkWriterStats {
  ws_Written : Z; ws_Dropped : Z; ws_Failures : Z; ws_Queued : Z; ws_Capacity : Z
}.

Section Writer.
Context {S : Type} `{Repository S}.

(** The fields of [Writer].  [w_inflight] holds the entries of callers that have taken the read
    lock, found the writer open and built their entry, but have not reached the channel yet;
    [w_done] is closed when the goroutine returns.  The last five fields are history: what went
    into the channel, what came out with which outcome, what was published, whether a send ever
    met a closed channel (which panics), and how many times [Record] was called. *)
Record Writer := MkWriter {
  w_repo : S;
  w_pub : bool;
  w_queue : list queued;
  w_cap : nat;
  w_closed : bool;
  w_head : string;
  w_dropped : Z;
  w_written : Z;
  w_failures : Z;
  w_done : bool;
  w_inflight : list queued;
  w_sent : list queued;
  w_processed : list (AuditEntry * option string);
  w_published : list AuditEntry;
  w_panicked : bool;
  w_calls : Z
}.

(** ** Operations *)

(** What [make(chan queued, n)] takes on a 64-bit machine: an element is 120 bytes (seven fields
    of [AuditEntry] and a channel), a channel's header 96, and an allocation at most 2^48. *)
Definition queued_size : Z := 120.
Definition makechan (n : Z) : result nat :=
  if (n <? 0) || (2 ^ 48 - 96 <? n * queued_size) then Err "panic: makechan: size out of range"
  else Ok (Z.to_nat n).

(** [NewWriter]; the buffer defaults to 4096.  A panic of [make] ends the start like an error. *)
Definition NewWriter (repo : S) (buffer : Z) (pub : bool) : result Writer :=
  let buffer := if buffer <=? 0 then 4096 else buffer in
  head ← Head repo;
  let head := if String.eqb head EmptyString then GenesisHash else head in
  cap ← makechan buffer;
  Ok (MkWriter repo pub [] cap false head 0 0 0 false [] [] [] [] false 0).

(** [build], with what the clock and the UUID generator gave. *)
Definition build (now : Z) (uuid kind requestID : string) (payload : gobj) : AuditEntry :=
  Entry uuid requestID (truncate_time microsecond now) kind payload EmptyString EmptyString.

Definition with_payload (e : AuditEntry) (p : gobj) : AuditEntry :=
  Entry (e_ID e) (e_RequestID e) (e_Timestamp e) (e_Kind e) p (e_PrevHash e) (e_Hash e).

Definition set_repo (w : Writer) (s : S) : Writer :=
  MkWriter s (w_pub w) (w_queue w) (w_cap w) (w_closed w) (w_head w) (w_dropped w) (w_written w)
    (w_failures w) (w_done w) (w_inflight w) (w_sent w) (w_processed w) (w_published w)
    (w_panicked w) (w_calls w).

Definition failed (w : Writer) : Writer :=
  MkWriter (w_repo w) (w_pub w) (w_queue w) (w_cap w) (w_closed w) (w_head w) (w_dropped w)
    (w_written w) (w_failures w + 1) (w_done w) (w_inflight w) (w_sent w) (w_processed w)
    (w_published w)
    (w_panicked w) (w_calls w).

Definition wrote (w : Writer) (e : AuditEntry) : Writer :=
  MkWriter (w_repo w) (w_pub w) (w_queue w) (w_cap w) (w_closed w) (e_Hash e) (w_dropped w)
    (w_written w + 1) (w_failures w) (w_done w) (w_inflight w) (w_sent w) (w_processed w)
    (if w_pub w then w_published w ++ [e] else w_published w) (w_panicked w) (w_calls w).

(** [append]: normalise, seal against the head, store; the head moves only if that worked. *)
Definition append (w : Writer) (entry : AuditEntry) : Writer * option string :=
  match NormalizePayload (Some (e_Payload entry)) with
  | Err m => (failed w, Some m)
  | Ok payload =>
      let entry := Seal (with_payload entry payload) (w_head w) in
      match Append (w_repo w) entry with
      | (s, Some m) => (failed (set_repo w s), Some m)
      | (s, None) => (wrote (set_repo w s) entry, None)
      end
  end.

(** One turn of [run]: receive, append, answer the caller that waits, as one step.  A [Stats]
    that reads the counters in between misses the entry that is in the goroutine's hands. *)
Definition receive (w : Writer) (q : list queued) : Writer :=
  MkWriter (w_repo w) (w_pub w) q (w_cap w) (w_closed w) (w_head w) (w_dropped w) (w_written w)
    (w_failures w) (w_done w) (w_inflight w) (w_sent w) (w_processed w) (w_published w)
    (w_panicked w) (w_calls w).

Definition answered (w : Writer) (e : AuditEntry) (o : option string) : Writer :=
  MkWriter (w_repo w) (w_pub w) (w_queue w) (w_cap w) (w_closed w) (w_head w) (w_dropped w)
    (w_written w) (w_failures w) (w_done w) (w_inflight w) (w_sent w) (w_processed w ++ [(e, o)])
    (w_published w)
    (w_panicked w) (w_calls w).

Definition run_one (w : Writer) : option Writer :=
  match w_queue w with
  | [] => None
  | item :: q =>
      let '(w, err) := append (receive w q) (q_entry item) in
      Some (answered w (q_entry item) err)
  end.

(** [Record] and [RecordSync] up to the channel: the read lock is taken, [closed] is looked at
    and the entry is built. *)
Definition count_drop (w : Writer) : Writer :=
  MkWriter (w_repo w) (w_pub w) (w_queue w) (w_cap w) (w_closed w) (w_head w) (w_dropped w + 1)
    (w_written w) (w_failures w) (w_done w) (w_inflight w) (w_sent w) (w_processed w)
    (w_published w)
    (w_panicked w) (w_calls w).

Definition set_inflight (w : Writer) (l : list queued) : Writer :=
  MkWriter (w_repo w) (w_pub w) (w_queue w) (w_cap w) (w_closed w) (w_head w) (w_dropped w)
    (w_written w) (w_failures w) (w_done w) l (w_sent w) (w_processed w) (w_published w)
    (w_panicked w) (w_calls w).

Definition called (w : Writer) : Writer :=
  MkWriter (w_repo w) (w_pub w) (w_queue w) (w_cap w) (w_closed w) (w_head w) (w_dropped w)
    (w_written w) (w_failures w) (w_done w) (w_inflight w) (w_sent w) (w_processed w)
    (w_published w) (w_panicked w) (w_calls w + 1).

Definition enter (w : Writer) (item : queued) : Writer :=
  let w := if q_done item then w else called w in
  if w_closed w then (if q_done item then w else count_drop w)
  else set_inflight w (w_inflight w ++ [item]).

(** The send of a caller in flight. A send on a closed channel panics; with room in the buffer
    it goes through; otherwise [Record] drops the entry and [RecordSync] keeps waiting. *)
Definition send (w : Writer) (item : queued) : Writer :=
  MkWriter (w_repo w) (w_pub w) (w_queue w ++ [item]) (w_cap w) (w_closed w) (w_head w)
    (w_dropped w) (w_written w) (w_failures w) (w_done w) (w_inflight w) (w_sent w ++ [item])
    (w_processed w) (w_published w)
    (w_panicked w) (w_calls w).

Definition panic (w : Writer) : Writer :=
  MkWriter (w_repo w) (w_pub w) (w_queue w) (w_cap w) (w_closed w) (w_head w) (w_dropped w)
    (w_written w) (w_failures w) (w_done w) (w_inflight w) (w_sent w) (w_processed w)
    (w_published w) true (w_calls w).

Definition leave (w : Writer) (a b : list queued) (item : queued) : option Writer :=
  let w := set_inflight w (a ++ b) in
  if w_closed w then Some (panic w)
  else if (List.length (w_queue w) <? w_cap w)%nat then Some (send w item)
  else if q_done item then None
  else Some (count_drop w).

(** [Close] up to its wait: the write lock, [closed], [close(w.queue)]. *)
Definition close (w : Writer) : Writer :=
  MkWriter (w_repo w) (w_pub w) (w_queue w) (w_cap w) true (w_head w) (w_dropped w) (w_written w)
    (w_failures w) (w_done w) (w_inflight w) (w_sent w) (w_processed w) (w_published w)
    (w_panicked w) (w_calls w).

(** [run] returns when the channel is closed and drained. *)
Definition finish (w : Writer) : Writer :=
  MkWriter (w_repo w) (w_pub w) (w_queue w) (w_cap w) (w_closed w) (w_head w) (w_dropped w)
    (w_written w) (w_failures w) true (w_inflight w) (w_sent w) (w_processed w) (w_published w)
    (w_panicked w) (w_calls w).

Definition Stats_of (w : Writer) : WriterStats :=
  MkWriterStats (w_written w) (w_dropped w) (w_failures w) (Z.of_nat (List.length (w_queue w)))
    (Z.of_nat (w_cap w)).

(** ** Interleaving

    Readers share the lock, so any number of callers may be in flight, in any order; [Close]
    takes it exclusively, so it waits until none is. *)

Inductive wstep : Writer -> Writer -> Prop :=
| step_enter w now uuid kind requestID payload sync :
    wstep w (enter w (Queued (build now uuid kind requestID payload) sync))
| step_leave w w' a item b :
    w_inflight w = a ++ item :: b -> leave w a b item = Some w' -> wstep w w'
| step_cancel w a item b :
    w_inflight w = a ++ item :: b -> q_done item = true -> wstep w (set_inflight w (a ++ b))
| step_run w w' : run_one w = Some w' -> wstep w w'
| step_close w : w_inflight w = [] -> wstep w (close w)
| step_finish w : w_closed w = true -> w_queue w = [] -> wstep w (finish w).

Inductive wsteps : Writer -> Writer -> Prop :=
| wsteps_refl w : wsteps w w
| wsteps_step w w1 w2 : wsteps w w1 -> wstep w1 w2 -> wsteps w w2.
End Writer.
Arguments Writer : clear implicits.

(** ** Equality of payloads and well-formedness *)

Lemma wf_geq v w : geq v w -> wf v -> wf w.
Proof.
  revert w. induction v using gval_ind; intros w Hg Hw;
    inversion Hg as [|? l' Hf|? m1 m' Hp Hf]; subst; try done.
  - inversion Hw as [|? Hl| |]; subst; [done|]. apply wf_array. clear Hg Hw. revert l' Hf.
    induction H; intros l' Hf; inversion Hf; subst; constructor;
      apply list.Forall_cons in Hl as [? ?]; auto.
  - inversion Hw as [| |? Hnd Hm|]; subst; [done|].
    assert (Forall (fun p => wf p.2 /\ forall w, geq p.2 w -> wf p.2 -> wf w) m1) as Hm1.
    { rewrite <- Hp. apply list.Forall_and. split; [done|].
      eapply list.Forall_impl; [exact H|]. cbn. eauto. }
    assert (map fst m' = map fst m1) as E.
    { clear -Hf. induction Hf as [|p q m1 m' [E _] _ IH]; [done|]. cbn. by rewrite E, IH. }
    apply wf_object.
    + change (NoDup (map fst m')). rewrite E. change (NoDup m1.*1). by rewrite <- Hp.
    + clear - Hm1 Hf. induction Hf as [|p q m1 m' [_ G] _ IH]; constructor;
        apply list.Forall_cons in Hm1 as [[? Hw] Hm1]; auto.
Qed.

(** A chain stays one when its entries are replaced by equal ones. *)
Lemma chain_same p a b :
  Forall2 same_entry a b -> Forall (fun e => wf (VObject (e_Payload e))) b -> chain p b -> chain p a.
Proof.
  intros Hf. revert p. induction Hf as [|x y a b [Hc Hh] _ IH]; intros p Hw H; [constructor|].
  apply list.Forall_cons in Hw as [Hy Hw]. inversion H; subst. constructor.
  - apply Hc.
  - rewrite Hh. etransitivity; [eassumption|]. apply hash_proper; [done|by symmetry].
  - rewrite Hh. by apply IH.
Qed.

Lemma head_hash_same p a b : Forall2 same_entry a b -> head_hash p a = head_hash p b.
Proof.
  intros Hf. revert p. induction Hf as [|x y a b [_ Hh] _ IH]; intros p; [done|]. cbn. by rewrite Hh.
Qed.

Lemma head_hash_length p a : String.length p = 64%nat -> chain p a ->
  String.length (head_hash p a) = 64%nat.
Proof.
  intros Hp Hc. destruct a as [|e a _] using rev_ind; [done|].
  apply chain_snoc_inv in Hc as (_ & _ & He). rewrite head_hash_snoc, He. apply length_hash.
Qed.

(** ** Invariants of every interleaving *)

Definition ok_outcome (p : AuditEntry * option string) : bool :=
  match p.2 with None => true | Some _ => false end.

(** The entries that were stored, in the order they were processed. *)
Definition successes (l : list (AuditEntry * option string)) : list AuditEntry :=
  map fst (List.filter ok_outcome l).

Definition async_count (l : list queued) : Z :=
  Z.of_nat (List.length (List.filter (fun q => negb (q_done q)) l)).

#[global] Arguments successes : simpl never.
#[global] Arguments async_count : simpl never.

(** The bookkeeping, whatever the store does. *)
Record books {S} (w : Writer S) : Prop := {
  bk_order : map fst (w_processed w) ++ map q_entry (w_queue w) = map q_entry (w_sent w);
  bk_written : w_written w = Z.of_nat (List.length (successes (w_processed w)));
  bk_failures : w_written w + w_failures w = Z.of_nat (List.length (w_processed w));
  bk_cap : (List.length (w_queue w) <= w_cap w)%nat;
  bk_calls : w_calls w = w_dropped w + async_count (w_inflight w) + async_count (w_sent w);
  bk_closed : w_closed w = true -> w_inflight w = [];
  bk_panic : w_panicked w = false;
  bk_done : w_done w = true -> w_closed w = true /\ w_queue w = []
}.

(** The stored form of a recorded entry. *)
Definition sealed_from (e s : AuditEntry) : Prop :=
  exists q prev, NormalizePayload (Some (e_Payload e)) = Ok q /\ s = Seal (with_payload e q) prev.

Section Invariants.
Context {S : Type} `{RepositoryLaws S}.
Implicit Types w : Writer S.

(** An entry the store gives back unchanged once it is normalised and sealed. *)
Definition recordable (e : AuditEntry) : Prop :=
  forall q prev, NormalizePayload (Some (e_Payload e)) = Ok q -> String.length prev = 64%nat ->
    entry_ok (Seal (with_payload e q) prev) /\ accepts (Seal (with_payload e q) prev).

(** The log is what it was at the start, then [added]; of these, [stored] were reported as
    stored (and published), the others as failed. *)
Record grown (log0 : list AuditEntry) (w : Writer S) (added stored : list AuditEntry) : Prop := {
  gr_log : Forall2 same_entry (log (w_repo w)) (log0 ++ added);
  gr_ok : Forall entry_ok added;
  gr_stored : stored `sublist_of` added;
  gr_sealed : Forall2 sealed_from (successes (w_processed w)) stored;
  gr_published : w_pub w = true -> w_published w = stored;
  gr_head : String.length (w_head w) = 64%nat
}.

(** The entries added are linked to the log before them, and the head is the last one's. *)
Definition linked (log0 : list AuditEntry) (w : Writer S) (added : list AuditEntry) : Prop :=
  chain (head_hash GenesisHash log0) added /\ w_head w = head_hash GenesisHash (log0 ++ added).

(** An append that was reported as failed although the store has the entry. *)
Definition late (w w' : Writer S) : Prop :=
  run_one w = Some w' /\ w_written w' = w_written w /\ log (w_repo w') <> log (w_repo w).

Definition late_error (w0 w : Writer S) : Prop :=
  exists w1 w2, wsteps w0 w1 /\ late w1 w2 /\ wsteps w2 w.

(** The same, with the log up to and including that entry linked. *)
Definition linked_to_late (log0 : list AuditEntry) (w0 w : Writer S) : Prop :=
  exists w1 w2 added, wsteps w0 w1 /\ late w1 w2 /\ wsteps w2 w /\
    Forall2 same_entry (log (w_repo w2)) (log0 ++ added) /\ Forall entry_ok added /\
    chain (head_hash GenesisHash log0) added.

Lemma successes_snoc l e o :
  successes (l ++ [(e, o)]) = successes l ++ match o with None => [e] | Some _ => [] end.
Proof. unfold successes. rewrite List.filter_app, map_app. by destruct o. Qed.

Lemma async_count_app a b : async_count (a ++ b) = async_count a + async_count b.
Proof. unfold async_count. rewrite List.filter_app, length_app. lia. Qed.

Lemma append_frame w e w' o : append w e = (w', o) ->
  w_queue w' = w_queue w /\ w_cap w' = w_cap w /\ w_closed w' = w_closed w /\
  w_dropped w' = w_dropped w /\ w_done w' = w_done w /\ w_inflight w' = w_inflight w /\
  w_sent w' = w_sent w /\ w_processed w' = w_processed w /\ w_panicked w' = w_panicked w /\
  w_calls w' = w_calls w /\
  w_written w' = w_written w + match o with None => 1 | Some _ => 0 end /\
  w_written w' + w_failures w' = w_written w + w_failures w + 1.
Proof.
  unfold append. destruct (NormalizePayload _) as [q|m]; [|intros [= <- <-]; cbn; repeat split; lia].
  destruct (Append (w_repo w) _) as [s [m|]]; intros [= <- <-]; cbn; repeat split; lia.
Qed.

Lemma run_one_books w w' : books w -> run_one w = Some w' -> books w'.
Proof.
  intros Hb. unfold run_one. destruct (w_queue w) as [|item q] eqn:Eq; [done|].
  destruct (append (receive w q) (q_entry item)) as [w1 o] eqn:Ea. intros [= <-].
  apply append_frame in Ea as (F1 & F2 & F3 & F4 & F5 & F6 & F7 & F8 & F9 & F10 & F11 & F12).
  destruct Hb as [B1 B2 B3 B4 B5 B6 B7 B8]. rewrite Eq in *.
  split; cbn; rewrite ?F1, ?F2, ?F3, ?F4, ?F5, ?F6, ?F7, ?F8, ?F9, ?F10 in *; cbn in *; try done.
  - rewrite map_app, <- app_assoc. exact B1.
  - rewrite F11, B2, successes_snoc, length_app. destruct o; cbn; lia.
  - rewrite F12, B3, length_app. cbn. lia.
  - lia.
  - intros Hd. by destruct (B8 Hd).
Qed.

Lemma async_count_one item : async_count [item] = if q_done item then 0 else 1.
Proof. unfold async_count. cbn. by destruct (q_done item). Qed.

Lemma enter_books w item : books w -> books (enter w item).
Proof.
  intros [B1 B2 B3 B4 B5 B6 B7 B8]. unfold enter.
  destruct (q_done item) eqn:Ed, (w_closed w) eqn:Ec; cbn; rewrite ?Ec; split; cbn;
    rewrite ?async_count_app, ?async_count_one, ?Ed, ?Ec;
    try done; try lia; try congruence; auto.
Qed.

Lemma inflight_books w a item b : books w -> w_inflight w = a ++ item :: b ->
  async_count (w_inflight w) = async_count (a ++ b) + (if q_done item then 0 else 1) /\
  w_closed w = false.
Proof.
  intros [B1 B2 B3 B4 B5 B6 B7 B8] E. split.
  - rewrite E. change (item :: b) with ([item] ++ b). rewrite !async_count_app, async_count_one. lia.
  - destruct (w_closed w); [|done]. rewrite B6 in E by done. by destruct a.
Qed.

Lemma leave_books w a item b w' : books w -> w_inflight w = a ++ item :: b ->
  leave w a b item = Some w' -> books w'.
Proof.
  intros Hb E. destruct (inflight_books _ _ _ _ Hb E) as [Hn Hc]. unfold leave.
  cbn [w_closed set_inflight]. rewrite Hc. destruct Hb as [B1 B2 B3 B4 B5 B6 B7 B8].
  cbn [w_queue w_cap set_inflight].
  destruct (Nat.ltb_spec (List.length (w_queue w)) (w_cap w)).
  - intros [= <-]. split; cbn; try done.
    + by rewrite !map_app, app_assoc, B1.
    + rewrite length_app. cbn. lia.
    + rewrite (async_count_app (w_sent w)), async_count_one. lia.
    + congruence.
    + intros Hd. destruct (B8 Hd). congruence.
  - destruct (q_done item) eqn:Ed; [done|]. intros [= <-]. split; cbn; try done; [lia|congruence].
Qed.

Lemma step_books w w' : books w -> wstep w w' -> books w'.
Proof.
  intros Hb Hs. destruct Hs as [w1 now uuid kind rid p sync|w1 w2 a item b E Hl|w1 a item b E Hd|w1 w2 Hr|w1 Hi|w1 Hc Hq].
  - apply enter_books. exact Hb.
  - by eapply leave_books.
  - destruct (inflight_books _ _ _ _ Hb E) as [Hn Hc]. rewrite Hd in Hn.
    destruct Hb. split; cbn; try done; [lia|congruence].
  - by eapply run_one_books.
  - destruct Hb. split; cbn; try done. intros Hd. by destruct (bk_done0 Hd).
  - destruct Hb. split; cbn; done.
Qed.

Lemma NewWriter_ok repo buffer pub w : NewWriter repo buffer pub = Ok w ->
  exists head cap, Head repo = Ok head /\ (0 < cap)%nat /\
  w = MkWriter repo pub [] cap false (if String.eqb head EmptyString then GenesisHash else head)
        0 0 0 false [] [] [] [] false 0.
Proof.
  unfold NewWriter, makechan. destruct (Head repo) as [h|]; cbn [mbind result_bind]; [|done].
  assert (0 < (if buffer <=? 0 then 4096 else buffer)) as Hb by (destruct (Z.leb_spec buffer 0); lia).
  destruct (_ || _); cbn [mbind result_bind]; [done|]. intros [= <-].
  exists h, (Z.to_nat (if buffer <=? 0 then 4096 else buffer)). repeat split. lia.
Qed.

(** When the writer is made: the head can be read and the buffer is not out of range. *)
Lemma NewWriter_is_Ok repo buffer pub : is_Ok (NewWriter repo buffer pub) = true <->
  is_Ok (Head repo) = true /\ buffer * queued_size <= 2 ^ 48 - 96.
Proof.
  unfold NewWriter, makechan, queued_size. destruct (Head repo) as [h|]; [|by split; [|intros []]].
  set (n := if buffer <=? 0 then 4096 else buffer). cbn [mbind result_bind].
  assert (0 < n /\ (n * 120 <= 2 ^ 48 - 96 <-> buffer * 120 <= 2 ^ 48 - 96)) as [Hn Hb].
  { unfold n. destruct (Z.leb_spec buffer 0); lia. }
  rewrite <- Hb, (proj2 (Z.ltb_ge n 0)) by lia. cbn [orb].
  destruct (Z.ltb_spec (2 ^ 48 - 96) (n * 120)); cbn [mbind result_bind is_Ok]; split; try done; lia.
Qed.

Lemma new_books repo buffer pub w : NewWriter repo buffer pub = Ok w -> books w.
Proof. intros (h & cap & _ & _ & ->)%NewWriter_ok. split; try done. cbn. lia. Qed.

Lemma steps_books w w' : books w -> wsteps w w' -> books w'.
Proof.
  intros Hb Hs. induction Hs as [w|w w1 w2 _ IH Hst]; [done|].
  eapply step_books; [by apply IH|exact Hst].
Qed.

(** *** The log *)

Definition head_ok64 (log0 : list AuditEntry) : Prop :=
  String.length (head_hash GenesisHash log0) = 64%nat.

(** What one append does to the log and the head: nothing, or the sealed entry at the end of
    both, or of the log alone. *)
Lemma append_log log0 w e w' o added stored : inv (w_repo w) -> grown log0 w added stored ->
  recordable e -> append w e = (w', o) ->
  inv (w_repo w') /\ exists x,
  ((o <> None /\ grown log0 (answered w' e o) added stored /\ w_head w' = w_head w) \/
   (o <> None /\ grown log0 (answered w' e o) (added ++ [x]) stored /\
      List.length (log (w_repo w')) <> List.length (log (w_repo w))) \/
   (o = None /\ grown log0 (answered w' e o) (added ++ [x]) (stored ++ [x]) /\ w_head w' = e_Hash x)) /\
  chain (w_head w) [x].
Proof.
  intros Hi [HL Hok Hst Hs Hp H64] Hr. unfold append.
  assert (w_head w <> EmptyString) as Hne by (intros E0; by rewrite E0 in H64).
  assert (forall y q, chain (w_head w) [Seal (with_payload y q) (w_head w)]) as Hseal
    by (intros; by apply seal_chain).
  destruct (NormalizePayload _) as [q|m] eqn:Eq.
  2: { intros [= <- <-]. split; [done|]. exists (Seal (with_payload e []) (w_head w)).
       split; [|apply Hseal]. left.
       split; [done|]. split; [|done]. split; try done. cbn. by rewrite successes_snoc, app_nil_r. }
  destruct (Hr q (w_head w) Eq H64) as [Hx Hacc].
  set (x := Seal (with_payload e q) (w_head w)) in *.
  destruct (Append (w_repo w) x) as [s [m|]] eqn:Ea; intros [= <- <-];
    (split; [by eapply append_inv|]; exists x; split; [|apply Hseal]).
  - destruct (append_err _ _ _ _ Hi Hx Hacc Ea) as [El|El]; [left|right; left]; (split; [done|]).
    + split; [|done]. split; cbn; try done; [by rewrite El|]. by rewrite successes_snoc, app_nil_r.
    + split; [split; cbn|].
      * rewrite El, app_assoc. by apply Forall2_app; [|repeat constructor].
      * apply list.Forall_app. by split; [|constructor].
      * by apply sublist_inserts_r.
      * by rewrite successes_snoc, app_nil_r.
      * done.
      * done.
      * cbn. apply Forall2_length in El. rewrite length_app in El. cbn in El. lia.
  - right. right. split; [done|]. split; [|done]. split; cbn.
    + rewrite (append_ok _ _ _ Hi Hx Hacc Ea), app_assoc. by apply Forall2_app; [|repeat constructor].
    + apply list.Forall_app. by split; [|constructor].
    + by apply sublist_app.
    + rewrite successes_snoc. apply Forall2_app; [done|]. constructor; [by exists q, (w_head w)|constructor].
    + intros Hpub. by rewrite Hpub, Hp.
    + apply length_hash.
Qed.

Lemma linked_snoc log0 w w' added x : linked log0 w added -> chain (w_head w) [x] ->
  chain (head_hash GenesisHash log0) (added ++ [x]) /\
  (w_head w' = e_Hash x -> linked log0 w' (added ++ [x])).
Proof.
  intros [Hc Hh] Hx.
  assert (chain (head_hash GenesisHash log0) (added ++ [x])) as Hl
    by (apply chain_app; split; [done|]; by rewrite <- head_hash_app, <- Hh).
  split; [done|]. intros E. split; [done|]. by rewrite app_assoc, head_hash_snoc.
Qed.

(** One turn of the goroutine, from a log that is linked. *)
Lemma run_one_log log0 w w' added stored : inv (w_repo w) -> grown log0 w added stored ->
  Forall (fun q => recordable (q_entry q)) (w_queue w) -> run_one w = Some w' ->
  inv (w_repo w') /\ exists added' stored', grown log0 w' added' stored' /\
    (linked log0 w added -> stored = added ->
     (linked log0 w' added' /\ stored' = added') \/
     (late w w' /\ chain (head_hash GenesisHash log0) added')).
Proof.
  intros Hi Hg Hr Hrun. pose proof Hrun as Hone. unfold run_one in Hone.
  destruct (w_queue w) as [|item q]; [done|]. apply list.Forall_cons in Hr as [Hr _].
  destruct (append (receive w q) (q_entry item)) as [w1 o] eqn:Ea. injection Hone as <-.
  assert (grown log0 (receive w q) added stored) as Hg' by by destruct Hg.
  destruct (append_log log0 (receive w q) (q_entry item) w1 o added stored Hi Hg' Hr Ea)
    as (Hi' & x & [(Ho & G & Eh)|[(Ho & G & Hlen)|(-> & G & Eh)]] & Hx); (split; [done|]);
    eexists _, _; (split; [exact G|]); intros Hl ->.
  - left. split; [|done]. destruct Hl as [Hc Hh]. split; [done|]. cbn. by rewrite Eh.
  - right. split; [|exact (proj1 (linked_snoc log0 w w added x Hl Hx))].
    split; [done|]. apply append_frame in Ea as (_ & _ & _ & _ & _ & _ & _ & _ & _ & _ & Hw & _).
    split; [cbn; rewrite Hw; destruct o; [cbn; lia|done]|]. cbn. intros E. by rewrite E in Hlen.
  - left. split; [|done]. by apply (proj2 (linked_snoc log0 w (answered w1 (q_entry item) None) added x Hl Hx)).
Qed.

(** Every other step leaves the store, the head and the outcomes alone. *)
Lemma step_frame w w' : wstep w w' ->
  run_one w = Some w' \/
  (w_repo w' = w_repo w /\ w_head w' = w_head w /\ w_processed w' = w_processed w /\
   w_pub w' = w_pub w /\ w_published w' = w_published w).
Proof.
  intros Hs. destruct Hs as [w now uuid kind rid p sync|w w2 a item b E Hl| | | |]; try (by right); auto.
  - right. unfold enter. cbn [q_done]. destruct sync; cbn; by destruct (w_closed w).
  - right. unfold leave in Hl. cbn [w_closed set_inflight] in Hl. destruct (w_closed w).
    + by injection Hl as <-.
    + destruct (_ <? _)%nat; [by injection Hl as <-|]. destruct (q_done item); [done|].
      by injection Hl as <-.
Qed.

(** The channel's history only grows. *)
Lemma step_sent w w' : wstep w w' -> exists l, w_sent w' = w_sent w ++ l.
Proof.
  intros Hs. destruct Hs as [w now uuid kind rid p sync|w w2 a item b E Hl|w| w w2 Hr|w|w];
    try (exists []; by rewrite app_nil_r).
  - exists []. rewrite app_nil_r. unfold enter. cbn [q_done]. destruct sync; cbn; by destruct (w_closed w).
  - unfold leave in Hl. cbn [w_closed set_inflight] in Hl. destruct (w_closed w).
    + exists []. rewrite app_nil_r. by injection Hl as <-.
    + destruct (_ <? _)%nat; [injection Hl as <-; by exists [item]|]. destruct (q_done item); [done|].
      exists []. rewrite app_nil_r. by injection Hl as <-.
  - exists []. rewrite app_nil_r. unfold run_one in Hr. destruct (w_queue w) as [|item q]; [done|].
    destruct (append (receive w q) (q_entry item)) as [w1 o] eqn:Ea. injection Hr as <-.
    by apply append_frame in Ea as (_ & _ & _ & _ & _ & _ & F & _).
Qed.

Lemma queue_recordable w : books w ->
  Forall (fun q => recordable (q_entry q)) (w_sent w) ->
  Forall (fun q => recordable (q_entry q)) (w_queue w).
Proof.
  intros [B1 _ _ _ _ _ _ _] Hr.
  assert (Forall recordable (map q_entry (w_sent w))) as Hm by (apply List.Forall_map; exact Hr).
  rewrite <- B1 in Hm. apply list.Forall_app in Hm as [_ Hm]. exact (proj1 (List.Forall_map _ _ _) Hm).
Qed.

Lemma linked_to_late_more log0 w0 w w' : linked_to_late log0 w0 w -> wstep w w' -> linked_to_late log0 w0 w'.
Proof.
  intros (w1 & w2 & added & H1 & H2 & H3 & H4) Hs. exists w1, w2, added.
  split; [done|]. split; [done|]. split; [|done]. by eapply wsteps_step.
Qed.

Lemma late_late_error log0 w0 w : linked_to_late log0 w0 w -> late_error w0 w.
Proof. intros (w1 & w2 & added & H1 & H2 & H3 & _). by exists w1, w2. Qed.

(** Every run: what was added, and that it is linked up to the first late error. *)
Lemma steps_log log0 w0 w added0 stored0 : books w0 -> inv (w_repo w0) -> grown log0 w0 added0 stored0 ->
  linked log0 w0 added0 -> stored0 = added0 ->
  wsteps w0 w -> Forall (fun q => recordable (q_entry q)) (w_sent w) ->
  inv (w_repo w) /\ exists added stored, grown log0 w added stored /\
    ((linked log0 w added /\ stored = added) \/ linked_to_late log0 w0 w).
Proof.
  intros Hb Hi Hg Hl Hst Hs. induction Hs as [w|w0 w1 w2 Hs IH Hstep]; intros Hr.
  { split; [done|]. exists added0, stored0. by split; [|left]. }
  assert (Forall (fun q => recordable (q_entry q)) (w_sent w1)) as Hr1.
  { destruct (step_sent _ _ Hstep) as [l El]. rewrite El in Hr. by apply list.Forall_app in Hr as [? _]. }
  destruct (IH Hb Hi Hg Hl Hr1) as (Hi1 & added & stored & Hg1 & Hd).
  pose proof (steps_books _ _ Hb Hs) as Hb1.
  destruct (step_frame _ _ Hstep) as [Hrun|(E1 & E2 & E3 & E4 & E5)].
  - destruct (run_one_log log0 w1 w2 added stored Hi1 Hg1) as (Hi2 & added' & stored' & Hg2 & Hd2);
      [by apply queue_recordable|done|].
    split; [done|]. exists added', stored'. split; [done|].
    destruct Hd as [[Hl1 Hst1]|Hlate]; [|right; by eapply linked_to_late_more].
    destruct (Hd2 Hl1 Hst1) as [?|[Hlate Hc]]; [by left|right].
    exists w1, w2, added'. split; [done|]. split; [done|]. split; [constructor|].
    split; [apply (gr_log _ _ _ _ Hg2)|]. split; [apply (gr_ok _ _ _ _ Hg2)|done].
  - split; [by rewrite E1|]. exists added, stored. split.
    + destruct Hg1. by split; rewrite ?E1, ?E2, ?E3, ?E4, ?E5.
    + destruct Hd as [[[Hc Hh] Hst1]|Hlate]; [left|right; by eapply linked_to_late_more].
      split; [|done]. split; [done|]. by rewrite E2.
Qed.

Lemma new_log repo buffer pub w : inv repo -> chain GenesisHash (log repo) ->
  NewWriter repo buffer pub = Ok w ->
  w_repo w = repo /\ grown (log repo) w [] [] /\ linked (log repo) w [].
Proof.
  intros Hi Hc (h & cap & Eh & _ & ->)%NewWriter_ok. apply head_ok in Eh; [|done].
  assert (String.length (head_hash GenesisHash (log repo)) = 64%nat) as H64 by by apply head_hash_length.
  assert ((if String.eqb h EmptyString then GenesisHash else h) = head_hash GenesisHash (log repo)) as E.
  { destruct (String.eqb_spec h EmptyString) as [E|]; [|done]. by rewrite <- Eh, E in H64. }
  rewrite E. split; [done|]. split; split; cbn; rewrite ?app_nil_r; try done; constructor.
Qed.

(** Every run of a writer that was just made. *)
Lemma run_log repo buffer pub w0 w : inv repo -> chain GenesisHash (log repo) ->
  NewWriter repo buffer pub = Ok w0 -> wsteps w0 w -> Forall (fun q => recordable (q_entry q)) (w_sent w) ->
  exists added stored, grown (log repo) w added stored /\
    ((linked (log repo) w added /\ stored = added) \/ linked_to_late (log repo) w0 w).
Proof.
  intros Hi Hc Hn Hs Hr. destruct (new_log _ _ _ _ Hi Hc Hn) as (E & Hg & Hl).
  apply (steps_log (log repo) w0 w [] []); try done; [by eapply new_books|by rewrite E].
Qed.

(** *** Draining *)

Lemma run_one_total w item q : w_queue w = item :: q -> exists w', run_one w = Some w' /\
  w_queue w' = q /\ w_closed w' = w_closed w /\ w_sent w' = w_sent w.
Proof.
  intros E. unfold run_one. rewrite E. destruct (append (receive w q) (q_entry item)) as [w1 o] eqn:Ea.
  eexists. split; [done|]. cbn.
  apply append_frame in Ea as (F1 & _ & F3 & _ & _ & _ & F7 & _). by rewrite F1, F3, F7.
Qed.

Lemma wsteps_trans w w1 w2 : wsteps w w1 -> wsteps w1 w2 -> wsteps w w2.
Proof. intros H1 H2. induction H2 as [|w1 w2 w3 _ IH Hs]; [done|]. econstructor; [by apply IH|exact Hs]. Qed.

Lemma drain w : w_closed w = true -> exists w', wsteps w w' /\ w_queue w' = [] /\
  w_closed w' = true /\ w_done w' = true /\ w_sent w' = w_sent w.
Proof.
  remember (w_queue w) as q eqn:Eq. revert w Eq. induction q as [|item q IH]; intros w Eq Hc.
  - exists (finish w). split; [|done]. eapply wsteps_step; [constructor|]. by constructor.
  - destruct (run_one_total w item q) as (w1 & Hr & Hq & Hc1 & Hs); [done|].
    destruct (IH w1) as (w2 & H2 & Q2 & C2 & D2 & S2); [done|congruence|].
    exists w2. split; [|by rewrite S2].
    eapply wsteps_trans; [|exact H2]. eapply wsteps_step; [constructor|]. by apply step_run.
Qed.

(** An entry reported as stored is in the log. *)
Lemma grown_stored log0 w added stored e : grown log0 w added stored -> (e, None) ∈ w_processed w ->
  exists x s, x ∈ log (w_repo w) /\ same_entry x s /\ sealed_from e s.
Proof.
  intros [HL _ Hst Hs _ _] He.
  assert (e ∈ successes (w_processed w)) as [i Hi]%list_elem_of_lookup_1.
  { unfold successes. apply list_elem_of_In, in_map_iff. exists (e, None). split; [done|].
    apply List.filter_In. split; [by apply list_elem_of_In|done]. }
  destruct (Forall2_lookup_l _ _ _ _ _ Hs Hi) as (s & Hsi & Hse).
  assert (s ∈ log0 ++ added) as [j Hj]%list_elem_of_lookup_1.
  { apply elem_of_app. right. eapply elem_of_submseteq; [by eapply list_elem_of_lookup_2|].
    by apply sublist_submseteq. }
  destruct (Forall2_lookup_r _ _ _ _ _ HL Hj) as (x & Hx & Hxs).
  exists x, s. split; [by eapply list_elem_of_lookup_2|by split].
Qed.

Lemma log_chain log0 l added : chain GenesisHash log0 -> Forall (fun e => wf (VObject (e_Payload e))) log0 ->
  Forall2 same_entry l (log0 ++ added) -> Forall entry_ok added ->
  chain (head_hash GenesisHash log0) added -> chain GenesisHash l.
Proof.
  intros Hc Hwf HL Ho Hl. apply (chain_same _ _ _ HL); [|by apply chain_app].
  apply list.Forall_app. split; [done|]. eapply list.Forall_impl; [exact Ho|]. apply entry_ok_wf.
Qed.

(** The log is an intact chain in every state the writer can reach without a late error. *)
Lemma steps_chain repo buffer pub w0 w :
  inv repo -> chain GenesisHash (log repo) ->
  Forall (fun e => wf (VObject (e_Payload e))) (log repo) ->
  NewWriter repo buffer pub = Ok w0 -> wsteps w0 w ->
  Forall (fun q => recordable (q_entry q)) (w_sent w) ->
  (chain GenesisHash (log (w_repo w)) /\ w_head w = head_hash GenesisHash (log (w_repo w))) \/
  exists w1 w2, wsteps w0 w1 /\ late w1 w2 /\ wsteps w2 w /\ chain GenesisHash (log (w_repo w2)).
Proof.
  intros Hi Hc Hwf Hn Hs Hr.
  destruct (run_log _ _ _ _ _ Hi Hc Hn Hs Hr) as (added & stored & [HL Ho _ _ _ _] & [[[Hl Hh] _]|Hlate]).
  - left. split; [by eapply log_chain|]. rewrite Hh. symmetry. by apply head_hash_same.
  - right. destruct Hlate as (w1 & w2 & l & H1 & H2 & H3 & H4 & H5 & H6). exists w1, w2.
    split; [done|]. split; [done|]. split; [done|]. by eapply log_chain.
Qed.

(** ** Properties *)

(** C3: whatever the interleaving of callers, failures of the store and shutdown, the log the
    writer leaves is an intact chain, and the writer's head is the hash of its last entry, so that
    the next entry links to the last one in the store, unless the run contains a late error: an
    append reported as failed although its entry was stored, as when the five second deadline
    fires after the commit.  Even then the log up to and including the first such entry is an
    intact chain.  Failures that stored nothing never break it. *)
Theorem writer_chain_intact repo buffer pub w0 w :
  inv repo -> chain GenesisHash (log repo) ->
  Forall (fun e => wf (VObject (e_Payload e))) (log repo) ->
  NewWriter repo buffer pub = Ok w0 -> wsteps w0 w ->
  Forall (fun q => recordable (q_entry q)) (w_sent w) ->
  (chain GenesisHash (log (w_repo w)) /\ w_head w = head_hash GenesisHash (log (w_repo w))) \/
  exists w1 w2, wsteps w0 w1 /\ late w1 w2 /\ wsteps w2 w /\ chain GenesisHash (log (w_repo w2)).
Proof. apply steps_chain. Qed.

(** the log holds what was accepted, in the order it was accepted.  It is the log the writer
    started from followed by sealed entries; those reported as stored are among them, in channel
    order, and without a late error they are all of them. *)
Theorem writer_fifo repo buffer pub w0 w :
  inv repo -> chain GenesisHash (log repo) ->
  NewWriter repo buffer pub = Ok w0 -> wsteps w0 w ->
  Forall (fun q => recordable (q_entry q)) (w_sent w) ->
  map fst (w_processed w) ++ map q_entry (w_queue w) = map q_entry (w_sent w) /\
  exists added stored, Forall2 same_entry (log (w_repo w)) (log repo ++ added) /\
    Forall2 sealed_from (successes (w_processed w)) stored /\ stored `sublist_of` added /\
    (stored = added \/ late_error w0 w).
Proof.
  intros Hi Hc Hn Hs Hr. split; [by apply (steps_books _ _ (new_books _ _ _ _ Hn) Hs)|].
  destruct (run_log _ _ _ _ _ Hi Hc Hn Hs Hr) as (added & stored & [HL _ Hst Hse _ _] & Hd).
  exists added, stored. split; [done|]. split; [done|]. split; [done|].
  destruct Hd as [[_ ?]|Hlate]; [by left|right]. by eapply late_late_error.
Qed.

(** C12: nothing is lost silently and nothing panics.  In every reachable state, whatever the
    store answers: no send ever met a closed channel, the buffer is within its capacity,
    written and failed appends add up to the entries taken off the channel, and every call of
    [Record] is counted as dropped, still on its way to the channel, or in the channel's
    history. *)
Theorem writer_accounts repo buffer pub w0 w :
  NewWriter repo buffer pub = Ok w0 -> wsteps w0 w ->
  w_panicked w = false /\
  ws_Queued (Stats_of w) <= ws_Capacity (Stats_of w) /\
  ws_Written (Stats_of w) = Z.of_nat (List.length (successes (w_processed w))) /\
  ws_Written (Stats_of w) + ws_Failures (Stats_of w) + ws_Queued (Stats_of w)
    = Z.of_nat (List.length (w_sent w)) /\
  w_calls w = ws_Dropped (Stats_of w) + async_count (w_inflight w) + async_count (w_sent w).
Proof.
  intros Hn Hs. destruct (steps_books _ _ (new_books _ _ _ _ Hn) Hs) as [B1 B2 B3 B4 B5 _ B7 _].
  cbn. repeat split; try done; [lia|]. rewrite B3.
  apply (f_equal (@List.length AuditEntry)) in B1. rewrite length_app, !length_map in B1. lia.
Qed.

(** [Close] flushes.  From every reachable state in which the writer has been closed, the
    goroutine can run to its end on its own, and when it gets there every entry that was ever
    put on the channel has been processed, in order. *)
Theorem writer_close_flushes repo buffer pub w0 w :
  NewWriter repo buffer pub = Ok w0 -> wsteps w0 w -> w_closed w = true ->
  (exists w', wsteps w w' /\ w_done w' = true) /\
  (forall w', wsteps w w' -> w_done w' = true ->
     map fst (w_processed w') = map q_entry (w_sent w')).
Proof.
  intros Hn Hs Hc. split.
  - destruct (drain w Hc) as (w' & Hw & _ & _ & Hd & _). eauto.
  - intros w' Hw Hd.
    destruct (steps_books _ _ (steps_books _ _ (new_books _ _ _ _ Hn) Hs) Hw)
      as [B1 _ _ _ _ _ _ B8].
    destruct (B8 Hd) as [_ Hq]. by rewrite Hq, app_nil_r in B1.
Qed.
End Invariants.

(** ** A store whose error arrives after the entry did

    The append runs under a five second deadline: when the server commits and the answer is
    late, the writer sees an error for an entry that is in the log. *)

Record late_store := Late { ls_log : list AuditEntry; ls_late : bool }.

Definition late_append (s : late_store) (e : AuditEntry) : late_store * option string :=
  (Late (ls_log s ++ [e]) false,
   if ls_late s then Some "context deadline exceeded" else None).

#[export] Instance late_repository : Repository late_store := {
  Append := late_append;
  VerifyChain s := Memory.VerifyChain (ls_log s);
  Head s := Memory.Head (ls_log s);
  List_ s := Memory.List_ (ls_log s);
  Count_ s := Memory.Count_ (ls_log s)
}.

#[export] Instance late_laws : RepositoryLaws late_store.
Proof.
  refine {| log := ls_log; inv := fun _ => True; accepts := fun _ => True |}.
  - done.
  - intros s s' e _ _ _ [= <- _]. by apply Forall2_refl_on, list.Forall_true.
  - intros s s' e m _ _ _ [= <- _]. right. by apply Forall2_refl_on, list.Forall_true.
  - intros s h _ H. cbn in H. rewrite memory_head in H. by injection H.
  - intros s r _ H. cbn in H. rewrite memory_verify_unbounded in H. by injection H.
Defined.

(** A store whose failures leave nothing stored has no late errors. *)
Lemma prompt_never_late {S} `{RepositoryLaws S} (w0 w : Writer S) :
  (forall s s' e m, Append s e = (s', Some m) -> log s' = log s) -> ~ late_error w0 w.
Proof.
  intros Hp (w1 & w2 & _ & (Hr & Hw & Hl) & _). unfold run_one in Hr.
  destruct (w_queue w1) as [|item q]; [done|].
  destruct (append (receive w1 q) (q_entry item)) as [w3 o] eqn:Ea. injection Hr as <-. cbn in Hw, Hl.
  pose proof Ea as Hf. apply append_frame in Hf as (_ & _ & _ & _ & _ & _ & _ & _ & _ & _ & Hn & _).
  unfold append in Ea. destruct (NormalizePayload _) as [p|]; [|by injection Ea as <- _; cbn in Hl].
  destruct (Append _ _) as [s [m|]] eqn:Es; injection Ea as <- <-; [|cbn in Hw; lia].
  apply Hl. cbn. by rewrite (Hp _ _ _ _ Es).
Qed.

(** the chain does not survive an append that is reported as failed although the entry was
    stored (a deadline that fires after the commit): the head stays behind, the next entry is
    linked to it, and verification reports the log as broken at that entry although nobody
    touched it. *)
Theorem late_error_breaks_chain buffer pub w0 e1 e2 q1 q2 :
  NewWriter (Late [] true) buffer pub = Ok w0 ->
  NormalizePayload (Some (e_Payload e1)) = Ok q1 -> NormalizePayload (Some (e_Payload e2)) = Ok q2 ->
  ComputeHash (Seal (with_payload e1 q1) GenesisHash) <> GenesisHash ->
  let w1 := (append w0 e1).1 in
  let w2 := (append w1 e2).1 in
  let r := verify_from GenesisHash (ls_log (w_repo w2)) in
  w_failures w1 = 1 /\ w_failures w2 = 1 /\ w_written w2 = 1 /\
  v_OK r = false /\ v_Position r = 2 /\ v_BrokenAt r = e_ID e2.
Proof.
  intros Hn Hq1 Hq2 Hne. cbv zeta.
  apply NewWriter_ok in Hn as (h & cap & [= <-] & _ & ->). change (String.eqb GenesisHash EmptyString) with false.
  cbn [w_repo]. unfold append. rewrite Hq1, Hq2. cbn -[Seal verify_from GenesisHash].
  set (x := Seal (with_payload e1 q1) GenesisHash) in *.
  set (y := Seal (with_payload e2 q2) GenesisHash).
  split; [done|]. split; [done|]. split; [done|]. unfold verify_from.
  rewrite newChainWalker_prev by apply GenesisHash_nonempty.
  change [x; y] with ([x] ++ [y]). rewrite (walk_broken _ [x] y []).
  - done.
  - apply seal_chain, GenesisHash_nonempty.
  - left. intros E. apply Hne. cbn [head_hash w_prev] in E.
    unfold y in E. rewrite seal_prev in E by apply GenesisHash_nonempty. by rewrite E.
Qed.

(** ** A concrete run over the in-memory store *)

Lemma recordable_nil e : e_Payload e = [] ->
  ((0 <=? year_of (e_Timestamp e)) && (year_of (e_Timestamp e) <? 10000)) = true ->
  forallb (fun s => slen s <=? int64_max)
    [e_ID e; e_RequestID e; rfc3339_nano (e_Timestamp e); e_Kind e] = true ->
  recordable (S := list AuditEntry) e.
Proof.
  intros Ep Hy Hf q prev Hq Hl. rewrite Ep in Hq. cbn in Hq. injection Hq as <-.
  split; [|exact I]. assert (prev <> EmptyString) as Hp by (intros ->; discriminate Hl).
  apply entry_ok_empty; [reflexivity|exact Hy|].
  unfold fields_of. rewrite seal_prev by done. cbn [forallb].
  cbn [forallb] in Hf. rewrite !andb_true_iff in Hf. destruct Hf as (H1 & H2 & H3 & H4 & _).
  replace (slen prev) with 64 by (unfold slen; by rewrite Hl).
  repeat (apply andb_true_intro; split); first [exact H1|exact H2|exact H3|exact H4|reflexivity].
Qed.

Definition run_item : queued :=
  Queued (build (1700000000 * second + 123) "a" KindSystem "r" []) false.

Definition run_start : Writer (list AuditEntry) :=
  MkWriter [] true [] 2 false GenesisHash 0 0 0 false [] [] [] [] false 0.
Definition run_entered : Writer (list AuditEntry) := enter run_start run_item.
Definition run_queued : Writer (list AuditEntry) := send (set_inflight run_entered []) run_item.
Definition run_stored : Writer (list AuditEntry) := default run_queued (run_one run_queued).
Definition run_closed : Writer (list AuditEntry) := close run_stored.

Lemma run_to_queued : wsteps run_start run_queued.
Proof.
  apply (wsteps_step _ run_entered).
  - apply (wsteps_step _ run_start); [constructor|]. apply step_enter.
  - by apply (step_leave _ _ [] run_item []).
Qed.

Lemma run_to_stored : wsteps run_start run_stored.
Proof.
  apply (wsteps_step _ run_queued); [exact run_to_queued|]. apply step_run.
  unfold run_stored. destruct (run_one run_queued) eqn:E; [done|].
  unfold run_one in E. cbn [w_queue run_queued send set_inflight run_entered] in E. cbn in E.
  by destruct (append _ _).
Qed.

Lemma run_stored_sent : w_sent run_stored = [run_item] /\ w_inflight run_stored = [].
Proof. split; reflexivity. Qed.

Lemma run_recordable : Forall (fun q => recordable (q_entry q)) (w_sent run_stored).
Proof.
  rewrite (proj1 run_stored_sent). apply List.Forall_cons; [|apply List.Forall_nil].
  apply recordable_nil; reflexivity.
Qed.

Lemma memory_never_late (w0 w : Writer (list AuditEntry)) : ~ late_error w0 w.
Proof. by apply prompt_never_late. Qed.

(** The run has no late error, so it is the first case that holds. *)
Theorem writer_chain_intact_witness :
  chain GenesisHash (log (w_repo run_stored)) /\
  w_head run_stored = head_hash GenesisHash (log (w_repo run_stored)).
Proof.
  destruct (writer_chain_intact (S := list AuditEntry) [] 2 true run_start run_stored)
    as [Hc|(w1 & w2 & H1 & H2 & H3 & _)].
  - exact I.
  - constructor.
  - constructor.
  - reflexivity.
  - exact run_to_stored.
  - exact run_recordable.
  - exact Hc.
  - exfalso. apply (memory_never_late run_start run_stored). exists w1, w2.
    split; [exact H1|]. split; [exact H2|exact H3].
Defined.

Theorem writer_fifo_witness :
  map fst (w_processed run_stored) ++ map q_entry (w_queue run_stored)
    = map q_entry (w_sent run_stored) /\
  exists added stored, Forall2 same_entry (log (w_repo run_stored)) (log (S := list AuditEntry) [] ++ added) /\
    Forall2 sealed_from (successes (w_processed run_stored)) stored /\ stored `sublist_of` added /\
    (stored = added \/ late_error run_start run_stored).
Proof.
  apply (writer_fifo (S := list AuditEntry) [] 2 true run_start run_stored).
  - exact I.
  - constructor.
  - reflexivity.
  - exact run_to_stored.
  - exact run_recordable.
Defined.

Theorem writer_accounts_witness :
  w_panicked run_stored = false /\
  ws_Queued (Stats_of run_stored) <= ws_Capacity (Stats_of run_stored) /\
  ws_Written (Stats_of run_stored) = Z.of_nat (List.length (successes (w_processed run_stored))) /\
  ws_Written (Stats_of run_stored) + ws_Failures (Stats_of run_stored)
    + ws_Queued (Stats_of run_stored) = Z.of_nat (List.length (w_sent run_stored)) /\
  w_calls run_stored
    = ws_Dropped (Stats_of run_stored) + async_count (w_inflight run_stored)
      + async_count (w_sent run_stored).
Proof.
  apply (writer_accounts (S := list AuditEntry) [] 2 true run_start run_stored);
    [reflexivity|exact run_to_stored].
Defined.

Theorem writer_close_flushes_witness :
  (exists w', wsteps run_closed w' /\ w_done w' = true) /\
  (forall w', wsteps run_closed w' -> w_done w' = true ->
     map fst (w_processed w') = map q_entry (w_sent w')).
Proof.
  apply (writer_close_flushes (S := list AuditEntry) [] 2 true run_start run_closed).
  - reflexivity.
  - apply (wsteps_step _ run_stored); [exact run_to_stored|]. apply step_close. apply run_stored_sent.
  - reflexivity.
Defined.

Definition late_start : Writer late_store :=
  MkWriter (Late [] true) false [] 4096 false GenesisHash 0 0 0 false [] [] [] [] false 0.
Definition late_e1 : AuditEntry := build (1700000000 * second) "a" KindSystem "" [].
Definition late_e2 : AuditEntry := build (1700000001 * second) "b" KindSystem "" [].

Theorem late_error_breaks_chain_witness :
  let w1 := (append late_start late_e1).1 in
  let w2 := (append w1 late_e2).1 in
  let r := verify_from GenesisHash (ls_log (w_repo w2)) in
  w_failures w1 = 1 /\ w_failures w2 = 1 /\ w_written w2 = 1 /\
  v_OK r = false /\ v_Position r = 2 /\ v_BrokenAt r = e_ID late_e2.
Proof.
  apply (late_error_breaks_chain 0 false late_start late_e1 late_e2 [] []).
  - reflexivity.
  - reflexivity.
  - reflexivity.
  - vm_compute. discriminate.
Defined.
