(* ===== verification/Netip.v ===== *)
(** * IP addresses and prefixes: the parts of Go's [net/netip] the program uses

    An address is a 32-bit or a 128-bit integer; an IPv6 address may carry a zone.  Parsing,
    printing, masking and containment follow the library's own steps. *)

From S2P Require Import Prelude Utf8 GoText.

(** ** Addresses *)

Inductive addr : Type :=
| V4 (v : Z)
| V6 (v : Z) (zone : string).

#[export] Instance addr_eq_dec : EqDecision addr.
Proof. solve_decision. Defined.

Definition addr_wf (a : addr) : Prop :=
  match a with V4 v => 0 <= v < 2 ^ 32 | V6 v _ => 0 <= v < 2 ^ 128 end.

(** [BitLen] *)
Definition bit_len (a : addr) : Z := match a with V4 _ => 32 | V6 _ _ => 128 end.
Definition addr_val (a : addr) : Z := match a with V4 v => v | V6 v _ => v end.
Definition has_zone (a : addr) : bool :=
  match a with V4 _ => false | V6 _ z => negb (String.eqb z EmptyString) end.
Definition without_zone (a : addr) : addr :=
  match a with V4 v => V4 v | V6 v _ => V6 v EmptyString end.

(** ** Parsing *)

(** The octets of [parseIPv4Fields]: the value and the digits of the current one, those done. *)
Fixpoint ipv4_fields (s : string) (val digits : Z) (done_ : list Z) : option (list Z) :=
  match s with
  | EmptyString => Some (done_ ++ [val])
  | String c s =>
      if is_digit c then
        if (digits =? 1) && (val =? 0) then None
        else
          let val := val * 10 + (bval c - 48) in
          if 255 <? val then None else ipv4_fields s val (digits + 1) done_
      else if Ascii.eqb c "." then
        if (digits =? 0) || String.eqb s EmptyString then None
        else if (3 <=? List.length done_)%nat then None
        else ipv4_fields s 0 0 (done_ ++ [val])
      else None
  end.

Definition parse_ipv4 (s : string) : option Z :=
  match ipv4_fields s 0 0 [] with
  | Some [a; b; c; d] => Some (((a * 256 + b) * 256 + c) * 256 + d)
  | _ => None
  end.

Definition hex_digit_val (c : ascii) : option Z :=
  let z := bval c in
  if (48 <=? z) && (z <=? 57) then Some (z - 48)
  else if (97 <=? z) && (z <=? 102) then Some (z - 87)
  else if (65 <=? z) && (z <=? 70) then Some (z - 55)
  else None.

(** A group of hexadecimal digits, how many there were, and the rest; more than four fail. *)
Fixpoint hex_group (s : string) (acc : Z) (n : nat) : option (Z * nat * string) :=
  match s with
  | String c s' =>
      match hex_digit_val c with
      | Some d => if (4 <=? n)%nat then None else hex_group s' (acc * 16 + d) (S n)
      | None => Some (acc, n, s)
      end
  | EmptyString => Some (acc, n, s)
  end.

(** The loop of [parseIPv6]: the 16-bit groups so far and where the ellipsis was. *)
Fixpoint v6_groups (fuel : nat) (s : string) (gs : list Z) (ell : option nat)
  : option (list Z * option nat) :=
  match fuel with
  | O => if String.eqb s EmptyString then Some (gs, ell) else None
  | S fuel =>
      '(acc, n, rest) ← hex_group s 0 0;
      if (n =? 0)%nat then None
      else
        match rest with
        | EmptyString => Some (gs ++ [acc], ell)
        | String c r =>
            if Ascii.eqb c "." then
              if (match ell with None => negb (List.length gs =? 6)%nat | Some _ => false end)
                 || (6 <? List.length gs)%nat
              then None
              else v ← parse_ipv4 s; Some (gs ++ [v / 65536; v mod 65536], ell)
            else if negb (Ascii.eqb c ":") then None
            else
              let gs := gs ++ [acc] in
              match r with
              | EmptyString => None
              | String c' r' =>
                  if Ascii.eqb c' ":" then
                    match ell with
                    | Some _ => None
                    | None =>
                        if String.eqb r' EmptyString then Some (gs, Some (List.length gs))
                        else v6_groups fuel r' gs (Some (List.length gs))
                    end
                  else v6_groups fuel r gs ell
              end
        end
  end.

Definition groups_val (gs : list Z) : Z := foldl (fun a g => a * 65536 + g) 0 gs.

Definition expand (gs : list Z) (ell : option nat) : option (list Z) :=
  if (List.length gs <? 8)%nat then
    k ← ell; Some (take k gs ++ replicate (8 - List.length gs) 0 ++ drop k gs)
  else match ell with None => Some gs | Some _ => None end.

(** The text before the first percent sign, and the zone after it. *)
Fixpoint split_zone (s : string) : string * option string :=
  match s with
  | EmptyString => (EmptyString, None)
  | String c s =>
      if Ascii.eqb c "%" then (EmptyString, Some s)
      else let '(a, z) := split_zone s in (String c a, z)
  end.

Definition parse_ipv6_groups (s : string) : option (list Z) :=
  match s with
  | String c1 (String c2 r) =>
      if Ascii.eqb c1 ":" && Ascii.eqb c2 ":" then
        if String.eqb r EmptyString then Some (replicate 8 0)
        else '(gs, ell) ← v6_groups 8 r [] (Some 0%nat); expand gs ell
      else '(gs, ell) ← v6_groups 8 s [] None; expand gs ell
  | _ => '(gs, ell) ← v6_groups 8 s [] None; expand gs ell
  end.

Definition parse_ipv6 (s : string) : option addr :=
  let '(a, zone) := split_zone s in
  match zone with
  | Some EmptyString => None
  | _ => gs ← parse_ipv6_groups a; Some (V6 (groups_val gs) (default EmptyString zone))
  end.

(** What the first dot, colon or percent sign says the text is. *)
Fixpoint addr_kind (s : string) : option ascii :=
  match s with
  | EmptyString => None
  | String c s =>
      if Ascii.eqb c "." || Ascii.eqb c ":" || Ascii.eqb c "%" then Some c else addr_kind s
  end.

(** [ParseAddr] *)
Definition parse_addr (s : string) : option addr :=
  c ← addr_kind s;
  if Ascii.eqb c "." then v ← parse_ipv4 s; Some (V4 v)
  else if Ascii.eqb c ":" then parse_ipv6 s
  else None.

(** ** Printing *)

Definition ipv4_str (v : Z) : string :=
  dec (v / 2 ^ 24) +:+ "." +:+ dec (v / 2 ^ 16 mod 256) +:+ "." +:+
  dec (v / 2 ^ 8 mod 256) +:+ "." +:+ dec (v mod 256).

Definition v6_group (v : Z) (i : nat) : Z := v / 2 ^ (112 - 16 * Z.of_nat i) mod 65536.

Definition hex16 (g : Z) : string :=
  let d i := str1 (hex_digit (g / 16 ^ i mod 16)) in
  (if 0xfff <? g then d 3 else EmptyString) +:+ (if 0xff <? g then d 2 else EmptyString)
  +:+ (if 0xf <? g then d 1 else EmptyString) +:+ d 0.

Fixpoint zero_run (fuel : nat) (v : Z) (i : nat) : nat :=
  match fuel with
  | O => O
  | S fuel => if (i <? 8)%nat && (v6_group v i =? 0) then S (zero_run fuel v (S i)) else O
  end.

(** The first longest run of at least two zero groups. *)
Definition longest_zeros (v : Z) : nat * nat :=
  foldl (fun '(s, l) i =>
           let n := zero_run 8 v i in
           if (2 <=? n)%nat && (l <? n)%nat then (i, n) else (s, l)) (9%nat, 0%nat) (seq 0 8).

Fixpoint ipv6_from (fuel : nat) (v : Z) (zs zl i : nat) : string :=
  match fuel with
  | O => EmptyString
  | S fuel =>
      if (8 <=? i)%nat then EmptyString
      else if (i =? zs)%nat then
        let j := (zs + zl)%nat in
        "::" +:+ (if (8 <=? j)%nat then EmptyString
                  else hex16 (v6_group v j) +:+ ipv6_from fuel v zs zl (S j))
      else (if (0 <? i)%nat then ":" else EmptyString) +:+ hex16 (v6_group v i)
           +:+ ipv6_from fuel v zs zl (S i)
  end.

Definition zone_str (z : string) : string :=
  if String.eqb z EmptyString then EmptyString else "%" +:+ z.

(** [Addr.String]; IPv4-mapped addresses keep their dotted tail. *)
Definition addr_str (a : addr) : string :=
  match a with
  | V4 v => ipv4_str v
  | V6 v z =>
      (if v / 2 ^ 32 =? 0xffff then "::ffff:" +:+ ipv4_str (v mod 2 ^ 32)
       else let '(zs, zl) := longest_zeros v in ipv6_from 9 v zs zl 0) +:+ zone_str z
  end.

(** ** Prefixes *)

Record prefix := Prefix { p_addr : addr; p_bits : Z }.

#[export] Instance prefix_eq_dec : EqDecision prefix.
Proof. solve_decision. Defined.

(** [PrefixFrom] for a length that fits. *)
Definition prefix_from (a : addr) (bits : Z) : prefix := Prefix (without_zone a) bits.

(** Split at the last slash. *)
Definition split_slash (s : string) : option (string * string) :=
  match rev (split_on "/" s) with
  | [] | [_] => None
  | last :: init => Some (join "/" (rev init), last)
  end.

(** [ParsePrefix] *)
Definition parse_prefix (s : string) : option prefix :=
  '(a, b) ← split_slash s;
  ip ← parse_addr a;
  if has_zone ip then None
  else if (1 <? slen b) && negb (match b with
                                 | String c _ => is_digit c && negb (Ascii.eqb c "0")
                                 | EmptyString => true
                                 end) then None
  else
    bits ← parse_int b;
    if (bits <? 0) || (bit_len ip <? bits) then None else Some (prefix_from ip bits).

(** The value with its last [n] bits cleared. *)
Definition clear_low (n v : Z) : Z := v / 2 ^ n * 2 ^ n.

(** [Prefix.Masked] *)
Definition masked (p : prefix) : prefix :=
  let n := bit_len (p_addr p) - p_bits p in
  match p_addr p with
  | V4 v => Prefix (V4 (clear_low n v)) (p_bits p)
  | V6 v z => Prefix (V6 (clear_low n v) EmptyString) (p_bits p)
  end.

(** [Prefix.Contains] *)
Definition contains (p : prefix) (a : addr) : bool :=
  if has_zone a then false
  else if negb (bit_len (p_addr p) =? bit_len a) then false
  else
    let n := bit_len a - p_bits p in
    Z.shiftr (Z.lxor (addr_val a) (addr_val (p_addr p))) n =? 0.

(** [Prefix.String] *)
Definition prefix_str (p : prefix) : string := addr_str (p_addr p) +:+ "/" +:+ itoa (p_bits p).

Definition prefix_wf (p : prefix) : Prop :=
  addr_wf (p_addr p) /\ has_zone (p_addr p) = false /\ 0 <= p_bits p <= bit_len (p_addr p).

(** ** Lemmas *)

Lemma shiftr_lxor_zero a b n : 0 <= n -> 0 <= a -> 0 <= b ->
  Z.shiftr (Z.lxor a b) n = 0 <-> a / 2 ^ n = b / 2 ^ n.
Proof.
  intros Hn Ha Hb. rewrite <- !Z.shiftr_div_pow2 by done. rewrite Z.shiftr_lxor.
  split; [apply Z.lxor_eq|intros ->; apply Z.lxor_nilpotent].
Qed.

(** A prefix contains the addresses of its family that agree with it on its leading bits. *)
Lemma contains_spec p a : prefix_wf p -> addr_wf a ->
  contains p a = true <->
  has_zone a = false /\ bit_len a = bit_len (p_addr p) /\
  addr_val a / 2 ^ (bit_len a - p_bits p) = addr_val (p_addr p) / 2 ^ (bit_len a - p_bits p).
Proof.
  intros (Hp & _ & Hb) Ha. unfold contains.
  destruct (has_zone a); [split; [done|by intros [? _]]|].
  destruct (Z.eqb_spec (bit_len (p_addr p)) (bit_len a)) as [E|E]; cbn [negb];
    [|split; [done|intros (_ & E' & _); congruence]].
  rewrite Z.eqb_eq, shiftr_lxor_zero.
  - split; [intros H; split; [done|split; [congruence|done]]|by intros (_ & _ & ?)].
  - lia.
  - destruct a; simpl in *; lia.
  - destruct (p_addr p); simpl in *; lia.
Qed.

Lemma clear_low_div n v : 0 <= n -> clear_low n v / 2 ^ n = v / 2 ^ n.
Proof. intros Hn. unfold clear_low. apply Z.div_mul. pose proof (Z.pow_pos_nonneg 2 n). lia. Qed.

Lemma clear_low_bounds n v : 0 <= n -> 0 <= v -> 0 <= clear_low n v <= v.
Proof.
  intros Hn Hv. unfold clear_low. assert (0 < 2 ^ n) by (apply Z.pow_pos_nonneg; lia).
  pose proof (Z.div_pos v (2 ^ n) Hv ltac:(lia)). pose proof (Z.mul_div_le v (2 ^ n) ltac:(lia)). nia.
Qed.

Lemma masked_wf p : prefix_wf p -> prefix_wf (masked p).
Proof.
  intros (Ha & Hz & Hb). unfold masked, prefix_wf. destruct p as [[v|v z] b]; cbn in *.
  - pose proof (clear_low_bounds (32 - b) v). lia.
  - pose proof (clear_low_bounds (128 - b) v). lia.
Qed.

(** Masking does not change what a prefix contains. *)
Lemma masked_contains p a : prefix_wf p -> addr_wf a -> contains (masked p) a = contains p a.
Proof.
  intros Hp Ha. apply eq_true_iff_eq. rewrite !contains_spec by auto using masked_wf.
  destruct Hp as (Hw & _ & Hb). destruct p as [[v|v z] b]; cbn in *;
    (split; intros (H1 & H2 & H3); split; [done|split; [done|]| done | split; [done|]]);
    rewrite H2 in *; rewrite clear_low_div in * by lia; done.
Qed.

(** *** What parsing gives is well formed *)

Lemma ipv4_fields_range s val digits l l' :
  0 <= val <= 255 -> Forall (fun b => 0 <= b <= 255) l ->
  ipv4_fields s val digits l = Some l' -> Forall (fun b => 0 <= b <= 255) l'.
Proof.
  revert val digits l. induction s as [|c s IH]; intros val digits l Hv Hl H; cbn [ipv4_fields] in H.
  - injection H as <-. apply list.Forall_app. split; [done|]. by constructor.
  - destruct (is_digit c) eqn:Ec.
    + destruct (_ && _); [done|]. destruct (Z.ltb_spec 255 (val * 10 + (bval c - 48))); [done|].
      unfold is_digit in Ec. apply andb_prop in Ec as [E1%Z.leb_le E2%Z.leb_le].
      eapply IH; [|exact Hl|exact H]. lia.
    + destruct (Ascii.eqb c "."); [|done]. destruct (_ || _); [done|].
      destruct (_ <=? _)%nat; [done|]. eapply IH; [|  |exact H]; [lia|].
      apply list.Forall_app. split; [done|]. by constructor.
Qed.

Lemma parse_ipv4_range s v : parse_ipv4 s = Some v -> 0 <= v < 2 ^ 32.
Proof.
  unfold parse_ipv4. destruct (ipv4_fields s 0 0 []) as [l|] eqn:E; [|done].
  apply ipv4_fields_range in E; [|lia|constructor].
  destruct l as [|a [|b [|c [|d [|]]]]]; try done. intros [= <-].
  rewrite !list.Forall_cons in E. lia.
Qed.

Definition group16 (g : Z) : Prop := 0 <= g < 65536.

Lemma hex_group_range s acc n g k rest :
  0 <= acc < 16 ^ Z.of_nat n -> (n <= 4)%nat -> hex_group s acc n = Some (g, k, rest) -> group16 g.
Proof.
  revert acc n. induction s as [|c s IH]; intros acc n Ha Hn H; cbn [hex_group] in H.
  - simplify_eq. unfold group16. assert (16 ^ Z.of_nat k <= 16 ^ 4) by (apply Z.pow_le_mono_r; lia). lia.
  - unfold hex_digit_val in H. cbv zeta in H. pose proof (bval_bound c).
    assert (forall d, 0 <= d < 16 ->
      (if (4 <=? n)%nat then None else hex_group s (acc * 16 + d) (S n)) = Some (g, k, rest) ->
      group16 g) as Hstep.
    { intros d Hd. destruct (Nat.leb_spec 4 n); [done|]. apply IH; [|lia].
      rewrite Nat2Z.inj_succ, Z.pow_succ_r by lia. lia. }
    destruct ((48 <=? bval c) && (bval c <=? 57)) eqn:E1; [apply (Hstep (bval c - 48)); [lia|done]|].
    destruct ((97 <=? bval c) && (bval c <=? 102)) eqn:E2; [apply (Hstep (bval c - 87)); [lia|done]|].
    destruct ((65 <=? bval c) && (bval c <=? 70)) eqn:E3; [apply (Hstep (bval c - 55)); [lia|done]|].
    simplify_eq. unfold group16. assert (16 ^ Z.of_nat k <= 16 ^ 4) by (apply Z.pow_le_mono_r; lia). lia.
Qed.

Lemma v6_groups_range fuel s gs ell gs' ell' :
  Forall group16 gs -> (List.length gs + fuel = 8)%nat ->
  v6_groups fuel s gs ell = Some (gs', ell') ->
  Forall group16 gs' /\ (List.length gs' <= 8)%nat.
Proof.
  revert s gs ell. induction fuel as [|fuel IH]; intros s gs ell Hg Hn H; cbn [v6_groups] in H.
  - destruct (String.eqb s EmptyString); [|done]. injection H as <- <-. split; [done|lia].
  - destruct (hex_group s 0 0) as [[[acc n] rest]|] eqn:Eh; cbn [mbind option_bind] in H; [|done].
    apply hex_group_range in Eh; [|done|lia]. destruct (n =? 0)%nat; [done|].
    assert (Forall group16 (gs ++ [acc])) as Hg' by (apply list.Forall_app; split; [done|by constructor]).
    assert (List.length (gs ++ [acc]) + fuel = 8)%nat as Hn' by (rewrite length_app; cbn; lia).
    destruct rest as [|c r].
    { injection H as <- <-. split; [done|lia]. }
    destruct (Ascii.eqb c ".").
    + destruct (match ell with None => _ | Some _ => false end || _) eqn:E6; [done|].
      apply orb_false_elim in E6 as [_ E6%Nat.ltb_ge].
      destruct (parse_ipv4 s) as [v|] eqn:Ev; cbn in H; [|done].
      injection H as <- <-. apply parse_ipv4_range in Ev. rewrite length_app. split; [|cbn; lia].
      apply list.Forall_app. split; [done|]. repeat constructor; unfold group16; dlia.
    + destruct (negb _); [done|]. destruct r as [|c' r']; [done|].
      destruct (Ascii.eqb c' ":"); [|by eapply IH].
      destruct ell; [done|]. destruct (String.eqb r' EmptyString); [|by eapply IH].
      injection H as <- <-. split; [done|lia].
Qed.

Lemma groups_val_range gs : Forall group16 gs -> 0 <= groups_val gs < 65536 ^ Z.of_nat (List.length gs).
Proof.
  unfold groups_val. induction gs as [|g gs IH] using rev_ind; [done|]. intros Hg.
  apply list.Forall_app in Hg as [Hg Hx]. apply list.Forall_cons in Hx as [Hx _].
  specialize (IH Hg). rewrite foldl_app, length_app, Nat.add_comm, Nat2Z.inj_add, Z.pow_add_r by lia.
  cbn. unfold group16 in Hx. lia.
Qed.

Lemma expand_range gs ell gs' : Forall group16 gs -> (List.length gs <= 8)%nat ->
  expand gs ell = Some gs' -> Forall group16 gs' /\ List.length gs' = 8%nat.
Proof.
  intros Hg Hn. unfold expand. destruct (Nat.ltb_spec (List.length gs) 8).
  - destruct ell as [k|]; cbn; [|done]. intros [= <-]. split.
    + apply list.Forall_app. split; [by apply list.Forall_take|]. apply list.Forall_app.
      split; [|by apply list.Forall_drop]. by apply list.Forall_replicate.
    + rewrite !length_app, length_take, length_replicate, length_drop. lia.
  - destruct ell; [done|]. intros [= <-]. split; [done|lia].
Qed.

Lemma parse_ipv6_groups_range s gs : parse_ipv6_groups s = Some gs ->
  Forall group16 gs /\ List.length gs = 8%nat.
Proof.
  assert (forall t e, ('(gs, ell) ← v6_groups 8 t [] e; expand gs ell) = Some gs ->
    Forall group16 gs /\ List.length gs = 8%nat) as Haux.
  { intros t e. destruct (v6_groups 8 t [] e) as [[gs0 ell]|] eqn:E; cbn; [|done].
    apply v6_groups_range in E as [Hg Hl]; [|constructor|done]. by apply expand_range. }
  unfold parse_ipv6_groups. destruct s as [|c1 [|c2 r]]; [apply Haux..|].
  destruct (_ && _); [|apply Haux]. destruct (String.eqb r EmptyString); [|apply Haux].
  intros [= <-]. split; [|done]. by repeat constructor.
Qed.

Lemma parse_addr_wf s a : parse_addr s = Some a -> addr_wf a.
Proof.
  unfold parse_addr. destruct (addr_kind s) as [c|]; cbn; [|done]. destruct (Ascii.eqb c ".").
  - destruct (parse_ipv4 s) as [v|] eqn:E; cbn; [|done]. intros [= <-]. by apply parse_ipv4_range in E.
  - destruct (Ascii.eqb c ":"); [|done]. unfold parse_ipv6. destruct (split_zone s) as [t zone].
    assert (forall z, (gs ← parse_ipv6_groups t; Some (V6 (groups_val gs) z)) = Some a ->
      addr_wf a) as Haux.
    { intros z. destruct (parse_ipv6_groups t) as [gs|] eqn:E; cbn -[groups_val]; [|done].
      intros [= <-]. apply parse_ipv6_groups_range in E as [Hg Hl].
      apply groups_val_range in Hg. by rewrite Hl in Hg. }
    destruct zone as [[|c' z]|]; [done|apply Haux|apply Haux].
Qed.

Lemma parse_prefix_wf s p : parse_prefix s = Some p -> prefix_wf p.
Proof.
  unfold parse_prefix. destruct (split_slash s) as [[a b]|]; cbn; [|done].
  destruct (parse_addr a) as [ip|] eqn:Ea; cbn; [|done]. destruct (has_zone ip) eqn:Hz; [done|].
  destruct (_ && _); [done|]. destruct (parse_int b) as [bits|]; cbn; [|done].
  destruct ((bits <? 0) || (bit_len ip <? bits)) eqn:Eb; [done|]. intros [= <-].
  apply orb_false_elim in Eb as [E1%Z.ltb_ge E2%Z.ltb_ge]. apply parse_addr_wf in Ea.
  unfold prefix_from, prefix_wf. destruct ip; cbn in *; done || lia.
Qed.

Lemma host_prefix_wf a : addr_wf a -> prefix_wf (prefix_from a (bit_len a)).
Proof. intros Ha. unfold prefix_from, prefix_wf. destruct a; cbn in *; lia. Qed.

Lemma addr_val_bound a : addr_wf a -> 0 <= addr_val a.
Proof. destruct a; cbn; lia. Qed.

(** A single-host prefix contains that address and no other. *)
Lemma host_prefix_contains a b : addr_wf a -> addr_wf b ->
  contains (prefix_from a (bit_len a)) b = true <-> has_zone b = false /\ b = without_zone a.
Proof.
  intros Ha Hb. rewrite contains_spec by auto using host_prefix_wf.
  unfold prefix_from. cbn [p_addr p_bits].
  assert (bit_len (without_zone a) = bit_len a) as -> by by destruct a.
  assert (addr_val (without_zone a) = addr_val a) as -> by by destruct a.
  split.
  - intros (Hz & Hl & Hv). split; [done|]. rewrite Hl, Z.sub_diag, !Z.div_1_r in Hv.
    destruct a as [v|v z], b as [w|w z']; cbn in *; try done; [congruence|].
    subst. destruct (String.eqb_spec z' EmptyString); [congruence|done].
  - intros [Hz ->]. destruct a; cbn; rewrite ?Z.sub_diag; done.
Qed.

#[export] Hint Resolve parse_addr_wf parse_prefix_wf masked_wf host_prefix_wf : shield.
