(* ===== verification/NetipRound.v ===== *)
(** * Addresses and prefixes read back as they were printed

    The text [Netip] prints for an address or a prefix is parsed to the same one: dotted octets,
    hexadecimal groups with the longest run of zeros left out, and the dotted tail of an
    IPv4-mapped address. *)

From S2P Require Import Prelude Utf8 GoText Netip.

(** ** Octets *)

(** Decimal text of up to three digits. *)
Lemma dec_octet : Forall (fun n => dec n =
    if n <? 10 then str1 (digit n)
    else if n <? 100 then String (digit (n / 10)) (str1 (digit (n mod 10)))
    else String (digit (n / 100)) (String (digit (n / 10 mod 10)) (str1 (digit (n mod 10))))) (seqZ 0 1000).
Proof. apply (bool_decide_unpack _). vm_compute. exact I. Qed.

Definition digits_of (n : Z) : Z := if n <? 10 then 1 else if n <? 100 then 2 else 3.

Lemma ipv4_digit d rest val n l : 0 <= d <= 9 -> (n =? 1) && (val =? 0) = false -> val * 10 + d <= 255 ->
  ipv4_fields (String (digit d) rest) val n l = ipv4_fields rest (val * 10 + d) (n + 1) l.
Proof.
  intros Hd Hn Hv. cbn [ipv4_fields]. rewrite is_digit_digit, Hn, bval_digit by lia.
  replace (48 + d - 48) with d by lia. cbv zeta. by rewrite (proj2 (Z.ltb_ge _ _)) by lia.
Qed.

Lemma ipv4_octet a rest l : 0 <= a <= 255 ->
  ipv4_fields (dec a +:+ rest) 0 0 l = ipv4_fields rest a (digits_of a) l.
Proof.
  intros Ha. pose proof dec_octet as Hd. rewrite list.Forall_forall in Hd. rewrite Hd by (apply elem_of_seqZ; lia).
  unfold digits_of. destruct (Z.ltb_spec a 10); [|destruct (Z.ltb_spec a 100)]; cbn [String.append str1].
  - rewrite ipv4_digit by (done || lia). f_equal; lia.
  - assert (a = a / 10 * 10 + a mod 10) by dlia. assert (1 <= a / 10 <= 9 /\ 0 <= a mod 10 <= 9) by dlia.
    rewrite ipv4_digit by (done || lia). rewrite ipv4_digit; [f_equal; lia|lia| |lia].
    rewrite (proj2 (Z.eqb_neq (0 * 10 + a / 10) 0)) by lia. apply andb_false_r.
  - assert (a = (a / 100 * 10 + a / 10 mod 10) * 10 + a mod 10) by dlia.
    assert (1 <= a / 100 <= 2 /\ 0 <= a / 10 mod 10 <= 9 /\ 0 <= a mod 10 <= 9) by dlia.
    rewrite ipv4_digit by (done || lia).
    rewrite ipv4_digit; [|lia| |lia].
    2: { rewrite (proj2 (Z.eqb_neq (0 * 10 + a / 100) 0)) by lia. apply andb_false_r. }
    rewrite ipv4_digit; [f_equal; lia|lia|done|lia].
Qed.

Lemma ipv4_dot rest v n l : n <> 0 -> rest <> EmptyString -> (List.length l < 3)%nat ->
  ipv4_fields (String "." rest) v n l = ipv4_fields rest 0 0 (l ++ [v]).
Proof.
  intros Hn Hr Hl. cbn [ipv4_fields]. change (is_digit ".") with false. cbv iota. rewrite Ascii.eqb_refl.
  rewrite (proj2 (Z.eqb_neq n 0)) by done. destruct rest; [done|]. cbn [String.eqb orb].
  by rewrite (proj2 (Nat.leb_gt 3 _)) by lia.
Qed.

Lemma dec_some n : 0 <= n <= 255 -> exists d t, dec n = String (digit d) t /\ 0 <= d <= 9.
Proof.
  intros Hn. pose proof dec_octet as Hd. rewrite list.Forall_forall in Hd. rewrite Hd by (apply elem_of_seqZ; lia).
  destruct (Z.ltb_spec n 10); [|destruct (Z.ltb_spec n 100)]; eexists _, _; (split; [reflexivity|dlia]).
Qed.

Lemma digits_of_pos n : digits_of n <> 0.
Proof. unfold digits_of. repeat case_match; lia. Qed.

Lemma ipv4_octets v : 0 <= v < 2 ^ 32 ->
  let a := v / 2 ^ 24 in let b := v / 2 ^ 16 mod 256 in let c := v / 2 ^ 8 mod 256 in let d := v mod 256 in
  0 <= a <= 255 /\ 0 <= b <= 255 /\ 0 <= c <= 255 /\ 0 <= d <= 255 /\ ((a * 256 + b) * 256 + c) * 256 + d = v.
Proof. cbv zeta. change (2 ^ 24) with 16777216. change (2 ^ 16) with 65536. change (2 ^ 8) with 256. change (2 ^ 32) with 4294967296. intros Hv. dlia. Qed.

Lemma parse_ipv4_str v : 0 <= v < 2 ^ 32 -> parse_ipv4 (ipv4_str v) = Some v.
Proof.
  intros Hv. pose proof (ipv4_octets v Hv) as (Ha & Hb & Hc & Hd & E). unfold parse_ipv4, ipv4_str.
  assert (forall x y, 0 <= x <= 255 -> dec x +:+ y <> EmptyString) as Hne
    by (intros x y Hx; destruct (dec_some x Hx) as (? & ? & -> & _); done).
  rewrite ipv4_octet by done. cbn [String.append]. rewrite ipv4_dot by (apply digits_of_pos || (by apply Hne) || (cbn; lia)).
  rewrite ipv4_octet by done. cbn [String.append app]. rewrite ipv4_dot by (apply digits_of_pos || (by apply Hne) || (cbn; lia)).
  rewrite ipv4_octet by done. cbn [String.append app].
  rewrite ipv4_dot; [|apply digits_of_pos|rewrite <- (app_nil_str (dec _)); by apply Hne|cbn; lia].
  rewrite <- (app_nil_str (dec (v mod 256))), ipv4_octet by done. cbn [ipv4_fields app]. by rewrite E.
Qed.

(** ** Groups *)

Lemma hex_digit_back d : 0 <= d < 16 -> hex_digit_val (hex_digit d) = Some d.
Proof.
  intros H. unfold hex_digit, hex_digit_val. rewrite bval_bof by (case_match; lia).
  destruct (Z.ltb_spec d 10); zbool; f_equal; lia.
Qed.

Lemma hex_step d rest acc n : 0 <= d < 16 -> (n < 4)%nat ->
  hex_group (String (hex_digit d) rest) acc n = hex_group rest (acc * 16 + d) (S n).
Proof. intros Hd Hn. cbn [hex_group]. rewrite hex_digit_back by done. by rewrite (proj2 (Nat.leb_gt 4 n)) by lia. Qed.

(** What ends a group. *)
Definition group_end (s : string) : Prop :=
  match s with EmptyString => True | String c _ => hex_digit_val c = None end.

Lemma hex_end s acc n : group_end s -> hex_group s acc n = Some (acc, n, s).
Proof. destruct s as [|c s]; [done|]. cbn. by intros ->. Qed.

Lemma hex16_read g rest : group16 g -> group_end rest ->
  exists n, hex_group (hex16 g +:+ rest) 0 0 = Some (g, S n, rest).
Proof.
  unfold group16. intros Hg Hr. unfold hex16.
  change (16 ^ 3) with 4096. change (16 ^ 2) with 256. change (16 ^ 1) with 16. change (16 ^ 0) with 1.
  assert (0 <= g / 4096 mod 16 < 16 /\ 0 <= g / 256 mod 16 < 16 /\ 0 <= g / 16 mod 16 < 16 /\ 0 <= g / 1 mod 16 < 16)
    as (H3 & H2 & H1 & H0) by dlia.
  exists (if 0xfff <? g then 3%nat else if 0xff <? g then 2%nat else if 0xf <? g then 1%nat else 0%nat).
  destruct (Z.ltb_spec 0xfff g), (Z.ltb_spec 0xff g), (Z.ltb_spec 0xf g); try lia; cbn [String.append str1];
    rewrite !hex_step by lia; rewrite hex_end by done; do 3 f_equal; dlia.
Qed.

Lemma hex16_head g : group16 g -> exists d t, hex16 g = String (hex_digit d) t /\ 0 <= d < 16.
Proof.
  unfold group16. intros Hg. unfold hex16. change (16 ^ 3) with 4096. change (16 ^ 2) with 256. change (16 ^ 1) with 16.
  change (16 ^ 0) with 1.
  destruct (0xfff <? g); [|destruct (0xff <? g); [|destruct (0xf <? g)]]; cbn [String.append str1];
    eexists _, _; (split; [reflexivity|dlia]).
Qed.

Lemma hex_not c d : 0 <= d < 16 -> hex_digit_val c = None -> Ascii.eqb (hex_digit d) c = false.
Proof. intros Hd Hc. apply Ascii.eqb_neq. intros <-. by rewrite hex_digit_back in Hc. Qed.

Definition groups_text (l : list Z) : string := join ":" (map hex16 l).

Lemma groups_text_cons g g' l : groups_text (g :: g' :: l) = hex16 g +:+ ":" +:+ groups_text (g' :: l).
Proof. unfold groups_text. cbn [map join]. done. Qed.

Lemma groups_text_head g l : group16 g -> exists d t, groups_text (g :: l) = String (hex_digit d) t /\ 0 <= d < 16.
Proof.
  intros Hg. destruct (hex16_head g Hg) as (d & t & E & Hd).
  destruct l as [|g' l]; [exists d, t; unfold groups_text; by cbn [map join]|].
  rewrite groups_text_cons, E. cbn [String.append]. by eexists d, _.
Qed.

(** A group with another behind it. *)
Lemma group_step text g n d t fuel gs ell : 0 <= d < 16 ->
  hex_group text 0 0 = Some (g, S n, String ":" (String (hex_digit d) t)) ->
  v6_groups (S fuel) text gs ell = v6_groups fuel (String (hex_digit d) t) (gs ++ [g]) ell.
Proof.
  intros Hd E. cbn [v6_groups]. rewrite E. cbn [mbind option_bind Nat.eqb]. change (Ascii.eqb ":" ".") with false.
  change (negb (Ascii.eqb ":" ":")) with false. cbv iota zeta. by rewrite (hex_not ":" d).
Qed.

(** A list of groups is read to its end. *)
Lemma groups_read l fuel gs ell : l <> [] -> Forall group16 l -> (List.length l <= fuel)%nat ->
  v6_groups fuel (groups_text l) gs ell = Some (gs ++ l, ell).
Proof.
  intros Hl Hg. revert fuel gs. induction Hg as [|g l Hg Hls IH]; [done|]. intros [|fuel] gs Hf; [cbn in Hf; lia|].
  destruct l as [|g' l].
  - cbn [v6_groups]. unfold groups_text. cbn [map join]. rewrite <- (app_nil_str (hex16 g)).
    destruct (hex16_read g EmptyString Hg I) as [n ->]. cbn [mbind option_bind]. done.
  - destruct (groups_text_head g' l) as (d & t & Et & Hd); [by apply list.Forall_cons in Hls as [? _]|].
    rewrite groups_text_cons. destruct (hex16_read g (":" +:+ groups_text (g' :: l)) Hg) as [n E]; [done|].
    rewrite (group_step _ g n d t) by (done || by rewrite <- Et). rewrite <- Et, IH by (done || cbn in *; lia).
    by rewrite <- app_assoc.
Qed.

(** Groups in front of the ellipsis. *)
Lemma groups_read_ellipsis l fuel gs rest : l <> [] -> Forall group16 l -> (List.length l <= fuel)%nat ->
  v6_groups fuel (groups_text l +:+ "::" +:+ rest) gs None =
    if String.eqb rest EmptyString then Some (gs ++ l, Some (List.length (gs ++ l)))
    else v6_groups (fuel - List.length l) rest (gs ++ l) (Some (List.length (gs ++ l))).
Proof.
  intros Hl Hg. revert fuel gs. induction Hg as [|g l Hg Hls IH]; [done|]. intros [|fuel] gs Hf; [cbn in Hf; lia|].
  destruct l as [|g' l].
  - cbn [v6_groups]. unfold groups_text. cbn [map join]. destruct (hex16_read g ("::" +:+ rest) Hg) as [n ->]; [done|].
    cbn [mbind option_bind Nat.eqb String.append]. change (Ascii.eqb ":" ".") with false.
    change (negb (Ascii.eqb ":" ":")) with false. change (Ascii.eqb ":" ":") with true. cbv iota zeta.
    cbn [List.length]. by replace (S fuel - 1)%nat with fuel by lia.
  - destruct (groups_text_head g' l) as (d & t & Et & Hd); [by apply list.Forall_cons in Hls as [? _]|].
    rewrite groups_text_cons, !app_assoc_str.
    destruct (hex16_read g (":" +:+ groups_text (g' :: l) +:+ "::" +:+ rest) Hg) as [n E]; [done|].
    assert (groups_text (g' :: l) +:+ "::" +:+ rest = String (hex_digit d) (t +:+ "::" +:+ rest)) as Ea
      by (rewrite Et; reflexivity).
    rewrite (group_step _ g n d (t +:+ "::" +:+ rest)) by (done || by rewrite <- Ea).
    rewrite <- Ea, IH by (done || cbn in *; lia). by rewrite <- app_assoc.
Qed.

(** ** The ellipsis *)

Definition groups_from (v : Z) (i n : nat) : list Z := map (v6_group v) (seq i n).

Lemma groups_from_16 v i n : Forall group16 (groups_from v i n).
Proof. apply List.Forall_map, list.Forall_forall. intros j _. unfold group16, v6_group. dlia. Qed.

Lemma groups_from_app v i n m : groups_from v i (n + m) = groups_from v i n ++ groups_from v (i + n) m.
Proof. unfold groups_from. by rewrite seq_app, map_app. Qed.

Lemma groups_from_length v i n : List.length (groups_from v i n) = n.
Proof. unfold groups_from. by rewrite length_map, length_seq. Qed.

Lemma zero_run_spec fuel v i : (forall j, (i <= j < i + zero_run fuel v i)%nat -> v6_group v j = 0) /\
  (i + zero_run fuel v i <= 8 \/ zero_run fuel v i = 0)%nat.
Proof.
  revert i. induction fuel as [|fuel IH]; intros i; cbn [zero_run]; [split; [lia|by right]|].
  destruct (Nat.ltb_spec i 8); cbn [andb]; [|split; [lia|by right]].
  destruct (Z.eqb_spec (v6_group v i) 0) as [E|]; [|split; [lia|by right]].
  destruct (IH (S i)) as [Hz Hl]. split; [|lia]. intros j Hj.
  destruct (Nat.eq_dec j i) as [->|]; [done|apply Hz; lia].
Qed.

(** A run of zeros that may be left out, or none. *)
Definition zeros_at (v : Z) (s l : nat) : Prop :=
  (s = 9%nat /\ l = 0%nat) \/ ((2 <= l)%nat /\ (s + l <= 8)%nat /\ groups_from v s l = replicate l 0).

Lemma zeros_listed v s l : (forall j, (s <= j < s + l)%nat -> v6_group v j = 0) -> groups_from v s l = replicate l 0.
Proof.
  unfold groups_from. revert s. induction l as [|l IH]; intros s Hz; [done|]. cbn [seq map replicate].
  rewrite Hz by lia. f_equal. apply IH. intros j Hj. apply Hz. lia.
Qed.

Lemma longest_zeros_spec v : zeros_at v (longest_zeros v).1 (longest_zeros v).2.
Proof.
  unfold longest_zeros. assert (zeros_at v (9%nat, 0%nat).1 (9%nat, 0%nat).2) as H0 by by left.
  revert H0. generalize (9%nat, 0%nat). generalize (seq 0 8) as l. induction l as [|i l IH]; intros [s n] H0; [done|].
  cbn [foldl]. apply IH. destruct (zero_run_spec 8 v i) as [Hz Hl].
  destruct (Nat.leb_spec 2 (zero_run 8 v i)), (Nat.ltb_spec n (zero_run 8 v i)); cbn [andb]; try done.
  right. split; [done|]. split; [cbn [fst snd]; lia|]. by apply zeros_listed.
Qed.

Lemma ipv6_plain v : ipv6_from 9 v 9 0 0 = groups_text (groups_from v 0 8).
Proof. unfold groups_text, groups_from. cbn [seq map join ipv6_from Nat.leb Nat.ltb Nat.eqb String.append]. by rewrite ?app_nil_str. Qed.

Lemma ipv6_ellipsis v s l : (2 <= l)%nat -> (s + l <= 8)%nat ->
  ipv6_from 9 v s l 0 = groups_text (groups_from v 0 s) +:+ "::" +:+ groups_text (groups_from v (s + l) (8 - s - l)).
Proof.
  intros Hl Hs. unfold groups_text, groups_from.
  assert (In s (seq 0 7)) as Hs' by (apply in_seq; lia). assert (In l (seq 2 7)) as Hl' by (apply in_seq; lia).
  destruct Hs' as [<-|[<-|[<-|[<-|[<-|[<-|[<-|[]]]]]]]]; destruct Hl' as [<-|[<-|[<-|[<-|[<-|[<-|[<-|[]]]]]]]]; try lia;
    cbn [seq map join ipv6_from Nat.leb Nat.ltb Nat.eqb Nat.add Nat.sub String.append]; rewrite ?app_nil_str;
    do 8 (rewrite ?app_assoc_str; cbn [String.append]); reflexivity.
Qed.

(** ** Addresses *)

Lemma groups_value v : 0 <= v < 2 ^ 128 -> groups_val (groups_from v 0 8) = v.
Proof.
  intros Hv. unfold groups_val, groups_from, v6_group. cbn [seq map foldl].
  assert (forall k, 0 <= k -> v / 2 ^ (k + 16) * 65536 + v / 2 ^ k mod 65536 = v / 2 ^ k) as Hk.
  { intros k Hk. rewrite Z.pow_add_r, <- Z.div_div by lia. change (2 ^ 16) with 65536. dlia. }
  assert (v / 2 ^ 112 mod 65536 = v / 2 ^ 112) as Htop.
  { apply Z.mod_small. split; [apply Z.div_pos; lia|]. apply Z.div_lt_upper_bound; [lia|].
    change (2 ^ 112 * 65536) with (2 ^ 128). lia. }
  change (((((((((0 * 65536 + v / 2 ^ 112 mod 65536) * 65536 + v / 2 ^ 96 mod 65536) * 65536 + v / 2 ^ 80 mod 65536) * 65536
    + v / 2 ^ 64 mod 65536) * 65536 + v / 2 ^ 48 mod 65536) * 65536 + v / 2 ^ 32 mod 65536) * 65536
    + v / 2 ^ 16 mod 65536) * 65536 + v / 2 ^ 0 mod 65536) = v).
  rewrite Htop, Z.add_0_l. pose proof (Hk 96 ltac:(lia)) as H6. pose proof (Hk 80 ltac:(lia)) as H5.
  pose proof (Hk 64 ltac:(lia)) as H4. pose proof (Hk 48 ltac:(lia)) as H3. pose proof (Hk 32 ltac:(lia)) as H2.
  pose proof (Hk 16 ltac:(lia)) as H1. pose proof (Hk 0 ltac:(lia)) as H0.
  change (96 + 16) with 112 in H6. change (80 + 16) with 96 in H5. change (64 + 16) with 80 in H4.
  change (48 + 16) with 64 in H3. change (32 + 16) with 48 in H2. change (16 + 16) with 32 in H1. change (0 + 16) with 16 in H0.
  rewrite H6, H5, H4, H3, H2, H1, H0.
  apply Z.div_1_r.
Qed.

Lemma groups_from_cons v i n : groups_from v i (S n) = v6_group v i :: groups_from v (S i) n.
Proof. done. Qed.

(** A text that does not begin with an ellipsis. *)
Lemma parse_groups_plain d t : 0 <= d < 16 ->
  parse_ipv6_groups (String (hex_digit d) t) = ('(gs, ell) ← v6_groups 8 (String (hex_digit d) t) [] None; expand gs ell).
Proof. intros Hd. unfold parse_ipv6_groups. destruct t; [done|]. by rewrite (hex_not ":" d). Qed.

Lemma expand_around l1 l2 n : (1 <= n)%nat -> (List.length l1 + n + List.length l2 = 8)%nat ->
  expand (l1 ++ l2) (Some (List.length l1)) = Some (l1 ++ replicate n 0 ++ l2).
Proof.
  intros Hn Hl. unfold expand. rewrite length_app. rewrite (proj2 (Nat.ltb_lt _ 8)) by lia. cbn [mbind option_bind].
  replace (8 - (length l1 + length l2))%nat with n by lia. by rewrite take_app_length, drop_app_length.
Qed.

Lemma ellipsis_read v s l : (2 <= l)%nat -> (s + l <= 8)%nat -> groups_from v s l = replicate l 0 ->
  parse_ipv6_groups (groups_text (groups_from v 0 s) +:+ "::" +:+ groups_text (groups_from v (s + l) (8 - s - l)))
  = Some (groups_from v 0 8).
Proof.
  intros Hl Hs Hz. set (l1 := groups_from v 0 s). set (l2 := groups_from v (s + l) (8 - s - l)).
  assert (List.length l1 = s /\ List.length l2 = (8 - s - l)%nat) as [E1 E2] by (unfold l1, l2; by rewrite !groups_from_length).
  assert (groups_from v 0 8 = l1 ++ replicate l 0 ++ l2) as ->.
  { unfold l1, l2. rewrite <- Hz. rewrite <- (groups_from_app v s l), <- (groups_from_app v 0 s). f_equal. lia. }
  assert (Forall group16 l1 /\ Forall group16 l2) as [H1 H2] by (split; apply groups_from_16).
  assert (forall gs ell fuel, l2 <> [] -> (List.length l2 <= fuel)%nat ->
    v6_groups fuel (groups_text l2) gs ell = Some (gs ++ l2, ell)) as Hread by (intros; by apply groups_read).
  assert (l2 <> [] -> String.eqb (groups_text l2) EmptyString = false) as Hne.
  { intros Hn. destruct l2 as [|g l2]; [done|]. apply list.Forall_cons in H2 as [Hg _].
    by destruct (groups_text_head g l2 Hg) as (? & ? & -> & _). }
  destruct l1 as [|g l1'] eqn:El.
  - cbn [groups_text map join String.append]. unfold parse_ipv6_groups. change (Ascii.eqb ":" ":") with true. cbn [andb].
    destruct (decide (l2 = [])) as [->|Hn]; [cbn in E1, E2; replace l with 8%nat by lia; done|].
    rewrite Hne by done. rewrite Hread by (done || lia). cbn [mbind option_bind app].
    cbn [List.length] in E1. apply (expand_around [] l2 l); [lia|]. cbn [List.length]. lia.
  - apply list.Forall_cons in H1 as [Hg H1'].
    destruct (groups_text_head g l1' Hg) as (d & t & Et & Hd).
    assert (groups_text (g :: l1') +:+ "::" +:+ groups_text l2 = String (hex_digit d) (t +:+ "::" +:+ groups_text l2)) as Ea
      by (rewrite Et; reflexivity).
    rewrite Ea, parse_groups_plain, <- Ea by done.
    rewrite groups_read_ellipsis; [|done|by constructor|lia]. rewrite app_nil_l.
    destruct (decide (l2 = [])) as [->|Hn].
    + change (String.eqb (groups_text []) EmptyString) with true. cbv iota. cbn [mbind option_bind].
      pose proof (expand_around (g :: l1') [] l) as Hx. rewrite (app_nil_r (g :: l1')) in Hx.
      apply Hx; [lia|]. rewrite E1. cbn [List.length] in *. lia.
    + rewrite Hne by done. rewrite Hread by (done || lia). cbn [mbind option_bind].
      apply expand_around; lia.
Qed.

(** What an address is written with. *)
Definition addr_char (c : ascii) : bool :=
  match hex_digit_val c with Some _ => true | None => Ascii.eqb c "." || Ascii.eqb c ":" end.

Lemma hex_digit_char d : 0 <= d < 16 -> addr_char (hex_digit d) = true.
Proof. intros Hd. unfold addr_char. by rewrite hex_digit_back. Qed.

Lemma digit_hex d : 0 <= d <= 9 -> digit d = hex_digit d.
Proof. intros Hd. unfold digit, hex_digit. by rewrite (proj2 (Z.ltb_lt _ _)) by lia. Qed.

(** Decimal text, in hexadecimal digits. *)
Lemma dec_hex a : 0 <= a <= 255 -> exists ds, dec a = sconcat (map (fun d => str1 (hex_digit d)) ds) /\
  Forall (fun d => 0 <= d < 16) ds /\ (1 <= List.length ds <= 3)%nat.
Proof.
  intros Ha. pose proof dec_octet as Hd. rewrite list.Forall_forall in Hd. rewrite Hd by (apply elem_of_seqZ; lia).
  destruct (Z.ltb_spec a 10); [exists [a]|destruct (Z.ltb_spec a 100); [exists [a / 10; a mod 10]|exists [a / 100; a / 10 mod 10; a mod 10]]];
    cbn [map sconcat String.append str1 List.length]; rewrite !digit_hex by dlia;
    (split; [done|]); (split; [repeat constructor; dlia|lia]).
Qed.

(** An octet, read as a group. *)
Lemma dec_group a rest : 0 <= a <= 255 -> group_end rest ->
  exists g n, hex_group (dec a +:+ rest) 0 0 = Some (g, S n, rest).
Proof.
  intros Ha Hr. destruct (dec_hex a Ha) as (ds & -> & Hd & Hl).
  destruct ds as [|d1 [|d2 [|d3 [|]]]]; cbn [List.length] in Hl; try lia;
    cbn [map sconcat String.append str1]; rewrite !list.Forall_cons in Hd;
    rewrite !hex_step by (lia || tauto); rewrite hex_end by done; by eexists _, _.
Qed.

Lemma mapped_read w : 0 <= w < 2 ^ 32 ->
  parse_ipv6_groups ("::ffff:" +:+ ipv4_str w) = Some [0; 0; 0; 0; 0; 65535; w / 65536; w mod 65536].
Proof.
  intros Hw. pose proof (ipv4_octets w Hw) as (Ha & _ & _ & _ & _).
  assert (exists rest, ipv4_str w = dec (w / 2 ^ 24) +:+ String "." rest) as [rest Er] by (unfold ipv4_str; by eexists).
  destruct (dec_some _ Ha) as (d & t & Ed & Hd).
  destruct (dec_group _ (String "." rest) Ha) as (g & n & Eg); [done|]. rewrite <- Er in Eg.
  assert (v6_groups 7 (ipv4_str w) [65535] (Some 0%nat) = Some ([65535; w / 65536; w mod 65536], Some 0%nat)) as E7.
  { cbn [v6_groups]. rewrite Eg. cbn [mbind option_bind Nat.eqb]. cbv iota. change (Ascii.eqb "." ".") with true.
    cbn [List.length Nat.ltb Nat.leb orb negb]. by rewrite parse_ipv4_str. }
  assert (ipv4_str w = String (hex_digit d) (t +:+ String "." rest)) as Eh by (by rewrite Er, Ed, digit_hex).
  change (parse_ipv6_groups ("::ffff:" +:+ ipv4_str w))
    with ('(gs, ell) ← v6_groups 8 ("ffff:" +:+ ipv4_str w) [] (Some 0%nat); expand gs ell).
  rewrite (group_step _ 65535 3 d (t +:+ String "." rest)) by (lia || by rewrite <- Eh).
  by rewrite <- Eh, app_nil_l, E7.
Qed.

(** *** The texts have no percent sign and no slash *)

Lemma hex16_chars g : sall addr_char (hex16 g) = true.
Proof.
  unfold hex16. assert (forall i, addr_char (hex_digit (g / 16 ^ i mod 16)) = true) as Hd by (intros i; apply hex_digit_char; dlia).
  destruct (0xfff <? g), (0xff <? g), (0xf <? g); cbn [String.append str1 sall]; rewrite !Hd; done.
Qed.

Lemma groups_text_chars l : sall addr_char (groups_text l) = true.
Proof.
  induction l as [|g [|g' l] IH]; [done| |].
  - unfold groups_text. cbn [map join]. apply hex16_chars.
  - rewrite groups_text_cons, !sall_app, hex16_chars, IH. done.
Qed.

Lemma dec_chars a : 0 <= a <= 255 -> sall addr_char (dec a) = true.
Proof.
  intros Ha. destruct (dec_hex a Ha) as (ds & -> & Hd & _). induction Hd as [|d ds Hd _ IH]; [done|].
  cbn [map sconcat str1 String.append sall]. by rewrite hex_digit_char, IH.
Qed.

Lemma ipv4_chars v : 0 <= v < 2 ^ 32 -> sall addr_char (ipv4_str v) = true.
Proof.
  intros Hv. pose proof (ipv4_octets v Hv) as (Ha & Hb & Hc & Hd & _). unfold ipv4_str.
  rewrite !sall_app, !dec_chars by done. done.
Qed.

(** The text of an address without a zone, one way or the other. *)
Inductive printed : addr -> string -> Prop :=
| printed_v4 v : 0 <= v < 2 ^ 32 -> printed (V4 v) (ipv4_str v)
| printed_mapped v : v / 2 ^ 32 = 0xffff -> printed (V6 v EmptyString) ("::ffff:" +:+ ipv4_str (v mod 2 ^ 32))
| printed_plain v : 0 <= v < 2 ^ 128 -> printed (V6 v EmptyString) (groups_text (groups_from v 0 8))
| printed_short v s l : 0 <= v < 2 ^ 128 -> (2 <= l)%nat -> (s + l <= 8)%nat -> groups_from v s l = replicate l 0 ->
    printed (V6 v EmptyString) (groups_text (groups_from v 0 s) +:+ "::" +:+ groups_text (groups_from v (s + l) (8 - s - l))).

Lemma addr_printed a : addr_wf a -> has_zone a = false -> printed a (addr_str a).
Proof.
  destruct a as [v|v z]; cbn [addr_wf has_zone]; [by constructor|].
  intros Hv Hz. apply negb_false_iff, String.eqb_eq in Hz as ->. cbn [addr_str zone_str String.eqb].
  rewrite app_nil_str. destruct (Z.eqb_spec (v / 2 ^ 32) 0xffff) as [E|_]; [by constructor|].
  pose proof (longest_zeros_spec v) as Hz. destruct (longest_zeros v) as [s l]. cbn [fst snd] in Hz.
  destruct Hz as [[-> ->]|(Hl & Hs & Hz)]; [rewrite ipv6_plain|rewrite ipv6_ellipsis by done]; by constructor.
Qed.

Lemma printed_chars a text : printed a text -> sall addr_char text = true.
Proof.
  destruct 1; rewrite ?sall_app, ?groups_text_chars; try done.
  - by apply ipv4_chars.
  - rewrite ipv4_chars; [done|]. apply Z.mod_pos_bound. lia.
Qed.

Lemma kind_after s t : sall (fun c => match hex_digit_val c with Some _ => true | None => false end) s = true ->
  addr_kind (s +:+ t) = addr_kind t.
Proof.
  induction s as [|c s IH]; [done|]. cbn [sall String.append addr_kind]. intros [Hc Hs]%andb_prop.
  destruct (Ascii.eqb_spec c "."); [by subst|]. destruct (Ascii.eqb_spec c ":"); [by subst|].
  destruct (Ascii.eqb_spec c "%"); [by subst|]. by apply IH.
Qed.

Lemma hex16_hex g : sall (fun c => match hex_digit_val c with Some _ => true | None => false end) (hex16 g) = true.
Proof.
  unfold hex16. assert (forall i, hex_digit_val (hex_digit (g / 16 ^ i mod 16)) = Some (g / 16 ^ i mod 16)) as Hd
    by (intros i; apply hex_digit_back; dlia).
  destruct (0xfff <? g), (0xff <? g), (0xf <? g); cbn [String.append str1 sall]; rewrite !Hd; done.
Qed.

Lemma kind_groups g l t : addr_kind (groups_text (g :: l) +:+ String ":" t) = Some ":"%char.
Proof.
  destruct l as [|g' l]; [unfold groups_text; cbn [map join]|rewrite groups_text_cons, !app_assoc_str];
    by rewrite kind_after by apply hex16_hex.
Qed.

Lemma printed_kind a text : printed a text ->
  addr_kind text = Some (match a with V4 _ => "."%char | V6 _ _ => ":"%char end).
Proof.
  destruct 1 as [v Hv|v E|v Hv|v s l Hv Hl Hs Hz].
  - pose proof (ipv4_octets v Hv) as (Ha & _). unfold ipv4_str.
    destruct (dec_hex _ Ha) as (ds & -> & Hd & _). rewrite kind_after; [done|].
    induction Hd as [|d ds Hd _ IH]; [done|]. cbn [map sconcat str1 String.append sall]. by rewrite hex_digit_back, IH.
  - done.
  - rewrite (groups_from_cons v 0 7), (groups_from_cons v 1 6), groups_text_cons.
    by rewrite kind_after by apply hex16_hex.
  - destruct s as [|s]; [done|]. rewrite groups_from_cons. apply kind_groups.
Qed.

Lemma no_zone s : sall addr_char s = true -> split_zone s = (s, None).
Proof.
  induction s as [|c s IH]; [done|]. cbn [sall split_zone]. intros [Hc Hs]%andb_prop.
  destruct (Ascii.eqb_spec c "%"); [by subst|]. by rewrite IH.
Qed.

(** An address reads back as it was printed. *)
Theorem parse_addr_str a : addr_wf a -> has_zone a = false -> parse_addr (addr_str a) = Some a.
Proof.
  intros Hw Hz. pose proof (addr_printed a Hw Hz) as Hp. revert Hp. generalize (addr_str a) as text. intros text Hp.
  unfold parse_addr. rewrite (printed_kind _ _ Hp). cbn [mbind option_bind].
  pose proof (no_zone _ (printed_chars _ _ Hp)) as Hnz.
  destruct Hp as [v Hv|v E|v Hv|v s l Hv Hl Hs Hzs]; [change (Ascii.eqb "." ".") with true; cbv iota; by rewrite parse_ipv4_str|..];
    change (Ascii.eqb ":" ".") with false; change (Ascii.eqb ":" ":") with true; cbv iota; unfold parse_ipv6; rewrite Hnz.
  - rewrite mapped_read by (apply Z.mod_pos_bound; lia). cbn [mbind option_bind default]. do 2 f_equal.
    unfold groups_val. cbn [foldl]. change (2 ^ 32) with 4294967296 in *. dlia.
  - assert (parse_ipv6_groups (groups_text (groups_from v 0 8)) = Some (groups_from v 0 8)) as ->.
    { rewrite (groups_from_cons v 0 7) at 1. destruct (groups_text_head (v6_group v 0) (groups_from v 1 7)) as (d & t & Et & Hd).
      { apply (list.Forall_cons_1 group16 _ (groups_from v 1 7)), (groups_from_16 v 0 8). }
      rewrite Et, parse_groups_plain, <- Et, <- groups_from_cons by done.
      rewrite groups_read by (done || apply groups_from_16). done. }
    cbn [mbind option_bind default]. by rewrite groups_value.
  - rewrite ellipsis_read by done. cbn [mbind option_bind default]. by rewrite groups_value.
Qed.

(** ** Prefixes *)

Lemma bits_text : Forall (fun b => parse_int (itoa b) = Some b /\ no_char "/" (itoa b) = true /\
    ((1 <? slen (itoa b)) && negb (match itoa b with
                                   | String c _ => is_digit c && negb (Ascii.eqb c "0")
                                   | EmptyString => true end)) = false) (seqZ 0 129).
Proof. apply (bool_decide_unpack _). vm_compute. exact I. Qed.

(** A prefix reads back as it was printed. *)
Theorem parse_prefix_str p : prefix_wf p -> parse_prefix (prefix_str p) = Some p.
Proof.
  intros (Hw & Hz & Hb). destruct p as [a b]. cbn [p_addr p_bits] in *.
  assert (In b (seqZ 0 129)) as Hin by (apply list_elem_of_In, elem_of_seqZ; destruct a; cbn [bit_len] in Hb; lia).
  pose proof bits_text as Ht. rewrite List.Forall_forall in Ht. destruct (Ht b Hin) as (E1 & E2 & E3).
  unfold parse_prefix, prefix_str, split_slash. cbn [p_addr p_bits].
  assert (no_char "/" (addr_str a) = true) as Hn.
  { unfold no_char. eapply sall_impl; [|by apply (printed_chars a), addr_printed].
    intros c Hc. apply negb_true_iff, Ascii.eqb_neq. by intros <-. }
  cbn [String.append]. rewrite split_on_app, split_on_none by done. cbn [rev app join mbind option_bind].
  rewrite parse_addr_str by done. cbn [mbind option_bind]. rewrite Hz, E3, E1. cbn [mbind option_bind].
  rewrite (proj2 (Z.ltb_ge b 0)), (proj2 (Z.ltb_ge (bit_len a) b)) by lia. cbn [orb]. unfold prefix_from.
  destruct a as [v|v z]; [done|]. cbn [has_zone] in Hz. by apply negb_false_iff, String.eqb_eq in Hz as ->.
Qed.
