(* ===== verification/GoStruct.v ===== *)
(** * Decoding JSON into Go structs

    The part of [json.Unmarshal] and [json.Decoder.Decode] that fills structs of strings,
    booleans, slices and string maps.  A key selects a field by its exact name or, failing that,
    ignoring case; unknown keys are skipped; [null] leaves a field as it is; a value of the wrong
    type makes the call fail.  When several keys of an object select the same field the last in
    the parsed object counts; that Go keeps the earlier value when the later one is [null], merges
    the members of two maps, and refuses an earlier value of the wrong type, is left out. *)

From S2P Require Import Prelude Utf8 GoText GoJson.

(** [json.Unmarshal]: one value and nothing after it. *)
Definition unmarshal (raw : string) : option gval :=
  '(v, rest) ← parse_value (S (String.length raw)) max_depth (skip_ws raw);
  if String.eqb (skip_ws rest) EmptyString then Some v else None.

(** [foldName], for comparison with a name of ASCII letters: upper case, and the two other
    letters that fold to ASCII, the long s and the Kelvin sign. *)
Definition fold_rune (r : Z) : Z :=
  if (97 <=? r) && (r <=? 122) then r - 32
  else if r =? 0x17F then 83
  else if r =? 0x212A then 75
  else r.

Definition fold_name (s : string) : string := map_runes fold_rune s.

Definition selects (name key : string) : bool :=
  String.eqb key name || String.eqb (fold_name key) (fold_name name).

(** The value of the field called [name], when the object gives one. *)
Fixpoint field (name : string) (m : gobj) : option gval :=
  match m with
  | [] => None
  | (k, v) :: m =>
      match field name m with
      | Some w => Some w
      | None => if selects name k then Some v else None
      end
  end.

Section Fields.
Context {A : Type}.

(** A struct field: its decoder, and its zero value when it is missing or [null]. *)
Definition get (dec : gval -> option A) (zero : A) (name : string) (m : gobj) : option A :=
  match field name m with
  | None | Some VNil => Some zero
  | Some v => dec v
  end.

(** A value of struct type: an object, or [null]. *)
Definition as_struct (dec : gobj -> option A) (v : gval) : option A :=
  match v with VObject m => dec m | VNil => dec [] | _ => None end.

Definition as_slice (dec : gval -> option A) (v : gval) : option (list A) :=
  match v with VArray l => mapM dec l | _ => None end.
End Fields.

Definition as_string (v : gval) : option string := match v with VString s => Some s | _ => None end.
Definition as_bool (v : gval) : option bool := match v with VBool b => Some b | _ => None end.

(** A [map[string]string]; a [null] value gives the empty string. *)
Definition as_string_map (v : gval) : option (list (string * string)) :=
  match v with
  | VObject m =>
      mapM (fun p : string * gval =>
              match p.2 with
              | VString s => Some (p.1, s)
              | VNil => Some (p.1, EmptyString)
              | _ => None
              end) m
  | _ => None
  end.

Definition get_string := get as_string EmptyString.
Definition get_bool := get as_bool false.

(** ** Limited bodies and untyped values *)

Definition closed_value (v : gval) : bool :=
  match v with VObject _ | VArray _ => true | _ => false end.

(** A [json.Decoder] over an [http.MaxBytesReader]: of a longer body only a value that ends
    within the limit is seen. *)
Definition decode_upto (limit : Z) (body : string) : option gval :=
  if slen body <=? limit then decode_json body
  else
    let head := stake (Z.to_nat limit) body in
    '(v, rest) ← parse_value (S (String.length head)) max_depth (skip_ws head);
    if closed_value v || negb (String.eqb rest EmptyString) then Some v else None.

(** A number literal as a [float64]: its digits and its decimal exponent, rounded once. *)
Definition literal_parts (l : string) : bool * Z * Z :=
  let '(neg, s) := match l with
                   | String c s => if Ascii.eqb c "-" then (true, s) else (false, l)
                   | EmptyString => (false, l)
                   end in
  let '(whole, s) := span_digits s in
  let '(frac, s) := match s with
                    | String c t => if Ascii.eqb c "." then span_digits t else (EmptyString, s)
                    | EmptyString => (EmptyString, s)
                    end in
  let exp := match s with
             | String _ t => default 0 (parse_int t)
             | EmptyString => 0
             end in
  (neg, default 0 (parse_digits 0 (whole +:+ frac)), exp - slen frac).

Definition float_of_literal (l : string) : option spec_float :=
  let '(neg, m, e) := literal_parts l in
  match m with
  | Zpos p =>
      let f := if 0 <=? e then binary_normalize 53 1024 (m * 10 ^ e) 0 false
               else float_div (S754_finite false p 0)
                      (S754_finite false (Z.to_pos (10 ^ (- e))) 0) in
      match f with
      | S754_finite _ a b => Some (S754_finite neg a b)
      | S754_zero _ => Some (S754_zero neg)
      | _ => None
      end
  | _ => Some (S754_zero neg)
  end.

(** Into [any] without [UseNumber]: numbers become floats, and one out of range is an error. *)
Fixpoint to_floats (v : gval) : option gval :=
  match v with
  | VNumber l => VFloat <$> float_of_literal l
  | VArray l => VArray <$> mapM to_floats l
  | VObject m => VObject <$> mapM (fun p : string * gval => w ← to_floats p.2; Some (p.1, w)) m
  | _ => Some v
  end.

Definition as_any_map (v : gval) : option gobj :=
  match v with
  | VObject m => mapM (fun p : string * gval => w ← to_floats p.2; Some (p.1, w)) m
  | _ => None
  end.

(** ** Writing structs *)

(** A struct: its fields in the order they are declared. *)
Definition enc_struct (fields : list (string * string)) : string :=
  "{" +:+ join "," (map (fun p => json_quote true p.1 +:+ ":" +:+ p.2) fields) +:+ "}".

Definition omitempty (name value : string) : list (string * string) :=
  if String.eqb value EmptyString then [] else [(name, json_quote true value)].

(** [json.NewEncoder(w).Encode] *)
Definition json_line (v : gval) : string :=
  match marshal v with Some s => s +:+ byte_str 10 | None => EmptyString end.

Lemma field_elem name m v : field name m = Some v -> exists k, (k, v) ∈ m /\ selects name k = true.
Proof.
  induction m as [|[k w] m IH]; cbn [field]; [done|]. destruct (field name m) as [u|].
  - intros [= ->]. destruct IH as (k' & Hin & Hs); [done|]. exists k'. split; [by right|done].
  - destruct (selects name k) eqn:E; [|done]. intros [= ->]. exists k. split; [by left|done].
Qed.

Definition encodes_value (p : string * gval) : Prop := is_Some (encode true p.2).

Lemma encode_members m : Forall encodes_value m -> is_Some (encode true (VObject m)).
Proof.
  intros Hm. change (encode true (VObject m)) with
    (es ← mapM (fun p : string * gval => e ← encode true p.2; Some (p.1, e)) m; Some (enc_object true es)).
  assert (is_Some (mapM (fun p : string * gval => e ← encode true p.2; Some (p.1, e)) m)) as [es ->];
    [|by eexists].
  apply mapM_is_Some_2. eapply List.Forall_impl; [|exact Hm]. intros [k v] [e He].
  exists (k, e). cbn [snd fst] in *. change ((e ← encode true v; Some (k, e)) = Some (k, e)).
  by rewrite He.
Qed.
