(* ===== verification/RateLimit.v ===== *)
(** * Rate limiting

    [engine/internal/ratelimit/ratelimit.go] and [engine/internal/rules/ratelimit.go]: the
    sliding window over a Redis sorted set per client, and the rule that wraps it.  Redis is
    the interface [Redis]; the script is modelled command by command. *)

From S2P Require Import Prelude Utf8 GoText GoTime GoJson Model.

#[local] Set Warnings "-clear-no-such-hyp".

(** ** Redis *)

(** The commands the script uses, on a store [R]. *)
Class Redis (R : Type) := {
  ZREMRANGEBYSCORE : R -> string -> Z -> Z -> R;
  ZCARD : R -> string -> Z;
  ZADD : R -> string -> Z -> string -> R;
  PEXPIRE : R -> string -> Z -> R;
  zset : R -> string -> gmap string Z
}.

(** What the commands do to the sorted set of a key, as Redis documents them: scores by member,
    a range with both ends included, one score per member, and a time to live that does not
    change the set while it lasts; one that is not positive deletes the key at once. *)
Class RedisLaws (R : Type) `{Redis R} := {
  zset_zrem r k k' lo hi :
    zset (ZREMRANGEBYSCORE r k lo hi) k'
    = if String.eqb k k' then filter (fun p => ~ (lo <= p.2 <= hi)) (zset r k') else zset r k';
  zset_zcard r k : ZCARD r k = Z.of_nat (size (zset r k));
  zset_zadd r k k' s m :
    zset (ZADD r k s m) k' = if String.eqb k k' then <[m := s]> (zset r k') else zset r k';
  zset_pexpire r k k' ms : 0 < ms -> zset (PEXPIRE r k ms) k' = zset r k';
  zset_pexpire_now r k k' ms : ms <= 0 ->
    zset (PEXPIRE r k ms) k' = if String.eqb k k' then ∅ else zset r k'
}.

(** ** The limiter *)

Record Limiter := MkLimiter { l_prefix : string; l_limit : Z; l_window : Z }.

Definition New (limit window : Z) : Limiter := MkLimiter "openshield:rl:" limit window.

Record Result := MkResult {
  Limited : bool; rl_Count : Z; rl_Limit : Z; RetryAfter : Z
}.

(** How a round trip ends: answered, or lost before or after the script ran. *)
Inductive reply := Answered | LostBefore (msg : string) | LostAfter (msg : string).

Definition milliseconds (d : Z) : Z := Z.quot d millisecond.

Section Limiter.
Context {R : Type} `{Redis R}.

(** The Lua script. *)
Definition slidingWindow (r : R) (key : string) (now_ms window_ms limit : Z) (member : string)
  : R * (Z * Z) :=
  let r := ZREMRANGEBYSCORE r key 0 (now_ms - window_ms) in
  let count := ZCARD r key in
  if limit <=? count then
    let r := PEXPIRE r key window_ms in
    (r, (1, count))
  else
    let r := ZADD r key now_ms member in
    let r := PEXPIRE r key window_ms in
    (r, (0, count + 1)).

(** [Allow], at the time the limiter's clock gives. *)
Definition Allow (l : Limiter) (r : R) (now : Z) (key member : string) (how : reply)
  : R * result Result :=
  let nowMS := unix_milli now in
  let windowMS := milliseconds (l_window l) in
  let '(r', (limited, count)) :=
    slidingWindow r (l_prefix l +:+ key) nowMS windowMS (l_limit l) member in
  match how with
  | LostBefore m => (r, Err ("ratelimit: evaluate " +:+ key +:+ ": " +:+ m))
  | LostAfter m => (r', Err ("ratelimit: evaluate " +:+ key +:+ ": " +:+ m))
  | Answered => (r', Ok (MkResult (limited =? 1) count (l_limit l) (l_window l)))
  end.

(** ** The rule *)

Record RateLimitRule := MkRateLimit { limiter : Limiter; storeErrors : Z }.

Definition NewRateLimit (l : Limiter) : RateLimitRule := MkRateLimit l 0.

Definition rl_Name : string := "ratelimit".
Definition rl_BlockStatus : Z := 429.

(** The member of the sorted set a request counts as. *)
Definition member_of (req : RequestContext) : string :=
  if String.eqb (RequestID req) EmptyString
  then IP req +:+ "-" +:+ itoa (wrap64 (ReceivedAt req))
  else RequestID req.

Definition rl_Evaluate (rule : RateLimitRule) (r : R) (now : Z) (how : reply)
    (req : RequestContext) : RateLimitRule * R * (Verdict * string) :=
  let '(r, res) := Allow (limiter rule) r now (IP req) (member_of req) how in
  match res with
  | Err _ => (MkRateLimit (limiter rule) (storeErrors rule + 1), r, (Model.Allow, EmptyString))
  | Ok result =>
      if Limited result then
        (rule, r, (Block, "rate limit exceeded: more than " +:+ itoa (rl_Limit result) +:+
           " requests from " +:+ IP req +:+ " within " +:+ duration_str (l_window (limiter rule))))
      else (rule, r, (Model.Allow, EmptyString))
  end.

(** ** A run of the limiter

    Calls in the order the script serialises them, oldest first, with what each answered.
    Between calls time passes on the server: a key may expire, one window after the last call
    that touched it, when everything in its set has left the window. *)

Record call := Call {
  c_now : Z; c_key : string; c_member : string; c_how : reply; c_result : result Result
}.

Definition elapse (l : Limiter) (now : Z) (r r' : R) : Prop :=
  forall k, zset r' k = zset r k \/
    (zset r' k = ∅ /\ forall m s, zset r k !! m = Some s ->
       s <= unix_milli now - milliseconds (l_window l)).

Inductive rl_run (l : Limiter) : R -> list call -> R -> Prop :=
| run_start r : rl_run l r [] r
| run_call r0 h r r' r'' now key member how res :
    rl_run l r0 h r -> elapse l now r r' ->
    Allow l r' now key member how = (r'', res) ->
    rl_run l r0 (h ++ [Call now key member how res]) r''.

(** The calls that were answered as allowed, and those that may have spent a unit of the budget:
    the same, and the ones whose reply was lost after the script ran.  A call without an answer is
    let through by the rule but is not counted here. *)
Definition passed (c : call) : bool :=
  match c_result c with Ok res => negb (Limited res) | Err _ => false end.
Definition spent (c : call) : bool :=
  match c_how c with Answered => passed c | LostBefore _ => false | LostAfter _ => true end.

(** In the window of length [w] that ends at [t], for a key. *)
Definition in_win (key : string) (t w : Z) (c : call) : bool :=
  String.eqb (c_key c) key && (t - w <? unix_milli (c_now c)) && (unix_milli (c_now c) <=? t).

(** The clock does not go back, and no two calls on a key use the same member. *)
Definition well_timed (h : list call) : Prop :=
  StronglySorted (fun a b => unix_milli (c_now a) <= unix_milli (c_now b)) h /\
  NoDup (map (fun c => (c_key c, c_member c)) h) /\
  Forall (fun c => 0 <= unix_milli (c_now c)) h.
End Limiter.

(** ** Invariants of a run *)

Section Runs.
Context {R : Type} `{RedisLaws R} (l : Limiter) (Hwindow : 0 < milliseconds (l_window l)).

#[local] Abbreviation nm c := (unix_milli (c_now c)).
#[local] Abbreviation w := (milliseconds (l_window l)).
#[local] Abbreviation skey k := (l_prefix l +:+ k).

(** Every call that was let through is still counted, or has left the window of some later call. *)
Definition counted (h : list call) (r : R) : Prop :=
  forall c, c ∈ h -> passed c = true ->
    zset r (skey (c_key c)) !! c_member c = Some (nm c) \/
    exists c', c' ∈ h /\ nm c <= nm c' - w.

(** Everything that is counted is a call that spent a unit of the budget. *)
Definition sourced (h : list call) (r : R) : Prop :=
  forall k m s, zset r (skey k) !! m = Some s ->
    exists c, c ∈ h /\ spent c = true /\ c_key c = k /\ c_member c = m /\ nm c = s.

Lemma skey_inj a b : skey a = skey b -> a = b.
Proof.
  intros E. assert (forall p s t, p +:+ s = p +:+ t -> s = t) as Hi; [|by eapply Hi].
  intros p s t. induction p as [|c p IH]; cbn; [done|]. intros [= Heq]. auto.
Qed.

(** The set of a key after the script has dropped what left the window. *)
Definition trimmed (now : Z) (s : gmap string Z) : gmap string Z :=
  filter (fun p : string * Z => ~ (0 <= p.2 <= unix_milli now - w)) s.

Lemma trimmed_lookup now s m t : trimmed now s !! m = Some t <->
  s !! m = Some t /\ ~ (0 <= t <= unix_milli now - w).
Proof. unfold trimmed. by rewrite map_lookup_filter_Some. Qed.

(** What one call does to the sorted sets, and what it answers. *)
Lemma Allow_effect r now key member how r' res :
  Allow l r now key member how = (r', res) ->
  let t := trimmed now (zset r (skey key)) in
  let lim := l_limit l <=? Z.of_nat (size t) in
  (forall m, how = LostBefore m -> r' = r /\ is_Ok res = false) /\
  ((forall m, how <> LostBefore m) ->
    (forall k', zset r' k' = if String.eqb (skey key) k'
       then (if lim then t else <[member := unix_milli now]> t) else zset r k') /\
    (how = Answered -> res = Ok (MkResult lim
       (if lim then Z.of_nat (size t) else Z.of_nat (size t) + 1) (l_limit l) (l_window l))) /\
    (how <> Answered -> is_Ok res = false)).
Proof.
  cbv zeta. unfold Allow, slidingWindow. rewrite zset_zcard, zset_zrem, String.eqb_refl.
  fold (trimmed now (zset r (skey key))). set (t := trimmed now (zset r (skey key))).
  destruct (l_limit l <=? Z.of_nat (size t)) eqn:El; intros E;
    (split; [intros m ->; by injection E as <- <-|]); intros Hne;
    (split; [|split; [intros ->; by injection E as <- <-|
                     intros Hna; destruct how; [done|by injection E as <- <-..]]]);
    intros k'; destruct how; try (exfalso; by eapply Hne); injection E as <- <-;
    rewrite ?zset_pexpire, ?zset_zadd, ?zset_zrem by done; by destruct (String.eqb_spec (skey key) k') as [<-|].
Qed.

Lemma well_timed_snoc h c : well_timed (h ++ [c]) ->
  well_timed h /\ (forall d, d ∈ h -> nm d <= nm c) /\ 0 <= nm c /\
  (forall d, d ∈ h -> c_key d = c_key c -> c_member d <> c_member c).
Proof.
  intros (Hs & Hn & Hp). rewrite map_app in Hn. apply list.NoDup_app in Hn as (Hn & Hd & _).
  apply list.Forall_app in Hp as [Hp Hc]. apply list.Forall_cons in Hc as [Hc _].
  apply StronglySorted_app in Hs as (Hx & Hs & _).
  split; [done|]. split; [|split; [done|]].
  - intros d Hin. apply Hx; [done|by apply list_elem_of_singleton].
  - intros d Hin Ek Em. apply (Hd (c_key d, c_member d)).
    + by apply (list_elem_of_fmap_2 (fun c => (c_key c, c_member c))).
    + cbn. rewrite Ek, Em. left.
Qed.

(** A passed call that is inside the window is in the trimmed set of its key. *)
Lemma counted_trimmed h r r' now c :
  counted h r -> elapse l now r r' -> c ∈ h -> passed c = true ->
  (forall d, d ∈ h -> nm d <= unix_milli now) -> unix_milli now - w < nm c ->
  trimmed now (zset r' (skey (c_key c))) !! c_member c = Some (nm c).
Proof.
  intros Hc He Hin Hp Hle Hw. destruct (Hc c Hin Hp) as [Hz|(c' & Hin' & Hout)].
  2: { specialize (Hle c' Hin'). lia. }
  apply trimmed_lookup. split; [|lia].
  destruct (He (skey (c_key c))) as [->|[_ Hex]]; [done|]. specialize (Hex _ _ Hz). lia.
Qed.

Lemma counted_step h r r' r'' now key member how res :
  let c := Call now key member how res in
  well_timed (h ++ [c]) -> counted h r -> elapse l now r r' ->
  Allow l r' now key member how = (r'', res) -> counted (h ++ [c]) r''.
Proof.
  cbv zeta. set (c := Call now key member how res). intros Hwt Hc He Ha.
  apply well_timed_snoc in Hwt as (_ & Hle & _ & Huniq).
  apply Allow_effect in Ha as [Hlost Hran].
  intros d [Hin|Hd]%elem_of_app Hp.
  - destruct (Z_lt_ge_dec (unix_milli now - w) (nm d)) as [Hw|Hw].
    2: { right. exists c. split; [apply elem_of_app; right; left|]. cbn. lia. }
    left. pose proof (counted_trimmed h r r' now d Hc He Hin Hp Hle Hw) as Ht.
    pose proof Ht as Ht'. apply trimmed_lookup in Ht' as [Hz _].
    destruct how as [|m|m]; [|by destruct (Hlost m eq_refl) as [-> _]|];
      (destruct Hran as (Hz' & _ & _); [done|]; rewrite Hz';
       destruct (String.eqb_spec (skey key) (skey (c_key d))) as [E|E]; [|done];
       apply skey_inj in E; subst key; destruct (_ <=? _); [done|];
       rewrite lookup_insert_ne; [done|]; intros E; by apply (Huniq d Hin)).
  - apply list_elem_of_singleton in Hd as ->. left. cbn in *.
    destruct how as [|m|m].
    + destruct Hran as (Hz' & Hres & _); [done|]. rewrite Hz', String.eqb_refl.
      unfold passed in Hp. cbn in Hp. rewrite Hres in Hp by done. cbn in Hp.
      destruct (_ <=? _); [done|]. by rewrite lookup_insert_eq.
    + destruct (Hlost m eq_refl) as [_ Hno]. unfold passed in Hp. cbn in Hp. by destruct res.
    + destruct Hran as (_ & _ & Hno); [done|]. unfold passed in Hp. cbn in Hp.
      specialize (Hno ltac:(done)). by destruct res.
Qed.

Lemma sourced_step h r r' r'' now key member how res :
  let c := Call now key member how res in
  sourced h r -> elapse l now r r' -> Allow l r' now key member how = (r'', res) ->
  sourced (h ++ [c]) r''.
Proof.
  cbv zeta. set (c := Call now key member how res). intros Hs He Ha.
  apply Allow_effect in Ha as [Hlost Hran].
  assert (forall k m s, zset r' (skey k) !! m = Some s ->
    exists c0, c0 ∈ h ++ [c] /\ spent c0 = true /\ c_key c0 = k /\ c_member c0 = m /\ nm c0 = s) as Hold.
  { intros k m s Hz. destruct (He (skey k)) as [E|[E _]]; rewrite E in Hz; [|done].
    destruct (Hs k m s Hz) as (c0 & Hin & Hrest). exists c0. split; [|done]. apply elem_of_app. by left. }
  intros k m s Hz. destruct how as [|x|x]; [|destruct (Hlost x eq_refl) as [-> _]; by apply Hold|];
    (destruct Hran as (Hz' & Hres & _); [done|]; rewrite Hz' in Hz;
     destruct (String.eqb_spec (skey key) (skey k)) as [E|E]; [|by apply Hold];
     apply skey_inj in E; subst k; destruct (_ <=? _) eqn:El;
     [apply trimmed_lookup in Hz as [Hz _]; by apply Hold|];
     apply lookup_insert_Some in Hz as [[<- <-]|[_ Hz]];
     [exists c; split; [apply elem_of_app; right; left|]
     |apply trimmed_lookup in Hz as [Hz _]; by apply Hold]).
  - unfold spent, passed. cbn. by rewrite Hres.
  - done.
Qed.

Lemma run_invariant r0 h r : (forall k, zset r0 k = ∅) -> rl_run l r0 h r -> well_timed h ->
  counted h r /\ sourced h r.
Proof.
  intros Hempty Hrun. induction Hrun as [r|r0 h r r' r'' now key member how res _ IH He Ha]; intros Hwt.
  - split; [intros c Hc; by apply elem_of_nil in Hc|]. intros k m s Hz. by rewrite Hempty in Hz.
  - pose proof Hwt as Hwt'. apply well_timed_snoc in Hwt' as (Hwt' & _).
    destruct (IH Hempty Hwt') as [Hc Hs]. split; [by eapply counted_step|by eapply sourced_step].
Qed.

(** Distinct members of a set are at most as many as the set. *)
Lemma members_size (ms : list string) (s : gmap string Z) :
  NoDup ms -> (forall m, m ∈ ms -> is_Some (s !! m)) -> (List.length ms <= size s)%nat.
Proof.
  intros Hn Hin. rewrite <- size_dom, <- (size_list_to_set (C := gset string) ms) by done.
  apply subseteq_size. intros m Hm. apply elem_of_list_to_set in Hm. by apply elem_of_dom, Hin.
Qed.

Definition passed_in (key : string) (t : Z) (h : list call) : list call :=
  List.filter (fun c => passed c && in_win key t w c) h.

Lemma passed_in_elem key t h c : c ∈ passed_in key t h <->
  c ∈ h /\ passed c = true /\ c_key c = key /\ t - w < nm c <= t.
Proof.
  unfold passed_in, in_win. rewrite list_elem_of_In, filter_In, <- list_elem_of_In, !andb_true_iff,
    Z.ltb_lt, Z.leb_le, String.eqb_eq. intuition.
Qed.

Lemma passed_in_members key t h : well_timed h -> NoDup (map c_member (passed_in key t h)).
Proof.
  intros (_ & Hn & _). unfold passed_in. induction h as [|c h IH]; [constructor|].
  cbn in Hn. apply list.NoDup_cons in Hn as [Hc Hn]. cbn [List.filter].
  destruct (passed c && in_win key t w c) eqn:E; [|by apply IH].
  cbn [map]. apply list.NoDup_cons. split; [|by apply IH]. intros Hin. apply Hc.
  change (map _ h) with ((fun c => (c_key c, c_member c)) <$> h).
  change (map c_member ?x) with (c_member <$> x) in Hin.
  apply list_elem_of_fmap in Hin as (d & Em & Hd). apply passed_in_elem in Hd as (Hd & _ & Ek & _).
  apply andb_prop in E as [_ E]. unfold in_win in E. apply andb_prop in E as [E _].
  apply andb_prop in E as [E%String.eqb_eq _].
  apply list_elem_of_fmap. exists d. split; [|done]. congruence.
Qed.

(** When a call is let through, fewer than the limit were let through in its window before. *)
Lemma passed_bound h r r' r'' now key member how res :
  well_timed (h ++ [Call now key member how res]) -> counted h r -> elapse l now r r' ->
  Allow l r' now key member how = (r'', res) ->
  passed (Call now key member how res) = true ->
  Z.of_nat (List.length (passed_in key (unix_milli now) h)) < l_limit l.
Proof.
  intros Hwt Hc He Ha Hp. apply well_timed_snoc in Hwt as (Hwt & Hle & _).
  apply Allow_effect in Ha as [Hlost Hran]. unfold passed in Hp. cbn in Hp.
  assert (how = Answered) as ->.
  { destruct how as [|m|m]; [done| |].
    - destruct (Hlost m eq_refl) as [_ Hno]. by destruct res.
    - destruct Hran as (_ & _ & Hno); [done|]. specialize (Hno ltac:(done)). by destruct res. }
  destruct Hran as (_ & Hres & _); [done|]. rewrite Hres in Hp by done. cbn in Hp.
  apply negb_true_iff, Z.leb_gt in Hp. eapply Z.le_lt_trans; [|exact Hp].
  apply inj_le. rewrite <- (length_map c_member). apply members_size; [by apply passed_in_members|].
  intros m Hm. change (map c_member ?x) with (c_member <$> x) in Hm.
  apply list_elem_of_fmap in Hm as (d & -> & Hd).
  apply passed_in_elem in Hd as (Hin & Hpd & Ek & Hw & _). exists (nm d). rewrite <- Ek.
  eapply counted_trimmed; try done.
Qed.

Lemma run_bound r0 h r key t : (forall k, zset r0 k = ∅) -> rl_run l r0 h r -> well_timed h ->
  Z.of_nat (List.length (passed_in key t h)) <= Z.max 0 (l_limit l).
Proof.
  intros Hempty Hrun. revert t.
  induction Hrun as [r|r0 h r r' r'' now k member how res Hrun IH He Ha]; intros t Hwt; [cbn; lia|].
  pose proof Hwt as Hwt'. apply well_timed_snoc in Hwt' as (Hwt' & Hle & _).
  set (c := Call now k member how res) in *.
  unfold passed_in. rewrite List.filter_app, length_app. cbn [List.filter].
  destruct (passed c && in_win key t w c) eqn:E; cbn [List.length];
    [|rewrite Nat.add_0_r; by apply IH].
  apply andb_prop in E as [Hp Hw]. unfold in_win in Hw. rewrite !andb_true_iff in Hw.
  destruct Hw as [[Ek%String.eqb_eq Hw1%Z.ltb_lt] Hw2%Z.leb_le]. cbn in Ek, Hw1, Hw2. subst k.
  destruct (run_invariant r0 h r Hempty Hrun Hwt') as [Hc _].
  pose proof (passed_bound h r r' r'' now key member how res Hwt Hc He Ha Hp) as Hb.
  assert (List.length (List.filter (fun c => passed c && in_win key t w c) h)
    <= List.length (passed_in key (unix_milli now) h))%nat as Hsub; [|lia].
  apply NoDup_incl_length.
  - apply NoDup_ListNoDup. apply (NoDup_fmap_1 c_member), (passed_in_members key t h Hwt').
  - intros d Hd%list_elem_of_In. apply list_elem_of_In.
    apply (passed_in_elem key t h d) in Hd as (Hin & Hpd & Ek & Hd1 & Hd2).
    apply passed_in_elem. repeat split; try done; [lia|by apply Hle].
Qed.
End Runs.

Lemma filter_nil_iff {A} (p : A -> bool) l : List.filter p l = [] <-> forall x, x ∈ l -> p x = false.
Proof.
  split.
  - intros E x Hx. destruct (p x) eqn:Ep; [|done]. exfalso.
    assert (x ∈ List.filter p l) as Hin by (apply list_elem_of_In, filter_In; by rewrite <- list_elem_of_In).
    rewrite E in Hin. by apply elem_of_nil in Hin.
  - induction l as [|x l IH]; intros Hp; [done|]. cbn. rewrite (Hp x) by left. apply IH. intros y Hy. apply Hp. by right.
Qed.

(** ** Properties *)

(** C13: The sliding window holds.  Starting from empty sets, after any run of calls whose clock
    does not go back and whose members differ, with replies lost and keys expiring in between:
    for every client and every window of the configured length, wherever it ends, at most the
    configured number of the client's calls inside it were answered as allowed.  (Calls that got no
    answer are let through by the rule, which fails open; [rate_limit_rule_exact] counts them as
    store errors.) *)
Theorem sliding_window_bound {R} `{RedisLaws R} (l : Limiter) (r0 : R) (h : list call) (r : R) key t :
  (forall k, zset r0 k = ∅) -> rl_run l r0 h r -> well_timed h ->
  Z.of_nat (List.length (List.filter
    (fun c => passed c && in_win key t (milliseconds (l_window l)) c) h)) <= Z.max 0 (l_limit l).
Proof.
  intros Hempty Hrun Hwt. destruct (Z.lt_ge_cases 0 (milliseconds (l_window l))) as [Hw|Hw]; [by eapply run_bound|].
  rewrite (proj2 (filter_nil_iff _ _)); [cbn; lia|]. intros c _. apply andb_false_iff. right. unfold in_win.
  apply andb_false_iff.
  destruct (Z.ltb_spec (t - milliseconds (l_window l)) (unix_milli (c_now c))) as [Hlt|]; [|left; apply andb_false_r].
  right. apply Z.leb_gt. lia.
Qed.

Definition spent_in (l : Limiter) (key : string) (t : Z) (h : list call) : list call :=
  List.filter (fun c => spent c && in_win key t (milliseconds (l_window l)) c) h.

(** A set all of whose members are members of a list is no larger than the list. *)
Lemma size_members (s : gmap string Z) (ms : list string) :
  (forall m v, s !! m = Some v -> m ∈ ms) -> (size s <= List.length ms)%nat.
Proof.
  intros Hin. rewrite <- size_dom.
  transitivity (size (list_to_set ms : gset string)).
  - apply subseteq_size. intros m [v Hm]%elem_of_dom. apply elem_of_list_to_set. by eapply Hin.
  - clear Hin. induction ms as [|m ms IH]; cbn; [by rewrite size_empty|].
    rewrite size_union_alt, size_singleton.
    assert (size (list_to_set ms ∖ {[m]} : gset string) <= size (list_to_set ms : gset string))%nat;
      [apply subseteq_size; set_solver|lia].
Qed.

(** A refusal is justified, and refused calls cost nothing.  When a call is answered
    "limited", the window that ends at it already holds at least the configured number of calls
    of the same client that spent a unit of its budget: calls let through, or calls whose reply
    was lost after the script had run.  A client that keeps hammering is not kept out by the calls
    that were refused. *)
Theorem limited_justified {R} `{RedisLaws R} (l : Limiter) (r0 : R) h r r' r'' now key member res :
  0 < milliseconds (l_window l) ->
  (forall k, zset r0 k = ∅) -> rl_run l r0 h r -> elapse l now r r' ->
  Allow l r' now key member Answered = (r'', Ok res) ->
  well_timed (h ++ [Call now key member Answered (Ok res)]) -> Limited res = true ->
  l_limit l <= Z.of_nat (List.length (spent_in l key (unix_milli now) h)).
Proof.
  intros Hw Hempty Hrun He Ha Hwt Hlim. apply well_timed_snoc in Hwt as (Hwt & Hle & _).
  destruct (run_invariant l Hw r0 h r Hempty Hrun Hwt) as [_ Hs].
  apply Allow_effect in Ha as [_ Hran]; [|done..]. destruct Hran as (_ & Hres & _); [done|].
  specialize (Hres eq_refl). injection Hres as ->. cbn in Hlim. apply Z.leb_le in Hlim.
  etransitivity; [exact Hlim|]. apply inj_le. rewrite <- (length_map c_member). apply size_members.
  intros m v [Hz Hin_w]%trimmed_lookup.
  destruct (He (l_prefix l +:+ key)) as [E|[E _]]; rewrite E in Hz; [|done].
  destruct (Hs key m v Hz) as (c & Hin & Hsp & Ek & Em & En).
  change (m ∈ c_member <$> spent_in l key (unix_milli now) h). apply list_elem_of_fmap.
  exists c. split; [done|]. unfold spent_in, in_win.
  rewrite list_elem_of_In, filter_In, <- list_elem_of_In, !andb_true_iff, Z.ltb_lt, Z.leb_le, String.eqb_eq.
  specialize (Hle c Hin). cbn in Hle. destruct Hwt as (_ & _ & Hpos).
  rewrite list.Forall_forall in Hpos. specialize (Hpos c Hin). repeat split; try done. lia.
Qed.

(** The rule's answer.  A request is blocked exactly when the script answered and the client's
    set, without what left the window, already held the limit; the request is then not counted.
    Otherwise, when the script ran, the set gains the request.  When the store failed the request
    is let through and the failure is counted. *)
Theorem rate_limit_rule_exact {R} `{RedisLaws R} (rule : RateLimitRule) (r : R) now how req :
  let l := limiter rule in
  let old := trimmed l now (zset r (l_prefix l +:+ IP req)) in
  let full := l_limit l <=? Z.of_nat (size old) in
  0 < milliseconds (l_window l) ->
  let '(rule', r', (v, _)) := rl_Evaluate rule r now how req in
  limiter rule' = l /\
  (v = Block <-> how = Answered /\ full = true) /\
  storeErrors rule' = storeErrors rule + match how with Answered => 0 | _ => 1 end /\
  (forall k, zset r' k =
     match how with
     | LostBefore _ => zset r k
     | _ => if String.eqb (l_prefix l +:+ IP req) k
            then if full then old else <[member_of req := unix_milli now]> old
            else zset r k
     end).
Proof.
  cbv zeta. intros Hw. unfold rl_Evaluate.
  destruct (Allow (limiter rule) r now (IP req) (member_of req) how) as [r' res] eqn:E.
  apply (Allow_effect _ Hw) in E as [Hlost Hran]. destruct how as [|m|m].
  - destruct Hran as (Hz & Hres & _); [done|]. rewrite Hres by done. cbn [Limited rl_Limit].
    destruct (_ <=? _); (split; [done|]); (split; [|split; [cbn; lia|done]]); by split; [|intros [? ?]].
  - destruct (Hlost m eq_refl) as [-> Hno]. destruct res; [done|].
    split; [done|]. split; [by split; [|intros [? ?]]|by split].
  - destruct Hran as (Hz & _ & Hno); [done|]. specialize (Hno ltac:(done)). destruct res; [done|].
    split; [done|]. split; [by split; [|intros [? ?]]|by split].
Qed.

(** ** A concrete store, and the properties on it *)

Definition map_store := gmap string (gmap string Z).

#[local] Instance map_redis : Redis map_store := {|
  zset r k := default ∅ (r !! k);
  ZREMRANGEBYSCORE r k lo hi :=
    <[k := filter (fun p : string * Z => ~ (lo <= p.2 <= hi)) (default ∅ (r !! k))]> r;
  ZCARD r k := Z.of_nat (size (default ∅ (r !! k)));
  ZADD r k s m := <[k := <[m := s]> (default ∅ (r !! k))]> r;
  PEXPIRE r k ms := if 0 <? ms then r else delete k r
|}.

#[local] Instance map_redis_laws : RedisLaws map_store.
Proof.
  split; cbn; intros.
  - destruct (String.eqb_spec k k') as [->|Hne].
    + by setoid_rewrite lookup_insert_eq.
    + by setoid_rewrite lookup_insert_ne.
  - done.
  - destruct (String.eqb_spec k k') as [->|Hne].
    + by setoid_rewrite lookup_insert_eq.
    + by setoid_rewrite lookup_insert_ne.
  - by rewrite (proj2 (Z.ltb_lt _ _)).
  - rewrite (proj2 (Z.ltb_ge _ _)) by done. destruct (String.eqb_spec k k') as [->|Hne].
    + by setoid_rewrite lookup_delete_eq.
    + by setoid_rewrite lookup_delete_ne.
Qed.

(** Two requests a second for one client, three in a minute allowed. *)
Definition sample_limiter : Limiter := New 3 60000000000.
Definition t_at (s : Z) : Z := s * second.

Definition sample_calls : list (Z * string * reply) :=
  [(t_at 0, "a", Answered); (t_at 1, "b", LostAfter "timeout"); (t_at 2, "c", LostBefore "refused");
   (t_at 3, "d", Answered); (t_at 4, "e", Answered)].

Fixpoint run_calls (l : Limiter) (r : map_store) (key : string) (cs : list (Z * string * reply))
  : list call * map_store :=
  match cs with
  | [] => ([], r)
  | (now, member, how) :: cs =>
      let '(r', res) := Allow l r now key member how in
      let '(h, r'') := run_calls l r' key cs in (Call now key member how res :: h, r'')
  end.

Definition sample_run := run_calls sample_limiter ∅ "203.0.113.7" sample_calls.

Lemma run_calls_run l r0 h0 r key cs : rl_run l r0 h0 r ->
  rl_run l r0 (h0 ++ (run_calls l r key cs).1) (run_calls l r key cs).2.
Proof.
  revert h0 r. induction cs as [|[[now member] how] cs IH]; intros h0 r Hr; cbn [run_calls].
  - cbn. by rewrite app_nil_r.
  - destruct (Allow l r now key member how) as [r' res] eqn:E.
    destruct (run_calls l r' key cs) as [h r''] eqn:E'. cbn.
    specialize (IH (h0 ++ [Call now key member how res]) r'). rewrite E', <- app_assoc in IH.
    apply IH. eapply run_call; [done| |exact E]. intros k. by left.
Qed.

Lemma sample_run_ok : rl_run sample_limiter (∅ : map_store) sample_run.1 sample_run.2.
Proof. apply (run_calls_run _ _ []). constructor. Qed.

Definition timed_check (h : list call) : bool :=
  forallb (fun c => 0 <=? unix_milli (c_now c)) h &&
  (fix go (h : list call) : bool :=
     match h with
     | [] => true
     | a :: h => forallb (fun b => unix_milli (c_now a) <=? unix_milli (c_now b)) h && go h
     end) h &&
  bool_decide (NoDup (map (fun c => (c_key c, c_member c)) h)).

Lemma timed_check_ok h : timed_check h = true -> well_timed h.
Proof.
  unfold timed_check, well_timed. rewrite !andb_true_iff, bool_decide_eq_true.
  intros ((Hp & Hs) & Hn). split; [|split; [done|]].
  - clear Hp Hn. induction h as [|a h IH]; [constructor|]. apply andb_prop in Hs as [Ha Hs].
    constructor; [by apply IH|]. apply List.Forall_forall. intros b Hb.
    apply Z.leb_le. by apply (proj1 (forallb_forall _ _) Ha).
  - apply List.Forall_forall. intros c Hc. apply Z.leb_le. by apply (proj1 (forallb_forall _ _) Hp).
Qed.

Lemma empty_store k : zset (∅ : map_store) k = ∅.
Proof. reflexivity. Qed.

Lemma sliding_window_bound_witness :
  Z.of_nat (List.length (List.filter
    (fun c => passed c && in_win "203.0.113.7" 4000 (milliseconds (l_window sample_limiter)) c)
    sample_run.1)) <= Z.max 0 (l_limit sample_limiter).
Proof.
  apply (sliding_window_bound sample_limiter (∅ : map_store) sample_run.1 sample_run.2);
    [exact empty_store|exact sample_run_ok|]. apply timed_check_ok. vm_compute. reflexivity.
Defined.

Lemma limited_justified_witness :
  l_limit sample_limiter
  <= Z.of_nat (List.length (spent_in sample_limiter "203.0.113.7" 4000 (removelast sample_run.1))).
Proof.
  refine (limited_justified sample_limiter (∅ : map_store)
    (run_calls sample_limiter ∅ "203.0.113.7" (removelast sample_calls)).1
    (run_calls sample_limiter ∅ "203.0.113.7" (removelast sample_calls)).2
    (run_calls sample_limiter ∅ "203.0.113.7" (removelast sample_calls)).2
    sample_run.2 (t_at 4) "203.0.113.7" "e" (MkResult true 3 3 60000000000) eq_refl empty_store _ _ _ _ eq_refl).
  - apply (run_calls_run _ _ []). constructor.
  - intros k. by left.
  - vm_compute. reflexivity.
  - apply timed_check_ok. vm_compute. reflexivity.
Defined.

Definition sample_request : RequestContext :=
  Request "r-1" "203.0.113.7" "GET" "/" "" [] "" false (t_at 4).

Lemma rate_limit_rule_exact_witness :
  let '(rule', _, (v, reason)) :=
    rl_Evaluate (NewRateLimit sample_limiter) sample_run.2 (t_at 4) Answered sample_request in
  limiter rule' = sample_limiter /\ v = Block /\ storeErrors rule' = 0 /\
  reason = "rate limit exceeded: more than 3 requests from 203.0.113.7 within 1m0s".
Proof.
  pose proof (rate_limit_rule_exact (NewRateLimit sample_limiter) sample_run.2 (t_at 4) Answered
    sample_request) as Hx.
  cbv zeta in Hx. specialize (Hx eq_refl). destruct (rl_Evaluate _ _ _ _ _) as [[rule' r'] [v reason]] eqn:E.
  destruct Hx as (Hl & Hv & Hs & _). split; [exact Hl|]. split.
  - apply Hv. split; [reflexivity|]. vm_compute. reflexivity.
  - split; [exact Hs|]. apply (f_equal (fun x => x.2.2)) in E. cbn [snd] in E. subst reason.
    vm_compute. reflexivity.
Defined.
