(* ===== verification/Rules.v ===== *)
(** * The rule chain

    [engine/internal/rules/rules.go]: the rule interface, the engine that evaluates the chain and
    the switches that turn rules on and off.  A rule reads and changes a world [W] (counters, the
    Redis store), which the engine only passes along. *)

From S2P Require Import Prelude Utf8 GoText GoTime GoJson Model.

Section Chain.
Context {W : Type}.

(** [Rule], and [statusRule] as an optional status. *)
Record Rule := MkRule {
  rule_Name : string;
  rule_Evaluate : W -> RequestContext -> W * (Verdict * string);
  rule_BlockStatus : option Z
}.

(** [enabled] is a Go map that is replaced as a whole and never changed in place. *)
Record Engine := MkEngine { rules : list Rule; enabled : gmap string bool }.

(** Reading a map of booleans: a missing key is [false]. *)
Definition index (m : gmap string bool) (k : string) : bool := default false (m !! k).

Definition New (chain : list Rule) : Engine :=
  MkEngine chain (foldl (fun m r => <[rule_Name r := true]> m) ∅ chain).

Definition SetEnabled (e : Engine) (on : gmap string bool) : Engine :=
  MkEngine (rules e)
    (foldl (fun next r => <[rule_Name r := index on (rule_Name r)]> next) ∅ (rules e)).

Definition Enabled (e : Engine) : gmap string bool :=
  map_fold (fun name on out => <[name := on]> out) ∅ (enabled e).

Definition Names (e : Engine) : list string :=
  foldl (fun out r => out ++ [rule_Name r]) [] (rules e).

Definition blockStatus (rule : Rule) : Z :=
  match rule_BlockStatus rule with
  | Some status => if negb (status =? 0) then status else 403
  | None => 403
  end.

(** The clock is read at the start and at the end; [Microseconds] truncates. *)
Definition millisSince (start stop : Z) : spec_float :=
  float_div (float_of_int (Z.quot (stop - start) microsecond)) (float_of_int 1000).

(** The loop of [Decide]: the rule that blocked, with its reason. *)
Fixpoint decide_loop (on : gmap string bool) (todo : list Rule) (w : W) (req : RequestContext)
  : W * option (Rule * string) :=
  match todo with
  | [] => (w, None)
  | rule :: todo =>
      if negb (index on (rule_Name rule)) then decide_loop on todo w req
      else
        let '(w, (verdict, reason)) := rule_Evaluate rule w req in
        match verdict with
        | Block => (w, Some (rule, reason))
        | Allow => decide_loop on todo w req
        end
  end.

Definition decision (found : option (Rule * string)) (start stop : Z) : Decision :=
  match found with
  | Some (rule, reason) =>
      MkDecision Block (rule_Name rule) reason (blockStatus rule) (millisSince start stop)
  | None => MkDecision Allow EmptyString EmptyString 0 (millisSince start stop)
  end.

Definition Decide (e : Engine) (w : W) (req : RequestContext) (start stop : Z) : W * Decision :=
  let '(w, found) := decide_loop (enabled e) (rules e) w req in
  (w, decision found start stop).

(** ** A decision that runs while the dashboard toggles rules

    The engine is shared; the decision takes the map once, under the lock, and then evaluates one
    rule at a time, while other goroutines may replace the map between any two of its steps. *)

Inductive thread :=
| Waiting
| Running (on : gmap string bool) (todo : list Rule)
| Finished (found : option (Rule * string)).

Inductive dstep (req : RequestContext) : Engine * W * thread -> Engine * W * thread -> Prop :=
| step_toggle e w t on : dstep req (e, w, t) (SetEnabled e on, w, t)
| step_take e w : dstep req (e, w, Waiting) (e, w, Running (enabled e) (rules e))
| step_skip e w on rule todo : index on (rule_Name rule) = false ->
    dstep req (e, w, Running on (rule :: todo)) (e, w, Running on todo)
| step_allow e w w' on rule todo reason : index on (rule_Name rule) = true ->
    rule_Evaluate rule w req = (w', (Allow, reason)) ->
    dstep req (e, w, Running on (rule :: todo)) (e, w', Running on todo)
| step_block e w w' on rule todo reason : index on (rule_Name rule) = true ->
    rule_Evaluate rule w req = (w', (Block, reason)) ->
    dstep req (e, w, Running on (rule :: todo)) (e, w', Finished (Some (rule, reason)))
| step_end e w on : dstep req (e, w, Running on []) (e, w, Finished None).

(** ** What the chain promises *)

(** The enabled rules among [l], run in order from [w], all allow the request and leave [w']. *)
Inductive passes (on : gmap string bool) (req : RequestContext) : W -> list Rule -> W -> Prop :=
| passes_nil w : passes on req w [] w
| passes_off w rule l w' : index on (rule_Name rule) = false ->
    passes on req w l w' -> passes on req w (rule :: l) w'
| passes_on w w1 rule l w' reason : index on (rule_Name rule) = true ->
    rule_Evaluate rule w req = (w1, (Allow, reason)) ->
    passes on req w1 l w' -> passes on req w (rule :: l) w'.

(** ** Lemmas *)

Lemma decide_loop_spec on l w req :
  match decide_loop on l w req with
  | (w', None) => passes on req w l w'
  | (w', Some (rule, reason)) => exists pre post w1,
      l = pre ++ rule :: post /\ passes on req w pre w1 /\
      index on (rule_Name rule) = true /\ rule_Evaluate rule w1 req = (w', (Block, reason))
  end.
Proof.
  revert w. induction l as [|rule l IH]; intros w; cbn [decide_loop]; [constructor|].
  destruct (index on (rule_Name rule)) eqn:E; cbn [negb].
  - destruct (rule_Evaluate rule w req) as [w1 [[] reason]] eqn:Ev.
    + specialize (IH w1). destruct (decide_loop on l w1 req) as [w2 [[r s]|]].
      * destruct IH as (pre & post & w3 & -> & Hp & Hrest).
        exists (rule :: pre), post, w3. split; [done|]. split; [by econstructor|done].
      * by econstructor.
    + exists [], l, w. split; [done|]. split; [constructor|done].
  - specialize (IH w). destruct (decide_loop on l w req) as [w2 [[r s]|]].
    + destruct IH as (pre & post & w3 & -> & Hp & Hrest).
      exists (rule :: pre), post, w3. split; [done|]. split; [by apply passes_off|done].
    + by apply passes_off.
Qed.

Lemma foldl_insert_lookup (f : Rule -> bool) l (m : gmap string bool) k :
  (forall a b, rule_Name a = rule_Name b -> f a = f b) ->
  foldl (fun m r => <[rule_Name r := f r]> m) m l !! k
  = match List.find (fun r => String.eqb (rule_Name r) k) l with
    | Some r => Some (f r)
    | None => m !! k
    end.
Proof.
  intros Hf. revert m. induction l as [|r l IH]; intros m; cbn [foldl List.find]; [done|].
  rewrite IH. destruct (String.eqb_spec (rule_Name r) k) as [<-|Hne].
  - destruct (List.find _ l) as [r'|] eqn:E; [|by rewrite lookup_insert_eq].
    apply List.find_some in E as [_ E%String.eqb_eq]. f_equal. by apply Hf.
  - destruct (List.find _ l); [done|]. by rewrite lookup_insert_ne.
Qed.

Lemma New_lookup chain rule : rule ∈ chain -> index (enabled (New chain)) (rule_Name rule) = true.
Proof.
  intros Hin. unfold index, New. cbn [enabled].
  rewrite (foldl_insert_lookup (fun _ => true)) by done.
  destruct (List.find _ chain) eqn:E; [done|]. exfalso.
  apply list_elem_of_In in Hin. apply (List.find_none _ _ E) in Hin. by rewrite String.eqb_refl in Hin.
Qed.

Lemma SetEnabled_lookup e on k : enabled (SetEnabled e on) !! k =
  if existsb (fun r => String.eqb (rule_Name r) k) (rules e) then Some (index on k) else None.
Proof.
  unfold SetEnabled. cbn [enabled].
  rewrite (foldl_insert_lookup (fun r => index on (rule_Name r))) by (intros a b ->; done).
  rewrite lookup_empty. induction (rules e) as [|r l IH]; cbn [List.find existsb]; [done|].
  destruct (String.eqb_spec (rule_Name r) k) as [<-|]; cbn [orb]; done.
Qed.

Lemma SetEnabled_index e on rule : rule ∈ rules e ->
  index (enabled (SetEnabled e on)) (rule_Name rule) = index on (rule_Name rule).
Proof.
  intros Hin. unfold index at 1. rewrite SetEnabled_lookup.
  assert (existsb (fun r => String.eqb (rule_Name r) (rule_Name rule)) (rules e) = true) as ->; [|done].
  apply existsb_exists. exists rule. split; [by apply list_elem_of_In|]. apply String.eqb_refl.
Qed.

Lemma decide_loop_ext on on' l w req :
  (forall r, r ∈ l -> index on (rule_Name r) = index on' (rule_Name r)) ->
  decide_loop on l w req = decide_loop on' l w req.
Proof.
  revert w. induction l as [|r l IH]; intros w Hext; cbn [decide_loop]; [done|].
  assert (Hl : forall x, x ∈ l -> index on (rule_Name x) = index on' (rule_Name x))
    by (intros x Hx; apply Hext; by right).
  rewrite (Hext r) by left. destruct (negb _); [by apply IH|].
  destruct (rule_Evaluate r w req) as [w1 [[] s]]; [by apply IH|done].
Qed.

Lemma decide_loop_filter on l w req :
  decide_loop on l w req =
  decide_loop (enabled (New (List.filter (fun r => index on (rule_Name r)) l)))
    (List.filter (fun r => index on (rule_Name r)) l) w req.
Proof.
  set (f := List.filter (fun r => index on (rule_Name r)) l).
  rewrite (decide_loop_ext (enabled (New f)) on f).
  2: { intros r Hr. rewrite New_lookup by done. subst f. apply list_elem_of_In, filter_In in Hr.
       by destruct Hr as [_ ->]. }
  subst f. revert w. induction l as [|r l IH]; intros w; cbn [decide_loop List.filter]; [done|].
  destruct (index on (rule_Name r)) eqn:E; cbn [negb]; [|by apply IH].
  cbn [decide_loop]. rewrite E. cbn [negb].
  destruct (rule_Evaluate r w req) as [w1 [[] s]]; [by apply IH|done].
Qed.

Lemma Names_aux out l : foldl (fun out (r : Rule) => out ++ [rule_Name r]) out l = out ++ map rule_Name l.
Proof.
  revert out. induction l as [|r l IH]; intros out; cbn; [by rewrite app_nil_r|].
  by rewrite IH, <- app_assoc.
Qed.

Lemma Enabled_copy e : Enabled e = enabled e.
Proof.
  unfold Enabled. apply (map_fold_weak_ind (fun out m => out = m)); [done|].
  by intros i x m r Hi ->.
Qed.

(** Toggling never changes the chain. *)
Lemma dstep_rules req s s' : dstep req s s' -> rules s'.1.1 = rules s.1.1.
Proof. by destruct 1. Qed.

(** What a decision that has taken its map will do. *)
Definition promised (req : RequestContext) (w : W) (t : thread) (res : W * option (Rule * string)) : Prop :=
  match t with
  | Waiting => False
  | Running on todo => decide_loop on todo w req = res
  | Finished found => (w, found) = res
  end.

Lemma dstep_promised req s s' res : dstep req s s' ->
  promised req s.1.2 s.2 res -> promised req s'.1.2 s'.2 res.
Proof.
  destruct 1 as [e w t on|e w|e w on rule todo E|e w w' on rule todo reason E Ev
                |e w w' on rule todo reason E Ev|e w on];
    cbn [fst snd promised decide_loop]; try done; rewrite ?E, ?Ev; by cbn.
Qed.

Lemma dsteps_promised req s s' res : rtc (dstep req) s s' ->
  promised req s.1.2 s.2 res -> promised req s'.1.2 s'.2 res.
Proof. induction 1 as [|s s1 s2 Hs _ IH]; [done|]. intros Hp. apply IH. by eapply dstep_promised. Qed.

(** A running decision can always finish, in one step per rule and one more. *)
Lemma running_finishes req e w on todo :
  exists w' found, rtc (dstep req) (e, w, Running on todo) (e, w', Finished found).
Proof.
  revert w. induction todo as [|r todo IH]; intros w.
  - exists w, None. apply rtc_once. constructor.
  - destruct (index on (rule_Name r)) eqn:E.
    + destruct (rule_Evaluate r w req) as [w1 [[] s]] eqn:Ev.
      * destruct (IH w1) as (w' & found & Hr). exists w', found.
        eapply rtc_l; [by eapply step_allow|done].
      * exists w1, (Some (r, s)). apply rtc_once. by eapply step_block.
    + destruct (IH w) as (w' & found & Hr). exists w', found.
      eapply rtc_l; [by eapply step_skip|done].
Qed.
End Chain.

Arguments Rule : clear implicits.
Arguments Engine : clear implicits.

(** ** Properties *)

(** The first enabled rule that blocks decides, and nothing after it runs.  The decision is
    Allow, with no rule, reason or status, when every enabled rule of the chain, run in order,
    allows the request; otherwise it names the first enabled rule that blocks, with that rule's
    reason and a status that is never 0 (the rule's own, or 403), the rules before it ran and the
    rules after it did not touch the world. *)
Theorem decide_exact {W} (e : Engine W) (w w' : W) req start stop (d : Decision) :
  Decide e w req start stop = (w', d) ->
  DecisionMS d = millisSince start stop /\
  ((d_Verdict d = Allow /\ d_Rule d = EmptyString /\ d_Reason d = EmptyString /\ d_Status d = 0 /\
    passes (enabled e) req w (rules e) w') \/
   (d_Verdict d = Block /\ d_Status d <> 0 /\
    exists pre rule post w1,
      rules e = pre ++ rule :: post /\ passes (enabled e) req w pre w1 /\
      index (enabled e) (rule_Name rule) = true /\
      rule_Evaluate rule w1 req = (w', (Block, d_Reason d)) /\ d_Rule d = rule_Name rule /\
      (forall s, rule_BlockStatus rule = Some s -> s <> 0 -> d_Status d = s) /\
      (rule_BlockStatus rule = None -> d_Status d = 403))).
Proof.
  unfold Decide. pose proof (decide_loop_spec (enabled e) (rules e) w req) as Hs.
  destruct (decide_loop _ _ _ _) as [w2 [[rule reason]|]]; intros [= <- <-].
  - destruct Hs as (pre & post & w1 & Hl & Hp & Hi & Hev).
    split; [done|]. right. split; [done|]. cbn. unfold blockStatus. split.
    { destruct (rule_BlockStatus rule) as [s|]; [|done]. by destruct (Z.eqb_spec s 0). }
    exists pre, rule, post, w1. repeat (split; [done|]). split; [|by intros ->].
    intros s -> Hne. by destruct (Z.eqb_spec s 0).
  - split; [done|]. by left.
Qed.

(** Turning rules off is the same as building a chain without them.  After [SetEnabled], a
    decision is the one of a new engine over the rules the map turns on; the reported switches are
    those of the chain's rules and of nothing else, a rule the map does not mention being off;
    and the names of the chain stay as they are. *)
Theorem set_enabled_exact {W} (e : Engine W) (on : gmap string bool) :
  (forall w req start stop,
     Decide (SetEnabled e on) w req start stop
     = Decide (New (List.filter (fun r => index on (rule_Name r)) (rules e))) w req start stop) /\
  (forall k, Enabled (SetEnabled e on) !! k
     = if bool_decide (k ∈ Names e) then Some (index on k) else None) /\
  Names (SetEnabled e on) = Names e /\
  (forall k, k ∈ Names e -> Enabled (New (rules e)) !! k = Some true).
Proof.
  split; [|split; [|split; [done|]]].
  - intros w req start stop. unfold Decide. change (rules (SetEnabled e on)) with (rules e).
    rewrite (decide_loop_ext _ on) by (intros r Hr; by apply SetEnabled_index).
    by rewrite decide_loop_filter.
  - intros k. rewrite Enabled_copy, SetEnabled_lookup. unfold Names. rewrite Names_aux. cbn [app].
    destruct (existsb _ _) eqn:E; case_bool_decide as Hin; try done; exfalso.
    + apply Hin. apply existsb_exists in E as (r & Hr & E%String.eqb_eq). subst k.
      apply list_elem_of_In. by apply in_map.
    + apply list_elem_of_In, in_map_iff in Hin as (r & <- & Hr).
      assert (existsb (fun r' => String.eqb (rule_Name r') (rule_Name r)) (rules e) = true)
        as Ht; [|by rewrite Ht in E].
      apply existsb_exists. exists r. split; [done|]. apply String.eqb_refl.
  - intros k Hin. unfold Names in Hin. rewrite Names_aux in Hin. cbn [app] in Hin.
    apply list_elem_of_In, in_map_iff in Hin as (r & <- & Hr). apply list_elem_of_In in Hr.
    rewrite Enabled_copy. pose proof (New_lookup (rules e) r Hr) as Hl. unfold index in Hl.
    by destruct (enabled (New (rules e)) !! rule_Name r) as [[]|].
Qed.

(** A running decision sees one consistent set of switches.  Whatever toggles other goroutines
    interleave with its steps, a decision that took its map from the engine [e] ends, if it ends,
    in the world and with the answer that [Decide] gives on [e] alone; and from wherever it stands
    it can end. *)
Theorem decide_snapshot {W} (e e' : Engine W) (w w' : W) req t start stop :
  rtc (dstep req) (e, w, Running (enabled e) (rules e)) (e', w', t) ->
  match t with
  | Waiting => False
  | Running on todo => exists w'' found, rtc (dstep req) (e', w', t) (e', w'', Finished found)
  | Finished found => Decide e w req start stop = (w', decision found start stop)
  end.
Proof.
  intros Hrun. apply (dsteps_promised _ _ _ (decide_loop (enabled e) (rules e) w req)) in Hrun; [|done].
  cbn [fst snd] in Hrun. destruct t as [|on todo|found]; [done|apply running_finishes|].
  cbn in Hrun. unfold Decide. by rewrite <- Hrun.
Qed.

(** ** Witnesses *)

(** A counting rule and one that refuses a method; the world is the count. *)
Definition count_rule : Rule Z := MkRule "count" (fun w _ => (w + 1, (Allow, EmptyString))) None.
Definition method_rule : Rule Z :=
  MkRule "method" (fun w req => (w, if String.eqb (Method req) "TRACE" then (Block, "no tracing")
                                    else (Allow, EmptyString))) (Some 405).
Definition sample_engine : Engine Z := New [count_rule; method_rule; count_rule].
Definition trace_request : RequestContext :=
  Request "r-1" "203.0.113.7" "TRACE" "/" "" [] "" false 0.

Lemma decide_exact_witness :
  exists d, Decide sample_engine 0 trace_request 0 1500 = (1, d) /\ d_Verdict d = Block /\
    d_Status d <> 0 /\ d_Rule d = "method".
Proof.
  exists (snd (Decide sample_engine 0 trace_request 0 1500)). split; [vm_compute; reflexivity|].
  pose proof (decide_exact sample_engine 0 1 trace_request 0 1500
    (snd (Decide sample_engine 0 trace_request 0 1500)) ltac:(vm_compute; reflexivity)) as [_ Hd].
  destruct Hd as [(Hv & _)|(Hv & Hs & _)]; [vm_compute in Hv; discriminate|].
  split; [exact Hv|]. split; [exact Hs|]. vm_compute. reflexivity.
Defined.

Lemma decide_snapshot_witness :
  Decide sample_engine 0 trace_request 0 1500
  = (1, decision (Some (method_rule, "no tracing")) 0 1500).
Proof.
  apply (decide_snapshot sample_engine (SetEnabled sample_engine ∅) 0 1 trace_request
    (Finished (Some (method_rule, "no tracing"))) 0 1500).
  eapply rtc_l; [eapply (step_allow trace_request); reflexivity|].
  eapply rtc_l; [apply (step_toggle trace_request _ _ _ ∅)|].
  apply rtc_once. eapply step_block; reflexivity.
Defined.
