(* ===== verification/IPBlock.v ===== *)
(** * The IP access list

    [engine/internal/rules/ipblock.go]: the rows of the access list become allow and deny
    prefixes; an allow row beats a deny row. *)

From S2P Require Import Prelude Utf8 GoText GoTime GoJson Netip Model.

Record IPBlock := MkIPBlock {
  allow : list prefix;
  deny : list prefix;
  notes : gmap string string
}.

Definition NewIPBlock : IPBlock := MkIPBlock [] [] ∅.

Definition ip_Name : string := "ipblock".

Section IPBlock.
Context `{UnicodePrint}.

Definition ParsePrefix (value : string) : result prefix :=
  match parse_prefix value with
  | Some p => Ok (masked p)
  | None =>
      match parse_addr value with
      | None => Err ("rules: " +:+ quote value +:+ " is neither an IP address nor a CIDR range")
      | Some a => Ok (prefix_from a (bit_len a))
      end
  end.

(** The variables of the loop in [Set]. *)
Record loading := Loading {
  l_allow : list prefix; l_deny : list prefix; l_notes : gmap string string; l_errs : list string
}.

Definition unknown_action (e : IPRule) : string :=
  "rules: ip rule " +:+ CIDR e +:+ " has unknown action " +:+ quote (Action e).

Definition load_row (st : loading) (e : IPRule) : loading :=
  match ParsePrefix (CIDR e) with
  | Err err => Loading (l_allow st) (l_deny st) (l_notes st) (l_errs st ++ [err])
  | Ok p =>
      let notes := <[prefix_str p := Note e]> (l_notes st) in
      if String.eqb (Action e) ActionAllow
      then Loading (l_allow st ++ [p]) (l_deny st) notes (l_errs st)
      else if String.eqb (Action e) ActionDeny
      then Loading (l_allow st) (l_deny st ++ [p]) notes (l_errs st)
      else Loading (l_allow st) (l_deny st) notes (l_errs st ++ [unknown_action e])
  end.

Definition load_rows (entries : list IPRule) : loading :=
  foldl load_row (Loading [] [] ∅ []) entries.

Definition Set_ (r : IPBlock) (entries : list IPRule) : IPBlock * list string :=
  let st := load_rows entries in
  (MkIPBlock (l_allow st) (l_deny st) (l_notes st), l_errs st).

Definition denied_reason (r : IPBlock) (p : prefix) : string :=
  let note := default EmptyString (notes r !! prefix_str p) in
  if negb (String.eqb note EmptyString)
  then "source address is in denied range " +:+ prefix_str p +:+ " (" +:+ note +:+ ")"
  else "source address is in denied range " +:+ prefix_str p.

Definition Evaluate (r : IPBlock) (req : RequestContext) : Verdict * string :=
  match parse_addr (IP req) with
  | None => (Allow, EmptyString)
  | Some a =>
      if existsb (fun p => contains p a) (allow r) then (Allow, EmptyString)
      else
        match List.find (fun p => contains p a) (deny r) with
        | Some p => (Block, denied_reason r p)
        | None => (Allow, EmptyString)
        end
  end.

Definition Size (r : IPBlock) : Z * Z :=
  (Z.of_nat (List.length (allow r)), Z.of_nat (List.length (deny r))).

(** ** What a row means *)

(** The addresses a row's text stands for: those of the range it writes down, whatever host bits
    it carries, or the one address; an address with a zone belongs to no row. *)
Definition covers (text : string) (a : addr) : bool :=
  match parse_prefix text with
  | Some p => contains p a
  | None =>
      match parse_addr text with
      | Some b => negb (has_zone a) && bool_decide (a = without_zone b)
      | None => false
      end
  end.

Definition good_row (e : IPRule) : bool :=
  is_Ok (ParsePrefix (CIDR e)) && (String.eqb (Action e) ActionAllow || String.eqb (Action e) ActionDeny).

Definition row_error (e : IPRule) : string :=
  match ParsePrefix (CIDR e) with Err m => m | Ok _ => unknown_action e end.

Definition with_action (act : string) (entries : list IPRule) : list IPRule :=
  List.filter (fun e => is_Ok (ParsePrefix (CIDR e)) && String.eqb (Action e) act) entries.

(** ** Lemmas *)

Lemma ParsePrefix_wf value p : ParsePrefix value = Ok p -> prefix_wf p.
Proof.
  unfold ParsePrefix. destruct (parse_prefix value) as [q|] eqn:E; [intros [= <-]; eauto with shield|].
  destruct (parse_addr value) as [a|] eqn:Ea; [|done]. intros [= <-]. eauto with shield.
Qed.

Lemma ParsePrefix_contains value p a : addr_wf a -> ParsePrefix value = Ok p ->
  contains p a = covers value a.
Proof.
  unfold ParsePrefix, covers. intros Ha. destruct (parse_prefix value) as [q|] eqn:E.
  - intros [= <-]. apply masked_contains; eauto with shield.
  - destruct (parse_addr value) as [b|] eqn:Eb; [|done]. intros [= <-].
    apply eq_true_iff_eq. rewrite host_prefix_contains by eauto with shield.
    rewrite andb_true_iff, negb_true_iff, bool_decide_eq_true. intuition.
Qed.

Lemma ParsePrefix_covers value a : covers value a = true -> is_Ok (ParsePrefix value) = true.
Proof.
  unfold covers, ParsePrefix. destruct (parse_prefix value); [done|]. by destruct (parse_addr value).
Qed.

(** What the loop has collected after a list of rows. *)
Definition prefixes (rows : list IPRule) : list prefix :=
  omap (fun e => match ParsePrefix (CIDR e) with Ok p => Some p | Err _ => None end) rows.

Lemma load_rows_spec rows :
  l_allow (load_rows rows) = prefixes (with_action ActionAllow rows) /\
  l_deny (load_rows rows) = prefixes (with_action ActionDeny rows) /\
  l_errs (load_rows rows) = map row_error (List.filter (fun e => negb (good_row e)) rows).
Proof.
  unfold load_rows, prefixes, with_action. induction rows as [|e rows IH] using rev_ind; [done|].
  destruct IH as (IH1 & IH2 & IH3). rewrite foldl_app, !List.filter_app, !omap_app, map_app.
  rewrite <- IH1, <- IH2, <- IH3. cbn [foldl List.filter]. set (st := foldl load_row _ rows).
  unfold load_row, good_row. destruct (ParsePrefix (CIDR e)) as [p|m] eqn:Ep; cbn [is_Ok andb].
  - destruct (String.eqb_spec (Action e) ActionAllow) as [E|E];
      [|destruct (String.eqb_spec (Action e) ActionDeny) as [E'|E']].
    + rewrite E. cbn -[row_error]. by rewrite Ep, !app_nil_r.
    + cbn -[row_error]. by rewrite Ep, !app_nil_r.
    + cbn -[row_error]. unfold row_error at 1. by rewrite Ep, !app_nil_r.
  - cbn -[row_error]. unfold row_error at 1. by rewrite Ep, !app_nil_r.
Qed.

Lemma prefixes_elem act rows p :
  p ∈ prefixes (with_action act rows) <->
  exists e, e ∈ rows /\ Action e = act /\ ParsePrefix (CIDR e) = Ok p.
Proof.
  unfold prefixes, with_action. rewrite list_elem_of_omap. split.
  - intros (e & He & Hp). apply list_elem_of_In, filter_In in He as [He Hb].
    apply andb_prop in Hb as [_ Hact%String.eqb_eq]. exists e.
    destruct (ParsePrefix (CIDR e)) as [q|]; [|done]. injection Hp as ->.
    split; [by apply list_elem_of_In|done].
  - intros (e & He & <- & Hp). exists e. rewrite Hp. split; [|done].
    apply list_elem_of_In, filter_In. rewrite Hp, String.eqb_refl. split; [by apply list_elem_of_In|done].
Qed.

Lemma prefixes_covers act rows a : addr_wf a ->
  (exists p, p ∈ prefixes (with_action act rows) /\ contains p a = true) <->
  (exists e, e ∈ rows /\ Action e = act /\ covers (CIDR e) a = true).
Proof.
  intros Ha. split.
  - intros (p & Hp & Hc). apply prefixes_elem in Hp as (e & He & Hact & Hp). exists e.
    rewrite <- (ParsePrefix_contains _ p a Ha Hp). done.
  - intros (e & He & Hact & Hc). pose proof (ParsePrefix_covers _ _ Hc) as Hok.
    destruct (ParsePrefix (CIDR e)) as [p|] eqn:Ep; [|done]. exists p. split.
    + apply prefixes_elem. by exists e.
    + by rewrite (ParsePrefix_contains _ _ _ Ha Ep).
Qed.

Lemma existsb_elem {A} (f : A -> bool) l : existsb f l = true <-> exists x, x ∈ l /\ f x = true.
Proof. rewrite existsb_exists. by setoid_rewrite list_elem_of_In. Qed.

Lemma Evaluate_block r req : (Evaluate r req).1 = Block <->
  exists a, parse_addr (IP req) = Some a /\
    (exists p, p ∈ deny r /\ contains p a = true) /\ ~ (exists p, p ∈ allow r /\ contains p a = true).
Proof.
  unfold Evaluate. destruct (parse_addr (IP req)) as [a|]; [|by split; [|intros (? & ? & _)]].
  pose proof (existsb_elem (fun p => contains p a) (allow r)) as Hall.
  destruct (existsb _ (allow r)) eqn:Ea.
  { split; [done|]. intros (b & [= <-] & _ & Hn). by destruct Hn; apply Hall. }
  destruct (List.find _ (deny r)) as [p|] eqn:Ed; cbn [fst].
  - apply List.find_some in Ed as [Hp Hc]. apply list_elem_of_In in Hp.
    split; [|done]. intros _. exists a. split; [done|]. split; [by exists p|].
    intros Hex. by apply Hall in Hex.
  - split; [done|]. intros (b & [= <-] & (p & Hp & Hc) & _). apply list_elem_of_In in Hp.
    pose proof (List.find_none _ _ Ed p Hp) as Hn. cbn in Hn. by rewrite Hc in Hn.
Qed.

(** ** Properties *)

(** C19: The access list does what its rows say.  After [Set], a request is blocked exactly when
    its address parses, some deny row covers the address and no allow row does; an address that
    does not parse, or that no row covers, is let through.  The order of the rows does not matter,
    and a range written with host bits covers the whole range. *)
Theorem ipblock_exact (r : IPBlock) (rows : list IPRule) (req : RequestContext) :
  (Evaluate (Set_ r rows).1 req).1 = Block <->
  exists a, parse_addr (IP req) = Some a /\
    (exists e, e ∈ rows /\ Action e = ActionDeny /\ covers (CIDR e) a = true) /\
    ~ (exists e, e ∈ rows /\ Action e = ActionAllow /\ covers (CIDR e) a = true).
Proof.
  rewrite Evaluate_block. unfold Set_. cbn [fst allow deny].
  destruct (load_rows_spec rows) as (-> & -> & _).
  apply exist_proper. intros a. split; intros (Ha & Hd & Hn); (split; [done|]);
    pose proof (parse_addr_wf _ _ Ha) as Hw; [rewrite !prefixes_covers in Hd, Hn by done
    |rewrite !prefixes_covers by done]; done.
Qed.

(** One bad row does not take the list out of service.  [Set] reports one error for each row
    whose address or action is not understood, in order, and none for the others; the prefixes
    loaded are those of the good rows; and every request gets the verdict it would get if the bad
    rows were not in the list. *)
Theorem ipblock_skips_bad_rows (r : IPBlock) (rows : list IPRule) :
  let good := List.filter good_row rows in
  (Set_ r rows).2 = map row_error (List.filter (fun e => negb (good_row e)) rows) /\
  (forall req, (Evaluate (Set_ r rows).1 req).1 = (Evaluate (Set_ r good).1 req).1) /\
  (Size (Set_ r rows).1).1 + (Size (Set_ r rows).1).2 = Z.of_nat (List.length good).
Proof.
  cbv zeta. destruct (load_rows_spec rows) as (Ea & Ed & Ee).
  destruct (load_rows_spec (List.filter good_row rows)) as (Ea' & Ed' & _).
  assert (forall act, act = ActionAllow \/ act = ActionDeny ->
    with_action act (List.filter good_row rows) = with_action act rows) as Hwa.
  { intros act Hact. unfold with_action. clear -Hact. induction rows as [|e rows IH]; [done|].
    cbn [List.filter]. destruct (good_row e) eqn:Eg; cbn [List.filter]; [by rewrite IH|].
    rewrite IH. destruct (_ && _) eqn:E; [|done]. exfalso. unfold good_row in Eg.
    apply andb_prop in E as [E1 E2%String.eqb_eq]. rewrite E1, E2 in Eg.
    by destruct Hact as [-> | ->]. }
  split; [done|]. split.
  - intros req. unfold Set_. cbn [fst].
    assert (forall b1 b2, allow b1 = allow b2 -> deny b1 = deny b2 ->
      (Evaluate b1 req).1 = (Evaluate b2 req).1) as Hext.
    { intros b1 b2 E1 E2. unfold Evaluate. rewrite E1, E2. destruct (parse_addr _); [|done].
      destruct (existsb _ _); [done|]. by destruct (List.find _ _). }
    apply Hext; cbn [allow deny]; rewrite ?Ea, ?Ea', ?Ed, ?Ed', Hwa; auto.
  - unfold Size, Set_. cbn [fst snd allow deny]. rewrite Ea, Ed. clear.
    unfold prefixes, with_action. induction rows as [|e rows IH]; [done|].
    cbn [List.filter]. unfold good_row at 1. destruct (ParsePrefix (CIDR e)) as [p|] eqn:Ep;
      cbn [is_Ok andb]; [|done].
    destruct (String.eqb_spec (Action e) ActionAllow) as [E|E];
      [rewrite E|destruct (String.eqb_spec (Action e) ActionDeny) as [E'|E']];
      cbn [String.eqb Ascii.eqb Bool.eqb ActionAllow ActionDeny orb omap list_omap List.length];
      rewrite ?Ep; cbn [List.length]; lia.
Qed.
End IPBlock.

(** ** A run *)

#[local] Instance ascii_print : UnicodePrint := fun r => (32 <=? r) && (r <? 127).

Definition sample_rows : list IPRule :=
  [MkIPRule "203.0.113.77/24" "deny" "hosting provider" 0 "ops";
   MkIPRule "203.0.113.9" "allow" "our monitoring" 0 "ops";
   MkIPRule "not-an-address" "deny" "" 0 "ops";
   MkIPRule "198.51.100.0/24" "drop" "" 0 "ops"].

Definition from_ip (ip : string) : RequestContext := Request "r-1" ip "GET" "/" "" [] "" false 0.

Example blocked_in_range :
  Evaluate (Set_ NewIPBlock sample_rows).1 (from_ip "203.0.113.7")
  = (Block, "source address is in denied range 203.0.113.0/24 (hosting provider)").
Proof. vm_compute. reflexivity. Qed.

Example monitoring_allowed : (Evaluate (Set_ NewIPBlock sample_rows).1 (from_ip "203.0.113.9")).1 = Allow.
Proof. vm_compute. reflexivity. Qed.
