(* ===== verification/Patterns.v ===== *)
(** * Signature rules

    [engine/internal/rules/patterns.go]: the signature file, the parts of a request that are
    scanned, raw and percent-decoded, and the rule that blocks on the first signature found.
    Regular expressions are the interface [Regexp]. *)

From S2P Require Import Prelude Utf8 GoText GoTime GoJson GoStruct Model.

(** ** Regular expressions *)

Class Regexp := {
  regex : Type;
  compile : string -> result regex;
  FindStringIndex : regex -> string -> option (Z * Z)
}.

(** A match is a range of the text. *)
Class RegexpLaws `{Regexp} : Prop := find_bounds re s i j :
  FindStringIndex re s = Some (i, j) -> 0 <= i <= j /\ j <= slen s.

(** ** Percent decoding: [url.QueryUnescape] *)

Fixpoint QueryUnescape (s : string) : option string :=
  match s with
  | EmptyString => Some EmptyString
  | String c s =>
      if Ascii.eqb c "%" then
        match s with
        | String a (String b s) =>
            match hex_val a, hex_val b with
            | Some x, Some y => String (bof (16 * x + y)) <$> QueryUnescape s
            | _, _ => None
            end
        | _ => None
        end
      else if Ascii.eqb c "+" then String " " <$> QueryUnescape s
      else String c <$> QueryUnescape s
  end.

(** ** The signature file *)

Section Patterns.
Context `{UnicodePrint} `{Regexp}.

Record Signature := MkSignature {
  sig_ID : string; sig_Pattern : string; sig_Description : string; sig_re : option regex
}.

Record SignatureSet := MkSignatureSet { SQLi : list Signature; XSS : list Signature }.

Definition decode_signature (v : gval) : option Signature :=
  as_struct (fun m =>
    id ← get_string "id" m;
    pattern ← get_string "pattern" m;
    description ← get_string "description" m;
    Some (MkSignature id pattern description None)) v.

Definition decode_set (v : gval) : option SignatureSet :=
  as_struct (fun m =>
    sqli ← get (as_slice decode_signature) [] "sqli" m;
    xss ← get (as_slice decode_signature) [] "xss" m;
    Some (MkSignatureSet sqli xss)) v.

(** [compileAll] from index [i]. *)
Fixpoint compile_from (i : Z) (signatures : list Signature) (source : string)
  : result (list Signature) :=
  match signatures with
  | [] => Ok []
  | s :: signatures =>
      if String.eqb (sig_ID s) EmptyString
      then Err ("rules: signature " +:+ itoa i +:+ " in " +:+ source +:+ " has no id")
      else
        match compile (sig_Pattern s) with
        | Err err => Err ("rules: signature " +:+ quote (sig_ID s) +:+ " in " +:+ source +:+ ": " +:+ err)
        | Ok re =>
            rest ← compile_from (i + 1) signatures source;
            Ok (MkSignature (sig_ID s) (sig_Pattern s) (sig_Description s) (Some re) :: rest)
        end
  end.

Definition compileAll (signatures : list Signature) (source : string) : result (list Signature) :=
  compile_from 0 signatures source.

(** [LoadSignatures]; [read] is [os.ReadFile] and [embedded] the file built into the binary. *)
Definition LoadSignatures (embedded : string) (read : string -> result string) (path : string)
  : result SignatureSet :=
  '(raw, source) ←
    (if negb (String.eqb path EmptyString)
     then match read path with
          | Err err => Err ("rules: read signature file " +:+ path +:+ ": " +:+ err)
          | Ok content => Ok (content, path)
          end
     else Ok (embedded, "embedded"));
  match unmarshal raw ≫= decode_set with
  | None => Err ("rules: parse signatures from " +:+ source)
  | Some set =>
      sqli ← compileAll (SQLi set) source;
      xss ← compileAll (XSS set) source;
      match sqli, xss with
      | [], [] => Err ("rules: signature file " +:+ source +:+ " contains no patterns")
      | _, _ => Ok (MkSignatureSet sqli xss)
      end
  end.

(** ** The rule *)

Record PatternRule := MkPatternRule {
  pr_name : string; signatures : list Signature; maxScan : Z
}.

Definition NewPatternRule (name : string) (signatures : list Signature) (maxScan : Z) : PatternRule :=
  MkPatternRule name signatures (if maxScan <=? 0 then 8192 else maxScan).

Record scanField := MkField { f_name : string; f_value : string }.

(** Slicing a string out of its bounds panics: [None]. *)
Definition slice (s : string) (i j : Z) : option string :=
  if (0 <=? i) && (i <=? j) && (j <=? slen s) then Some (sslice i j s) else None.

Definition truncate (s : string) (max : Z) : option string :=
  if (0 <? max) && (max <? slen s) then slice s 0 max else Some s.

Definition skipHeader (name : string) : bool :=
  existsb (String.eqb (to_lower name))
    ["host"; "accept"; "accept-encoding"; "accept-language"; "connection";
     "content-length"; "content-type"; "upgrade-insecure-requests";
     "x-request-id"; "x-forwarded-for"; "x-real-ip"].

(** The closure [add]: what it appends to the fields. *)
Definition add (maxScan : Z) (name value : string) : option (list scanField) :=
  if String.eqb value EmptyString then Some []
  else
    value ← truncate value maxScan;
    Some (MkField name value ::
      match QueryUnescape value with
      | Some decoded =>
          if negb (String.eqb decoded value) then [MkField (name +:+ " (decoded)") decoded] else []
      | None => []
      end).

Fixpoint add_headers (maxScan : Z) (headers : list (string * string)) : option (list scanField) :=
  match headers with
  | [] => Some []
  | (name, value) :: headers =>
      if skipHeader name then add_headers maxScan headers
      else
        fields ← add maxScan ("header " +:+ name) value;
        rest ← add_headers maxScan headers;
        Some (fields ++ rest)
  end.

Definition scanTargets (req : RequestContext) (maxScan : Z) : option (list scanField) :=
  path ← add maxScan "path" (Path req);
  query ← add maxScan "query" (Query req);
  body ← add maxScan "body" (Body req);
  headers ← add_headers maxScan (Headers req);
  Some (path ++ query ++ body ++ headers).

Definition ellipsis : string := encode_rune 0x2026.

Definition clean_rune (r : Z) : Z := if (r <? 32) || (r =? 127) then 32 else r.

Definition excerpt (value : string) (loc : Z * Z) : option string :=
  let window := 60 in
  let start := loc.1 - 10 in
  let start := if start <? 0 then 0 else start in
  let stop := loc.2 + 10 in
  let stop := if slen value <? stop then slen value else stop in
  let stop := if window <? stop - start then start + window else stop in
  out ← slice value start stop;
  let out := map_runes clean_rune (trim_space out) in
  Some (if (stop <? slen value) || (0 <? start) then ellipsis +:+ out +:+ ellipsis else out).

(** The first signature of the list found in a field, with where it was found. *)
Fixpoint first_match (sigs : list Signature) (value : string) : option (Signature * (Z * Z)) :=
  match sigs with
  | [] => None
  | s :: sigs =>
      match sig_re s with
      | None => first_match sigs value
      | Some re =>
          match FindStringIndex re value with
          | Some loc => Some (s, loc)
          | None => first_match sigs value
          end
      end
  end.

(** The two loops of [Evaluate]. *)
Fixpoint evaluate_fields (r : PatternRule) (fields : list scanField) : option (Verdict * string) :=
  match fields with
  | [] => Some (Allow, EmptyString)
  | f :: fields =>
      match first_match (signatures r) (f_value f) with
      | Some (s, loc) =>
          text ← excerpt (f_value f) loc;
          Some (Block, pr_name r +:+ " signature " +:+ quote (sig_ID s) +:+ " matched in "
                       +:+ f_name f +:+ ": " +:+ text)
      | None => evaluate_fields r fields
      end
  end.

Definition Evaluate (r : PatternRule) (req : RequestContext) : option (Verdict * string) :=
  fields ← scanTargets req (maxScan r);
  evaluate_fields r fields.
End Patterns.

(** ** What is scanned *)

Section Spec.
Context `{UnicodePrint} `{Regexp}.

(** The texts a client controls that are scanned. *)
Definition parts (req : RequestContext) : list string :=
  [Path req; Query req; Body req]
  ++ map snd (List.filter (fun h => negb (skipHeader h.1)) (Headers req)).

(** The forms of a text the signatures see: its beginning, and that decoded. *)
Definition forms (max : Z) (value : string) : list string :=
  if String.eqb value EmptyString then []
  else
    let value := stake (Z.to_nat max) value in
    value :: match QueryUnescape value with Some decoded => [decoded] | None => [] end.

(** Some signature is found in a text. *)
Definition hit (r : PatternRule) (value : string) : Prop :=
  exists s re, s ∈ signatures r /\ sig_re s = Some re /\ is_Some (FindStringIndex re value).

(** The percent-encodings of a text: any byte may be encoded, in either case, a space also as a
    plus sign; a percent or plus sign must be. *)
Inductive encodes : string -> string -> Prop :=
| enc_nil : encodes EmptyString EmptyString
| enc_plus q p : encodes q p -> encodes (String "+" q) (String " " p)
| enc_plain c q p : c <> "%"%char -> c <> "+"%char -> encodes q p -> encodes (String c q) (String c p)
| enc_hex a b x y q p : hex_val a = Some x -> hex_val b = Some y -> encodes q p ->
    encodes (String "%" (String a (String b q))) (String (bof (16 * x + y)) p).

(** What follows a percent sign that starts no escape. *)
Definition bad_escape (t : string) : Prop :=
  match t with
  | String a (String b _) => hex_val a = None \/ hex_val b = None
  | _ => True
  end.

Definition not_control (c : ascii) : bool := negb ((bval c <? 32) || (bval c =? 127)).

(** ** Lemmas *)

Lemma encodes_unescape q p : encodes q p -> QueryUnescape q = Some p.
Proof.
  induction 1 as [|q p _ IH|c q p Hc1 Hc2 _ IH|a b x y q p Ha Hb _ IH]; cbn [QueryUnescape]; [done|..].
  - by rewrite IH.
  - destruct (Ascii.eqb_spec c "%"); [done|]. destruct (Ascii.eqb_spec c "+"); [done|]. by rewrite IH.
  - cbn. by rewrite Ha, Hb, IH.
Qed.

Lemma bad_escape_fails s t : bad_escape t -> QueryUnescape (s +:+ String "%" t) = None.
Proof.
  intros Hb. induction s as [s IH] using string_len_ind. destruct s as [|c s].
  - cbn. destruct t as [|a [|b t]]; try done. destruct Hb as [Ha|Hb]; [by rewrite Ha|].
    rewrite Hb. by destruct (hex_val a).
  - cbn. destruct (Ascii.eqb c "%").
    + destruct s as [|a [|b s]]; cbn.
      * destruct t; [done|]. by rewrite (eq_refl : hex_val "%" = None).
      * rewrite (eq_refl : hex_val "%" = None). by destruct (hex_val a).
      * rewrite IH by (cbn; lia). destruct (hex_val a); [|done]. by destruct (hex_val b).
    + destruct (Ascii.eqb c "+"); rewrite IH by (cbn; lia); done.
Qed.

Lemma no_escapes s : no_char "%" s && no_char "+" s = true -> QueryUnescape s = Some s.
Proof.
  unfold no_char. induction s as [|c s IH]; [done|]. cbn [sall QueryUnescape].
  rewrite (Ascii.eqb_sym c "%"), (Ascii.eqb_sym c "+").
  destruct (Ascii.eqb "%" c); [done|]. destruct (Ascii.eqb "+" c); cbn [negb andb].
  - by rewrite andb_false_r.
  - intros Hs. by rewrite IH.
Qed.

Lemma slice_ok s i j : 0 <= i <= j -> j <= slen s -> slice s i j = Some (sslice i j s).
Proof. intros Hi Hj. unfold slice. by zbool. Qed.

Lemma truncate_ok s max : 0 < max -> truncate s max = Some (stake (Z.to_nat max) s).
Proof.
  intros Hm. unfold truncate. rewrite (proj2 (Z.ltb_lt 0 max) Hm). cbn [andb].
  destruct (Z.ltb_spec max (slen s)) as [Hl|Hl].
  - rewrite slice_ok by lia. unfold sslice. by rewrite Z.sub_0_r.
  - rewrite stake_all; [done|]. unfold slen in Hl. lia.
Qed.

Lemma add_ok max name value : 0 < max -> exists l, add max name value = Some l /\
  forall P : string -> Prop, (exists f, f ∈ l /\ P (f_value f)) <-> (exists v, v ∈ forms max value /\ P v).
Proof.
  intros Hm. unfold add, forms. destruct (String.eqb value EmptyString).
  { exists []. split; [done|]. intros P. split; intros (? & Hin & _); by apply elem_of_nil in Hin. }
  rewrite truncate_ok by done. cbn. eexists. split; [done|]. intros P.
  set (v := stake (Z.to_nat max) value).
  destruct (QueryUnescape v) as [d|]; cbn.
  - destruct (String.eqb_spec d v) as [->|]; cbn.
    + split; intros (x & Hin & HP).
      * apply list_elem_of_singleton in Hin as ->. exists v. split; [left|done].
      * exists (MkField name v). split; [left|].
        apply elem_of_cons in Hin as [->|Hin]; [done|]. by apply list_elem_of_singleton in Hin as ->.
    + split; intros (x & Hin & HP); (apply elem_of_cons in Hin as [->|Hin];
        [|apply list_elem_of_singleton in Hin as ->]).
      * exists v. split; [left|done].
      * exists d. split; [right; left|done].
      * exists (MkField name v). split; [left|done].
      * exists (MkField (name +:+ " (decoded)") d). split; [right; left|done].
  - split; intros (x & Hin & HP); apply list_elem_of_singleton in Hin as ->.
    + exists v. split; [left|done].
    + exists (MkField name v). split; [left|done].
Qed.

Definition some_form (max : Z) (P : string -> Prop) (values : list string) : Prop :=
  exists part v, part ∈ values /\ v ∈ forms max part /\ P v.

Lemma some_form_cons max P v values :
  some_form max P (v :: values) <-> (exists x, x ∈ forms max v /\ P x) \/ some_form max P values.
Proof.
  unfold some_form. split.
  - intros (part & x & [->|Hin]%elem_of_cons & Hx & HP); [left; by exists x|right; by exists part, x].
  - intros [(x & Hx & HP)|(part & x & Hin & Hx & HP)].
    + exists v, x. split; [left|done].
    + exists part, x. split; [by right|done].
Qed.

Lemma some_field_app (P : string -> Prop) l1 l2 :
  (exists f, f ∈ l1 ++ l2 /\ P (f_value f)) <->
  (exists f, f ∈ l1 /\ P (f_value f)) \/ (exists f, f ∈ l2 /\ P (f_value f)).
Proof.
  split.
  - intros (f & [Hin|Hin]%elem_of_app & HP); [left|right]; by exists f.
  - intros [(f & Hin & HP)|(f & Hin & HP)]; exists f; (split; [apply elem_of_app; auto|done]).
Qed.

Lemma add_headers_ok max headers : 0 < max -> exists l, add_headers max headers = Some l /\
  forall P : string -> Prop, (exists f, f ∈ l /\ P (f_value f)) <->
    some_form max P (map snd (List.filter (fun h => negb (skipHeader h.1)) headers)).
Proof.
  intros Hm. induction headers as [|[name value] headers (l & IH1 & IH2)].
  - exists []. split; [done|]. intros P. split.
    + intros (f & Hf & _). by apply elem_of_nil in Hf.
    + intros (part & x & Hf & _). by apply elem_of_nil in Hf.
  - cbn [add_headers List.filter fst]. destruct (skipHeader name); cbn [negb]; [by exists l|].
    destruct (add_ok max ("header " +:+ name) value Hm) as (l' & Hl' & HP'). rewrite Hl', IH1. cbn.
    exists (l' ++ l). split; [done|]. intros P. by rewrite some_field_app, some_form_cons, HP', IH2.
Qed.

(** Scanning covers exactly the forms of the parts. *)
Lemma scanTargets_ok req max : 0 < max -> exists l, scanTargets req max = Some l /\
  forall P : string -> Prop, (exists f, f ∈ l /\ P (f_value f)) <-> some_form max P (parts req).
Proof.
  intros Hm. unfold scanTargets, parts.
  destruct (add_ok max "path" (Path req) Hm) as (l1 & -> & H1).
  destruct (add_ok max "query" (Query req) Hm) as (l2 & -> & H2).
  destruct (add_ok max "body" (Body req) Hm) as (l3 & -> & H3).
  destruct (add_headers_ok max (Headers req) Hm) as (l4 & -> & H4). cbn [mbind option_bind].
  eexists. split; [done|]. intros P. cbn [app].
  by rewrite !some_field_app, !some_form_cons, H1, H2, H3, H4.
Qed.

Lemma first_match_Some sigs value s loc : first_match sigs value = Some (s, loc) ->
  s ∈ sigs /\ exists re, sig_re s = Some re /\ FindStringIndex re value = Some loc.
Proof.
  induction sigs as [|t sigs IH]; cbn [first_match]; [done|].
  destruct (sig_re t) as [re|] eqn:Er; [destruct (FindStringIndex re value) as [l|] eqn:Ef|].
  - intros [= -> ->]. split; [left|by exists re].
  - intros Hm. destruct (IH Hm) as [Hin Hre]. split; [by right|done].
  - intros Hm. destruct (IH Hm) as [Hin Hre]. split; [by right|done].
Qed.

Lemma first_match_None (r : PatternRule) value :
  first_match (signatures r) value = None -> ~ hit r value.
Proof.
  intros Hn (s & re & Hin & Hre & Hf). induction (signatures r) as [|t sigs IH]; [by apply elem_of_nil in Hin|].
  cbn [first_match] in Hn. apply elem_of_cons in Hin as [<-|Hin].
  - rewrite Hre in Hn. by destruct (FindStringIndex re value), Hf.
  - apply IH; [|done]. destruct (sig_re t) as [re'|]; [|done]. by destruct (FindStringIndex re' value).
Qed.

(** *** Excerpts *)

Lemma sall_sconcat (p : ascii -> bool) l : Forall (fun s => sall p s = true) l -> sall p (sconcat l) = true.
Proof. induction 1 as [|s l Hs _ IH]; [done|]. cbn [sconcat]. by rewrite sall_app, Hs, IH. Qed.

Lemma byte_visible z : 0 <= z < 256 -> 32 <= z -> z <> 127 -> not_control (bof z) = true.
Proof. intros Hz H1 H2. unfold not_control. rewrite bval_bof by done. by zbool. Qed.

Lemma encode_visible r : 32 <= r -> r <> 127 -> valid_rune r = true ->
  sall not_control (encode_rune r) = true.
Proof.
  intros H1 H2 Hv. pose proof (valid_rune_range r Hv) as Hr.
  unfold encode_rune, enc2, enc3, enc4, byte_str. rewrite Hv.
  destruct (Z.ltb_spec r 0x80); [cbn; by rewrite byte_visible by lia|].
  destruct (Z.ltb_spec r 0x800); [|destruct (Z.ltb_spec r 0x10000)];
    cbn -[Z.div Z.modulo Z.add]; rewrite !byte_visible by dlia; done.
Qed.

Lemma clean_visible r : rune_wf r -> sall not_control (encode_rune (clean_rune (r_val r))) = true.
Proof.
  intros Hw. pose proof (rune_wf_valid _ Hw) as Hv. unfold clean_rune.
  destruct (_ || _) eqn:E; [done|]. apply orb_false_elim in E as [E1%Z.ltb_ge E2%Z.eqb_neq].
  by apply encode_visible.
Qed.

Lemma map_clean_visible s : sall not_control (map_runes clean_rune s) = true.
Proof.
  unfold map_runes. apply sall_sconcat, List.Forall_map.
  eapply List.Forall_impl; [|apply runes_wf]. intros r Hr. by apply clean_visible.
Qed.

Lemma clean_length r : rune_wf r ->
  (String.length (encode_rune (clean_rune (r_val r))) <= 3 * String.length (r_src r))%nat.
Proof.
  intros [(_ & Hv & ->)|(c & -> & _)]; [|cbn; lia]. unfold clean_rune.
  pose proof (encode_nonempty (r_val r)).
  destruct (_ || _); [|lia]. change (encode_rune 32) with (str1 " "). cbn [String.length str1]. lia.
Qed.

Lemma map_clean_length s : (String.length (map_runes clean_rune s) <= 3 * String.length s)%nat.
Proof.
  unfold map_runes. rewrite <- (runes_concat s) at 2. pose proof (runes_wf s) as Hw.
  induction Hw as [|r l Hr _ IH]; [done|]. cbn [map sconcat]. rewrite !length_app_str.
  pose proof (clean_length r Hr). lia.
Qed.

Lemma drop_spaces_length l :
  (String.length (sconcat (map r_src (drop_spaces l))) <= String.length (sconcat (map r_src l)))%nat.
Proof.
  induction l as [|r l IH]; [done|]. cbn [drop_spaces]. destruct (is_space (r_val r)); [|done].
  cbn [map sconcat]. rewrite length_app_str. lia.
Qed.

Lemma rev_length l :
  String.length (sconcat (map r_src (rev l))) = String.length (sconcat (map r_src l)).
Proof.
  induction l as [|r l IH]; [done|]. cbn [rev map sconcat].
  rewrite map_app, sconcat_app, !length_app_str, IH. cbn. rewrite length_app_str. cbn. lia.
Qed.

Lemma trim_space_length s : (String.length (trim_space s) <= String.length s)%nat.
Proof.
  unfold trim_space. rewrite rev_length. etransitivity; [apply drop_spaces_length|].
  rewrite rev_length. etransitivity; [apply drop_spaces_length|]. by rewrite runes_concat.
Qed.

Lemma sslice_length i j s : 0 <= i <= j -> j <= slen s -> slen (sslice i j s) <= j - i.
Proof. intros Hi Hj. unfold sslice, slen. rewrite length_stake. lia. Qed.

Lemma excerpt_ok value i j : 0 <= i <= j -> j <= slen value ->
  exists t, excerpt value (i, j) = Some t /\ slen t <= 186 /\ sall not_control t = true.
Proof.
  intros Hi Hj. unfold excerpt. cbn [fst snd].
  set (start := if i - 10 <? 0 then 0 else i - 10).
  set (stop1 := if slen value <? j + 10 then slen value else j + 10).
  set (stop := if 60 <? stop1 - start then start + 60 else stop1).
  assert (0 <= start <= i) by (subst start; destruct (Z.ltb_spec (i - 10) 0); lia).
  assert (j <= stop1 <= slen value) by (subst stop1; destruct (Z.ltb_spec (slen value) (j + 10)); lia).
  assert (start <= stop <= slen value /\ stop - start <= 60) as [Hs Hl]
    by (subst stop; destruct (Z.ltb_spec 60 (stop1 - start)); lia).
  rewrite slice_ok by lia. cbn [mbind option_bind]. eexists. split; [done|].
  set (out := map_runes clean_rune _).
  assert (slen out <= 180) as Hout.
  { unfold slen, out. pose proof (map_clean_length (trim_space (sslice start stop value))).
    pose proof (trim_space_length (sslice start stop value)).
    pose proof (sslice_length start stop value ltac:(lia) ltac:(lia)) as Hsl. unfold slen in Hsl. lia. }
  assert (sall not_control out = true) as Hv by apply map_clean_visible.
  destruct (_ || _); [|split; [lia|done]]. rewrite !slen_app, !sall_app, Hv.
  change (slen ellipsis) with 3. split; [lia|done].
Qed.
End Spec.

(** ** Properties *)

Section Properties.
Context `{UnicodePrint} `{RegexpLaws}.

Lemma maxScan_pos name sigs max : 0 < maxScan (NewPatternRule name sigs max).
Proof. cbn. destruct (Z.leb_spec max 0); lia. Qed.

Lemma filter_perm {A} (f : A -> bool) l l' : l ≡ₚ l' -> List.filter f l ≡ₚ List.filter f l'.
Proof.
  induction 1 as [|x l l' _ IH|x y l|l l' l'' _ IH1 _ IH2]; cbn [List.filter]; [done| | |by rewrite IH1].
  - destruct (f x); [by constructor|done].
  - destruct (f x), (f y); try done. constructor.
Qed.

Lemma evaluate_fields_ok r fields : exists v reason, evaluate_fields r fields = Some (v, reason) /\
  (v = Block <-> exists f, f ∈ fields /\ hit r (f_value f)) /\
  (v = Block -> exists f s re loc text,
     f ∈ fields /\ s ∈ signatures r /\ sig_re s = Some re /\
     FindStringIndex re (f_value f) = Some loc /\ excerpt (f_value f) loc = Some text /\
     reason = pr_name r +:+ " signature " +:+ quote (sig_ID s) +:+ " matched in "
              +:+ f_name f +:+ ": " +:+ text).
Proof.
  induction fields as [|f fields (v & reason & IH1 & IH2 & IH3)].
  - exists Allow, EmptyString. split; [done|]. split; [|done].
    split; [done|]. intros (f & Hf & _). by apply elem_of_nil in Hf.
  - cbn [evaluate_fields]. destruct (first_match (signatures r) (f_value f)) as [[s [i j]]|] eqn:E.
    + apply first_match_Some in E as (Hs & re & Hre & Hf).
      pose proof (find_bounds _ _ _ _ Hf) as [Hi Hj].
      destruct (excerpt_ok _ _ _ Hi Hj) as (text & Ht & _). rewrite Ht. cbn [mbind option_bind].
      eexists _, _. split; [done|]. split.
      * split; [|done]. intros _. exists f. split; [left|]. by exists s, re.
      * intros _. exists f, s, re, (i, j), text. repeat (split; [done || left|]). done.
    + exists v, reason. split; [done|]. apply first_match_None in E. split.
      * rewrite IH2. split; [intros (g & Hg & Hh); exists g; split; [by right|done]|].
        intros (g & [->|Hg]%elem_of_cons & Hh); [done|by exists g].
      * intros Hb. destruct (IH3 Hb) as (g & s & re & loc & text & Hg & Hrest).
        exists g, s, re, loc, text. split; [by right|done].
Qed.

Lemma Evaluate_ok r req : 0 < maxScan r -> exists v reason, Evaluate r req = Some (v, reason) /\
  (v = Block <-> some_form (maxScan r) (hit r) (parts req)).
Proof.
  intros Hm. unfold Evaluate. destruct (scanTargets_ok req _ Hm) as (l & -> & Hl). cbn [mbind option_bind].
  destruct (evaluate_fields_ok r l) as (v & reason & He & Hb & _).
  exists v, reason. by rewrite <- Hl.
Qed.

(** C34: A signature rule blocks exactly the requests that show a signature.  For any rule made by
    [NewPatternRule] and any request, evaluation ends without a slice out of bounds, and the
    request is blocked exactly when some signature is found in the path, the query, the body or a
    header that is not excluded: in the first [maxScan] bytes of it as they are, or in what they
    decode to.  The answer does not depend on the order the headers are visited in. *)
Theorem pattern_rule_exact name sigs max req req' :
  let r := NewPatternRule name sigs max in
  Path req' = Path req -> Query req' = Query req -> Body req' = Body req ->
  Headers req' ≡ₚ Headers req ->
  exists v reason reason', Evaluate r req = Some (v, reason) /\ Evaluate r req' = Some (v, reason') /\
    (v = Block <-> exists part form, part ∈ parts req /\ form ∈ forms (maxScan r) part /\ hit r form).
Proof.
  intros r Ep Eq Eb Hh. pose proof (maxScan_pos name sigs max) as Hm. fold r in Hm.
  destruct (Evaluate_ok r req Hm) as (v & reason & He & Hv).
  destruct (Evaluate_ok r req' Hm) as (v' & reason' & He' & Hv').
  assert (parts req' ≡ₚ parts req) as Hp.
  { unfold parts. rewrite Ep, Eq, Eb. f_equiv. apply Permutation_map. by apply filter_perm. }
  assert (v' = v) as ->.
  { assert (some_form (maxScan r) (hit r) (parts req') <-> some_form (maxScan r) (hit r) (parts req)) as Hi
      by (unfold some_form; by setoid_rewrite Hp).
    rewrite Hi, <- Hv in Hv'. destruct v, v'; intuition congruence. }
  by exists v, reason, reason'.
Qed.

(** Encoding a payload does not hide it.  Whichever bytes of a text a client percent-encodes,
    in whatever case, when the encoded form is within [maxScan] bytes and some signature is found
    in the text, the request is blocked wherever the form stands. *)
Theorem encoded_payload_blocked name sigs max req payload sent :
  let r := NewPatternRule name sigs max in
  encodes sent payload -> sent <> EmptyString -> slen sent <= maxScan r -> hit r payload ->
  sent ∈ parts req -> exists reason, Evaluate r req = Some (Block, reason).
Proof.
  intros r Henc Hne Hlen Hhit Hin.
  destruct (Evaluate_ok r req (maxScan_pos _ _ _)) as (v & reason & -> & Hv).
  exists reason. do 2 f_equal. apply Hv. exists sent, payload. split; [done|]. split; [|done].
  unfold forms. destruct (String.eqb_spec sent EmptyString); [done|].
  rewrite stake_all by (unfold slen in Hlen; lia).
  rewrite (encodes_unescape _ _ Henc). right. left.
Qed.

(** One stray percent sign switches decoding off.  When every part of a request that has
    anything to decode contains, within its scanned bytes, a percent sign that starts no escape,
    the request is blocked only if a signature is found in the undecoded bytes: a payload encoded
    next to the stray sign goes unseen.  The
    comment on [scanTargets] says the raw pass still covers this case. *)
Theorem bad_escape_hides_payload name sigs max req :
  let r := NewPatternRule name sigs max in
  (forall part, part ∈ parts req ->
     let scanned := stake (Z.to_nat (maxScan r)) part in
     no_char "%" scanned && no_char "+" scanned = true \/
     exists s t, scanned = s +:+ String "%" t /\ bad_escape t) ->
  exists v reason, Evaluate r req = Some (v, reason) /\
    (v = Block <-> exists part, part ∈ parts req /\ part <> EmptyString /\
       hit r (stake (Z.to_nat (maxScan r)) part)).
Proof.
  intros r Hbad. destruct (Evaluate_ok r req (maxScan_pos _ _ _)) as (v & reason & -> & Hv).
  exists v, reason. split; [done|]. rewrite Hv. unfold some_form, forms. split.
  - intros (part & x & Hin & Hx & Hh). exists part. split; [done|].
    destruct (String.eqb_spec part EmptyString) as [|Hne]; [by apply elem_of_nil in Hx|].
    split; [done|]. fold r in Hx. destruct (Hbad _ Hin) as [Hn|(s & t & E & Hb)].
    + rewrite no_escapes in Hx by done.
      by apply elem_of_cons in Hx as [->|Hx%list_elem_of_singleton]; [|rewrite Hx in Hh].
    + rewrite E in *. rewrite bad_escape_fails in Hx by done. by apply list_elem_of_singleton in Hx as ->.
  - intros (part & Hin & Hne & Hh). eexists part, _. split; [done|]. split; [|done].
    destruct (String.eqb_spec part EmptyString); [done|]. left.
Qed.

(** What reaches the log of a match is short and printable.  For any match a regular
    expression reports in any text, the excerpt is taken without a slice out of bounds, is at most
    186 bytes long (60 bytes of the text, each at most tripled where it is not UTF-8, and two
    ellipses), and has no ASCII control character. *)
Theorem excerpt_safe re value loc : FindStringIndex re value = Some loc ->
  exists text, excerpt value loc = Some text /\ slen text <= 186 /\ sall not_control text = true.
Proof. destruct loc as [i j]. intros Hf. apply find_bounds in Hf as [Hi Hj]. by apply excerpt_ok. Qed.
End Properties.

Section Loading.
Context `{UnicodePrint} `{Regexp}.

(** A signature as the file gives it, and compiled. *)
Definition compiled (a b : Signature) : Prop :=
  sig_ID a <> EmptyString /\ exists re, compile (sig_Pattern a) = Ok re /\
    b = MkSignature (sig_ID a) (sig_Pattern a) (sig_Description a) (Some re).

Lemma compile_from_ok i sigs source out :
  compile_from i sigs source = Ok out <-> Forall2 compiled sigs out.
Proof.
  revert i out. induction sigs as [|s sigs IH]; intros i out; cbn [compile_from].
  - split; [intros [= <-]; constructor|]. by inversion 1.
  - destruct (String.eqb_spec (sig_ID s) EmptyString) as [E|E].
    { split; [done|]. intros Hf. inversion Hf as [|a b l1 l2 [Hid _] _]. by subst. }
    destruct (compile (sig_Pattern s)) as [re|] eqn:Ec.
    2: { split; [done|]. intros Hf. inversion Hf as [|a b l1 l2 (_ & re & Hre & _) _]. subst. congruence. }
    destruct (compile_from (i + 1) sigs source) as [rest|m] eqn:Er; cbn.
    + split.
      * intros [= <-]. constructor; [split; [done|by exists re]|]. by apply (IH (i + 1)).
      * intros Hf. inversion Hf as [|a b l1 l2 (_ & re' & Hre & Hb) Hl]. subst.
        apply (IH (i + 1)) in Hl. rewrite Er in Hl. congruence.
    + split; [done|]. intros Hf. inversion Hf as [|a b l1 l2 _ Hl]. subst.
      apply (IH (i + 1)) in Hl. congruence.
Qed.

Definition source_text (embedded : string) (read : string -> result string) (path : string)
  : result string :=
  if String.eqb path EmptyString then Ok embedded else read path.

(** A malformed signature file never reaches traffic.  [LoadSignatures] succeeds exactly when
    the file can be read and decoded, every signature has an id and a pattern that compiles, and
    there is at least one; the set it returns is the file's, with every pattern compiled, so the
    rule never skips a signature. *)
Theorem load_signatures_exact embedded read path set :
  LoadSignatures embedded read path = Ok set <->
  exists text parsed, source_text embedded read path = Ok text /\
    unmarshal text ≫= decode_set = Some parsed /\
    Forall2 compiled (SQLi parsed) (SQLi set) /\ Forall2 compiled (XSS parsed) (XSS set) /\
    ~ (SQLi parsed = [] /\ XSS parsed = []).
Proof.
  unfold LoadSignatures, source_text.
  assert (forall text source,
    match unmarshal text ≫= decode_set with
    | None => Err ("rules: parse signatures from " +:+ source)
    | Some set =>
        sqli ← compileAll (SQLi set) source;
        xss ← compileAll (XSS set) source;
        match sqli, xss with
        | [], [] => Err ("rules: signature file " +:+ source +:+ " contains no patterns")
        | _, _ => Ok (MkSignatureSet sqli xss)
        end
    end = Ok set <->
    exists parsed, unmarshal text ≫= decode_set = Some parsed /\
      Forall2 compiled (SQLi parsed) (SQLi set) /\ Forall2 compiled (XSS parsed) (XSS set) /\
      ~ (SQLi parsed = [] /\ XSS parsed = [])) as Haux.
  { intros text source. destruct (unmarshal text ≫= decode_set) as [parsed|].
    2: { split; [done|]. by intros (? & ? & _). }
    unfold compileAll. split.
    - destruct (compile_from 0 (SQLi parsed) source) as [sq|] eqn:E1; [|done].
      destruct (compile_from 0 (XSS parsed) source) as [xs|] eqn:E2; [|done].
      apply compile_from_ok in E1, E2. intros Hok. exists parsed. split; [done|].
      assert (set = MkSignatureSet sq xs) as -> by (cbn in Hok; destruct sq, xs; congruence).
      split; [done|]. split; [done|]. intros [N1 N2]. rewrite N1 in E1. rewrite N2 in E2.
      inversion E1; inversion E2; subst. by cbn in Hok.
    - intros (p & [= <-] & F1 & F2 & Hne). pose proof F1 as F1'. pose proof F2 as F2'.
      apply (compile_from_ok 0 _ source) in F1', F2'. rewrite F1', F2'. cbn.
      destruct set as [[|a l] [|b l']]; try done. exfalso. apply Hne. cbn in F1, F2.
      by inversion F1; inversion F2. }
  destruct (String.eqb path EmptyString); cbn [negb mbind result_bind].
  - rewrite Haux. split; [intros (p & Hp); by exists embedded, p|]. by intros (t & p & [= <-] & Hp); exists p.
  - destruct (read path) as [text|m]; cbn [mbind result_bind].
    + rewrite Haux. split; [intros (p & Hp); by exists text, p|]. by intros (t & p & [= <-] & Hp); exists p.
    + split; [done|]. by intros (t & p & ? & _).
Qed.
End Loading.

(** ** A run

    An engine of literal patterns, enough to evaluate the rule: a pattern matches where it stands
    in the text; a pattern with an open parenthesis does not compile. *)

Fixpoint literal_from (pat s : string) (i : Z) : option (Z * Z) :=
  if has_prefix pat s then Some (i, i + slen pat)
  else match s with EmptyString => None | String _ s => literal_from pat s (i + 1) end.

#[local] Instance literals : Regexp := {|
  regex := string;
  compile p := if no_char "(" p then Ok p else Err "missing closing )";
  FindStringIndex pat s := literal_from pat s 0
|}.

Lemma literal_from_bounds pat s i a b : literal_from pat s i = Some (a, b) ->
  i <= a <= b /\ b <= i + slen s.
Proof.
  revert i. induction s as [|c s IH]; intros i; cbn [literal_from];
    destruct (has_prefix pat _) eqn:E; try done.
  1,2: intros [= <- <-]; apply has_prefix_spec in E as [t ->]; rewrite slen_app;
    pose proof (slen_nonneg pat); pose proof (slen_nonneg t); lia.
  intros Hl. apply IH in Hl. unfold slen in *. cbn [String.length]. lia.
Qed.

#[local] Instance literals_laws : RegexpLaws.
Proof. intros re s i j Hf. apply literal_from_bounds in Hf. lia. Qed.

#[local] Instance print_ascii : UnicodePrint := fun r => (32 <=? r) && (r <? 127).

Definition sample_sigs : list Signature :=
  [MkSignature "quoted_tautology" "' OR '1'='1" "" (Some ("' OR '1'='1" : @regex literals))].

Definition query_of (q : string) : RequestContext :=
  Request "r-1" "203.0.113.7" "GET" "/login" q [("host", "shop.example")] "" false 0.

Definition encoded : string := "user=%27%20OR+%271%27%3d%271".
Definition plain : string := "user=' OR '1'='1".

Definition sample_pattern_rule : PatternRule := NewPatternRule "sqli" sample_sigs 0.

Example encoded_caught : Evaluate sample_pattern_rule (query_of encoded)
  = Some (Block, "sqli signature " +:+ str1 dquote +:+ "quoted_tautology" +:+ str1 dquote
                 +:+ " matched in query (decoded): user=' OR '1'='1").
Proof. vm_compute. reflexivity. Qed.

Example encoded_missed :
  Evaluate sample_pattern_rule (query_of (encoded +:+ "&discount=100%")) = Some (Allow, EmptyString).
Proof. vm_compute. reflexivity. Qed.

Lemma pattern_rule_exact_witness :
  exists v reason reason',
    Evaluate sample_pattern_rule (query_of plain) = Some (v, reason) /\
    Evaluate sample_pattern_rule (query_of plain) = Some (v, reason') /\
    (v = Block <-> exists part form, part ∈ parts (query_of plain) /\
       form ∈ forms (maxScan sample_pattern_rule) part /\ hit sample_pattern_rule form).
Proof.
  apply (pattern_rule_exact "sqli" sample_sigs 0 (query_of plain) (query_of plain)); reflexivity.
Defined.

Lemma sample_hit : hit sample_pattern_rule plain.
Proof.
  eexists _, _. split; [left|]. split; [reflexivity|]. exists (5, 16). vm_compute. reflexivity.
Qed.

Lemma sample_encodes : encodes encoded plain.
Proof.
  unfold encoded, plain.
  repeat first [apply enc_nil | apply enc_plus | apply enc_plain; [discriminate|discriminate|]
               | eapply (enc_hex _ _ 2 7); [reflexivity|reflexivity|]
               | eapply (enc_hex _ _ 2 0); [reflexivity|reflexivity|]
               | eapply (enc_hex _ _ 3 13); [reflexivity|reflexivity|]].
Qed.

Lemma encoded_payload_blocked_witness :
  exists reason, Evaluate sample_pattern_rule (query_of encoded) = Some (Block, reason).
Proof.
  apply (encoded_payload_blocked "sqli" sample_sigs 0 (query_of encoded) plain encoded).
  - exact sample_encodes.
  - discriminate.
  - vm_compute. discriminate.
  - exact sample_hit.
  - right. left.
Defined.

Definition hidden_request : RequestContext := query_of (encoded +:+ "&discount=100%").

Lemma bad_escape_hides_payload_witness :
  exists v reason, Evaluate sample_pattern_rule hidden_request = Some (v, reason) /\
    (v = Block <-> exists part, part ∈ parts hidden_request /\ part <> EmptyString /\
       hit sample_pattern_rule (stake (Z.to_nat (maxScan sample_pattern_rule)) part)).
Proof.
  apply (bad_escape_hides_payload "sqli" sample_sigs 0 hidden_request).
  intros part Hin.
  assert (part = "/login" \/ part = encoded +:+ "&discount=100%" \/ part = EmptyString) as [->|[->| ->]].
  { cbn in Hin. rewrite !elem_of_cons in Hin. destruct Hin as [?|[?|[?|Hin]]]; auto.
    by apply elem_of_nil in Hin. }
  - left. vm_compute. reflexivity.
  - right. exists (encoded +:+ "&discount=100"), EmptyString. split; [vm_compute; reflexivity|exact I].
  - left. vm_compute. reflexivity.
Defined.

Lemma excerpt_safe_witness :
  exists text, excerpt plain (5, 16) = Some text /\ slen text <= 186 /\ sall not_control text = true.
Proof. apply (excerpt_safe ("' OR '1'='1" : @regex literals) plain (5, 16)). vm_compute. reflexivity. Defined.

(** What stands before a match is kept: a signature found in a cookie puts a part of the cookie,
    here the session identifier, into the reason of the record. *)
Example cookie_excerpted :
  Evaluate sample_pattern_rule (Request "r-1" "203.0.113.7" "GET" "/" ""
    [("cookie", "session=s3cret; q=' OR '1'='1")] "" false 0)
  = Some (Block, "sqli signature " +:+ str1 dquote +:+ "quoted_tautology" +:+ str1 dquote
                 +:+ " matched in header cookie: " +:+ ellipsis +:+ "s3cret; q=' OR '1'='1" +:+ ellipsis).
Proof. vm_compute. reflexivity. Qed.
