(* ===== verification/Assembly.v ===== *)
(** * The assembled engine

    [engine/cmd/engine/main.go]: the chain the engine runs, over the state its rules share, and
    [applyConfig], which loads the switches and the access list. *)

From S2P Require Import Prelude Utf8 GoText GoTime GoJson GoStruct Netip Model RateLimit Rules IPBlock Patterns.

Section Assembly.
Context `{UnicodePrint} `{Regexp} {R : Type} `{Redis R}.

(** What the rules of the chain read and change: the access list, the rate limit rule with its
    store, and, for one decision, the limiter's clock and how its round trip goes.  A slice out
    of bounds in a signature rule would be a panic. *)
Record world := World {
  w_ip : IPBlock.IPBlock;
  w_rate : RateLimitRule;
  w_redis : R;
  w_now : Z;
  w_how : reply;
  w_panicked : bool
}.

Definition ip_rule : Rule world :=
  MkRule ip_Name (fun w req => (w, IPBlock.Evaluate (w_ip w) req)) None.

Definition rate_rule : Rule world :=
  MkRule rl_Name
    (fun w req =>
       let '(rule, r, answer) := rl_Evaluate (w_rate w) (w_redis w) (w_now w) (w_how w) req in
       (World (w_ip w) rule r (w_now w) (w_how w) (w_panicked w), answer))
    (Some rl_BlockStatus).

Definition pattern_rule (r : PatternRule) : Rule world :=
  MkRule (pr_name r)
    (fun w req =>
       match Patterns.Evaluate r req with
       | Some answer => (w, answer)
       | None => (World (w_ip w) (w_rate w) (w_redis w) (w_now w) (w_how w) true,
                  (Model.Allow, EmptyString))
       end)
    None.

(** The chain [run] builds: cheapest rule first. *)
Definition engine_chain (set : SignatureSet) (maxBodyInspect : Z) : list (Rule world) :=
  [ip_rule; rate_rule;
   pattern_rule (NewPatternRule "sqli" (SQLi set) maxBodyInspect);
   pattern_rule (NewPatternRule "xss" (XSS set) maxBodyInspect)].

Definition engine_of (set : SignatureSet) (maxBodyInspect : Z) : Engine world :=
  Rules.New (engine_chain set maxBodyInspect).

(** [applyConfig], with what the store answered. *)
Definition applyConfig (e : Engine world) (ip : IPBlock.IPBlock)
    (enabled : result (gmap string bool)) (ipRules : result (list IPRule))
  : Engine world * IPBlock.IPBlock :=
  let e := match enabled with Ok on => SetEnabled e on | Err _ => e end in
  match ipRules with
  | Err _ => (e, ip)
  | Ok rows => (e, (IPBlock.Set_ ip rows).1)
  end.

(** A blocked request is answered with an HTTP status. *)
Lemma chain_statuses set max : Forall (fun r => 0 <= blockStatus r < 1000) (engine_chain set max).
Proof. do 4 (apply List.Forall_cons; [by vm_compute|]). apply List.Forall_nil. Qed.

(** ** What each rule of the chain does *)

Definition denied (w : world) (req : RequestContext) : Prop :=
  (IPBlock.Evaluate (w_ip w) req).1 = Block.

Definition limited (w : world) (req : RequestContext) : Prop :=
  (rl_Evaluate (w_rate w) (w_redis w) (w_now w) (w_how w) req).2.1 = Block.

Definition matched (sigs : list Signature) (max : Z) (req : RequestContext) : Prop :=
  let r := NewPatternRule EmptyString sigs max in
  some_form (maxScan r) (hit r) (parts req).

(** The world after the rate limit rule has run. *)
Definition counted (w : world) (req : RequestContext) : world := (rule_Evaluate rate_rule w req).1.

Lemma rate_rule_Evaluate w req : rule_Evaluate rate_rule w req
  = (counted w req, (rl_Evaluate (w_rate w) (w_redis w) (w_now w) (w_how w) req).2).
Proof.
  unfold counted. cbn [rate_rule rule_Evaluate].
  by destruct (rl_Evaluate (w_rate w) (w_redis w) (w_now w) (w_how w) req) as [[rule r] answer].
Qed.

Lemma hit_name name name' sigs max v :
  hit (NewPatternRule name sigs max) v <-> hit (NewPatternRule name' sigs max) v.
Proof. done. Qed.

(** What one enabled or disabled rule contributes to the loop. *)
Lemma loop_step on (rule : Rule world) rest w w1 v reason req :
  rule_Evaluate rule w req = (w1, (v, reason)) ->
  decide_loop on (rule :: rest) w req =
    if index on (rule_Name rule)
    then match v with Block => (w1, Some (rule, reason)) | Model.Allow => decide_loop on rest w1 req end
    else decide_loop on rest w req.
Proof. intros E. cbn [decide_loop]. destruct (index on _); cbn [negb]; [by rewrite E|done]. Qed.
End Assembly.

Section Decisions.
Context `{UnicodePrint} `{RegexpLaws} {R : Type} `{Redis R}.

Lemma pattern_rule_Evaluate name sigs max (w : world (R := R)) req :
  exists v reason,
    rule_Evaluate (pattern_rule (NewPatternRule name sigs max)) w req = (w, (v, reason)) /\
    (v = Block <-> matched sigs max req).
Proof.
  destruct (Evaluate_ok (NewPatternRule name sigs max) req (maxScan_pos _ _ _)) as (v & reason & E & Hv).
  exists v, reason. cbn [pattern_rule rule_Evaluate]. by rewrite E.
Qed.

Definition blocks (v : Verdict) : bool := match v with Block => true | Model.Allow => false end.

Lemma blocks_spec v : blocks v = true <-> v = Block.
Proof. by destruct v. Qed.

(** The loop over the chain, as a table over what each enabled rule says. *)
Lemma chain_loop (set : SignatureSet) max on (w : world (R := R)) req :
  exists ip rate sqli xss : bool,
    (ip = true <-> index on "ipblock" = true /\ denied w req) /\
    (rate = true <-> index on "ratelimit" = true /\ limited w req) /\
    (sqli = true <-> index on "sqli" = true /\ matched (SQLi set) max req) /\
    (xss = true <-> index on "xss" = true /\ matched (XSS set) max req) /\
    exists s1 s2 s3 s4,
      decide_loop on (engine_chain set max) w req =
        if ip then (w, Some (ip_rule, s1))
        else
          let w1 := if index on "ratelimit" then counted w req else w in
          if rate then (w1, Some (rate_rule, s2))
          else if sqli then (w1, Some (pattern_rule (NewPatternRule "sqli" (SQLi set) max), s3))
          else if xss then (w1, Some (pattern_rule (NewPatternRule "xss" (XSS set) max), s4))
          else (w1, None).
Proof.
  unfold denied, limited, engine_chain.
  destruct (IPBlock.Evaluate (w_ip w) req) as [v1 s1] eqn:E1.
  assert (rule_Evaluate ip_rule w req = (w, (v1, s1))) as E1' by (cbn; by rewrite E1).
  destruct (rl_Evaluate (w_rate w) (w_redis w) (w_now w) (w_how w) req) as [st [v2 s2]] eqn:E2.
  assert (rule_Evaluate rate_rule w req = (counted w req, (v2, s2))) as E2'
    by by rewrite rate_rule_Evaluate, E2.
  set (w1 := if index on "ratelimit" then counted w req else w).
  destruct (pattern_rule_Evaluate "sqli" (SQLi set) max w1 req) as (v3 & s3 & E3 & H3).
  destruct (pattern_rule_Evaluate "xss" (XSS set) max w1 req) as (v4 & s4 & E4 & H4).
  exists (index on "ipblock" && blocks v1), (index on "ratelimit" && blocks v2),
    (index on "sqli" && blocks v3), (index on "xss" && blocks v4).
  rewrite !andb_true_iff, !blocks_spec, H3, H4.
  split; [done|]. split; [done|]. split; [done|]. split; [done|]. exists s1, s2, s3, s4.
  rewrite (loop_step on ip_rule _ w w v1 s1 req E1').
  rewrite (loop_step on rate_rule _ w (counted w req) v2 s2 req E2').
  cbn [rule_Name ip_rule rate_rule]. unfold ip_Name, rl_Name. subst w1.
  destruct (index on "ipblock"), v1; cbn [andb blocks]; try done;
    (destruct (index on "ratelimit"), v2; cbn [andb blocks]; try done;
     rewrite (loop_step on _ _ _ _ v3 s3 req E3), (loop_step on _ _ _ _ v4 s4 req E4);
     cbn [rule_Name pattern_rule pr_name NewPatternRule decide_loop];
     destruct (index on "sqli"), v3; cbn [andb blocks]; try done;
     destruct (index on "xss"), v4; done).
Qed.

(** Verdict and status. *)
Lemma chain_status (set : SignatureSet) max on (w : world (R := R)) req start stop :
  exists ip rate sqli xss : bool,
    (ip = true <-> index on "ipblock" = true /\ denied w req) /\
    (rate = true <-> index on "ratelimit" = true /\ limited w req) /\
    (sqli = true <-> index on "sqli" = true /\ matched (SQLi set) max req) /\
    (xss = true <-> index on "xss" = true /\ matched (XSS set) max req) /\
    let d := (Decide (SetEnabled (engine_of set max) on) w req start stop).2 in
    (d_Verdict d, d_Status d) =
      (if ip then (Block, 403) else if rate then (Block, 429)
       else if sqli || xss then (Block, 403) else (Model.Allow, 0)).
Proof.
  unfold Decide. rewrite (decide_loop_ext _ on) by (intros r Hr; by apply SetEnabled_index).
  change (rules (SetEnabled (engine_of set max) on)) with (engine_chain (R := R) set max).
  destruct (chain_loop set max on w req) as (ip & rate & sqli & xss & Hi & Hr & Hq & Hx & s1 & s2 & s3 & s4 & ->).
  exists ip, rate, sqli, xss. do 4 (split; [done|]). by destruct ip, rate, sqli, xss.
Qed.

(** C22: The engine's verdict.  For any switches and any request, the decision of the chain built
    at start-up, after those switches were set, is: blocked by the access list with 403 when it is
    on and denies the address; failing that, blocked with 429 when the rate limit is on and
    refuses; failing that, blocked with 403 by the SQL injection signatures and then by the
    cross-site scripting ones, when they are on and match; and allowed otherwise.  The rate limit
    counts the request exactly when it is on and the access list let the request through: a denied
    address changes nothing.  Nothing panics. *)
Theorem chain_verdict (set : SignatureSet) max on (w w' : world (R := R)) req start stop d :
  Decide (SetEnabled (engine_of set max) on) w req start stop = (w', d) ->
  exists ip rate sqli xss : bool,
    (ip = true <-> index on "ipblock" = true /\ denied w req) /\
    (rate = true <-> index on "ratelimit" = true /\ limited w req) /\
    (sqli = true <-> index on "sqli" = true /\ matched (SQLi set) max req) /\
    (xss = true <-> index on "xss" = true /\ matched (XSS set) max req) /\
    (d_Verdict d, d_Rule d, d_Status d) =
      (if ip then (Block, "ipblock", 403)
       else if rate then (Block, "ratelimit", 429)
       else if sqli then (Block, "sqli", 403)
       else if xss then (Block, "xss", 403)
       else (Model.Allow, EmptyString, 0)) /\
    w' = (if negb ip && index on "ratelimit" then counted w req else w) /\
    w_panicked w' = w_panicked w.
Proof.
  unfold Decide. rewrite (decide_loop_ext _ on) by (intros r Hr; by apply SetEnabled_index).
  change (rules (SetEnabled (engine_of set max) on)) with (engine_chain (R := R) set max).
  destruct (chain_loop set max on w req) as (ip & rate & sqli & xss & Hi & Hr & Hq & Hx & s1 & s2 & s3 & s4 & ->).
  intros Hd. exists ip, rate, sqli, xss. do 4 (split; [done|]).
  assert (w_panicked (counted w req) = w_panicked w) as Hp.
  { unfold counted. cbn [rate_rule rule_Evaluate]. by destruct (rl_Evaluate _ _ _ _ _) as [[? ?] ?]. }
  destruct ip, rate, sqli, xss, (index on "ratelimit"); injection Hd as <- <-;
    (split; [done|]; split; done).
Qed.
End Decisions.

(** ** A run *)

#[local] Existing Instance RateLimit.map_redis.
#[local] Existing Instance Patterns.literals.
#[local] Existing Instance Patterns.literals_laws.
#[local] Existing Instance IPBlock.ascii_print.

Definition sample_set : SignatureSet := MkSignatureSet sample_sigs [].

Definition sample_world : world (R := map_store) :=
  World (IPBlock.Set_ NewIPBlock sample_rows).1 (NewRateLimit (RateLimit.New 2 (60 * second))) ∅
    (1000 * second) Answered false.

Definition all_on : gmap string bool :=
  <["ipblock" := true]> (<["ratelimit" := true]> (<["sqli" := true]> {["xss" := true]})).

Definition request_from (ip query : string) : RequestContext :=
  Request "r-1" ip "GET" "/login" query [] "" false 0.

Definition run_on (req : RequestContext) : world (R := map_store) * Decision :=
  Decide (SetEnabled (engine_of sample_set 0) all_on) sample_world req 0 1500.

Example denied_first : (run_on (request_from "203.0.113.7" encoded)).2.(d_Rule) = "ipblock".
Proof. vm_compute. reflexivity. Qed.

Example sqli_blocked : (run_on (request_from "192.0.2.1" encoded)).2.(d_Rule) = "sqli".
Proof. vm_compute. reflexivity. Qed.

Lemma chain_verdict_witness :
  let '(w', d) := Decide (SetEnabled (engine_of sample_set 0) all_on) sample_world
                    (request_from "192.0.2.1" encoded) 0 1500 in
  exists ip rate sqli xss : bool,
    (ip = true <-> index all_on "ipblock" = true /\
                   denied sample_world (request_from "192.0.2.1" encoded)) /\
    d_Verdict d = (if ip || rate || sqli || xss then Block else Model.Allow) /\
    w_panicked w' = false.
Proof.
  destruct (Decide _ _ _ _ _) as [w' d] eqn:E.
  destruct (chain_verdict sample_set 0 all_on sample_world w' (request_from "192.0.2.1" encoded)
    0 1500 d E) as (ip & rate & sqli & xss & Hi & _ & _ & _ & Hd & _ & Hp).
  exists ip, rate, sqli, xss. split; [exact Hi|]. split; [|exact Hp].
  apply (f_equal (fun p => p.1.1)) in Hd. cbn [fst] in Hd. rewrite Hd.
  destruct ip, rate, sqli, xss; reflexivity.
Defined.
