(* ===== verification/Regex.v ===== *)
(** * Regular expressions

    Go's [regexp], the part the signature file is written in: ASCII patterns of literals, classes,
    groups, alternation, counted and uncounted repetition, anchors and word boundaries, under the
    flag [i].  [parse] reads a pattern, [ends] is the leftmost-first matching that [regexp] documents
    and [matches] what it means for a pattern to match.  Patterns outside this part are refused. *)

From S2P Require Import Prelude Utf8 GoText Patterns.

(** ** Syntax *)

(** An item of a class: a range, or a named class or its complement. *)
Inductive item :=
| IRange (lo hi : Z)
| INamed (negated : bool) (ranges : list (Z * Z)).

(** [RRepeat greedy min extra r] repeats [r] at least [min] times and at most [extra] times more;
    [None] is no bound. *)
Inductive re :=
| REmpty
| RClass (negated fold : bool) (items : list item)
| RAny
| RBeginText
| REndText
| RWordBoundary (negated : bool)
| RCat (r s : re)
| RAlt (r s : re)
| RRepeat (greedy : bool) (min : nat) (extra : option nat) (r : re).

(** [unicode.SimpleFold] on the runes that fold to ASCII letters. *)
Definition orbit (c : Z) : list Z :=
  let extra (l : Z) := if l =? 107 then [0x212A] else if l =? 115 then [0x17F] else [] in
  if (97 <=? c) && (c <=? 122) then c :: c - 32 :: extra c
  else if (65 <=? c) && (c <=? 90) then c :: c + 32 :: extra (c + 32)
  else if c =? 0x212A then [c; 75; 107]
  else if c =? 0x17F then [c; 83; 115]
  else [c].

Definition in_ranges (rs : list (Z * Z)) (c : Z) : bool :=
  existsb (fun r : Z * Z => (r.1 <=? c) && (c <=? r.2)) rs.

(** Ranges are of ASCII runes, so a rune is in the folded class when one of its orbit is. *)
Definition in_folded (fold : bool) (rs : list (Z * Z)) (c : Z) : bool :=
  existsb (in_ranges rs) (if fold then orbit c else [c]).

Definition in_item (fold : bool) (c : Z) (i : item) : bool :=
  match i with
  | IRange lo hi => in_folded fold [(lo, hi)] c
  | INamed negated rs => xorb negated (in_folded fold rs c)
  end.

Definition in_class (negated fold : bool) (items : list item) (c : Z) : bool :=
  xorb negated (existsb (in_item fold c) items).

Definition digits : list (Z * Z) := [(48, 57)].
Definition spaces : list (Z * Z) := [(9, 10); (12, 13); (32, 32)].
Definition words : list (Z * Z) := [(48, 57); (65, 90); (95, 95); (97, 122)].

(** ** Matching *)

(** A place in the text: the rune before it and the runes after it. *)
Definition place : Type := option Z * list grune.

Definition is_word (c : option Z) : bool :=
  match c with Some c => in_ranges words c | None => false end.

Definition at_boundary (p : place) : bool :=
  xorb (is_word p.1) (is_word (r_val <$> head p.2)).

Definition one_rune (ok : Z -> bool) (p : place) : list place :=
  match p.2 with
  | c :: rest => if ok (r_val c) then [(Some (r_val c), rest)] else []
  | [] => []
  end.

Definition shorter (q p : place) : bool := (List.length q.2 <? List.length p.2)%nat.

Section Repeat.
Context (greedy : bool) (next : place -> list place).

Definition prefer (more : list place) (p : place) : list place :=
  if greedy then more ++ [p] else p :: more.

(** Once, then any number of times; an iteration that consumes nothing is not repeated. *)
Fixpoint plus (fuel : nat) (p : place) : list place :=
  flat_map (fun q =>
    prefer (if shorter q p then match fuel with S fuel => plus fuel q | O => [] end else []) q) (next p).

Fixpoint star (fuel : nat) (p : place) : list place :=
  prefer (flat_map (fun q =>
    if shorter q p then match fuel with S fuel => star fuel q | O => [] end else []) (next p)) p.

Fixpoint copies (n : nat) (p : place) : list place :=
  match n with O => [p] | S n => flat_map (copies n) (next p) end.

(** At most [n] times: [(x(x)?)?]. *)
Fixpoint upto (n : nat) (p : place) : list place :=
  match n with O => [p] | S n => prefer (flat_map (upto n) (next p)) p end.
End Repeat.

Definition is_zero (n : nat) : bool := match n with O => true | S _ => false end.

Fixpoint nullable (r : re) : bool :=
  match r with
  | RClass _ _ _ | RAny => false
  | RCat r s => nullable r && nullable s
  | RAlt r s => nullable r || nullable s
  | RRepeat _ min _ r => is_zero min || nullable r
  | _ => true
  end.

(** Where a match from [p] can end, in order of preference. *)
Fixpoint ends (r : re) (p : place) : list place :=
  match r with
  | REmpty => [p]
  | RClass negated fold items => one_rune (in_class negated fold items) p
  | RAny => one_rune (fun c => negb (c =? 10)) p
  | RBeginText => match p.1 with None => [p] | Some _ => [] end
  | REndText => match p.2 with [] => [p] | _ => [] end
  | RWordBoundary negated => if xorb negated (at_boundary p) then [p] else []
  | RCat r s => flat_map (ends s) (ends r p)
  | RAlt r s => ends r p ++ ends s p
  | RRepeat greedy min extra r =>
      match extra, min with
      | Some extra, _ => flat_map (upto greedy (ends r) extra) (copies (ends r) min p)
      | None, O =>
          if nullable r then prefer greedy (plus greedy (ends r) (List.length p.2) p) p
          else star greedy (ends r) (List.length p.2) p
      | None, S n => flat_map (fun q => plus greedy (ends r) (List.length q.2) q) (copies (ends r) n p)
      end
  end.

Definition src_len (l : list grune) : Z := foldr (fun r n => slen (r_src r) + n) 0 l.

(** The first place a match starts at, and the preferred end of a match there. *)
Fixpoint find_from (r : re) (before : option Z) (rest : list grune) : option (list grune * list grune) :=
  match ends r (before, rest) with
  | q :: _ => Some (rest, q.2)
  | [] => match rest with c :: rest => find_from r (Some (r_val c)) rest | [] => None end
  end.

(** [Regexp.FindStringIndex] *)
Definition find (r : re) (s : string) : option (Z * Z) :=
  '(a, b) ← find_from r None (runes s);
  Some (slen s - src_len a, slen s - src_len b).

(** ** Meaning *)

Definition takes (ok : Z -> bool) (p q : place) : Prop :=
  exists c rest, p.2 = c :: rest /\ ok (r_val c) = true /\ q = (Some (r_val c), rest).

(** [r] matches what stands between [p] and [q]. *)
Fixpoint matches (r : re) (p q : place) : Prop :=
  match r with
  | REmpty => q = p
  | RClass negated fold items => takes (in_class negated fold items) p q
  | RAny => takes (fun c => negb (c =? 10)) p q
  | RBeginText => p.1 = None /\ q = p
  | REndText => p.2 = [] /\ q = p
  | RWordBoundary negated => xorb negated (at_boundary p) = true /\ q = p
  | RCat r s => exists m, matches r p m /\ matches s m q
  | RAlt r s => matches r p q \/ matches s p q
  | RRepeat _ min extra r =>
      exists k, (min <= k)%nat /\ (forall n, extra = Some n -> (k <= min + n)%nat) /\ nsteps (matches r) k p q
  end.

(** ** Reading patterns *)

Definition rcat (r s : re) : re := match r with REmpty => s | _ => RCat r s end.

Definition is_ascii_alnum (c : ascii) : bool := in_ranges [(48, 57); (65, 90); (97, 122)] (bval c).

(** The named classes after a backslash. *)
Definition named_class (c : ascii) : option item :=
  if Ascii.eqb c "d" then Some (INamed false digits)
  else if Ascii.eqb c "D" then Some (INamed true digits)
  else if Ascii.eqb c "s" then Some (INamed false spaces)
  else if Ascii.eqb c "S" then Some (INamed true spaces)
  else if Ascii.eqb c "w" then Some (INamed false words)
  else if Ascii.eqb c "W" then Some (INamed true words)
  else None.

(** The character an escape stands for. *)
Definition escaped_char (c : ascii) : option Z :=
  if Ascii.eqb c "a" then Some 7
  else if Ascii.eqb c "f" then Some 12
  else if Ascii.eqb c "n" then Some 10
  else if Ascii.eqb c "r" then Some 13
  else if Ascii.eqb c "t" then Some 9
  else if Ascii.eqb c "v" then Some 11
  else if (bval c <? 128) && negb (is_ascii_alnum c) then Some (bval c)
  else None.

Definition plain_char (c : ascii) : option Z := if bval c <? 128 then Some (bval c) else None.

Definition class_char (s : string) : option (Z * string) :=
  match s with
  | EmptyString => None
  | String c s =>
      if Ascii.eqb c bslash then
        match s with
        | String e s => x ← escaped_char e; Some (x, s)
        | EmptyString => None
        end
      else x ← plain_char c; Some (x, s)
  end.

(** One item of a class, in front of [s]. *)
Definition class_item (s : string) : option (item * string) :=
  let range :=
    '(lo, s1) ← class_char s;
    match s1 with
    | String "-" (String c _ as s2) =>
        if Ascii.eqb c "]" then Some (IRange lo lo, s1)
        else '(hi, s3) ← class_char s2; if hi <? lo then None else Some (IRange lo hi, s3)
    | _ => Some (IRange lo lo, s1)
    end in
  match s with
  | String "[" (String ":" _) => None
  | String c (String e s2) =>
      if Ascii.eqb c bslash
      then match named_class e with Some i => Some (i, s2) | None => range end
      else range
  | _ => range
  end.

(** Items up to the closing bracket; a bracket that comes [first] is an item. *)
Fixpoint class_items (fuel : nat) (first : bool) (s : string) : option (list item * string) :=
  match fuel with
  | O => None
  | S fuel =>
      match s with
      | EmptyString => None
      | String c s' =>
          if Ascii.eqb c "]" && negb first then Some ([], s')
          else
            '(i, s1) ← class_item s;
            '(is_, s2) ← class_items fuel false s1;
            Some (i :: is_, s2)
      end
  end.

Definition parse_class (fold : bool) (s : string) : option (re * string) :=
  let '(negated, s) := match s with String "^" s => (true, s) | _ => (false, s) end in
  '(items, s) ← class_items (String.length s) true s;
  Some (RClass negated fold items, s).

Fixpoint take_digits (s : string) : list Z * string :=
  match s with
  | String c s' =>
      if in_ranges digits (bval c) then let '(ds, r) := take_digits s' in (bval c - 48 :: ds, r) else ([], s)
  | EmptyString => ([], EmptyString)
  end.

(** A number without leading zeros. *)
Definition read_count (s : string) : option (nat * string) :=
  match take_digits s with
  | ([], _) | (0 :: _ :: _, _) => None
  | (ds, r) => Some (Z.to_nat (foldl (fun n d => n * 10 + d) 0 (firstn 5 ds)), r)
  end.

(** [{n}], [{n,}], [{n,m}], after the brace. *)
Definition read_bounds (s : string) : option (nat * option nat * string) :=
  '(n, s) ← read_count s;
  match s with
  | String "}" s => Some (n, Some n, s)
  | String "," (String "}" s) => Some (n, None, s)
  | String "," s =>
      '(m, s) ← read_count s;
      match s with String "}" s => Some (n, Some m, s) | _ => None end
  | _ => None
  end.

(** Counted repetitions are not nested here; Go bounds the product of their counts. *)
Fixpoint counted (r : re) : bool :=
  match r with
  | RCat r s | RAlt r s => counted r || counted s
  | RRepeat _ min extra r => (2 <=? min + default O extra)%nat || counted r
  | _ => false
  end.

Definition bounds_ok (min : nat) (max : option nat) (r : re) : bool :=
  (min <=? 1000)%nat && negb (counted r)
  && match max with Some m => (m <=? 1000)%nat && (min <=? m)%nat | None => true end.

(** The operator in front of [s], if there is one. *)
Definition read_operator (s : string) : option (nat * option nat * string) :=
  match s with
  | String "*" s => Some (O, None, s)
  | String "+" s => Some (1%nat, None, s)
  | String "?" s => Some (O, Some 1%nat, s)
  | String "{" s => read_bounds s
  | _ => None
  end.

Definition is_counted (s : string) : bool := match s with String "{" _ => true | _ => false end.

(** An operand with the repetition after it; a second one is an error. *)
Definition parse_postfix (r : re) (s : string) : option (re * string) :=
  match read_operator s with
  | None => Some (r, s)
  | Some (min, max, s1) =>
      if is_counted s && negb (bounds_ok min max r) then None
      else
        let '(greedy, s2) := match s1 with String "?" s2 => (false, s2) | _ => (true, s1) end in
        match read_operator s2 with
        | Some _ => None
        | None => Some (RRepeat greedy min ((fun m => m - min)%nat <$> max) r, s2)
        end
  end.

Definition literal (fold : bool) (c : Z) : re := RClass false fold [IRange c c].

Definition parse_escape (fold : bool) (s : string) : option (re * string) :=
  match s with
  | EmptyString => None
  | String c s =>
      if Ascii.eqb c "b" then Some (RWordBoundary false, s)
      else if Ascii.eqb c "B" then Some (RWordBoundary true, s)
      else if Ascii.eqb c "A" then Some (RBeginText, s)
      else if Ascii.eqb c "z" then Some (REndText, s)
      else match named_class c with
           | Some i => Some (RClass false fold [i], s)
           | None => x ← escaped_char c; Some (literal fold x, s)
           end
  end.

(** An operand that is not a group. *)
Definition parse_simple (fold : bool) (c : ascii) (s : string) : option (re * string) :=
  if Ascii.eqb c "[" then parse_class fold s
  else if Ascii.eqb c "." then Some (RAny, s)
  else if Ascii.eqb c "^" then Some (RBeginText, s)
  else if Ascii.eqb c "$" then Some (REndText, s)
  else if Ascii.eqb c bslash then parse_escape fold s
  else match read_operator (String c s) with
       | Some _ => None
       | None => x ← plain_char c; Some (literal fold x, s)
       end.

(** Alternatives up to a closing parenthesis or the end, and one alternative; the flag [i] holds
    to the end of the group it stands in. *)
Fixpoint parse_alt (fuel : nat) (fold : bool) (s : string) : option (re * string) :=
  match fuel with
  | O => None
  | S fuel =>
      '(r, fold, s) ← parse_cat fuel fold REmpty s;
      match s with
      | String "|" s => '(r', s) ← parse_alt fuel fold s; Some (RAlt r r', s)
      | _ => Some (r, s)
      end
  end
with parse_cat (fuel : nat) (fold : bool) (acc : re) (s : string) : option (re * bool * string) :=
  match fuel with
  | O => None
  | S fuel =>
      match s with
      | EmptyString | String "|" _ | String ")" _ => Some (acc, fold, s)
      | String "(" (String "?" (String "i" (String ")" s))) => parse_cat fuel true acc s
      | String c s1 =>
          '(r, s2) ←
            (if Ascii.eqb c "(" then
               body ← match s1 with
                      | String "?" (String ":" s) => Some s
                      | String "?" _ => None
                      | _ => Some s1
                      end;
               '(r, s) ← parse_alt fuel fold body;
               match s with String ")" s => Some (r, s) | _ => None end
             else parse_simple fold c s1);
          '(r, s3) ← parse_postfix r s2;
          parse_cat fuel fold (rcat acc r) s3
      end
  end.

(** Every call but those of [parse_alt] to [parse_cat] consumes a character. *)
Definition parse (s : string) : option re :=
  match parse_alt (2 * String.length s + 3) false s with
  | Some (r, EmptyString) => Some r
  | _ => None
  end.

(** The engine of regular expressions. *)
#[export] Instance re2 : Regexp := {|
  regex := re;
  compile s := of_option "error parsing regexp" (parse s);
  FindStringIndex := find
|}.

(** ** The matcher finds exactly the matches *)

Lemma in_flat_map' {A B} (f : A -> list B) l y : y ∈ flat_map f l <-> exists x, x ∈ l /\ y ∈ f x.
Proof.
  rewrite list_elem_of_In, in_flat_map. split; intros (x & Hx & Hy); exists x;
    by rewrite ?list_elem_of_In in *.
Qed.

(** Nothing or something was consumed. *)
Definition forward (R : place -> place -> Prop) : Prop :=
  forall p q, R p q -> q = p \/ (List.length q.2 < List.length p.2)%nat.

Section Repeated.
Context (greedy : bool) (next : place -> list place) (R : place -> place -> Prop).
Context (Hnext : forall p q, q ∈ next p <-> R p q) (HR : forward R).

Lemma in_prefer more p q : q ∈ prefer greedy more p <-> q ∈ more \/ q = p.
Proof.
  unfold prefer. destruct greedy; [by rewrite elem_of_app, list_elem_of_singleton|].
  rewrite elem_of_cons. apply or_comm.
Qed.

Lemma in_copies n p q : q ∈ copies next n p <-> nsteps R n p q.
Proof.
  revert p. induction n as [|n IH]; intros p; cbn [copies].
  - rewrite list_elem_of_singleton. split; [intros ->; constructor|by inversion 1].
  - rewrite in_flat_map'. split.
    + intros (x & Hx & Hq). econstructor; [by apply Hnext|by apply IH].
    + inversion 1; subst. eexists. split; [by apply Hnext|by apply IH].
Qed.

Lemma in_upto n p q : q ∈ upto greedy next n p <-> exists k, (k <= n)%nat /\ nsteps R k p q.
Proof.
  revert p. induction n as [|n IH]; intros p; cbn [upto].
  - rewrite list_elem_of_singleton. split.
    + intros ->. exists O. split; [lia|constructor].
    + intros (k & Hk & Hq). assert (k = O) as -> by lia. by inversion Hq.
  - rewrite in_prefer, in_flat_map'. split.
    + intros [(x & Hx & (k & Hk & Hq)%IH)| ->].
      * exists (S k). split; [lia|]. econstructor; [by apply Hnext|done].
      * exists O. split; [lia|constructor].
    + intros (k & Hk & Hq). inversion Hq as [|k' ? x ? Hx Hq']; subst; [by right|].
      left. exists x. split; [by apply Hnext|]. apply IH. exists k'. split; [lia|done].
Qed.

Lemma shorter_spec p q : R p q -> if shorter q p then (List.length q.2 < List.length p.2)%nat else q = p.
Proof.
  intros Hpq. unfold shorter. destruct (Nat.ltb_spec (List.length q.2) (List.length p.2)); [done|].
  destruct (HR _ _ Hpq); [done|lia].
Qed.

Lemma in_shorter p x q fuel (more : nat -> place -> list place) (P : place -> place -> Prop) :
  (List.length p.2 <= fuel)%nat -> R p x ->
  (forall m, (m < fuel)%nat -> (List.length x.2 <= m)%nat -> q ∈ more m x <-> P x q) ->
  q ∈ (if shorter x p then match fuel with S fuel => more fuel x | O => [] end else []) <->
  shorter x p = true /\ P x q.
Proof.
  intros Hf Hx IH. pose proof (shorter_spec _ _ Hx) as Hl. destruct (shorter x p).
  - destruct fuel as [|fuel]; [lia|]. rewrite IH by lia. by split; [|intros [_ ?]].
  - split; [by intros ?%elem_of_nil|by intros [] ].
Qed.

(** A path may leave out the steps that consume nothing. *)
Lemma in_star fuel p q : (List.length p.2 <= fuel)%nat -> q ∈ star greedy next fuel p <-> rtc R p q.
Proof.
  revert p. induction fuel as [fuel IH] using lt_wf_ind. intros p Hf.
  assert (q ∈ star greedy next fuel p <-> (exists x, R p x /\ shorter x p = true /\ rtc R x q) \/ q = p) as ->.
  { transitivity ((exists x, x ∈ next p /\
      q ∈ (if shorter x p then match fuel with S fuel => star greedy next fuel x | O => [] end else [])) \/ q = p).
    - destruct fuel; cbn [star]; by rewrite in_prefer, in_flat_map'.
    - apply or_iff_compat_r.
      split; intros (x & Hx & Hq); exists x; (split; [done || by apply Hnext|]); assert (R p x) by (done || by apply Hnext);
        apply (in_shorter p x q fuel (star greedy next) (rtc R)); auto. }
  split.
  - intros [(x & Hx & _ & Hq)| ->]; [by eapply rtc_l|done].
  - intros Hq. induction Hq as [p|p x q Hx Hq IHq]; [by right|].
    pose proof (shorter_spec _ _ Hx) as Hl. destruct (shorter x p) eqn:E.
    + left. by exists x.
    + subst x. by apply IHq.
Qed.

Lemma in_plus fuel p q : (List.length p.2 <= fuel)%nat -> q ∈ plus greedy next fuel p <-> tc R p q.
Proof.
  revert p. induction fuel as [fuel IH] using lt_wf_ind. intros p Hf.
  assert (q ∈ plus greedy next fuel p <->
    exists x, R p x /\ ((shorter x p = true /\ tc R x q) \/ q = x)) as ->.
  { transitivity (exists x, x ∈ next p /\
      (q ∈ (if shorter x p then match fuel with S fuel => plus greedy next fuel x | O => [] end else []) \/ q = x)).
    - destruct fuel; cbn [plus]; rewrite in_flat_map'; split; intros (x & Hx & Hq); exists x; (split; [done|]);
        by apply in_prefer.
    - split; intros (x & Hx & Hq); exists x; (split; [done || by apply Hnext|]); assert (R p x) by (done || by apply Hnext);
        (destruct Hq as [Hq|Hq]; [left; apply (in_shorter p x q fuel (plus greedy next) (tc R)); auto|by right]). }
  split.
  - intros (x & Hx & [[_ Hq]| ->]); [by eapply tc_l|by constructor].
  - intros Hq. induction Hq as [p q Hx|p x q Hx Hq IHq].
    + exists q. split; [done|by right].
    + pose proof (shorter_spec _ _ Hx) as Hl. destruct (shorter x p) eqn:E.
      * exists x. split; [done|]. by left.
      * subst x. by apply IHq.
Qed.
End Repeated.

Lemma takes_forward ok : forward (takes ok).
Proof. intros p q (c & rest & E & _ & ->). right. rewrite E. cbn. lia. Qed.

Lemma one_rune_spec ok p q : q ∈ one_rune ok p <-> takes ok p q.
Proof.
  unfold one_rune, takes. split.
  - destruct p.2 as [|c rest]; [by intros ?%elem_of_nil|].
    destruct (ok (r_val c)) eqn:E; [|by intros ?%elem_of_nil]. intros ->%list_elem_of_singleton. by exists c, rest.
  - intros (c & rest & -> & -> & ->). left.
Qed.

Lemma nsteps_forward R n : forward R -> forward (nsteps R n).
Proof.
  intros Hf p q Hn. induction Hn as [p|n p x q Hx _ IH]; [by left|].
  destruct (Hf _ _ Hx) as [-> |Hl]; [done|]. destruct IH as [-> |IH]; right; lia || done.
Qed.

Lemma matches_forward r : forward (matches r).
Proof.
  induction r as [|n f items| | | |n|r IHr s IHs|r IHr s IHs|g n e r IHr]; cbn [matches].
  - intros p q ->. by left.
  - apply takes_forward.
  - apply takes_forward.
  - intros p q [_ ->]. by left.
  - intros p q [_ ->]. by left.
  - intros p q [_ ->]. by left.
  - intros p q (m & Hm & Hq). destruct (IHr _ _ Hm) as [-> |Hl]; [by apply IHs|].
    destruct (IHs _ _ Hq) as [-> |Hl']; right; lia || done.
  - intros p q [Hq|Hq]; auto.
  - intros p q (k & _ & _ & Hk). by apply (nsteps_forward _ k IHr).
Qed.

Lemma nsteps_split (R : place -> place -> Prop) n k p q :
  nsteps R (n + k) p q <-> exists m, nsteps R n p m /\ nsteps R k m q.
Proof.
  split.
  - revert p. induction n as [|n IH]; intros p; cbn [Nat.add].
    + intros Hq. exists p. split; [constructor|done].
    + inversion 1 as [|? ? x ? Hx Hq]; subst. destruct (IH _ Hq) as (m & Hm & Hk).
      exists m. split; [by econstructor|done].
  - intros (m & Hm & Hk). by eapply nsteps_trans.
Qed.

Lemma if_singleton (b : bool) (p q : place) : q ∈ (if b then [p] else []) <-> b = true /\ q = p.
Proof.
  destruct b.
  - rewrite list_elem_of_singleton. by split; [|intros [_ ?]].
  - split; [by intros ?%elem_of_nil|by intros [] ].
Qed.

(** [ends] finds every place a match can end, and no other. *)
Lemma ends_spec r p q : q ∈ ends r p <-> matches r p q.
Proof.
  revert p q.
  induction r as [|n f items| | | |n|r IHr s IHs|r IHr s IHs|g n e r IHr]; intros p q; cbn [ends matches].
  - apply list_elem_of_singleton.
  - apply one_rune_spec.
  - apply one_rune_spec.
  - destruct p.1; [split; [by intros ?%elem_of_nil|by intros [] ]|].
    rewrite list_elem_of_singleton. by split; [|intros [_ ?]].
  - destruct p.2; [|split; [by intros ?%elem_of_nil|by intros [] ]].
    rewrite list_elem_of_singleton. by split; [|intros [_ ?]].
  - apply if_singleton.
  - rewrite in_flat_map'. split; intros (m & Hm & Hq); exists m; (split; [by apply IHr|by apply IHs]).
  - rewrite elem_of_app, IHr, IHs. done.
  - pose proof (matches_forward r) as Hf.
    destruct e as [e|].
    + rewrite in_flat_map'. split.
      * intros (m & Hm & Hq). apply (in_copies _ _ IHr) in Hm. apply (in_upto _ _ _ IHr) in Hq as (k & Hk & Hq).
        exists (n + k)%nat. split; [lia|]. split; [intros ? [= <-]; lia|]. apply nsteps_split. by exists m.
      * intros (k & Hk & Hm & Hq). specialize (Hm e eq_refl).
        replace k with (n + (k - n))%nat in Hq by lia. apply nsteps_split in Hq as (m & Hm' & Hq).
        exists m. split; [by apply (in_copies _ _ IHr)|]. apply (in_upto _ _ _ IHr). exists (k - n)%nat. split; [lia|done].
    + destruct n as [|n].
      * transitivity (rtc (matches r) p q).
        -- destruct (nullable r); [|by apply in_star].
           rewrite in_prefer, (in_plus _ _ _ IHr Hf) by done. split.
           ++ intros [Hq| ->]; [by apply tc_rtc|done].
           ++ intros [-> |Hq]%rtc_tc; [by right|by left].
        -- rewrite rtc_nsteps. split; intros (k & Hk); exists k; [|by destruct Hk as (_ & _ & ?)].
           split; [lia|]. by split.
      * rewrite in_flat_map'. split.
        -- intros (m & Hm & Hq). apply (in_copies _ _ IHr) in Hm.
           apply (in_plus _ _ _ IHr Hf) in Hq; [|done]. apply tc_nsteps in Hq as (k & Hk & Hq).
           exists (n + k)%nat. split; [lia|]. split; [done|]. apply nsteps_split. by exists m.
        -- intros (k & Hk & _ & Hq). replace k with (n + (k - n))%nat in Hq by lia.
           apply nsteps_split in Hq as (m & Hm & Hq). exists m. split; [by apply (in_copies _ _ IHr)|].
           apply (in_plus _ _ _ IHr Hf); [done|]. apply tc_nsteps. exists (k - n)%nat. split; [lia|done].
Qed.

(** ** Searching *)

(** The rune before a place, after reading [l] from a place with [b] before it. *)
Definition after (b : option Z) (l : list grune) : option Z := foldl (fun _ c => Some (r_val c)) b l.

(** A match reads a stretch of the text. *)
Definition reads (p q : place) : Prop := exists mid, p.2 = mid ++ q.2 /\ q.1 = after p.1 mid.

#[export] Instance reads_preorder : PreOrder reads.
Proof.
  split.
  - intros p. by exists [].
  - intros p q r (m1 & E1 & F1) (m2 & E2 & F2). exists (m1 ++ m2). split.
    + by rewrite E1, E2, app_assoc.
    + rewrite F2, F1. unfold after. by rewrite foldl_app.
Qed.

Lemma takes_reads ok p q : takes ok p q -> reads p q.
Proof. intros (c & rest & E & _ & ->). exists [c]. by rewrite E. Qed.

Lemma matches_reads r p q : matches r p q -> reads p q.
Proof.
  revert p q.
  induction r as [|n f items| | | |n|r IHr s IHs|r IHr s IHs|g n e r IHr]; intros p q; cbn [matches].
  - by intros ->.
  - apply takes_reads.
  - apply takes_reads.
  - by intros [_ ->].
  - by intros [_ ->].
  - by intros [_ ->].
  - intros (m & Hm & Hq). etransitivity; eauto.
  - intros [Hq|Hq]; auto.
  - intros (k & _ & _ & Hk). induction Hk as [|k p m q Hm _ IH]; [done|]. etransitivity; eauto.
Qed.

Lemma src_len_cons c l : src_len (c :: l) = slen (r_src c) + src_len l.
Proof. done. Qed.

Lemma src_len_app a b : src_len (a ++ b) = src_len a + src_len b.
Proof. induction a as [|c a IH]; [done|]. cbn [app]. rewrite !src_len_cons. lia. Qed.

Lemma src_len_nonneg a : 0 <= src_len a.
Proof. induction a as [|c a IH]; [done|]. rewrite src_len_cons. pose proof (slen_nonneg (r_src c)). lia. Qed.

Lemma src_len_runes s : src_len (runes s) = slen s.
Proof.
  rewrite <- (runes_concat s) at 2. induction (runes s) as [|c l IH]; [done|].
  rewrite src_len_cons. cbn [map sconcat]. by rewrite slen_app, IH.
Qed.

Definition found_at (r : re) (b : option Z) (pre rest : list grune) : Prop :=
  exists q, matches r (after b pre, rest) q.

Lemma ends_nil r p : ends r p = [] <-> ~ exists q, matches r p q.
Proof.
  split.
  - intros E (q & Hq%ends_spec). rewrite E in Hq. by apply elem_of_nil in Hq.
  - intros Hn. destruct (ends r p) as [|q l] eqn:E; [done|]. destruct Hn. exists q. apply ends_spec. rewrite E. left.
Qed.

(** The search stops at the first place a match starts at, with the preferred match there. *)
Lemma find_from_some r b l a e : find_from r b l = Some (a, e) ->
  exists pre q, l = pre ++ a /\ e = q.2 /\ matches r (after b pre, a) q /\
    forall pre' a', l = pre' ++ a' -> (List.length pre' < List.length pre)%nat -> ~ found_at r b pre' a'.
Proof.
  revert b. induction l as [|c l IH]; intros b; cbn [find_from];
    destruct (ends r (b, _)) as [|q qs] eqn:E; try done.
  1,3: intros [= <- <-]; exists [], q; split; [done|]; split; [done|]; split; [apply ends_spec; cbn [after foldl]; rewrite E; left|];
       intros pre' a' _ Hl; cbn in Hl; lia.
  intros (pre & q & -> & -> & Hq & Hmin)%IH. exists (c :: pre), q. split; [done|]. split; [done|]. split; [done|].
  intros [|c' pre'] a' Ha Hl; cbn in Ha.
  - subst a'. by apply ends_nil in E.
  - injection Ha as <- Ha. apply (Hmin pre' a' Ha). cbn in Hl. lia.
Qed.

Lemma find_from_none r b l : find_from r b l = None <-> forall pre rest, l = pre ++ rest -> ~ found_at r b pre rest.
Proof.
  revert b. induction l as [|c l IH]; intros b; cbn [find_from];
    destruct (ends r (b, _)) as [|q qs] eqn:E.
  2,4: split; [done|]; intros Hn; exfalso; apply (Hn [] _ eq_refl); exists q; apply ends_spec; cbn [after foldl]; rewrite E; left.
  - split; [|done]. intros _ pre rest Hp. symmetry in Hp. apply app_eq_nil in Hp as [-> ->]. by apply ends_nil in E.
  - rewrite IH. split.
    + intros Hn [|c' pre] rest Hp; cbn in Hp.
      * subst rest. by apply ends_nil in E.
      * injection Hp as <- Hp. by apply Hn.
    + intros Hn pre rest ->. apply (Hn (c :: pre) rest eq_refl).
Qed.

Lemma find_some r s : is_Some (find r s) <-> exists pre rest, runes s = pre ++ rest /\ found_at r None pre rest.
Proof.
  unfold find. destruct (find_from r None (runes s)) as [[a e]|] eqn:E; cbn.
  - split; [|done]. intros _. apply find_from_some in E as (pre & q & Ha & _ & Hq & _). exists pre, a. split; [done|].
    by exists q.
  - split; [by intros []|]. intros (pre & rest & Hp & Hf). by destruct (proj1 (find_from_none _ _ _) E pre rest Hp).
Qed.

#[export] Instance re2_laws : RegexpLaws.
Proof.
  intros r s i j. cbn [FindStringIndex re2]. unfold find.
  destruct (find_from r None (runes s)) as [[a e]|] eqn:E; [|done]. cbn. intros [= <- <-].
  apply find_from_some in E as (pre & q & Ha & -> & Hq & _). apply matches_reads in Hq as (mid & Em & _). cbn in Em.
  rewrite <- (src_len_runes s), Ha, Em, !src_len_app.
  pose proof (src_len_nonneg pre). pose proof (src_len_nonneg mid). pose proof (src_len_nonneg q.2). lia.
Qed.
