(* ===== verification/Signatures.v ===== *)
(** * The signature file and the corpus

    [engine/internal/rules/patterns.json], the signatures built into the engine, and
    [test/corpus/corpus.go] with [attacks.json] and [benign.json], the requests the rules must and
    must not block.  The files stand here byte for byte; a tilde, which none of them has, stands
    for a double quote.  Their signatures are matched by the engine of [Regex]. *)

From S2P Require Import Prelude Utf8 GoText GoTime GoJson GoStruct Model RateLimit Rules IPBlock Patterns Assembly Regex.

Fixpoint unquoted (s : string) : string :=
  match s with
  | EmptyString => EmptyString
  | String c s => String (if Ascii.eqb c "~" then dquote else c) (unquoted s)
  end.

(** ** [patterns.json] *)

Definition defaultPatterns : string := unquoted
"{
  ~_comment~: [
    ~Signature set for the sqli and xss rules (RF-03).~,
    ~~,
    ~This file is versioned separately from the code so signatures can be~,
    ~updated without recompiling the engine, which is what §8.2 asks for when~,
    ~it requires periodic rule updates. Point OS_PATTERNS_FILE at a copy of~,
    ~this file to override it at runtime.~,
    ~~,
    ~Patterns are Go RE2 syntax: no backreferences, linear time, no catastrophic~,
    ~backtracking. That matters here — these run on the request path, against~,
    ~attacker-controlled input.~,
    ~~,
    ~Every pattern is scanned against the path, the query string, header values,~,
    ~cookies and the (truncated) body, both raw and percent-decoded.~
  ],

  ~sqli~: [
    {
      ~id~: ~union_select~,
      ~pattern~: ~(?i)\\bunion\\b[\\s\\S]{0,30}?\\bselect\\b~,
      ~description~: ~UNION SELECT, the classic column-stealing injection~
    },
    {
      ~id~: ~quoted_tautology~,
      ~pattern~: ~(?i)['\~`)]\\s*(or|and)\\s+['\~`]?[0-9a-z_]+['\~`]?\\s*(=|<>|!=|like)\\s*['\~`]?[0-9a-z_]+~,
      ~description~: ~Quote-escape followed by an always-true comparison, e.g. ' OR '1'='1~
    },
    {
      ~id~: ~bare_tautology~,
      ~pattern~: ~(?i)\\b(or|and)\\s+['\~`]?\\d+['\~`]?\\s*(=|<>|!=)\\s*['\~`]?\\d+~,
      ~description~: ~OR 1=1 style tautology without quoting (RE2 has no backreferences, so this matches any numeric comparison, not only equal operands)~
    },
    {
      ~id~: ~stacked_query~,
      ~pattern~: ~(?i);\\s*(drop|delete|update|insert|alter|truncate|create|grant)\\s+~,
      ~description~: ~Statement terminator followed by a second, destructive statement~
    },
    {
      ~id~: ~comment_terminator~,
      ~pattern~: ~(?i)['\~`]\\s*(--|#|/\\*)~,
      ~description~: ~Quote followed by a comment marker, used to swallow the rest of the query~
    },
    {
      ~id~: ~time_based_blind~,
      ~pattern~: ~(?i)\\b(sleep|pg_sleep|benchmark|waitfor\\s+delay|dbms_pipe\\.receive_message)\\s*[(']~,
      ~description~: ~Time-delay function used for blind injection~
    },
    {
      ~id~: ~schema_probe~,
      ~pattern~: ~(?i)\\b(information_schema|pg_catalog|sysobjects|mysql\\.user|pg_shadow)\\b~,
      ~description~: ~Direct reference to a database catalogue~
    },
    {
      ~id~: ~file_access~,
      ~pattern~: ~(?i)\\b(load_file|into\\s+(out|dump)file|pg_read_file|xp_cmdshell)\\b~,
      ~description~: ~SQL function that reads or writes the host filesystem~
    }
  ],

  ~xss~: [
    {
      ~id~: ~script_tag~,
      ~pattern~: ~(?i)<\\s*script\\b~,
      ~description~: ~Opening <script> tag~
    },
    {
      ~id~: ~script_close~,
      ~pattern~: ~(?i)<\\s*/\\s*script\\s*>~,
      ~description~: ~Closing </script> tag, used to break out of an inline script~
    },
    {
      ~id~: ~javascript_uri~,
      ~pattern~: ~(?i)\\b(javascript|vbscript)\\s*:~,
      ~description~: ~Script URI in an attribute such as href or src~
    },
    {
      ~id~: ~event_handler~,
      ~pattern~: ~(?i)\\bon(error|load|click|mouseover|mouseenter|focus|blur|submit|toggle|animationstart)\\s*=~,
      ~description~: ~Inline event handler attribute~
    },
    {
      ~id~: ~dangerous_tag~,
      ~pattern~: ~(?i)<\\s*(iframe|object|embed|applet|svg|base|form|meta)\\b~,
      ~description~: ~Tag that can execute or redirect when injected into a page~
    },
    {
      ~id~: ~cookie_theft~,
      ~pattern~: ~(?i)\\bdocument\\s*\\.\\s*(cookie|location|write)\\b~,
      ~description~: ~DOM access typical of a payload exfiltrating a session~
    },
    {
      ~id~: ~js_sink~,
      ~pattern~: ~(?i)\\b(eval|setTimeout|setInterval|Function)\\s*\\(\\s*['\~`]~,
      ~description~: ~Script executed from a string literal~
    },
    {
      ~id~: ~data_uri_html~,
      ~pattern~: ~(?i)data:\\s*text/html~,
      ~description~: ~HTML delivered through a data: URI~
    }
  ]
}
".

(** ** The corpus ([test/corpus/corpus.go]) *)

Definition attacksJSON : string := unquoted
"{
  ~_comment~: [
    ~Attack corpus for RF-03, shared by three levels of the test suite:~,
    ~~,
    ~  - engine/internal/rules/corpus_test.go   the rule chain, in isolation~,
    ~  - test/e2e/                              the live stack, through the proxy~,
    ~  - test/load/k6/                          the 'attack' load scenario~,
    ~~,
    ~A vector added here is therefore covered in all three at once. See~,
    ~docs/testing-strategy.md for how to add one.~,
    ~~,
    ~Fields are written exactly as they travel on the wire: 'query' is~,
    ~percent-encoded the way a client would send it, because that is what both~,
    ~Nginx hands the engine and what an HTTP client will transmit unchanged.~,
    ~Several vectors are therefore only detectable after the engine decodes the~,
    ~field, which is deliberate — it exercises the decode pass of scanTargets.~,
    ~~,
    ~'signature' names the pattern that must fire. Signatures are evaluated in~,
    ~file order per field, so each case here is written to reach its own~,
    ~signature and no earlier one; a case that starts matching a different~,
    ~signature is a real change in detection behaviour and should fail the test.~
  ],

  ~cases~: [
    {
      ~id~: ~sqli_union_select_query~,
      ~description~: ~q=x' UNION SELECT clave FROM usuarios-- — the classic column-stealing injection~,
      ~rule~: ~sqli~,
      ~signature~: ~union_select~,
      ~method~: ~GET~,
      ~path~: ~/buscar~,
      ~query~: ~q=x%27%20UNION%20SELECT%20clave%20FROM%20usuarios--~
    },
    {
      ~id~: ~sqli_quoted_tautology_encoded~,
      ~description~: ~id=1' OR '1'='1, fully percent-encoded — invisible until the engine decodes it~,
      ~rule~: ~sqli~,
      ~signature~: ~quoted_tautology~,
      ~method~: ~GET~,
      ~path~: ~/productos~,
      ~query~: ~id=1%27%20OR%20%271%27%3D%271~
    },
    {
      ~id~: ~sqli_bare_tautology~,
      ~description~: ~id=1 OR 1=1 — tautology without quoting~,
      ~rule~: ~sqli~,
      ~signature~: ~bare_tautology~,
      ~method~: ~GET~,
      ~path~: ~/productos~,
      ~query~: ~id=1%20OR%201%3D1~
    },
    {
      ~id~: ~sqli_stacked_query~,
      ~description~: ~id=1; DROP TABLE usuarios — a second, destructive statement~,
      ~rule~: ~sqli~,
      ~signature~: ~stacked_query~,
      ~method~: ~GET~,
      ~path~: ~/productos~,
      ~query~: ~id=1%3B%20DROP%20TABLE%20usuarios~
    },
    {
      ~id~: ~sqli_comment_terminator_body~,
      ~description~: ~usuario=admin'--&clave=x in a POST body — the case auth_request could never see (§1 of implementation-decisions.md)~,
      ~rule~: ~sqli~,
      ~signature~: ~comment_terminator~,
      ~method~: ~POST~,
      ~path~: ~/login~,
      ~headers~: { ~content-type~: ~application/x-www-form-urlencoded~ },
      ~body~: ~usuario=admin'--&clave=x~
    },
    {
      ~id~: ~sqli_time_based_blind~,
      ~description~: ~id=1 AND sleep(5) — time-delay probe for blind injection~,
      ~rule~: ~sqli~,
      ~signature~: ~time_based_blind~,
      ~method~: ~GET~,
      ~path~: ~/productos~,
      ~query~: ~id=1%20AND%20sleep(5)~
    },
    {
      ~id~: ~sqli_schema_probe~,
      ~description~: ~tabla=information_schema.tables — direct reference to the database catalogue~,
      ~rule~: ~sqli~,
      ~signature~: ~schema_probe~,
      ~method~: ~GET~,
      ~path~: ~/informes~,
      ~query~: ~tabla=information_schema.tables~
    },
    {
      ~id~: ~sqli_file_access~,
      ~description~: ~f=load_file('/etc/passwd') — SQL function reaching the host filesystem~,
      ~rule~: ~sqli~,
      ~signature~: ~file_access~,
      ~method~: ~GET~,
      ~path~: ~/descargas~,
      ~query~: ~f=load_file(%27/etc/passwd%27)~
    },
    {
      ~id~: ~xss_script_tag_query~,
      ~description~: ~q=<script>alert(1)</script> in the query string~,
      ~rule~: ~xss~,
      ~signature~: ~script_tag~,
      ~method~: ~GET~,
      ~path~: ~/buscar~,
      ~query~: ~q=%3Cscript%3Ealert(1)%3C/script%3E~
    },
    {
      ~id~: ~xss_script_tag_body~,
      ~description~: ~A stored-XSS comment — the payload lives in the POST body~,
      ~rule~: ~xss~,
      ~signature~: ~script_tag~,
      ~method~: ~POST~,
      ~path~: ~/comentarios~,
      ~headers~: { ~content-type~: ~application/x-www-form-urlencoded~ },
      ~body~: ~texto=<script>fetch(\~//evil\~)</script>~
    },
    {
      ~id~: ~xss_script_close~,
      ~description~: ~q=</script><img src=x> — breaking out of an inline script block~,
      ~rule~: ~xss~,
      ~signature~: ~script_close~,
      ~method~: ~GET~,
      ~path~: ~/buscar~,
      ~query~: ~q=%3C/script%3E%3Cimg%20src%3Dx%3E~
    },
    {
      ~id~: ~xss_javascript_uri~,
      ~description~: ~url=javascript:alert(1) — script URI in an attribute. Kept free of any other payload on purpose: an unencoded 'document.cookie' here would match cookie_theft against the raw field before the decode pass reaches this signature.~,
      ~rule~: ~xss~,
      ~signature~: ~javascript_uri~,
      ~method~: ~GET~,
      ~path~: ~/redirigir~,
      ~query~: ~url=javascript%3Aalert(1)~
    },
    {
      ~id~: ~xss_event_handler~,
      ~description~: ~q=<img src=x onerror=alert(1)> — inline event handler, no <script> anywhere~,
      ~rule~: ~xss~,
      ~signature~: ~event_handler~,
      ~method~: ~GET~,
      ~path~: ~/buscar~,
      ~query~: ~q=%3Cimg%20src%3Dx%20onerror%3Dalert(1)%3E~
    },
    {
      ~id~: ~xss_dangerous_tag~,
      ~description~: ~q=<iframe src=//evil> — a tag that executes or redirects on its own~,
      ~rule~: ~xss~,
      ~signature~: ~dangerous_tag~,
      ~method~: ~GET~,
      ~path~: ~/buscar~,
      ~query~: ~q=%3Ciframe%20src%3D//evil%3E~
    },
    {
      ~id~: ~xss_cookie_theft~,
      ~description~: ~q=document.cookie — the DOM access of a session-stealing payload~,
      ~rule~: ~xss~,
      ~signature~: ~cookie_theft~,
      ~method~: ~GET~,
      ~path~: ~/buscar~,
      ~query~: ~q=document.cookie~
    },
    {
      ~id~: ~xss_data_uri_html~,
      ~description~: ~url=data:text/html,... — HTML smuggled through a data: URI~,
      ~rule~: ~xss~,
      ~signature~: ~data_uri_html~,
      ~method~: ~GET~,
      ~path~: ~/redirigir~,
      ~query~: ~url=data%3Atext/html%2C%3Ch1%3Ex%3C/h1%3E~
    },
    {
      ~id~: ~xss_in_referer_header~,
      ~description~: ~Payload in the Referer header — proves headers are scanned, not just path, query and body~,
      ~rule~: ~xss~,
      ~signature~: ~script_tag~,
      ~method~: ~GET~,
      ~path~: ~/~,
      ~headers~: { ~referer~: ~http://ejemplo.test/?q=<script>alert(1)</script>~ }
    }
  ]
}
".

Definition benignJSON : string := unquoted
"{
  ~_comment~: [
    ~Legitimate traffic that a signature set is tempting to block by accident.~,
    ~Every case here must be allowed by the whole rule chain.~,
    ~~,
    ~A false positive is not a lesser bug than a miss. A filter that blocks~,
    ~O'Brien from signing in, or an article about the European Union, gets~,
    ~switched off by the operator — and then it catches nothing at all. Several~,
    ~of these are deliberately adversarial: they contain the exact keywords the~,
    ~signatures look for, in contexts where they are harmless.~,
    ~~,
    ~Same wire-form convention as attacks.json: 'query' is percent-encoded.~
  ],

  ~cases~: [
    {
      ~id~: ~plain_root~,
      ~description~: ~The home page, nothing attached~,
      ~method~: ~GET~,
      ~path~: ~/~
    },
    {
      ~id~: ~catalogue_pagination~,
      ~description~: ~Ordinary pagination and sort parameters~,
      ~method~: ~GET~,
      ~path~: ~/catalogo~,
      ~query~: ~page=2&orden=nombre~
    },
    {
      ~id~: ~accented_search~,
      ~description~: ~A Spanish search term with accents and spaces~,
      ~method~: ~GET~,
      ~path~: ~/buscar~,
      ~query~: ~q=zapatos%20de%20cuero%20marr%C3%B3n~
    },
    {
      ~id~: ~article_about_the_union~,
      ~description~: ~The word 'union' in an article slug — 'union' alone is not an injection~,
      ~method~: ~GET~,
      ~path~: ~/articulos/como-funciona-la-union-europea~
    },
    {
      ~id~: ~sql_keywords_in_prose~,
      ~description~: ~A tutorial search: SELECT and UNION both present, but in the wrong order for union_select~,
      ~method~: ~GET~,
      ~path~: ~/buscar~,
      ~query~: ~q=diferencia%20entre%20SELECT%20y%20UNION%20en%20SQL~
    },
    {
      ~id~: ~javascript_in_a_slug~,
      ~description~: ~'javascript' without a colon is a topic, not a URI scheme~,
      ~method~: ~GET~,
      ~path~: ~/blog/2024/03/javascript-para-principiantes~
    },
    {
      ~id~: ~apostrophe_in_a_surname~,
      ~description~: ~O'Brien — the canonical WAF false positive~,
      ~method~: ~GET~,
      ~path~: ~/perfil~,
      ~query~: ~nombre=O%27Brien~
    },
    {
      ~id~: ~comparison_operators_in_a_filter~,
      ~description~: ~A price filter using <, > and the word 'and'~,
      ~method~: ~GET~,
      ~path~: ~/buscar~,
      ~query~: ~q=precio%20%3C%20100%20and%20stock%20%3E%200~
    },
    {
      ~id~: ~double_dash_in_free_text~,
      ~description~: ~A double dash with no quote in front of it is a dash, not a SQL comment~,
      ~method~: ~GET~,
      ~path~: ~/notas~,
      ~query~: ~texto=Reuni%C3%B3n%203--4%20de%20la%20tarde~
    },
    {
      ~id~: ~ordinary_login~,
      ~description~: ~A real sign-in POST, password included~,
      ~method~: ~POST~,
      ~path~: ~/login~,
      ~headers~: { ~content-type~: ~application/x-www-form-urlencoded~ },
      ~body~: ~usuario=maria&clave=Contrase%C3%B1a123~
    },
    {
      ~id~: ~ordinary_comment~,
      ~description~: ~A product review, the same endpoint the stored-XSS vector uses~,
      ~method~: ~POST~,
      ~path~: ~/comentarios~,
      ~headers~: { ~content-type~: ~application/x-www-form-urlencoded~ },
      ~body~: ~texto=Me%20encanta%20este%20producto%2C%20cinco%20estrellas~
    },
    {
      ~id~: ~browser_user_agent~,
      ~description~: ~A real User-Agent, semicolons and all — headers are scanned too~,
      ~method~: ~GET~,
      ~path~: ~/~,
      ~headers~: {
        ~user-agent~: ~Mozilla/5.0 (X11; Linux x86_64) AppleWebKit/537.36 (KHTML, like Gecko) Chrome/131.0 Safari/537.36~,
        ~accept-language~: ~es-ES,es;q=0.9,en;q=0.8~
      }
    },
    {
      ~id~: ~plain_text_data_uri~,
      ~description~: ~A data: URI that is not text/html~,
      ~method~: ~GET~,
      ~path~: ~/api/documentos~,
      ~query~: ~formato=data%3Atext/plain~
    },
    {
      ~id~: ~question_in_the_faq~,
      ~description~: ~An accented question mark and a question word~,
      ~method~: ~GET~,
      ~path~: ~/faq~,
      ~query~: ~q=%C2%BFC%C3%B3mo%20elimino%20mi%20cuenta%3F~
    },
    {
      ~id~: ~email_in_a_form~,
      ~description~: ~An address in a POST body — the @ and the dots must not trip anything~,
      ~method~: ~POST~,
      ~path~: ~/suscripcion~,
      ~headers~: { ~content-type~: ~application/x-www-form-urlencoded~ },
      ~body~: ~correo=juan.perez%40ejemplo.com&acepta=1~
    }
  ]
}
".

Section Corpus.
Context `{UnicodePrint}.

Record Case := MkCase {
  c_ID : string; c_Description : string; c_Rule : string; c_Signature : string;
  c_Method : string; c_Path : string; c_Query : string; c_Headers : list (string * string); c_Body : string
}.

Definition decode_case (v : gval) : option Case :=
  as_struct (fun m =>
    id ← get_string "id" m;
    description ← get_string "description" m;
    rule ← get_string "rule" m;
    signature ← get_string "signature" m;
    method ← get_string "method" m;
    path ← get_string "path" m;
    query ← get_string "query" m;
    headers ← get as_string_map [] "headers" m;
    body ← get_string "body" m;
    Some (MkCase id description rule signature method path query headers body)) v.

Definition decode_file (v : gval) : option (list Case) :=
  as_struct (get (as_slice decode_case) [] "cases") v.

(** The loop of [load] over the cases from index [i]; a panic is an error. *)
Fixpoint check_cases (name : string) (attacks : bool) (i : Z) (seen : list string) (cases : list Case)
  : result unit :=
  match cases with
  | [] => Ok tt
  | c :: cases =>
      let named (s : string) := negb (String.eqb s EmptyString) in
      if negb (named (c_ID c)) then Err ("corpus: case " +:+ itoa i +:+ " in " +:+ name +:+ " has no id")
      else if existsb (String.eqb (c_ID c)) seen
      then Err ("corpus: duplicate id " +:+ quote (c_ID c) +:+ " in " +:+ name)
      else if attacks && (negb (named (c_Rule c)) || negb (named (c_Signature c)))
      then Err ("corpus: attack " +:+ quote (c_ID c) +:+ " in " +:+ name +:+ " must name a rule and a signature")
      else if negb attacks && (named (c_Rule c) || named (c_Signature c))
      then Err ("corpus: benign case " +:+ quote (c_ID c) +:+ " in " +:+ name +:+ " must not name a rule")
      else check_cases name attacks (i + 1) (c_ID c :: seen) cases
  end.

Definition load (raw name : string) (attacks : bool) : result (list Case) :=
  match unmarshal raw ≫= decode_file with
  | None => Err ("corpus: parse " +:+ name)
  | Some [] => Err ("corpus: " +:+ name +:+ " contains no cases")
  | Some cases => _ ← check_cases name attacks 0 [] cases; Ok cases
  end.

Definition Attacks : result (list Case) := load attacksJSON "attacks.json" true.
Definition Benign : result (list Case) := load benignJSON "benign.json" false.

Definition HTTPMethod (c : Case) : string :=
  if String.eqb (c_Method c) EmptyString then "GET" else c_Method c.

Definition trim_suffix_slash (s : string) : string :=
  match rev (schars s) with
  | c :: _ => if Ascii.eqb c "/" then stake (String.length s - 1) s else s
  | [] => s
  end.

Definition Target (c : Case) (base : string) : string :=
  let target := trim_suffix_slash base +:+ c_Path c in
  if String.eqb (c_Query c) EmptyString then target else target +:+ "?" +:+ c_Query c.

(** [Case.RequestContext], at the time [now]. *)
Definition RequestContext_ (c : Case) (ip : string) (now : Z) : RequestContext :=
  Request ("corpus-" +:+ c_ID c) ip (HTTPMethod c) (c_Path c) (c_Query c)
    (foldl (fun m (h : string * string) => assoc_set (to_lower h.1) h.2 m) [] (c_Headers c))
    (c_Body c) false now.

Definition Decoded (c : Case) : string :=
  let target :=
    if String.eqb (c_Query c) EmptyString then c_Path c
    else match QueryUnescape (c_Query c) with
         | Some q => c_Path c +:+ "?" +:+ q
         | None => c_Path c +:+ "?" +:+ c_Query c
         end in
  let out := HTTPMethod c +:+ " " +:+ target in
  if String.eqb (c_Body c) EmptyString then out else out +:+ " body=" +:+ c_Body c.
End Corpus.

(** ** The rules as the tests build them ([rules/corpus_test.go]) *)

Definition content_rule `{UnicodePrint} (r : PatternRule) : Rule bool :=
  MkRule (pr_name r)
    (fun panicked req =>
       match Patterns.Evaluate r req with
       | Some answer => (panicked, answer)
       | None => (true, (Model.Allow, EmptyString))
       end) None.

Definition signatureChain `{UnicodePrint} (set : SignatureSet) : Engine bool :=
  Rules.New [content_rule (NewPatternRule "sqli" (SQLi set) 8192);
             content_rule (NewPatternRule "xss" (XSS set) 8192)].

(** The text between the first two double quotes. *)
Fixpoint until_quote (s : string) : option (string * string) :=
  match s with
  | EmptyString => None
  | String c s =>
      if Ascii.eqb c dquote then Some (EmptyString, s)
      else '(a, b) ← until_quote s; Some (String c a, b)
  end.

Definition signatureFrom (reason : string) : string :=
  match until_quote reason with
  | Some (_, rest) => match until_quote rest with Some (id, _) => id | None => EmptyString end
  | None => EmptyString
  end.

(** ** What an injection looks like *)

(** [s] is the lower-case word [w], each letter in either case. *)
Fixpoint any_case (w s : string) : bool :=
  match w, s with
  | EmptyString, EmptyString => true
  | String a w, String c s => ((bval c =? bval a) || (bval c =? bval a - 32)) && any_case w s
  | _, _ => false
  end.

Definition starts_word (s : string) : bool := is_word (r_val <$> head (runes s)).
Definition ends_word (s : string) : bool := is_word (after None (runes s)).
Definition blank (s : string) : bool := sall (fun c => in_ranges spaces (bval c)) s.

(** A UNION and a SELECT at most thirty characters apart; an opening script tag; a quote that is
    closed and followed by a comment. *)
Inductive injection : string -> string -> Prop :=
| union_select pre u gap sel post :
    any_case "union" u = true -> any_case "select" sel = true ->
    ends_word pre = false -> starts_word gap = false -> gap <> EmptyString -> ends_word gap = false ->
    (List.length (runes gap) <= 30)%nat -> starts_word post = false ->
    injection "sqli" (pre +:+ u +:+ gap +:+ sel +:+ post)
| script_tag pre gap tag post :
    blank gap = true -> any_case "script" tag = true -> starts_word post = false ->
    injection "xss" (pre +:+ "<" +:+ gap +:+ tag +:+ post)
| quote_comment pre quote gap mark post :
    quote ∈ ["'"; "`"; str1 dquote] -> blank gap = true -> mark ∈ ["--"; "#"; "/*"] ->
    injection "sqli" (pre +:+ quote +:+ gap +:+ mark +:+ post).

(** ** Matching words and runs *)

Fixpoint word_re (r : re) (w : string) : re :=
  match w with
  | EmptyString => r
  | String a w => word_re (RCat r (literal true (bval a))) w
  end.

Definition lower_word (w : string) : bool := sall (fun c => (97 <=? bval c) && (bval c <=? 122)) w.

Lemma any_case_ascii w s : lower_word w = true -> any_case w s = true -> ascii_only s = true.
Proof.
  unfold lower_word, ascii_only. revert s. induction w as [|a w IH]; intros [|c s]; cbn [any_case sall]; try done.
  intros [Ha Hw]%andb_true_iff [Hc Hs]%andb_true_iff. rewrite IH by done. rewrite andb_true_r. lia.
Qed.

Lemma letter_class a c : 97 <= bval a <= 122 -> (bval c =? bval a) || (bval c =? bval a - 32) = true ->
  in_class false true [IRange (bval a) (bval a)] (bval c) = true.
Proof.
  intros Ha Hc. unfold in_class, in_item, in_folded. cbn [existsb xorb].
  assert (bval a ∈ orbit (bval c)) as Ho.
  { unfold orbit. destruct (Z.eq_dec (bval c) (bval a)) as [E|E].
    - rewrite E. zbool. left.
    - assert (bval c = bval a - 32) as -> by lia. zbool. right. replace (bval a - 32 + 32) with (bval a) by lia. left. }
  rewrite orb_false_r. destruct (existsb (in_ranges _) _) eqn:E; [done|exfalso].
  apply not_true_iff_false in E. apply E, existsb_exists. exists (bval a).
  split; [by apply list_elem_of_In|]. unfold in_ranges. cbn [existsb fst snd]. lia.
Qed.

Lemma takes_one ok b c rest : ok (r_val c) = true -> takes ok (b, c :: rest) (Some (r_val c), rest).
Proof. intros Hc. by exists c, rest. Qed.

Lemma word_matches r w s p b rest : lower_word w = true -> any_case w s = true ->
  matches r p (b, runes s ++ rest) -> matches (word_re r w) p (after b (runes s), rest).
Proof.
  unfold lower_word. revert r s b. induction w as [|a w IH]; intros r [|c s] b; cbn [any_case sall word_re]; try done.
  intros [Ha Hw]%andb_true_iff [Hc Hs]%andb_true_iff. rewrite runes_ascii_cons by lia. cbn [app]. intros Hr.
  apply (IH _ s (Some (bval c)) Hw Hs). cbn [matches]. eexists. split; [exact Hr|].
  apply takes_one. cbn [r_val]. apply letter_class; [lia|done].
Qed.

(** A run of runes of a class. *)
Lemma run_matches ok b l rest : Forall (fun c => ok (r_val c) = true) l ->
  nsteps (takes ok) (List.length l) (b, l ++ rest) (after b l, rest).
Proof.
  intros Hl. revert b. induction Hl as [|c l Hc _ IH]; intros b; [constructor|].
  econstructor; [by apply takes_one|]. apply IH.
Qed.

Definition blanks : re := RRepeat true 0 None (RClass false true [INamed false spaces]).

Lemma blank_runes s : blank s = true ->
  ascii_only s = true /\ Forall (fun c => in_class false true [INamed false spaces] (r_val c) = true) (runes s).
Proof.
  unfold blank, ascii_only. induction s as [|c s IH]; cbn [sall]; [by split; [|constructor]|].
  intros [Hc Hs]%andb_true_iff. destruct (IH Hs) as [IH1 IH2].
  assert (bval c = 9 \/ bval c = 10 \/ bval c = 12 \/ bval c = 13 \/ bval c = 32) as Hb.
  { unfold in_ranges, spaces in Hc. cbn [existsb fst snd] in Hc. lia. }
  rewrite IH1, runes_ascii_cons by lia. split; [lia|]. constructor; [|done]. cbn [r_val].
  by destruct Hb as [-> |[-> |[-> |[-> | ->]]]].
Qed.

Lemma blanks_match b s rest : blank s = true -> matches blanks (b, runes s ++ rest) (after b (runes s), rest).
Proof.
  intros [_ Hs]%blank_runes. exists (List.length (runes s)). split; [lia|]. split; [done|]. by apply run_matches.
Qed.

(** ** The signatures of the file *)

Definition union_re : re :=
  RCat (word_re (RCat (RCat (RCat (word_re (RWordBoundary false) "union") (RWordBoundary false))
    (RRepeat false 0 (Some 30%nat) (RClass false true [INamed false spaces; INamed true spaces])))
    (RWordBoundary false)) "select") (RWordBoundary false).

Definition script_re : re :=
  RCat (word_re (RCat (literal true 60) blanks) "script") (RWordBoundary false).

Definition comment_re : re :=
  RCat (RCat (RClass false true [IRange 39 39; IRange 34 34; IRange 96 96]) blanks)
    (RAlt (RCat (literal true 45) (literal true 45))
       (RAlt (literal true 35) (RCat (literal true 47) (literal true 42)))).

Definition sigs_of (rule : string) (set : SignatureSet) : list Signature :=
  if String.eqb rule "sqli" then SQLi set else XSS set.

Lemma embedded_signatures `{UnicodePrint} read set : LoadSignatures defaultPatterns read EmptyString = Ok set ->
  Some union_re ∈ map sig_re (SQLi set) /\ Some comment_re ∈ map sig_re (SQLi set) /\
  Some script_re ∈ map sig_re (XSS set).
Proof.
  assert (match LoadSignatures defaultPatterns read EmptyString with
          | Ok set => (map sig_re (SQLi set) !! 0%nat, map sig_re (SQLi set) !! 4%nat, map sig_re (XSS set) !! 0%nat)
          | Err _ => (None, None, None)
          end = (Some (Some union_re), Some (Some comment_re), Some (Some script_re))) as E by (vm_compute; reflexivity).
  intros Hl. rewrite Hl in E. apply pair_equal_spec in E as [[E1 E2]%pair_equal_spec E3].
  split; [|split]; eapply list_elem_of_lookup_2; eassumption.
Qed.

Lemma found r s pre rest q : runes s = pre ++ rest -> matches r (after None pre, rest) q ->
  is_Some (FindStringIndex r s).
Proof. intros E Hm. apply find_some. exists pre, rest. split; [done|]. by exists q. Qed.

Lemma after_app b k l : after b (k ++ l) = after (after b k) l.
Proof. unfold after. by rewrite foldl_app. Qed.

Lemma after_nonempty b b' l : l <> [] -> after b l = after b' l.
Proof. by destruct l. Qed.

(** A word of letters starts and ends with one. *)
Lemma word_edges w s : lower_word w = true -> w <> EmptyString -> any_case w s = true ->
  s <> EmptyString /\ is_word (r_val <$> head (runes s)) = true /\ forall b, is_word (after b (runes s)) = true.
Proof.
  unfold lower_word. revert s. induction w as [|a w IH]; intros [|c s]; cbn [any_case sall]; try done.
  intros [Ha Hw]%andb_true_iff _ [Hc Hs]%andb_true_iff. rewrite runes_ascii_cons by lia.
  assert (is_word (Some (bval c)) = true) as Hword
    by (unfold is_word, in_ranges, words; cbn [existsb fst snd]; lia).
  split; [done|]. split; [done|]. intros b. cbn [after foldl r_val].
  destruct w as [|a' w]; [by destruct s|]. by apply IH.
Qed.

Lemma runes_nonempty s : s <> EmptyString -> runes s <> [].
Proof.
  destruct s as [|c s]; [done|]. intros _. rewrite runes_unfold.
  destruct (decode_rune (String c s)) as [[r s']|] eqn:E; [done|]. by apply decode_rune_some in E.
Qed.

Lemma head_app {A} (k l : list A) : k <> [] -> head (k ++ l) = head k.
Proof. by destruct k. Qed.

Lemma boundary_match b l : xorb (is_word b) (is_word (r_val <$> head l)) = true ->
  matches (RWordBoundary false) (b, l) (b, l).
Proof. by split. Qed.

Lemma injection_found rule s : injection rule s ->
  exists r, is_Some (FindStringIndex r s) /\
    ((rule = "sqli" /\ (r = union_re \/ r = comment_re)) \/ (rule = "xss" /\ r = script_re)).
Proof.
  intros [pre u gap sel post Hu Hs Hpre Hg1 Hne Hg2 Hg Hpost
         |pre gap tag post Hg Ht Hpost|pre quote gap mark post Hq Hg Hm].
  - exists union_re. split; [|by left; split; [|left]].
    assert (lower_word "union" = true) as Lu by done. assert (lower_word "select" = true) as Ls by done.
    pose proof (any_case_ascii _ _ Lu Hu) as Au. pose proof (any_case_ascii _ _ Ls Hs) as As.
    destruct (word_edges _ _ Lu ltac:(done) Hu) as (Nu & Eu & Fu).
    destruct (word_edges _ _ Ls ltac:(done) Hs) as (Ns & Es & Fs).
    assert (runes (pre +:+ u +:+ gap +:+ sel +:+ post)
      = runes pre ++ runes u ++ runes gap ++ runes sel ++ runes post) as E.
    { rewrite runes_app by by apply ascii_fresh. rewrite runes_ascii_app by done.
      rewrite (runes_app gap) by by apply ascii_fresh. by rewrite runes_ascii_app. }
    eapply (found _ _ _ _ _ E). unfold union_re. cbn [matches].
    eexists. split; [|apply boundary_match].
    + eapply (word_matches _ _ _ _ _ _ Ls Hs). eexists. split; [|apply boundary_match].
      * eexists. split; [|exists (List.length (runes gap)); split; [lia|]; split; [by intros ? [= <-]|]; apply run_matches].
        -- eexists. split; [|apply boundary_match].
           ++ eapply (word_matches _ _ _ _ _ _ Lu Hu). apply boundary_match.
              rewrite head_app by by apply runes_nonempty. unfold ends_word in Hpre. by rewrite Hpre, Eu.
           ++ rewrite head_app by by apply runes_nonempty. unfold starts_word in Hg1. by rewrite Fu, Hg1.
        -- apply list.Forall_true. intros c. unfold in_class. cbn [existsb in_item xorb]. by destruct (in_folded _ _ _).
      * rewrite head_app by by apply runes_nonempty. rewrite Es. erewrite (after_nonempty _ None) by by apply runes_nonempty.
        unfold ends_word in Hg2. by rewrite Hg2.
    + unfold starts_word in Hpost. by rewrite Fs, Hpost.
  - exists script_re. split; [|by right].
    assert (lower_word "script" = true) as Lt by done.
    pose proof (any_case_ascii _ _ Lt Ht) as At. destruct (blank_runes _ Hg) as [Ag _].
    destruct (word_edges _ _ Lt ltac:(done) Ht) as (_ & _ & Ft).
    assert (runes (pre +:+ "<" +:+ gap +:+ tag +:+ post)
      = runes pre ++ Rune 60 "<" :: runes gap ++ runes tag ++ runes post) as E.
    { rewrite runes_app by done. change ("<" +:+ gap +:+ tag +:+ post) with (String "<" (gap +:+ tag +:+ post)).
      rewrite runes_ascii_cons by done. by rewrite !runes_ascii_app. }
    eapply (found _ _ _ _ _ E). unfold script_re. cbn [matches].
    eexists. split; [|apply boundary_match].
    + eapply (word_matches _ _ _ _ _ _ Lt Ht). eexists. split; [by apply takes_one|]. by apply blanks_match.
    + unfold starts_word in Hpost. by rewrite Ft, Hpost.
  - exists comment_re. split; [|by left; split; [|right]].
    destruct (blank_runes _ Hg) as [Ag _].
    assert (exists c, quote = str1 c /\ (bval c = 39 \/ bval c = 96 \/ bval c = 34)) as (c & -> & Hc).
    { rewrite !elem_of_cons in Hq. destruct Hq as [-> |[-> |[-> |Hq]]]; [eexists; split; [reflexivity|]..|].
      1,2,3: vm_compute; auto. by apply elem_of_nil in Hq. }
    assert (ascii_only mark = true) as Am.
    { rewrite !elem_of_cons in Hm. destruct Hm as [-> |[-> |[-> |Hm]]]; [done..|by apply elem_of_nil in Hm]. }
    assert (runes (pre +:+ str1 c +:+ gap +:+ mark +:+ post)
      = runes pre ++ Rune (bval c) (str1 c) :: runes gap ++ runes mark ++ runes post) as E.
    { rewrite runes_app. 2: cbn; unfold is_cont; lia.
      change (str1 c +:+ gap +:+ mark +:+ post) with (String c (gap +:+ mark +:+ post)).
      rewrite runes_ascii_cons by lia. by rewrite !runes_ascii_app. }
    assert (exists q, matches (RAlt (RCat (literal true 45) (literal true 45))
       (RAlt (literal true 35) (RCat (literal true 47) (literal true 42))))
       (after (Some (bval c)) (runes gap), runes mark ++ runes post) q) as [q Hmark].
    { rewrite !elem_of_cons in Hm. destruct Hm as [-> |[-> |[-> |Hm]]]; [..|by apply elem_of_nil in Hm].
      - eexists. left. eexists. split; by apply takes_one.
      - eexists. right. left. by apply takes_one.
      - eexists. right. right. eexists. split; by apply takes_one. }
    eapply (found _ _ _ _ _ E). unfold comment_re. cbn [matches].
    eexists. split; [|exact Hmark]. eexists. split; [|by apply blanks_match].
    apply takes_one. cbn [r_val]. by destruct Hc as [-> |[-> | ->]].
Qed.

Lemma injection_nonempty rule s : injection rule s -> s <> EmptyString.
Proof.
  intros Hi E. apply injection_found in Hi as (r & Hf & Hr). subst s.
  by destruct Hr as [[_ [-> | ->]]|[_ ->]]; vm_compute in Hf; destruct Hf.
Qed.

(** The bytes of a field that are scanned. *)
Definition scan_limit (max : Z) : Z := if max <=? 0 then 8192 else max.

Lemma injection_matched `{UnicodePrint} read set rule payload sent max req :
  LoadSignatures defaultPatterns read EmptyString = Ok set ->
  injection rule payload -> sent = payload \/ encodes sent payload -> slen sent <= scan_limit max ->
  sent ∈ parts req -> matched (sigs_of rule set) max req.
Proof.
  intros Hl Hi Hsent Hlen Hin. destruct (embedded_signatures read set Hl) as (H1 & H2 & H3). clear Hl.
  exists sent, payload. split; [done|]. split.
  - change (maxScan (NewPatternRule EmptyString (sigs_of rule set) max)) with (scan_limit max).
    assert (sent <> EmptyString) as Hne.
    { intros ->. apply injection_nonempty in Hi. destruct Hsent as [<-|He]; [done|]. by inversion He; subst. }
    unfold forms. destruct (String.eqb_spec sent EmptyString); [done|].
    rewrite stake_all by (unfold slen in Hlen; lia).
    destruct Hsent as [->|He]; [left|]. rewrite (encodes_unescape _ _ He). right. left.
  - apply injection_found in Hi as (r & Hf & Hr).
    assert (Some r ∈ map sig_re (sigs_of rule set)) as Hs
      by (destruct Hr as [[-> [-> | ->]]|[-> ->]]; done).
    apply list_elem_of_fmap in Hs as (s & Hs & Hsin). exists s, r. by split; [|split].
Qed.

Lemma injection_blocks `{UnicodePrint} {R} `{Redis R} read set rule payload sent max on
    (w : world (R := R)) req start stop :
  LoadSignatures defaultPatterns read EmptyString = Ok set ->
  injection rule payload -> sent = payload \/ encodes sent payload -> slen sent <= scan_limit max ->
  sent ∈ parts req -> index on rule = true ->
  let d := (Decide (SetEnabled (engine_of set max) on) w req start stop).2 in
  exists status, (status = 403 \/ status = 429) /\ (d_Verdict d, d_Status d) = (Block, status).
Proof.
  intros Hl Hi Hsent Hlen Hin Hon d.
  pose proof (injection_matched read set rule payload sent max req Hl Hi Hsent Hlen Hin) as Hmatch. clear Hl.
  destruct (chain_status set max on w req start stop) as (ip & rate & sqli & xss & _ & _ & Hq & Hx & E).
  fold d in E. clearbody d. rewrite E. assert (sqli || xss = true) as ->.
  { assert (rule = "sqli" \/ rule = "xss") as [-> | ->] by (by inversion Hi; auto).
    - by rewrite (proj2 Hq).
    - rewrite (proj2 Hx) by done. apply orb_true_r. }
  destruct ip; [by eauto|]. destruct rate; by eauto.
Qed.

(** The built-in signatures stop the injections they are named after, however they are dressed.
    With the signature file the engine is built with, a request that carries, in its path, query,
    body or a scanned header, a UNION and a SELECT at most thirty characters apart, a quote that is
    closed and followed by a comment, or an opening script tag, each in any letter case and with
    anything around it, is blocked by the engine whatever the other rules do, so long as the rule
    is on: also when any of its bytes are percent-encoded, as long as what was sent is within the
    bytes that are scanned. *)
Theorem injections_blocked `{UnicodePrint} {R} `{Redis R} read set rule payload sent max on
    (w w' : world (R := R)) req start stop d :
  LoadSignatures defaultPatterns read EmptyString = Ok set ->
  injection rule payload -> sent = payload \/ encodes sent payload -> slen sent <= scan_limit max ->
  sent ∈ parts req -> index on rule = true ->
  Decide (SetEnabled (engine_of set max) on) w req start stop = (w', d) -> d_Verdict d = Block.
Proof.
  intros Hl Hi Hsent Hlen Hin Hon Hd.
  destruct (injection_blocks read set rule payload sent max on w req start stop) as (status & _ & E); try done.
  rewrite Hd in E. by injection E.
Qed.

(** ** The corpus *)

(** What [TestCorpusAttacksAreBlockedByTheExpectedSignature] and
    [TestCorpusBlockReasonsAreBounded] ask of an attack, and [TestCorpusBenignTrafficIsAllowed] of
    the other cases; nothing panics. *)
Definition attack_caught `{UnicodePrint} (set : SignatureSet) (c : Case) (ip : string) (now start stop : Z) : Prop :=
  let '(panicked, d) := Decide (signatureChain set) false (RequestContext_ c ip now) start stop in
  panicked = false /\ d_Verdict d = Block /\ d_Rule d = c_Rule c /\
  signatureFrom (d_Reason d) = c_Signature c /\ slen (d_Reason d) <= 256 /\
  sall not_control (d_Reason d) = true.

Definition passed `{UnicodePrint} (set : SignatureSet) (c : Case) (ip : string) (now start stop : Z) : Prop :=
  let '(panicked, d) := Decide (signatureChain set) false (RequestContext_ c ip now) start stop in
  panicked = false /\ d_Verdict d = Model.Allow.

(** The same, to be evaluated. *)
Definition attack_caughtb `{UnicodePrint} (set : SignatureSet) (ip : string) (now start stop : Z) (c : Case) : bool :=
  let '(panicked, d) := Decide (signatureChain set) false (RequestContext_ c ip now) start stop in
  negb panicked && blocks (d_Verdict d) && String.eqb (d_Rule d) (c_Rule c)
  && String.eqb (signatureFrom (d_Reason d)) (c_Signature c) && (slen (d_Reason d) <=? 256)
  && sall not_control (d_Reason d).

Definition passedb `{UnicodePrint} (set : SignatureSet) (ip : string) (now start stop : Z) (c : Case) : bool :=
  let '(panicked, d) := Decide (signatureChain set) false (RequestContext_ c ip now) start stop in
  negb panicked && negb (blocks (d_Verdict d)).

Lemma attack_caughtb_spec `{UnicodePrint} set c ip now start stop :
  attack_caughtb set ip now start stop c = true -> attack_caught set c ip now start stop.
Proof.
  unfold attack_caughtb, attack_caught. destruct (Decide _ _ _ _ _) as [panicked d].
  intros [[[[[Hp%negb_true_iff Hv%blocks_spec]%andb_true_iff Hr%String.eqb_eq]%andb_true_iff
    Hs%String.eqb_eq]%andb_true_iff Hl%Z.leb_le]%andb_true_iff Hc]%andb_true_iff.
  by repeat split.
Qed.

Lemma passedb_spec `{UnicodePrint} set c ip now start stop :
  passedb set ip now start stop c = true -> passed set c ip now start stop.
Proof.
  unfold passedb, passed. destruct (Decide _ _ _ _ _) as [panicked d].
  intros [Hp%negb_true_iff Hv]%andb_true_iff. split; [done|]. by destruct (d_Verdict d).
Qed.

Definition corpus_check `{UnicodePrint} (read : string -> result string) (ip : string) (now start stop : Z) : bool :=
  match LoadSignatures defaultPatterns read EmptyString, Attacks, Benign with
  | Ok set, Ok attacks, Ok benign =>
      forallb (attack_caughtb set ip now start stop) attacks && forallb (passedb set ip now start stop) benign
  | _, _, _ => false
  end.

Lemma corpus_checked `{UnicodePrint} read ip now start stop : corpus_check read ip now start stop = true.
Proof. vm_compute. reflexivity. Qed.

Definition sizes `{UnicodePrint} (read : string -> result string) : result (nat * nat * nat * nat) :=
  set ← LoadSignatures defaultPatterns read EmptyString;
  attacks ← Attacks;
  benign ← Benign;
  Ok (List.length (@SQLi re2 set), List.length (@XSS re2 set), List.length attacks, List.length benign).

Lemma corpus_sizes `{UnicodePrint} read : sizes read = Ok (8, 8, 17, 15)%nat.
Proof. vm_compute. reflexivity. Qed.

(** The corpus.  The built-in signature file loads; both corpus files load; from any address and
    at any time, every attack in the corpus is blocked by the rule and the signature it names, with
    a reason of at most 256 bytes and no control characters, and every benign case is allowed. *)
Theorem corpus_verdicts `{UnicodePrint} read : exists set attacks benign,
  LoadSignatures defaultPatterns read EmptyString = Ok set /\ Attacks = Ok attacks /\ Benign = Ok benign /\
  List.length (SQLi set) = 8%nat /\ List.length (XSS set) = 8%nat /\
  List.length attacks = 17%nat /\ List.length benign = 15%nat /\
  Forall (fun c => forall ip now start stop, attack_caught set c ip now start stop) attacks /\
  Forall (fun c => forall ip now start stop, passed set c ip now start stop) benign.
Proof.
  pose proof (corpus_sizes read) as Hsize. pose proof (corpus_checked read) as Hc.
  unfold sizes in Hsize. unfold corpus_check in Hc.
  destruct (LoadSignatures defaultPatterns read EmptyString) as [set|]; [|done].
  destruct Attacks as [attacks|]; [|done]. destruct Benign as [benign|]; [|done]. cbn [mbind result_bind] in Hsize.
  exists set, attacks, benign. injection Hsize as -> -> -> ->. do 7 (split; [done|]).
  split; apply list.Forall_forall; intros c Hin ip now start stop;
    specialize (Hc ip now start stop); apply andb_true_iff in Hc as [Ha Hb];
    rewrite forallb_forall in Ha, Hb.
  - by apply attack_caughtb_spec, Ha, list_elem_of_In.
  - by apply passedb_spec, Hb, list_elem_of_In.
Qed.

(** ** A run *)

#[local] Existing Instance RateLimit.map_redis.
#[local] Existing Instance IPBlock.ascii_print.

Definition no_file (_ : string) : result string := Err "no such file".

Definition dressed_union : string := "%27+uNi%6fn/**/%53ELECT(password)from%20users".

Lemma dressed_encodes : encodes dressed_union "' uNion/**/SELECT(password)from users".
Proof.
  unfold dressed_union.
  repeat first [apply enc_nil | apply enc_plus | apply enc_plain; [discriminate|discriminate|]
               | eapply (enc_hex _ _ 2 7); [reflexivity|reflexivity|]
               | eapply (enc_hex _ _ 2 0); [reflexivity|reflexivity|]
               | eapply (enc_hex _ _ 5 3); [reflexivity|reflexivity|]
               | eapply (enc_hex _ _ 6 15); [reflexivity|reflexivity|]].
Defined.

Lemma injections_blocked_witness : exists set,
  LoadSignatures defaultPatterns no_file EmptyString = Ok set /\
  d_Verdict (Decide (SetEnabled (engine_of set 0) all_on) sample_world
               (request_from "192.0.2.1" dressed_union) 0 1500).2 = Block.
Proof.
  destruct (LoadSignatures defaultPatterns no_file EmptyString) as [set|] eqn:E.
  - exists set. split; [reflexivity|].
    destruct (Decide (SetEnabled (engine_of set 0) all_on) sample_world (request_from "192.0.2.1" dressed_union) 0 1500)
      as [w' d] eqn:Ed. cbn [snd].
    refine (injections_blocked no_file set "sqli" "' uNion/**/SELECT(password)from users" dressed_union 0 all_on
      sample_world w' (request_from "192.0.2.1" dressed_union) 0 1500 d E _ (or_intror dressed_encodes) _ _ _ Ed).
    + apply (union_select "' " "uNion" "/**/" "SELECT" "(password)from users"); try reflexivity; [discriminate|].
      vm_compute. lia.
    + vm_compute. discriminate.
    + right. left.
    + reflexivity.
  - exfalso. assert (is_Ok (LoadSignatures defaultPatterns no_file EmptyString) = true) as Ho
      by (vm_compute; reflexivity).
    rewrite E in Ho. discriminate.
Defined.
