(* ===== verification/GoMux.v ===== *)
(** * [http.ServeMux]

    How the router of [net/http] reads the path of a request: unescaping, cleaning, the segments it
    walks, and the choice by method.  The patterns are the routers' own, in [EngineApi],
    [DashApi] and [DemoBackend].  Requests with the method CONNECT, which carry no path, are left out. *)

From S2P Require Import Prelude Utf8 GoText GoJson.

(** [url.PathUnescape], and a segment as [net/http] compares it: as it is when it does not decode. *)
Fixpoint path_unescape (s : string) : option string :=
  match s with
  | EmptyString => Some EmptyString
  | String c s =>
      if Ascii.eqb c "%" then
        match s with
        | String a (String b s) =>
            x ← hex_val a; y ← hex_val b; t ← path_unescape s; Some (String (bof (x * 16 + y)) t)
        | _ => None
        end
      else t ← path_unescape s; Some (String c t)
  end.

Definition segment (s : string) : string := default s (path_unescape s).

(** [path.Clean] *)
Definition clean_step (rooted : bool) (stack : list string) (seg : string) : list string :=
  if String.eqb seg EmptyString || String.eqb seg "." then stack
  else if String.eqb seg ".." then
    match stack with
    | top :: rest => if String.eqb top ".." then seg :: stack else rest
    | [] => if rooted then [] else [seg]
    end
  else seg :: stack.

Definition path_Clean (p : string) : string :=
  let rooted := has_prefix "/" p in
  let body := join "/" (rev (foldl (clean_step rooted) [] (split_on "/" p))) in
  if rooted then "/" +:+ body else if String.eqb body EmptyString then "." else body.

(** [cleanPath] of the router: a trailing slash stays. *)
Definition cleanPath (p : string) : string :=
  if String.eqb p EmptyString then "/"
  else
    let p := if has_prefix "/" p then p else "/" +:+ p in
    let np := path_Clean p in
    if has_suffix "/" p && negb (String.eqb np "/") then np +:+ "/" else np.

(** The segments the router walks; a trailing slash is a segment of its own. *)
Fixpoint walk_segments (l : list string) : list string :=
  match l with
  | [] => []
  | [s] => [if String.eqb s EmptyString then "/" else segment s]
  | s :: l => segment s :: walk_segments l
  end.

Definition segments (p : string) : list string :=
  match split_on "/" p with _ :: l => walk_segments l | [] => [] end.

Definition is_get (m : string) : bool := String.eqb m "GET" || String.eqb m "HEAD".

Definition starts (l : list string) (s : string) : bool :=
  match l with t :: _ => String.eqb t s | [] => false end.

Definition same (a b : list string) : bool := bool_decide (a = b).

(** The handler of a method among those of a path; HEAD is served by GET's. *)
Definition method_route {A} (method : string) (routes : list (string * A)) : option A :=
  match assoc method routes with
  | Some r => Some r
  | None => if String.eqb method "HEAD" then assoc "GET" routes else None
  end.

Lemma method_post {A} method (r r' : A) : method_route method [("POST", r)] = Some r' -> method = "POST" /\ r' = r.
Proof.
  unfold method_route. cbn [assoc]. destruct (String.eqb_spec method "POST"); [by intros [= <-]|].
  by destruct (String.eqb method "HEAD").
Qed.
