(* ===== verification/EngineApi.v ===== *)
(** * The engine's HTTP interface

    [engine/internal/httpapi/httpapi.go]: the decision endpoint the proxy calls, the record of a
    decision, and the endpoint through which the dashboard writes to the chain.  A handler
    returns the effects it has, in order: the response it writes and what it hands to the audit
    writer. *)

From S2P Require Import Prelude Utf8 GoText GoMux GoTime GoJson GoJsonRound GoStruct Canonical Model Rules AuditWriter.

(** ** Decoding bodies *)

Definition maxDecideBody : Z := 2 ^ 20.

Definition decode_limited (body : string) : option gval := decode_upto maxDecideBody body.

(** ** Requests and responses *)

Record decideRequest := MkDecide {
  dq_RequestID : string; dq_IP : string; dq_Method : string; dq_Path : string; dq_Query : string;
  dq_Host : string; dq_Scheme : string; dq_Headers : list (string * string); dq_Body : string;
  dq_BodyTruncated : bool
}.

Definition decode_decide (v : gval) : option decideRequest :=
  as_struct (fun m =>
    id ← get_string "request_id" m;
    ip ← get_string "ip" m;
    method ← get_string "method" m;
    path ← get_string "path" m;
    query ← get_string "query" m;
    host ← get_string "host" m;
    scheme ← get_string "scheme" m;
    headers ← get as_string_map [] "headers" m;
    body ← get_string "body" m;
    truncated ← get_bool "body_truncated" m;
    Some (MkDecide id ip method path query host scheme headers body truncated)) v.

Record auditRequest := MkAudit { aq_Kind : string; aq_RequestID : string; aq_Payload : gobj }.

Definition decode_audit (v : gval) : option auditRequest :=
  as_struct (fun m =>
    kind ← get_string "kind" m;
    id ← get_string "request_id" m;
    payload ← get as_any_map [] "payload" m;
    Some (MkAudit kind id payload)) v.

(** [decideResponse]; an encoding error leaves the body empty. *)
Definition decide_response (d : Decision) (requestID : string) : string :=
  match float_lit (DecisionMS d) with
  | Some ms =>
      enc_struct
        ([("verdict", json_quote true (verdict_str (d_Verdict d)))]
         ++ omitempty "rule" (d_Rule d) ++ omitempty "reason" (d_Reason d)
         ++ (if d_Status d =? 0 then [] else [("status", itoa (d_Status d))])
         ++ [("request_id", json_quote true requestID); ("decision_ms", ms)]) +:+ byte_str 10
  | None => EmptyString
  end.

Definition error_body (m : string) : string := json_line (VStringMap [("error", m)]).

(** ** Handlers *)

Inductive effect :=
| Respond (status : Z) (body : string)
| Redirect (path : string)
| Record_ (kind requestID : string) (payload : gobj)
| RecordSync_ (kind requestID : string) (payload : gobj).

(** In the iteration order the headers are given in; the last of two spellings stays. *)
Definition lowercaseKeys (headers : list (string * string)) : list (string * string) :=
  foldl (fun out h => assoc_set (to_lower h.1) h.2 out) [] headers.

Definition truncate (s : string) (max : Z) : string :=
  if max <? slen s then stake (Z.to_nat max) s +:+ encode_rune 0x2026 else s.

Definition keep : list string :=
  split_on "," "user-agent,referer,origin,accept-language,x-forwarded-for".

Definition auditHeaders (headers : list (string * string)) : gobj :=
  foldl (fun out name =>
    let value := default EmptyString (assoc name headers) in
    if negb (String.eqb value EmptyString)
    then assoc_set name (VString (truncate value 512)) out else out) [] keep.

Definition trafficPayload (req : decideRequest) (ctx : RequestContext) (d : Decision) : gobj :=
  [("ip", VString (dq_IP req)); ("method", VString (dq_Method req));
   ("path", VString (truncate (dq_Path req) 2048));
   ("query", VString (truncate (dq_Query req) 2048));
   ("host", VString (dq_Host req)); ("verdict", VString (verdict_str (d_Verdict d)));
   ("decision_ms", VFloat (DecisionMS d)); ("headers", VObject (auditHeaders (Headers ctx)))]
  ++ (if dq_BodyTruncated req then [("body_truncated", VBool true)] else [])
  ++ match d_Verdict d with
     | Block => [("rule", VString (d_Rule d)); ("reason", VString (truncate (d_Reason d) 512));
                 ("status", VInt (d_Status d))]
     | Allow => []
     end.

Definition request_context (req : decideRequest) (now : Z) : RequestContext :=
  Request (dq_RequestID req) (dq_IP req) (dq_Method req) (dq_Path req) (dq_Query req)
    (lowercaseKeys (dq_Headers req)) (dq_Body req) (dq_BodyTruncated req) now.

(** The clock gives [now] for the request, [start] and [stop] for the decision. *)
Definition handleDecide {W} (e : Engine W) (w : W) (body : string) (now start stop : Z)
  : W * list effect :=
  match decode_limited body ≫= decode_decide with
  | None => (w, [Respond 400 (error_body "malformed decision request")])
  | Some req =>
      let ctx := request_context req now in
      let '(w, d) := Decide e w ctx start stop in
      (w, [Respond 200 (decide_response d (dq_RequestID req));
           Record_ KindTraffic (dq_RequestID req) (trafficPayload req ctx d)])
  end.

Section Audit.
Context `{UnicodePrint}.

(** [handleAudit]; [sync] is what [RecordSync] returns. *)
Definition handleAudit (sync : result unit) (body : string) : list effect :=
  match decode_limited body ≫= decode_audit with
  | None => [Respond 400 (error_body "malformed audit request")]
  | Some req =>
      if negb (String.eqb (aq_Kind req) KindAdmin) && negb (String.eqb (aq_Kind req) KindSystem)
      then [Respond 400 (error_body ("kind must be " +:+ quote KindAdmin +:+ " or " +:+ quote KindSystem))]
      else
        RecordSync_ (aq_Kind req) (aq_RequestID req) (aq_Payload req) ::
        match sync with
        | Err m => [Respond 503 (error_body ("the audit entry could not be committed: " +:+ m))]
        | Ok _ => [Respond 201 (json_line (VStringMap [("status", "recorded")]))]
        end
  end.
End Audit.

Definition handleHealth (version : string) : list effect :=
  [Respond 200 (json_line (VStringMap [("status", "ok"); ("version", version)]))].

Definition handleReady (ready : result unit) : list effect :=
  match ready with
  | Err m => [Respond 503 (json_line (VStringMap [("status", "unavailable"); ("error", m)]))]
  | Ok _ => [Respond 200 (json_line (VStringMap [("status", "ready")]))]
  end.

(** [handleStatus] *)
Definition handleStatus {W} (version : string) (e : Engine W) (stats : WriterStats) : list effect :=
  let switches := map_to_list (Enabled e) in
  [Respond 200
     (enc_object true
        [("version", json_quote true version);
         ("chain", enc_array (map (json_quote true) (Names e)));
         ("enabled", enc_object true (map (fun p : string * bool => (p.1, bool_str p.2)) switches));
         ("audit", enc_struct [("written", itoa (ws_Written stats)); ("dropped", itoa (ws_Dropped stats));
                               ("failures", itoa (ws_Failures stats)); ("queued", itoa (ws_Queued stats));
                               ("capacity", itoa (ws_Capacity stats))])] +:+ byte_str 10)].

(** ** The server *)

(** What the servers behind the engine answer when they are pinged. *)
Record pings := Pings { ping_postgres : result unit; ping_redis : result unit }.

(** The check that [run] gives the server. *)
Definition dependencies (p : pings) : result unit :=
  match ping_postgres p with
  | Err m => Err ("postgres: " +:+ m)
  | Ok _ => match ping_redis p with Err m => Err ("redis: " +:+ m) | Ok _ => Ok tt end
  end.

Record Options (W : Type) := MkOptions {
  o_Engine : Engine W; o_Ready : option (pings -> result unit); o_Version : string
}.
Arguments MkOptions {_}. Arguments o_Engine {_}. Arguments o_Ready {_}. Arguments o_Version {_}.

Record Server (W : Type) := MkServer {
  sv_engine : Engine W; sv_ready : pings -> result unit; sv_version : string
}.
Arguments MkServer {_}. Arguments sv_engine {_}. Arguments sv_ready {_}. Arguments sv_version {_}.

Definition New {W} (opts : Options W) : Server W :=
  MkServer (o_Engine opts) (default (fun _ => Ok tt) (o_Ready opts)) (o_Version opts).

(** What one request finds: the clock when it arrives and around the decision, what [RecordSync]
    returns, the servers behind, and the writer's counters. *)
Record around := Around {
  r_now : Z; r_start : Z; r_stop : Z; r_sync : result unit; r_pings : pings; r_stats : WriterStats
}.

Inductive route := ToDecide | ToAudit | ToHealth | ToReady | ToStatus.

(** The routes of a path, by method. *)
Definition routes (segs : list string) : list (string * route) :=
  if same segs ["v1"; "decide"] then [("POST", ToDecide)]
  else if same segs ["v1"; "audit"] then [("POST", ToAudit)]
  else if same segs ["healthz"] then [("GET", ToHealth)]
  else if same segs ["readyz"] then [("GET", ToReady)]
  else if same segs ["v1"; "status"] then [("GET", ToStatus)]
  else [].

(** [Handler]: what the server does with a request. *)
Definition serve `{UnicodePrint} {W} (sv : Server W) (w : W) (x : around) (method path body : string)
  : W * list effect :=
  let clean := cleanPath path in
  if negb (String.eqb clean path) then (w, [Redirect clean])
  else
    let rs := routes (segments path) in
    match method_route method rs with
    | None =>
        (w, [match rs with
             | [] => Respond 404 ("404 page not found" +:+ byte_str 10)
             | _ => Respond 405 ("Method Not Allowed" +:+ byte_str 10)
             end])
    | Some ToDecide => handleDecide (sv_engine sv) w body (r_now x) (r_start x) (r_stop x)
    | Some ToAudit => (w, handleAudit (r_sync x) body)
    | Some ToHealth => (w, handleHealth (sv_version sv))
    | Some ToReady => (w, handleReady (sv_ready sv (r_pings x)))
    | Some ToStatus => (w, handleStatus (sv_version sv) (sv_engine sv) (r_stats x))
    end.

(** What the caller gets back, without the note a redirected GET carries. *)
Fixpoint answer (effects : list effect) : result (Z * string) :=
  match effects with
  | Respond status body :: _ => Ok (status, body)
  | Redirect path :: _ => Ok (301, EmptyString)
  | _ :: effects => answer effects
  | [] => Err "EOF"
  end.

(** ** Lemmas *)

Definition string_valued (p : string * gval) : Prop := exists s, p.2 = VString s.

Lemma auditHeaders_strings h : Forall string_valued (auditHeaders h).
Proof.
  unfold auditHeaders.
  assert (forall names out, Forall string_valued out -> Forall string_valued
    (foldl (fun out name => if negb (String.eqb (default EmptyString (assoc name h)) EmptyString)
       then assoc_set name (VString (truncate (default EmptyString (assoc name h)) 512)) out else out)
       out names)) as Hf; [|by apply Hf].
  intros names. induction names as [|n names IH]; intros out Ho; cbn [foldl]; [done|].
  apply IH. destruct (negb _); [|done]. apply assoc_set_Forall; [by eexists|done].
Qed.

(** Only the headers on the list are looked at. *)
Lemma auditHeaders_ext h h' : (forall n, n ∈ keep -> assoc n h = assoc n h') ->
  auditHeaders h = auditHeaders h'.
Proof.
  unfold auditHeaders. generalize ([] : gobj). induction keep as [|n names IH]; intros out Hx; [done|].
  cbn [foldl]. rewrite (Hx n) by left. apply IH. intros m Hm. apply Hx. by right.
Qed.

Lemma string_valued_encodes p : string_valued p -> encodes_value p.
Proof. destruct p as [k v]. intros [s E]. cbn in E. subst v. by eexists. Qed.

Lemma string_members_depth m : Forall string_valued m -> depth (VObject m) = 1.
Proof.
  intros Hm. cbn [depth]. assert (foldr Z.max 0 (map (fun p : string * gval => depth p.2) m) = 0) as ->; [|done].
  induction Hm as [|[k v] m [s E] _ IH]; [done|]. cbn in E. subst v. cbn [map foldr snd depth].
  by rewrite IH.
Qed.

Lemma trafficPayload_encodes req ctx d ms : float_lit (DecisionMS d) = Some ms ->
  exists e, marshal (VObject (trafficPayload req ctx d)) = Some e.
Proof.
  intros Hms. apply encode_members. unfold trafficPayload, encodes_value.
  rewrite !list.Forall_app, !list.Forall_cons. cbn [snd].
  assert (is_Some (encode true (VObject (auditHeaders (Headers ctx))))) as Hh.
  { apply encode_members. eapply List.Forall_impl; [|apply auditHeaders_strings].
    apply string_valued_encodes. }
  assert (forall s, is_Some (encode true (VString s))) as Hs by (intros s; by eexists).
  assert (is_Some (encode true (VFloat (DecisionMS d)))) as Hf by (cbn; by eexists).
  repeat split; try done;
    [destruct (dq_BodyTruncated req)|destruct (d_Verdict d)]; repeat constructor; by eexists.
Qed.

Lemma trafficPayload_depth req ctx d : depth (VObject (trafficPayload req ctx d)) <= 2.
Proof.
  pose proof (string_members_depth _ (auditHeaders_strings (Headers ctx))) as Hh.
  unfold trafficPayload. cbn [app depth map foldr snd].
  change (1 + foldr Z.max 0 (map (fun p : string * gval => depth p.2) (auditHeaders (Headers ctx))))
    with (depth (VObject (auditHeaders (Headers ctx)))).
  rewrite Hh. destruct (dq_BodyTruncated req), (d_Verdict d); cbn; lia.
Qed.

(** The keys of a record. *)
Lemma trafficPayload_keys req ctx d k : k ∈ (trafficPayload req ctx d).*1 ->
  k ∈ ["ip"; "method"; "path"; "query"; "host"; "verdict"; "decision_ms";
       "headers"; "body_truncated"; "rule"; "reason"; "status"].
Proof.
  revert k. apply list.Forall_forall. unfold trafficPayload.
  destruct (dq_BodyTruncated req), (d_Verdict d); cbn [app fmap list_fmap fst];
    repeat (apply List.Forall_cons;
      [repeat first [apply list_elem_of_here|apply list_elem_of_further]|]); apply List.Forall_nil.
Qed.

(** Recording never fails to encode. *)
Lemma trafficPayload_normalises req ctx d ms : float_lit (DecisionMS d) = Some ms ->
  exists q, NormalizePayload (Some (trafficPayload req ctx d)) = Ok q.
Proof.
  intros Hms. destruct (trafficPayload_encodes req ctx d ms Hms) as [e He].
  pose proof (trafficPayload_depth req ctx d) as Hd.
  destruct (normalize_total _ _ He) as (q & Hq & _); [unfold max_depth; lia|]. by exists q.
Qed.

(** ** Properties *)

(** The dashboard can write administrative and system entries and nothing else.  Whatever
    bytes it posts, the endpoint answers once; it answers 400 without recording anything unless
    the body decodes to one of those two kinds, so no entry can pretend to be a traffic decision;
    otherwise it hands over exactly that entry and answers 201 only when the writer reported the
    entry as committed, and 503 when it did not. *)
Theorem audit_endpoint_guarded `{UnicodePrint} (sync : result unit) (body : string) :
  (exists text, handleAudit sync body = [Respond 400 text]) \/
  (exists req text, decode_limited body ≫= decode_audit = Some req /\
     (aq_Kind req = KindAdmin \/ aq_Kind req = KindSystem) /\ aq_Kind req <> KindTraffic /\
     handleAudit sync body =
       [RecordSync_ (aq_Kind req) (aq_RequestID req) (aq_Payload req);
        Respond (if is_Ok sync then 201 else 503) text]).
Proof.
  unfold handleAudit. destruct (decode_limited body ≫= decode_audit) as [req|]; [|left; by eexists].
  destruct (String.eqb_spec (aq_Kind req) KindAdmin) as [E|E]; cbn [negb andb];
    [|destruct (String.eqb_spec (aq_Kind req) KindSystem) as [E'|E']; cbn [negb]; [|left; by eexists]];
    right; destruct sync; cbn [is_Ok]; eexists _, _; (split; [done|]);
    (split; [auto|]); (split; [rewrite ?E, ?E'; discriminate|done]).
Qed.

(** An answer and nothing else. *)
Lemma quiet_answer {W} (w w' : W) e effects r (P : Prop) :
  answer [e] = Ok r -> (w, [e]) = (w', effects) ->
  (exists status b, answer effects = Ok (status, b)) /\
  ((w' = w /\ exists e, effects = [e] /\ exists r, answer [e] = Ok r) \/ P).
Proof.
  destruct r as [status b]. intros He [= <- <-]. split; [by exists status, b|]. left. split; [done|].
  exists e. split; [done|]. by eexists.
Qed.

(** C15: What can be asked of the engine.  Every request, whatever its method, path and body, is
    answered exactly once.  A traffic entry is handed over only for a POST to the decision endpoint
    that is answered 200, and names the request id that was posted; an administrative or system
    entry only for a POST to the audit endpoint, answered 201 when the writer committed it and 503
    when it did not; and nothing else touches the log or what the rules keep. *)
Theorem engine_surface `{UnicodePrint} {W} (sv : Server W) w x method path body w' effects :
  serve sv w x method path body = (w', effects) ->
  (exists status b, answer effects = Ok (status, b)) /\
  ((w' = w /\ exists e, effects = [e] /\ exists r, answer [e] = Ok r) \/
   (method = "POST" /\ segments path = ["v1"; "decide"] /\
    exists req d text, decode_limited body ≫= decode_decide = Some req /\
      Decide (sv_engine sv) w (request_context req (r_now x)) (r_start x) (r_stop x) = (w', d) /\
      effects = [Respond 200 text; Record_ KindTraffic (dq_RequestID req)
                                     (trafficPayload req (request_context req (r_now x)) d)]) \/
   (method = "POST" /\ segments path = ["v1"; "audit"] /\ w' = w /\
    exists req text, decode_limited body ≫= decode_audit = Some req /\
      (aq_Kind req = KindAdmin \/ aq_Kind req = KindSystem) /\
      effects = [RecordSync_ (aq_Kind req) (aq_RequestID req) (aq_Payload req);
                 Respond (if is_Ok (r_sync x) then 201 else 503) text])).
Proof.
  unfold serve. destruct (String.eqb (cleanPath path) path); cbn [negb]; [|by eapply quiet_answer].
  unfold routes, same.
  destruct (bool_decide_reflect (segments path = ["v1"; "decide"])) as [Ed|_];
    [|destruct (bool_decide_reflect (segments path = ["v1"; "audit"])) as [Ea|_]];
    (destruct (method_route method _) as [r|] eqn:Em;
       [|repeat case_bool_decide; by eapply quiet_answer]).
  - apply method_post in Em as [-> ->]. unfold handleDecide.
    destruct (decode_limited body ≫= decode_decide) as [req|]; [|by eapply quiet_answer].
    destruct (Decide _ _ _ _ _) as [w1 d] eqn:Eq. intros [= <- <-]. split; [by eexists _, _|].
    right. left. split; [done|]. split; [done|]. by eexists req, d, _.
  - apply method_post in Em as [-> ->].
    destruct (audit_endpoint_guarded (r_sync x) body) as [[text ->]|(req & text & Hd & Hk & _ & ->)]; [by eapply quiet_answer|].
    intros [= <- <-]. split; [cbn; by eexists _, _|]. right. right. do 3 (split; [done|]).
    by exists req, text.
  - destruct r; try (by eapply quiet_answer).
    + exfalso. repeat case_bool_decide; unfold method_route in Em; cbn [assoc] in Em;
        repeat case_match; simplify_eq.
    + exfalso. repeat case_bool_decide; unfold method_route in Em; cbn [assoc] in Em;
        repeat case_match; simplify_eq.
    + unfold handleReady. destruct (sv_ready _ _); by eapply quiet_answer.
Qed.

(** ** A run *)

Definition q (s : string) : string := str1 dquote +:+ s +:+ str1 dquote.

Definition sample_post : string :=
  "{" +:+ q "request_id" +:+ ":" +:+ q "r-1" +:+ "," +:+ q "ip" +:+ ":" +:+ q "203.0.113.7" +:+ ","
  +:+ q "headers" +:+ ":{" +:+ q "User-Agent" +:+ ":" +:+ q "curl/8" +:+ "," +:+ q "Cookie" +:+ ":"
  +:+ q "session=s3cret" +:+ "}," +:+ q "body" +:+ ":" +:+ q "password=hunter2" +:+ "}".

Definition refuse_all : Rule unit := MkRule "refuse" (fun w _ => (w, (Block, "refused"))) None.

Example sample_decide :
  (handleDecide (Rules.New [refuse_all]) tt sample_post 0 0 1500000).2 =
  [Respond 200 ("{" +:+ q "verdict" +:+ ":" +:+ q "block" +:+ "," +:+ q "rule" +:+ ":" +:+ q "refuse"
     +:+ "," +:+ q "reason" +:+ ":" +:+ q "refused" +:+ "," +:+ q "status" +:+ ":403,"
     +:+ q "request_id" +:+ ":" +:+ q "r-1" +:+ "," +:+ q "decision_ms" +:+ ":1.5}" +:+ byte_str 10);
   Record_ "traffic" "r-1"
     [("ip", VString "203.0.113.7"); ("method", VString ""); ("path", VString "");
      ("query", VString ""); ("host", VString ""); ("verdict", VString "block");
      ("decision_ms", VFloat (millisSince 0 1500000));
      ("headers", VObject [("user-agent", VString "curl/8")]);
      ("rule", VString "refuse"); ("reason", VString "refused"); ("status", VInt 403)]].
Proof. vm_compute. reflexivity. Qed.

(** The engine of a test, with PostgreSQL and Redis up. *)
Definition sample_server : Server unit := New (MkOptions (Rules.New [refuse_all]) (Some dependencies) "1.0").

Definition sample_around : around :=
  Around 0 0 1500000 (Ok tt) (Pings (Ok tt) (Err "refused")) (MkWriterStats 0 0 0 0 0).

#[local] Instance no_print : UnicodePrint := fun _ => false.

Example engine_routed : map (fun p => answer (serve sample_server tt sample_around p.1 p.2 "").2)
  [("GET", "/healthz"); ("GET", "/v1/decide"); ("POST", "//v1/decide"); ("GET", "/v2"); ("GET", "/readyz")]
  = [Ok (200, "{" +:+ q "status" +:+ ":" +:+ q "ok" +:+ "," +:+ q "version" +:+ ":" +:+ q "1.0" +:+ "}" +:+ byte_str 10);
     Ok (405, "Method Not Allowed" +:+ byte_str 10); Ok (301, EmptyString);
     Ok (404, "404 page not found" +:+ byte_str 10);
     Ok (503, "{" +:+ q "error" +:+ ":" +:+ q "redis: refused" +:+ "," +:+ q "status" +:+ ":" +:+ q "unavailable"
              +:+ "}" +:+ byte_str 10)].
Proof. vm_compute. reflexivity. Qed.

Lemma engine_surface_witness : exists text payload,
  (serve sample_server tt sample_around "POST" "/v1/decide" sample_post).2
  = [Respond 200 text; Record_ "traffic" "r-1" payload].
Proof.
  destruct (serve sample_server tt sample_around "POST" "/v1/decide" sample_post) as [w effects] eqn:E.
  destruct (engine_surface sample_server tt sample_around "POST" "/v1/decide" sample_post w effects E)
    as (_ & [(_ & e & He & _)|[(_ & _ & req & d & text & Hr & _ & ->)|(_ & Hs & _)]]).
  - exfalso. rewrite He in E. vm_compute in E. discriminate.
  - vm_compute in Hr. injection Hr as <-. eexists _, _. reflexivity.
  - exfalso. vm_compute in Hs. discriminate.
Defined.
