(* ===== verification/Traffic.v ===== *)
(** * What the record of a request says

    The record [handleDecide] makes ([engine/internal/httpapi/httpapi.go], [trafficPayload],
    [auditHeaders]) of a request that the assembled engine of [main.go] decides: what of the
    request it depends on.  The body and the headers that authenticate a client are not copied,
    but they are scanned, and the reason of a block quotes an excerpt of what was found. *)

From S2P Require Import Prelude Utf8 GoText GoTime GoJson GoJsonRound GoStruct Canonical Netip Model RateLimit Rules IPBlock Patterns Assembly AuditWriter EngineApi.

(** ** What may be recorded *)

Definition kept_headers : list string := ["user-agent"; "referer"; "origin"; "accept-language"; "x-forwarded-for"].

(** Two requests that differ at most in their body, in their scheme and in the headers that are
    not kept. *)
Record same_public (req req' : decideRequest) : Prop := {
  sp_id : dq_RequestID req' = dq_RequestID req;
  sp_ip : dq_IP req' = dq_IP req;
  sp_method : dq_Method req' = dq_Method req;
  sp_path : dq_Path req' = dq_Path req;
  sp_query : dq_Query req' = dq_Query req;
  sp_host : dq_Host req' = dq_Host req;
  sp_truncated : dq_BodyTruncated req' = dq_BodyTruncated req;
  sp_headers : forall n, n ∈ kept_headers ->
    assoc n (lowercaseKeys (dq_Headers req')) = assoc n (lowercaseKeys (dq_Headers req))
}.

Section Traffic.
Context `{UnicodePrint} `{RegexpLaws} {R : Type} `{Redis R} (set : SignatureSet) (max : Z).

(** The reason a signature rule gives: the signature's name, where it was found, and at most 186
    bytes around the match without control characters. *)
Definition excerpted (rule reason : string) : Prop :=
  exists s part text,
    s ∈ SQLi set ++ XSS set /\
    reason = rule +:+ " signature " +:+ quote (sig_ID s) +:+ " matched in " +:+ part +:+ ": " +:+ text /\
    slen text <= 186 /\ sall not_control text = true.

(** The record of a request that a signature rule blocked. *)
Definition evidence (payload : gobj) : Prop :=
  exists rule reason, rule ∈ ["sqli"; "xss"] /\ excerpted rule reason /\
    assoc "rule" payload = Some (VString rule) /\
    assoc "reason" payload = Some (VString (EngineApi.truncate reason 512)).

(** ** Lemmas *)

Lemma pattern_excerpted name sigs (req : RequestContext) v reason :
  (forall s, s ∈ sigs -> s ∈ SQLi set ++ XSS set) ->
  Patterns.Evaluate (NewPatternRule name sigs max) req = Some (v, reason) -> v = Block ->
  excerpted name reason.
Proof.
  intros Hsub. unfold Patterns.Evaluate.
  destruct (scanTargets_ok req _ (maxScan_pos name sigs max)) as (fields & -> & _). cbn [mbind option_bind].
  destruct (evaluate_fields_ok (NewPatternRule name sigs max) fields) as (v' & reason' & -> & _ & He).
  intros [= -> ->] Hv. destruct (He Hv) as (f & s & re & [i j] & text & _ & Hs & _ & Hf & Ht & ->).
  apply find_bounds in Hf as [Hi Hj]. destruct (excerpt_ok _ _ _ Hi Hj) as (text' & Ht' & Hlen & Hc).
  assert (text' = text) as -> by congruence.
  exists s, (f_name f), text. split; [by apply Hsub|]. done.
Qed.

(** What the access list and the rate limit say, which see the address, the id and the clock only. *)
Definition early (on : gmap string bool) (w : world (R := R)) (req : RequestContext) : option (Rule world * string) :=
  let ip := IPBlock.Evaluate (w_ip w) req in
  let rate := (rl_Evaluate (w_rate w) (w_redis w) (w_now w) (w_how w) req).2 in
  if index on "ipblock" && blocks ip.1 then Some (ip_rule, ip.2)
  else if index on "ratelimit" && blocks rate.1 then Some (rate_rule, rate.2)
  else None.

Lemma early_public on w req req' : IP req' = IP req -> RequestID req' = RequestID req ->
  ReceivedAt req' = ReceivedAt req -> early on w req' = early on w req.
Proof.
  intros E1 E2 E3. unfold early, IPBlock.Evaluate, rl_Evaluate, member_of. by rewrite E1, E2, E3.
Qed.

(** A rule found by the signature rules gave an excerpt. *)
Definition found_pattern (found : option (Rule (world (R := R)) * string)) : Prop :=
  exists rule reason, found = Some (rule, reason) /\ rule_Name rule ∈ ["sqli"; "xss"] /\
    excerpted (rule_Name rule) reason.

(** The decision is that of the first two rules, or of a signature rule, or there is none. *)
Lemma chain_found on (w : world (R := R)) req :
  let found := (decide_loop on (engine_chain set max) w req).2 in
  found = early on w req \/ found_pattern found.
Proof.
  cbv zeta. unfold engine_chain, early.
  destruct (IPBlock.Evaluate (w_ip w) req) as [v1 s1] eqn:E1.
  assert (rule_Evaluate ip_rule w req = (w, (v1, s1))) as E1' by (cbn; by rewrite E1).
  rewrite (loop_step on ip_rule _ w w v1 s1 req E1'). cbn [rule_Name ip_rule fst snd]. unfold ip_Name.
  destruct (rl_Evaluate (w_rate w) (w_redis w) (w_now w) (w_how w) req) as [st [v2 s2]] eqn:E2.
  assert (rule_Evaluate rate_rule w req = (counted w req, (v2, s2))) as E2' by by rewrite rate_rule_Evaluate, E2.
  set (l := [pattern_rule (NewPatternRule "sqli" (SQLi set) max); pattern_rule (NewPatternRule "xss" (XSS set) max)]).
  assert (forall w1, (decide_loop on l w1 req).2 = None \/ found_pattern (decide_loop on l w1 req).2) as Hl.
  { assert (forall name sigs rest w1, (forall s, s ∈ sigs -> s ∈ SQLi set ++ XSS set) -> name ∈ ["sqli"; "xss"] ->
      ((decide_loop on rest w1 req).2 = None \/ found_pattern (decide_loop on rest w1 req).2) ->
      let r := decide_loop on (pattern_rule (NewPatternRule name sigs max) :: rest) w1 req in
      r.2 = None \/ found_pattern r.2) as Hone.
    { intros name sigs rest w1 Hsub Hname Hrest. cbv zeta.
      destruct (Evaluate_ok (NewPatternRule name sigs max) req (maxScan_pos _ _ _)) as (v & reason & E & _).
      assert (rule_Evaluate (pattern_rule (NewPatternRule name sigs max)) w1 req = (w1, (v, reason))) as E'
        by (cbn [pattern_rule rule_Evaluate]; by rewrite E).
      rewrite (loop_step on _ rest w1 w1 v reason req E'). destruct (index on _); [|done]. destruct v; [done|].
      right. eexists _, _. split; [done|]. split; [exact Hname|]. by eapply pattern_excerpted. }
    intros w1. apply Hone; [set_solver|set_solver|]. apply Hone; [set_solver|set_solver|by left]. }
  rewrite (loop_step on rate_rule l w (counted w req) v2 s2 req E2').
  cbn [rule_Name rate_rule fst snd]. unfold rl_Name.
  destruct (index on "ipblock"), v1; cbn [andb blocks]; try (by left);
    (destruct (index on "ratelimit"), v2; cbn [andb blocks]; try (by left); apply Hl).
Qed.

Lemma trafficPayload_public req req' now found found' start stop :
  same_public req req' ->
  let payload := trafficPayload req (request_context req now) (decision (W := world (R := R)) found start stop) in
  let payload' := trafficPayload req' (request_context req' now) (decision found' start stop) in
  (found' = found -> payload' = payload) /\
  (forall k, k ∉ ["verdict"; "rule"; "reason"; "status"] -> assoc k payload' = assoc k payload).
Proof.
  intros [E0 E1 E2 E3 E4 E5 E6 Hh]. cbv zeta.
  assert (auditHeaders (lowercaseKeys (dq_Headers req')) = auditHeaders (lowercaseKeys (dq_Headers req))) as Eh
    by by apply auditHeaders_ext.
  split.
  - intros ->. unfold trafficPayload. cbn [request_context Headers]. by rewrite E1, E2, E3, E4, E5, E6, Eh.
  - intros k Hk. unfold trafficPayload. cbn [request_context Headers].
    rewrite E1, E2, E3, E4, E5, E6, Eh.
    rewrite !not_elem_of_cons in Hk. destruct Hk as (K1 & K2 & K3 & K4 & _).
    destruct found as [[]|], found' as [[]|], (dq_BodyTruncated req); cbn [decision app d_Verdict DecisionMS assoc];
      repeat match goal with |- context [String.eqb k ?n] => destruct (String.eqb_spec k n) as [->|]; [done|] end;
      done.
Qed.

(** What handling a request of the assembled engine does: one answer and one record. *)
Lemma handleDecide_record (e : Engine (world (R := R))) w body req now start stop :
  decode_limited body ≫= decode_decide = Some req ->
  let found := (decide_loop (enabled e) (rules e) w (request_context req now)).2 in
  (handleDecide e w body now start stop).2 =
    [Respond 200 (decide_response (decision found start stop) (dq_RequestID req));
     Record_ KindTraffic (dq_RequestID req) (trafficPayload req (request_context req now) (decision found start stop))].
Proof. intros Hd. unfold handleDecide, Decide. rewrite Hd. by destruct (decide_loop _ _ _ _) as [w' found]. Qed.

Lemma found_evidence req ctx found start stop : found_pattern found ->
  evidence (trafficPayload req ctx (decision (W := world (R := R)) found start stop)).
Proof.
  intros (rule & reason & -> & Hr & He). exists (rule_Name rule), reason. split; [done|]. split; [done|].
  unfold trafficPayload. by destruct (dq_BodyTruncated req).
Qed.
End Traffic.

(** ** Property *)


(** ** A run: a session cookie and a password that no signature matches leave no trace. *)

#[local] Existing Instance RateLimit.map_redis.
#[local] Existing Instance Patterns.literals.
#[local] Existing Instance Patterns.literals_laws.
#[local] Existing Instance IPBlock.ascii_print.

Definition post_with (cookie body : string) : string :=
  let q (s : string) := str1 dquote +:+ s +:+ str1 dquote in
  "{" +:+ q "request_id" +:+ ":" +:+ q "r-1" +:+ "," +:+ q "ip" +:+ ":" +:+ q "192.0.2.1" +:+ ","
  +:+ q "method" +:+ ":" +:+ q "POST" +:+ "," +:+ q "path" +:+ ":" +:+ q "/login" +:+ ","
  +:+ q "headers" +:+ ":{" +:+ q "User-Agent" +:+ ":" +:+ q "curl/8" +:+ ","
  +:+ q "Cookie" +:+ ":" +:+ q cookie +:+ "}," +:+ q "body" +:+ ":" +:+ q body +:+ "}".

Definition secret_post : string := post_with "session=s3cret" "password=hunter2".
Definition plain_post : string := post_with "a=1" "x".

Definition parsed (cookie body : string) : decideRequest :=
  MkDecide "r-1" "192.0.2.1" "POST" "/login" "" "" "" [("User-Agent", "curl/8"); ("Cookie", cookie)] body false.

Lemma secret_parsed : decode_limited secret_post ≫= decode_decide = Some (parsed "session=s3cret" "password=hunter2").
Proof. vm_compute. reflexivity. Qed.

Lemma plain_parsed : decode_limited plain_post ≫= decode_decide = Some (parsed "a=1" "x").
Proof. vm_compute. reflexivity. Qed.

Lemma parsed_public : same_public (parsed "session=s3cret" "password=hunter2") (parsed "a=1" "x").
Proof.
  split; try reflexivity. apply list.Forall_forall.
  repeat (apply List.Forall_cons; [vm_compute; reflexivity|]). apply List.Forall_nil.
Qed.

Definition sample_engine : Engine (world (R := map_store)) := SetEnabled (engine_of sample_set 0) all_on.

Definition handled (body : string) : list effect := (handleDecide sample_engine sample_world body 0 0 1500000).2.

(** The rule in a record. *)
Definition record_rule (effects : list effect) : option gval :=
  match effects with [_; Record_ _ _ payload] => assoc "rule" payload | _ => None end.

Lemma no_rule : record_rule (handled secret_post) = None /\ record_rule (handled plain_post) = None.
Proof. vm_compute. split; reflexivity. Qed.

(** A cookie that does match is quoted, with what stands before the match. *)
Definition record_reason (effects : list effect) : option gval :=
  match effects with [_; Record_ _ _ payload] => assoc "reason" payload | _ => None end.

Example cookie_recorded : record_reason (handled (post_with "session=s3cret; q=' OR '1'='1" "x"))
  = Some (VString ("sqli signature " +:+ str1 dquote +:+ "quoted_tautology" +:+ str1 dquote
                   +:+ " matched in header cookie: " +:+ ellipsis +:+ "s3cret; q=' OR '1'='1" +:+ ellipsis)).
Proof. vm_compute. reflexivity. Qed.

Lemma evidence_rule effects answer id payload : effects = [Respond 200 answer; Record_ KindTraffic id payload] ->
  record_rule effects = None -> ~ evidence sample_set payload.
Proof. intros -> Hr (rule & reason & _ & _ & E & _). cbn in Hr. congruence. Qed.

