(* ===== verification/Auth.v ===== *)
(** * Dashboard sessions

    [dashboard/api/internal/auth/auth.go] and [context.go]: signed session tokens, sign-in, and
    the middleware in front of the dashboard's handlers.  base64 is modelled here, HMAC in
    [Sha256]; bcrypt, which is not part of the standard library, is the interface [Bcrypt]. *)

From S2P Require Import Prelude Utf8 GoText GoTime Sha256.

(** ** [base64.RawURLEncoding] *)

Definition b64_char (v : Z) : ascii :=
  bof (if v <? 26 then 65 + v else if v <? 52 then 71 + v else if v <? 62 then v - 4
       else if v =? 62 then 45 else 95).

Definition b64_val (c : ascii) : option Z :=
  let z := bval c in
  if (65 <=? z) && (z <=? 90) then Some (z - 65)
  else if (97 <=? z) && (z <=? 122) then Some (z - 71)
  else if (48 <=? z) && (z <=? 57) then Some (z + 4)
  else if z =? 45 then Some 62
  else if z =? 95 then Some 63
  else None.

Fixpoint b64_encode (l : list Z) : string :=
  match l with
  | a :: b :: c :: l =>
      String (b64_char (a / 4)) (String (b64_char (a mod 4 * 16 + b / 16))
        (String (b64_char (b mod 16 * 4 + c / 64)) (String (b64_char (c mod 64)) (b64_encode l))))
  | [a; b] =>
      String (b64_char (a / 4)) (String (b64_char (a mod 4 * 16 + b / 16))
        (str1 (b64_char (b mod 16 * 4))))
  | [a] => String (b64_char (a / 4)) (str1 (b64_char (a mod 4 * 16)))
  | [] => EmptyString
  end.

(** Line breaks are skipped; the unused bits of the last character are not looked at. *)
Definition b64_digits (s : string) : option (list Z) :=
  mapM b64_val (List.filter (fun c => negb ((bval c =? 10) || (bval c =? 13))) (schars s)).

Fixpoint b64_bytes (l : list Z) : option (list Z) :=
  match l with
  | p :: q :: r :: s :: l =>
      out ← b64_bytes l;
      Some (p * 4 + q / 16 :: q mod 16 * 16 + r / 4 :: r mod 4 * 64 + s :: out)
  | [p; q; r] => Some [p * 4 + q / 16; q mod 16 * 16 + r / 4]
  | [p; q] => Some [p * 4 + q / 16]
  | [_] => None
  | [] => Some []
  end.

Definition b64_decode (s : string) : option string :=
  digits ← b64_digits s; bytes ← b64_bytes digits; Some (of_bytes bytes).

(** ** The manager *)

(** bcrypt: the cost read from a hash, and the comparison with a password. *)
Class Bcrypt := {
  Cost : string -> result Z;
  CompareHashAndPassword : string -> string -> bool
}.

Definition CookieName : string := "openshield_session".
Definition ErrInvalidCredentials : string := "auth: invalid credentials".
Definition ErrInvalidSession : string := "auth: invalid session".
Definition ErrSessionExpired : string := "auth: session expired".

Record Manager := MkManager {
  m_user : string; m_passwordHash : string; m_secret : string; m_ttl : Z; m_secure : bool
}.

Record Options := MkOptions {
  o_User : string; o_PasswordHash : string; o_Secret : string; o_TTL : Z; o_Secure : bool
}.

Definition New `{Bcrypt} (opts : Options) : result Manager :=
  if String.eqb (o_User opts) EmptyString then Err "auth: administrator user is required"
  else if slen (o_Secret opts) <? 32
  then Err "auth: session secret must be at least 32 characters"
  else
    match Cost (o_PasswordHash opts) with
    | Err m => Err ("auth: administrator password hash is not a valid bcrypt hash: " +:+ m)
    | Ok _ =>
        let ttl := if o_TTL opts <=? 0 then 8 * 3600 * second else o_TTL opts in
        Ok (MkManager (o_User opts) (o_PasswordHash opts) (o_Secret opts) ttl (o_Secure opts))
    end.

Definition sign (m : Manager) (body : string) : string :=
  b64_encode (hmac_sha256 (sbytes (m_secret m)) (sbytes body)).

Definition dot (a b : string) : string := a +:+ String "." b.

(** [issue]; [expiry.Unix()] rounds down to the second. *)
Definition issue (m : Manager) (user : string) (expiry : Z) : string :=
  let body := dot (b64_encode (sbytes user)) (itoa (expiry / second)) in
  dot body (sign m body).

Definition Login `{Bcrypt} (m : Manager) (now : Z) (user password : string) : result string :=
  let userMatches := String.eqb user (m_user m) in
  let passwordMatches := CompareHashAndPassword (m_passwordHash m) password in
  if negb userMatches || negb passwordMatches then Err ErrInvalidCredentials
  else Ok (issue m (m_user m) (now + m_ttl m)).

(** [time.Unix(sec, 0)] in seconds: the count from year 1 it keeps wraps around. *)
Definition unix_time (sec : Z) : Z := wrap64 (sec + 62135596800) - 62135596800.

Definition Verify (m : Manager) (now : Z) (token : string) : result string :=
  match split_on "." token with
  | [p0; p1; p2] =>
      let body := dot p0 p1 in
      if negb (String.eqb p2 (sign m body)) then Err ErrInvalidSession
      else
        match b64_decode p0 with
        | None => Err ErrInvalidSession
        | Some rawUser =>
            match parse_int p1 with
            | None => Err ErrInvalidSession
            | Some expiry =>
                if unix_time expiry * second <? now then Err ErrSessionExpired else Ok rawUser
            end
        end
  | _ => Err ErrInvalidSession
  end.

(** ** Cookies and the middleware *)

Record Cookie := MkCookie {
  c_Name : string; c_Value : string; c_Path : string; c_HttpOnly : bool; c_SameSiteStrict : bool;
  c_Secure : bool; c_MaxAge : Z
}.

(** [int(ttl.Seconds())] for a lifetime of whole seconds. *)
Definition SetCookie (m : Manager) (token : string) : Cookie :=
  MkCookie CookieName token "/" true true (m_secure m) (Z.quot (m_ttl m) second).

Definition ClearCookie (m : Manager) : Cookie :=
  MkCookie CookieName EmptyString "/" true true (m_secure m) (-1).

(** What [Require] does with a request: serve it as a user, or refuse it, clearing the cookie
    when there was one. *)
Inductive guarded := Served (user : string) | Refused (cleared : option Cookie) (message : string).

Definition Require_ (m : Manager) (now : Z) (cookie : option string) : guarded :=
  match cookie with
  | None => Refused None "authentication required"
  | Some value =>
      match Verify m now value with
      | Err e => Refused (Some (ClearCookie m)) e
      | Ok user => Served user
      end
  end.

Definition unauthorized (message : string) : Z * string :=
  (401, "{" +:+ str1 dquote +:+ "error" +:+ str1 dquote +:+ ":" +:+ str1 dquote +:+ message
        +:+ str1 dquote +:+ "}").

(** The context of a request carries the user; [UserFrom] gives the empty string without one. *)
Definition context := option string.
Definition WithUser (ctx : context) (user : string) : context := Some user.
Definition UserFrom (ctx : context) : string := default EmptyString ctx.

(** ** Lemmas *)

Lemma b64_val_char v : 0 <= v < 64 -> b64_val (b64_char v) = Some v.
Proof.
  intros Hv. unfold b64_val, b64_char. rewrite bval_bof by (repeat case_match; lia).
  destruct (Z.ltb_spec v 26); [zbool; f_equal; lia|].
  destruct (Z.ltb_spec v 52); [zbool; f_equal; lia|].
  destruct (Z.ltb_spec v 62); [zbool; f_equal; lia|].
  destruct (Z.eqb_spec v 62) as [->|]; [done|]. assert (v = 63) as -> by lia. done.
Qed.

(** Characters of the alphabet are neither line breaks nor dots. *)
Definition b64_plain (c : ascii) : bool :=
  negb ((bval c =? 10) || (bval c =? 13)) && negb (Ascii.eqb "." c).

Lemma b64_char_plain v : 0 <= v < 64 -> b64_plain (b64_char v) = true.
Proof.
  intros Hv. assert (b64_val (b64_char v) = Some v) as E by by apply b64_val_char.
  generalize dependent (b64_char v). intros c E. unfold b64_plain.
  destruct (Ascii.eqb_spec "." c) as [<-|]; [vm_compute in E; discriminate|]. unfold b64_val in E.
  destruct (Z.eqb_spec (bval c) 10) as [E1|]; [by rewrite E1 in E|].
  destruct (Z.eqb_spec (bval c) 13) as [E1|]; [by rewrite E1 in E|]. done.
Qed.

Lemma triple_ind (P : list Z -> Prop) :
  P [] -> (forall a, P [a]) -> (forall a b, P [a; b]) ->
  (forall a b c l, P l -> P (a :: b :: c :: l)) -> forall l, P l.
Proof. intros H0 H1 H2 H3. fix IH 1. intros [|a [|b [|c l]]]; [done|apply H1|apply H2|apply H3, IH]. Qed.

(** The sextets a list of bytes is written with. *)
Fixpoint sextets (l : list Z) : list Z :=
  match l with
  | a :: b :: c :: l =>
      a / 4 :: a mod 4 * 16 + b / 16 :: b mod 16 * 4 + c / 64 :: c mod 64 :: sextets l
  | [a; b] => [a / 4; a mod 4 * 16 + b / 16; b mod 16 * 4]
  | [a] => [a / 4; a mod 4 * 16]
  | [] => []
  end.

Definition byte_range (z : Z) : Prop := 0 <= z < 256.

Lemma sextets_range l : Forall byte_range l -> Forall (fun v => 0 <= v < 64) (sextets l).
Proof.
  unfold byte_range. induction l as [|a|a b|a b c l IH] using triple_ind; cbn [sextets];
    rewrite ?list.Forall_cons; intros Hl; destruct_and? Hl; repeat split; try apply IH; try done; dlia.
Qed.

Lemma b64_encode_sextets l : schars (b64_encode l) = map b64_char (sextets l).
Proof.
  induction l as [|a|a b|a b c l IH] using triple_ind; cbn [b64_encode sextets schars map str1]; [done..|].
  by rewrite IH.
Qed.

Lemma b64_bytes_sextets l : Forall byte_range l -> b64_bytes (sextets l) = Some l.
Proof.
  unfold byte_range. induction l as [|a|a b|a b c l IH] using triple_ind; rewrite ?list.Forall_cons;
    intros Hl; cbn [sextets b64_bytes].
  - done.
  - do 2 f_equal. dlia.
  - do 2 f_equal; [dlia|]. f_equal. dlia.
  - rewrite IH by tauto. cbn. do 2 f_equal; [dlia|]. f_equal; [dlia|]. f_equal. dlia.
Qed.

Lemma b64_digits_encode l : Forall byte_range l -> b64_digits (b64_encode l) = Some (sextets l).
Proof.
  intros Hl%sextets_range. unfold b64_digits. rewrite b64_encode_sextets.
  induction Hl as [|v x Hv _ IH]; [done|]. cbn [map List.filter].
  pose proof (b64_char_plain v Hv) as Hp. apply andb_prop in Hp as [-> _].
  cbn [mapM]. by rewrite b64_val_char, IH.
Qed.

Lemma sbytes_range s : Forall byte_range (sbytes s).
Proof. induction s as [|c s IH]; constructor; [apply bval_bound|done]. Qed.

Lemma b64_roundtrip s : b64_decode (b64_encode (sbytes s)) = Some s.
Proof.
  unfold b64_decode. rewrite b64_digits_encode by apply sbytes_range. cbn.
  rewrite b64_bytes_sextets by apply sbytes_range. cbn. by rewrite of_bytes_sbytes.
Qed.

Lemma b64_no_dot l : Forall byte_range l -> no_char "." (b64_encode l) = true.
Proof.
  intros Hl%sextets_range. pose proof (b64_encode_sextets l) as E. unfold no_char.
  revert E. generalize (b64_encode l). induction Hl as [|v x Hv _ IH]; intros s E.
  - by destruct s.
  - destruct s as [|c s]; [done|]. cbn in E. injection E as -> E. cbn [sall].
    pose proof (b64_char_plain v Hv) as Hp. apply andb_prop in Hp as [_ ->]. by apply IH.
Qed.

Lemma sign_no_dot m body : no_char "." (sign m body) = true.
Proof. apply b64_no_dot, sha256_range. Qed.

Lemma digits_no_dot s : sall is_digit s = true -> no_char "." s = true.
Proof.
  apply sall_impl. intros c Hc. destruct (Ascii.eqb_spec "." c) as [<-|]; done.
Qed.

Lemma itoa_no_dot n : no_char "." (itoa n) = true.
Proof.
  unfold itoa. destruct (Z.ltb_spec n 0); [|by apply digits_no_dot, dec_all_digits].
  unfold no_char. cbn [sall]. apply digits_no_dot, dec_all_digits. lia.
Qed.

(** A token splits into the parts it was made of. *)
Lemma split_token p0 p1 p2 :
  no_char "." p0 = true -> no_char "." p1 = true -> no_char "." p2 = true ->
  split_on "." (dot (dot p0 p1) p2) = [p0; p1; p2].
Proof.
  intros N0 N1 N2. unfold dot. rewrite app_assoc_str. cbn [String.append].
  by rewrite split_on_app, split_on_app, split_on_none.
Qed.

Lemma split_no_char c s : Forall (fun p => no_char c p = true) (split_on c s).
Proof.
  unfold no_char. induction s as [|d s IH]; cbn [split_on]; [by repeat constructor|].
  destruct (Ascii.eqb c d) eqn:E; [by constructor|].
  destruct (split_on c s) as [|p ps]; [by repeat constructor; cbn; rewrite E|].
  apply list.Forall_cons in IH as [Hp Hps]. constructor; [|done]. cbn. by rewrite E, Hp.
Qed.

Lemma no_char_app c s t : no_char c (s +:+ t) = no_char c s && no_char c t.
Proof. unfold no_char. by rewrite sall_app. Qed.

(** A string splits at its last dot in one way. *)
Lemma last_dot_inj s t a b : no_char "." a = true -> no_char "." b = true ->
  dot s a = dot t b -> s = t /\ a = b.
Proof.
  intros Na Nb. revert t. induction s as [|c s IH]; intros [|d t]; unfold dot; cbn.
  - by intros [= ->].
  - intros [= <- ->]. change (String "." b) with (str1 "." +:+ b) in Na.
    by rewrite !no_char_app, andb_false_r in Na.
  - intros [= -> <-]. change (String "." a) with (str1 "." +:+ a) in Nb.
    by rewrite !no_char_app, andb_false_r in Nb.
  - intros [= -> E]. by destruct (IH t E) as [-> ->].
Qed.

(** ** Properties *)

Definition body_of (user : string) (expiry : Z) : string :=
  dot (b64_encode (sbytes user)) (itoa (expiry / second)).

Lemma issue_split m user expiry : split_on "." (issue m user expiry)
  = [b64_encode (sbytes user); itoa (expiry / second); sign m (body_of user expiry)].
Proof. apply split_token; [apply b64_no_dot, sbytes_range|apply itoa_no_dot|apply sign_no_dot]. Qed.

Lemma unix_time_id s : - 2 ^ 62 <= s <= 2 ^ 62 -> unix_time s = s.
Proof. intros Hs. unfold unix_time, wrap64. rewrite Z.mod_small; lia. Qed.

Lemma verify_spec m now token u :
  Verify m now token = Ok u <->
  exists p0 p1 e, no_char "." p0 = true /\ no_char "." p1 = true /\
    token = dot (dot p0 p1) (sign m (dot p0 p1)) /\
    b64_decode p0 = Some u /\ parse_int p1 = Some e /\ now <= unix_time e * second.
Proof.
  unfold Verify. split.
  - pose proof (join_split "." token) as Hj. pose proof (split_no_char "." token) as Hn.
    destruct (split_on "." token) as [|p0 [|p1 [|p2 [|? ?]]]] eqn:Es; try done.
    rewrite !list.Forall_cons in Hn. destruct Hn as (N0 & N1 & _).
    destruct (String.eqb_spec p2 (sign m (dot p0 p1))) as [->|]; cbn [negb]; [|done].
    destruct (b64_decode p0) as [raw|] eqn:E0; [|done].
    destruct (parse_int p1) as [e|] eqn:E1; [|done].
    destruct (Z.ltb_spec (unix_time e * second) now) as [|Hle]; [done|]. intros [= ->].
    exists p0, p1, e. repeat (split; [done|]). split; [|done].
    rewrite <- Hj. unfold dot. cbn [join]. unfold str1. rewrite app_assoc_str. done.
  - intros (p0 & p1 & e & N0 & N1 & -> & E0 & E1 & Hle).
    rewrite split_token by (done || apply sign_no_dot). rewrite String.eqb_refl. cbn [negb].
    rewrite E0, E1. by destruct (Z.ltb_spec (unix_time e * second) now); [lia|].
Qed.

Lemma verify_issued m now user expiry :
  - 2 ^ 62 <= expiry / second <= 2 ^ 62 ->
  Verify m now (issue m user expiry)
  = if expiry / second * second <? now then Err ErrSessionExpired else Ok user.
Proof.
  intros Hr. unfold Verify. rewrite issue_split. unfold body_of. rewrite String.eqb_refl. cbn [negb].
  rewrite b64_roundtrip, parse_int_itoa by (unfold in_int64, int64_min, int64_max; lia).
  by rewrite unix_time_id by done.
Qed.

(** C23: Which tokens open a session.  A token is accepted exactly when it is a body of two parts
    without dots followed by the manager's signature of that body, the first part decodes to the
    user returned and the second is an expiry that has not passed; anything else is refused, and
    the middleware serves a request only with the user of an accepted token. *)
Theorem session_verify_exact m now cookie u :
  Require_ m now cookie = Served u <->
  exists p0 p1 e, no_char "." p0 = true /\ no_char "." p1 = true /\
    cookie = Some (dot (dot p0 p1) (sign m (dot p0 p1))) /\
    b64_decode p0 = Some u /\ parse_int p1 = Some e /\ now <= unix_time e * second.
Proof.
  unfold Require_. destruct cookie as [token|].
  - destruct (Verify m now token) as [v|err] eqn:E.
    + split.
      * intros [= ->]. apply verify_spec in E as (p0 & p1 & e & N0 & N1 & -> & Hrest).
        by exists p0, p1, e.
      * intros (p0 & p1 & e & N0 & N1 & Ht & Hrest).
        assert (Verify m now token = Ok u) as E'; [|congruence].
        apply verify_spec. exists p0, p1, e. by injection Ht.
    + split; [done|]. intros (p0 & p1 & e & N0 & N1 & Ht & Hrest).
      assert (Verify m now token = Ok u) as E'; [|congruence].
      apply verify_spec. exists p0, p1, e. by injection Ht.
  - split; [done|]. by intros (p0 & p1 & e & _ & _ & ? & _).
Qed.

(** Signing in, and what a token is worth.  [Login] gives a token exactly for the
    administrator's name and password, and the token it gives opens a session for the
    administrator until the lifetime ends, to the second, and afterwards reports an expired
    session.  Nobody can move its signature to another body, unless the two bodies have the same
    HMAC. *)
Theorem login_session `{Bcrypt} m now user password :
  - 2 ^ 62 <= (now + m_ttl m) / second <= 2 ^ 62 ->
  (is_Ok (Login m now user password) = true <->
     user = m_user m /\ CompareHashAndPassword (m_passwordHash m) password = true) /\
  (forall token, Login m now user password = Ok token ->
     (forall now', Verify m now' token
        = if (now + m_ttl m) / second * second <? now' then Err ErrSessionExpired else Ok user) /\
     (forall body now' u,
        Verify m now' (dot body (sign m (body_of user (now + m_ttl m)))) = Ok u ->
        (sign m body = sign m (body_of user (now + m_ttl m)) ->
           body = body_of user (now + m_ttl m)) ->
        dot body (sign m (body_of user (now + m_ttl m))) = token /\ u = user)).
Proof.
  intros Hr. unfold Login. split.
  - destruct (String.eqb_spec user (m_user m)), (CompareHashAndPassword _ _); cbn; intuition congruence.
  - destruct (String.eqb_spec user (m_user m)) as [->|]; [|done].
    destruct (CompareHashAndPassword _ _); [|done]. cbn [negb orb]. intros token [= <-].
    split; [intros now'; by apply verify_issued|].
    intros body now' u Hv Hinj. pose proof Hv as Hv'. apply verify_spec in Hv' as (p0 & p1 & e & _ & _ & Heq & _).
    apply last_dot_inj in Heq as [-> Hs]; [|apply sign_no_dot..].
    rewrite (Hinj (eq_sym Hs)) in *. split; [done|].
    change (dot (body_of _ _) _) with (issue m (m_user m) (now + m_ttl m)) in Hv.
    rewrite verify_issued in Hv by done. destruct (_ <? _); congruence.
Qed.

(** ** A run *)

#[local] Instance plain_bcrypt : Bcrypt := {|
  Cost h := if has_prefix "$2" h then Ok 10 else Err "hashedSecret too short";
  CompareHashAndPassword h p := String.eqb h ("$2a$" +:+ p)
|}.

Definition sample_manager : Manager :=
  MkManager "admin" "$2a$correct horse" "0123456789abcdef0123456789abcdef" (8 * 3600 * second) false.

Example sample_new : New (MkOptions "admin" "$2a$correct horse" "0123456789abcdef0123456789abcdef" 0 false)
  = Ok sample_manager.
Proof. vm_compute. reflexivity. Qed.

Example sample_tampered :
  Verify sample_manager 0 (dot (dot (b64_encode (sbytes "root")) "28800")
    (sign sample_manager (body_of "admin" (28800 * second)))) = Err ErrInvalidSession.
Proof. vm_compute. reflexivity. Qed.

Lemma login_session_witness :
  let now := 1700000000 * second in
  is_Ok (Login sample_manager now "admin" "correct horse") = true /\
  (forall token, Login sample_manager now "admin" "correct horse" = Ok token ->
     Verify sample_manager (now + 8 * 3600 * second) token = Ok "admin" /\
     Verify sample_manager (now + 8 * 3600 * second + 1) token = Err ErrSessionExpired).
Proof.
  intros now.
  destruct (login_session sample_manager now "admin" "correct horse") as [Hok Htok].
  { vm_compute. split; discriminate. }
  split; [apply Hok; split; vm_compute; reflexivity|].
  intros token Ht. destruct (Htok token Ht) as [Hv _]. rewrite !Hv. split; reflexivity.
Defined.
