(* ===== verification/Config.v ===== *)
(** * Configuration

    [internal/config/config.go]: settings read from the environment, checked as a whole, with
    every error reported.  The environment is a map from names to values. *)

From S2P Require Import Prelude Utf8 GoText GoTime Netip.

(** ** The environment and the readers

    A reader takes the errors so far and returns its value with the errors extended. *)

Definition env := gmap string string.

(** [errors.Join]: nil when there is no error, otherwise the messages on lines of their own. *)
Definition errors_join (errs : list string) : option string :=
  match errs with [] => None | _ => Some (join (byte_str 10) errs) end.

Section Config.
Context `{UnicodePrint} (e : env).

Definition Getenv (key : string) : string := default EmptyString (e !! key).

Definition str (key fallback : string) : string :=
  match e !! key with
  | Some v => if negb (String.eqb v EmptyString) then v else fallback
  | None => fallback
  end.

Definition required (key : string) (errs : list string) : string * list string :=
  let v := trim_space (Getenv key) in
  (v, if String.eqb v EmptyString then errs ++ [key +:+ " is required"] else errs).

Definition integer (key : string) (fallback : Z) (errs : list string) : Z * list string :=
  match e !! key with
  | None => (fallback, errs)
  | Some raw =>
      if String.eqb raw EmptyString then (fallback, errs)
      else
        match parse_int raw with
        | None => (fallback, errs ++ [key +:+ " must be an integer, got " +:+ quote raw])
        | Some n => (n, errs)
        end
  end.

(** The product of two [time.Duration]s wraps around. *)
Definition seconds (key : string) (fallback : Z) (errs : list string) : Z * list string :=
  let '(n, errs) := integer key fallback errs in (wrap64 (n * second), errs).

(** [strconv.ParseBool] *)
Definition parse_bool (s : string) : option bool :=
  if existsb (String.eqb s) ["1"; "t"; "T"; "TRUE"; "true"; "True"] then Some true
  else if existsb (String.eqb s) ["0"; "f"; "F"; "FALSE"; "false"; "False"] then Some false
  else None.

Definition boolean (key : string) (fallback : bool) (errs : list string) : bool * list string :=
  match e !! key with
  | None => (fallback, errs)
  | Some raw =>
      if String.eqb raw EmptyString then (fallback, errs)
      else
        match parse_bool raw with
        | None => (fallback, errs ++ [key +:+ " must be true or false, got " +:+ quote raw])
        | Some b => (b, errs)
        end
  end.

(** The loop of [prefixes]. *)
Definition add_prefix (key : string) (st : list prefix * list string) (field : string)
  : list prefix * list string :=
  match parse_prefix field with
  | None => (st.1, st.2 ++ [key +:+ ": " +:+ quote field +:+ " is not a CIDR block"])
  | Some p => (st.1 ++ [masked p], st.2)
  end.

Definition prefixes (key : string) (errs : list string) : list prefix * list string :=
  let raw := trim_space (Getenv key) in
  if String.eqb raw EmptyString then ([], errs)
  else foldl (add_prefix key) ([], errs) (fields (replace_char "," " " raw)).

(** ** The two configurations *)

Record EngineConfig := MkEngineConfig {
  c_Addr : string; c_PostgresDSN : string; c_RedisAddr : string; c_RedisPass : string;
  c_RedisDB : Z; c_AuditBuffer : Z; c_EventsChannel : string; c_RateLimitRequests : Z;
  c_RateLimitWindow : Z; c_MaxBodyInspect : Z; c_LogLevel : string
}.

Record DashboardConfig := MkDashboardConfig {
  d_Addr : string; d_PostgresDSN : string; d_RedisAddr : string; d_RedisPass : string;
  d_RedisDB : Z; d_EventsChannel : string; d_AdminUser : string; d_AdminPasswordHash : string;
  d_SessionSecret : string; d_SessionTTL : Z; d_SecureCookies : bool;
  d_TrustedProxies : list prefix; d_LogLevel : string
}.

Definition check (bad : bool) (msg : string) (errs : list string) : list string :=
  if bad then errs ++ [msg] else errs.

Definition LoadEngine : EngineConfig * option string :=
  let errs := [] in
  let addr := str "OS_ENGINE_ADDR" ":8080" in
  let '(dsn, errs) := required "OS_POSTGRES_DSN" errs in
  let redis := str "OS_REDIS_ADDR" "redis:6379" in
  let pass := str "OS_REDIS_PASSWORD" "" in
  let '(rdb, errs) := integer "OS_REDIS_DB" 0 errs in
  let '(buffer, errs) := integer "OS_AUDIT_BUFFER" 4096 errs in
  let channel := str "OS_EVENTS_CHANNEL" "openshield:events" in
  let '(requests, errs) := integer "OS_RATELIMIT_REQUESTS" 100 errs in
  let '(window, errs) := seconds "OS_RATELIMIT_WINDOW_S" 60 errs in
  let '(inspect, errs) := integer "OS_MAX_BODY_INSPECT_BYTES" 8192 errs in
  let level := str "OS_LOG_LEVEL" "info" in
  let errs := check (requests <=? 0) "OS_RATELIMIT_REQUESTS must be greater than zero" errs in
  let errs := check (window <=? 0) "OS_RATELIMIT_WINDOW_S must be greater than zero" errs in
  let errs := check (inspect <? 0) "OS_MAX_BODY_INSPECT_BYTES cannot be negative" errs in
  (MkEngineConfig addr dsn redis pass rdb buffer channel requests window inspect level,
   errors_join errs).

Definition LoadDashboard : DashboardConfig * option string :=
  let errs := [] in
  let addr := str "OS_DASHBOARD_ADDR" ":8081" in
  let '(dsn, errs) := required "OS_POSTGRES_DSN" errs in
  let redis := str "OS_REDIS_ADDR" "redis:6379" in
  let pass := str "OS_REDIS_PASSWORD" "" in
  let '(rdb, errs) := integer "OS_REDIS_DB" 0 errs in
  let channel := str "OS_EVENTS_CHANNEL" "openshield:events" in
  let user := str "OS_ADMIN_USER" "admin" in
  let '(hash, errs) := required "OS_ADMIN_PASSWORD_HASH" errs in
  let '(secret, errs) := required "OS_SESSION_SECRET" errs in
  let '(ttl, errs) := seconds "OS_SESSION_TTL_S" (8 * 3600) errs in
  let '(cookies, errs) := boolean "OS_SECURE_COOKIES" false errs in
  let '(proxies, errs) := prefixes "OS_TRUSTED_PROXY" errs in
  let level := str "OS_LOG_LEVEL" "info" in
  let errs := check (negb (String.eqb secret EmptyString) && (slen secret <? 32))
    "OS_SESSION_SECRET must be at least 32 characters; generate one with: openssl rand -hex 32" errs in
  let errs := check (negb (String.eqb hash EmptyString) && negb (has_prefix "$2" hash))
    "OS_ADMIN_PASSWORD_HASH must be a bcrypt hash (starts with $2a$/$2b$/$2y$), not a plaintext password"
    errs in
  (MkDashboardConfig addr dsn redis pass rdb channel user hash secret ttl cookies proxies level,
   errors_join errs).
End Config.

(** ** What a reader reports *)

Section Readers.
Context `{UnicodePrint} (e : env).

(** The value an integer setting stands for: absent and empty mean the fallback. *)
Definition int_setting (key : string) (fallback : Z) : option Z :=
  match e !! key with
  | None => Some fallback
  | Some raw => if String.eqb raw EmptyString then Some fallback else parse_int raw
  end.

Definition bool_setting (key : string) (fallback : bool) : option bool :=
  match e !! key with
  | None => Some fallback
  | Some raw => if String.eqb raw EmptyString then Some fallback else parse_bool raw
  end.

(** The networks a list setting names. *)
Definition network_fields (key : string) : list string :=
  let raw := trim_space (Getenv e key) in
  if String.eqb raw EmptyString then [] else fields (replace_char "," " " raw).

Lemma required_report key errs : exists es,
  required e key errs = (trim_space (Getenv e key), errs ++ es) /\
  (es = [] <-> trim_space (Getenv e key) <> EmptyString).
Proof.
  unfold required. destruct (String.eqb_spec (trim_space (Getenv e key)) EmptyString) as [E|E].
  - eexists. split; [done|]. rewrite E. by split.
  - exists []. by rewrite app_nil_r.
Qed.

Lemma integer_report key fallback errs : exists es,
  integer e key fallback errs = (default fallback (int_setting key fallback), errs ++ es) /\
  (es = [] <-> is_Some (int_setting key fallback)).
Proof.
  unfold integer, int_setting. destruct (e !! key) as [raw|].
  2: { exists []. rewrite app_nil_r. split; [done|]. split; [by eexists|done]. }
  destruct (String.eqb raw EmptyString).
  { exists []. rewrite app_nil_r. split; [done|]. split; [by eexists|done]. }
  destruct (parse_int raw) as [n|].
  - exists []. rewrite app_nil_r. split; [done|]. split; [by eexists|done].
  - eexists. split; [done|]. split; [done|]. by intros [? ?].
Qed.

Lemma boolean_report key fallback errs : exists es,
  boolean e key fallback errs = (default fallback (bool_setting key fallback), errs ++ es) /\
  (es = [] <-> is_Some (bool_setting key fallback)).
Proof.
  unfold boolean, bool_setting. destruct (e !! key) as [raw|].
  2: { exists []. rewrite app_nil_r. split; [done|]. split; [by eexists|done]. }
  destruct (String.eqb raw EmptyString).
  { exists []. rewrite app_nil_r. split; [done|]. split; [by eexists|done]. }
  destruct (parse_bool raw) as [n|].
  - exists []. rewrite app_nil_r. split; [done|]. split; [by eexists|done].
  - eexists. split; [done|]. split; [done|]. by intros [? ?].
Qed.

Lemma add_prefixes_report key fs ps errs : exists es,
  foldl (add_prefix key) (ps, errs) fs = (ps ++ map masked (omap parse_prefix fs), errs ++ es) /\
  (es = [] <-> Forall (fun f => is_Some (parse_prefix f)) fs).
Proof.
  revert ps errs. induction fs as [|f fs IH]; intros ps errs.
  - exists []. cbn. rewrite !app_nil_r. split; [done|]. split; [constructor|done].
  - cbn [foldl]. unfold add_prefix at 2. cbn [fst snd omap list_omap].
    destruct (parse_prefix f) as [p|] eqn:E.
    + destruct (IH (ps ++ [masked p]) errs) as (es & -> & Hes). exists es.
      cbn [map]. rewrite <- app_assoc. split; [done|]. rewrite list.Forall_cons, Hes, E.
      split; [intros Hf; split; [by eexists|done]|by intros [_ ?]].
    + destruct (IH ps (errs ++ [key +:+ ": " +:+ quote f +:+ " is not a CIDR block"])) as (es & -> & _).
      eexists. rewrite <- app_assoc. split; [done|]. split; [done|].
      intros Hf%list.Forall_cons. destruct Hf as [[? Hf] _]. by rewrite E in Hf.
Qed.

Lemma prefixes_report key errs : exists es,
  prefixes e key errs = (map masked (omap parse_prefix (network_fields key)), errs ++ es) /\
  (es = [] <-> Forall (fun f => is_Some (parse_prefix f)) (network_fields key)).
Proof.
  unfold prefixes, network_fields. destruct (String.eqb _ _).
  - exists []. cbn. rewrite app_nil_r. split; [done|]. split; [constructor|done].
  - destruct (add_prefixes_report key (fields (replace_char "," " " (trim_space (Getenv e key)))) [] errs)
      as (es & -> & Hes). by exists es.
Qed.

Lemma check_report bad msg errs : exists es,
  check bad msg errs = errs ++ es /\ (es = [] <-> bad = false).
Proof.
  unfold check. destruct bad; [by exists [msg]|]. exists []. by rewrite app_nil_r.
Qed.

Lemma errors_join_None errs : errors_join errs = None <-> errs = [].
Proof. by destruct errs. Qed.
End Readers.

(** ** Properties *)

Section Properties.
Context `{UnicodePrint}.

(** The engine starts exactly on a well-formed environment.  [LoadEngine] reports no error
    exactly when the database is named, every integer setting is absent, empty or an integer that
    fits, the rate limit allows at least one request, its window is positive as the machine
    computes it and the inspected size is not negative; and then the configuration holds those
    very values. *)
Theorem engine_config_exact (e : env) :
  let '(cfg, err) := LoadEngine e in
  (err = None <->
   trim_space (Getenv e "OS_POSTGRES_DSN") <> EmptyString /\
   is_Some (int_setting e "OS_REDIS_DB" 0) /\ is_Some (int_setting e "OS_AUDIT_BUFFER" 4096) /\
   is_Some (int_setting e "OS_RATELIMIT_REQUESTS" 100) /\
   is_Some (int_setting e "OS_RATELIMIT_WINDOW_S" 60) /\
   is_Some (int_setting e "OS_MAX_BODY_INSPECT_BYTES" 8192) /\
   0 < c_RateLimitRequests cfg /\ 0 < c_RateLimitWindow cfg /\ 0 <= c_MaxBodyInspect cfg) /\
  c_PostgresDSN cfg = trim_space (Getenv e "OS_POSTGRES_DSN") /\
  c_RateLimitRequests cfg = default 100 (int_setting e "OS_RATELIMIT_REQUESTS" 100) /\
  c_RateLimitWindow cfg = wrap64 (default 60 (int_setting e "OS_RATELIMIT_WINDOW_S" 60) * second) /\
  c_MaxBodyInspect cfg = default 8192 (int_setting e "OS_MAX_BODY_INSPECT_BYTES" 8192).
Proof.
  unfold LoadEngine, seconds. cbv zeta.
  destruct (required_report e "OS_POSTGRES_DSN" []) as (e1 & -> & H1).
  destruct (integer_report e "OS_REDIS_DB" 0 ([] ++ e1)) as (e2 & -> & H2).
  destruct (integer_report e "OS_AUDIT_BUFFER" 4096 (([] ++ e1) ++ e2)) as (e3 & -> & H3).
  destruct (integer_report e "OS_RATELIMIT_REQUESTS" 100 ((([] ++ e1) ++ e2) ++ e3)) as (e4 & -> & H4).
  destruct (integer_report e "OS_RATELIMIT_WINDOW_S" 60 (((([] ++ e1) ++ e2) ++ e3) ++ e4))
    as (e5 & -> & H5).
  destruct (integer_report e "OS_MAX_BODY_INSPECT_BYTES" 8192 ((((([] ++ e1) ++ e2) ++ e3) ++ e4) ++ e5))
    as (e6 & -> & H6).
  set (n4 := default 100 _) in *. set (n5 := wrap64 _) in *. set (n6 := default 8192 _) in *.
  repeat match goal with |- context [check ?b ?m ?l] =>
    let es := fresh "es" in let Hc := fresh "Hc" in
    destruct (check_report b m l) as (es & -> & Hc) end.
  cbn [c_RateLimitRequests c_RateLimitWindow c_MaxBodyInspect c_PostgresDSN].
  split; [|done]. rewrite errors_join_None.
  rewrite !app_nil, H1, H2, H3, H4, H5, H6, Hc, Hc0, Hc1, !Z.leb_gt, Z.ltb_ge. tauto.
Qed.

(** The dashboard starts exactly on a well-formed environment.  [LoadDashboard] reports no error
    exactly when the database, the administrator's hash and the session secret are given,
    the hash looks like bcrypt, the secret has at least 32 bytes, and every other setting is
    absent, empty or well formed, every trusted network included: none is ever dropped in silence,
    and those in the configuration are the ones listed, without host bits. *)
Theorem dashboard_config_exact (e : env) :
  let '(cfg, err) := LoadDashboard e in
  (err = None <->
   trim_space (Getenv e "OS_POSTGRES_DSN") <> EmptyString /\
   is_Some (int_setting e "OS_REDIS_DB" 0) /\ is_Some (int_setting e "OS_SESSION_TTL_S" (8 * 3600)) /\
   is_Some (bool_setting e "OS_SECURE_COOKIES" false) /\
   Forall (fun f => is_Some (parse_prefix f)) (network_fields e "OS_TRUSTED_PROXY") /\
   32 <= slen (d_SessionSecret cfg) /\ has_prefix "$2" (d_AdminPasswordHash cfg) = true) /\
  d_SessionSecret cfg = trim_space (Getenv e "OS_SESSION_SECRET") /\
  d_AdminPasswordHash cfg = trim_space (Getenv e "OS_ADMIN_PASSWORD_HASH") /\
  d_TrustedProxies cfg = map masked (omap parse_prefix (network_fields e "OS_TRUSTED_PROXY")).
Proof.
  unfold LoadDashboard, seconds. cbv zeta.
  destruct (required_report e "OS_POSTGRES_DSN" []) as (e1 & -> & H1).
  destruct (integer_report e "OS_REDIS_DB" 0 ([] ++ e1)) as (e2 & -> & H2).
  destruct (required_report e "OS_ADMIN_PASSWORD_HASH" (([] ++ e1) ++ e2)) as (e3 & -> & H3).
  destruct (required_report e "OS_SESSION_SECRET" ((([] ++ e1) ++ e2) ++ e3)) as (e4 & -> & H4).
  destruct (integer_report e "OS_SESSION_TTL_S" (8 * 3600) (((([] ++ e1) ++ e2) ++ e3) ++ e4))
    as (e5 & -> & H5).
  destruct (boolean_report e "OS_SECURE_COOKIES" false ((((([] ++ e1) ++ e2) ++ e3) ++ e4) ++ e5))
    as (e6 & -> & H6).
  destruct (prefixes_report e "OS_TRUSTED_PROXY" (((((([] ++ e1) ++ e2) ++ e3) ++ e4) ++ e5) ++ e6))
    as (e7 & -> & H7).
  set (hash := trim_space (Getenv e "OS_ADMIN_PASSWORD_HASH")) in *.
  set (secret := trim_space (Getenv e "OS_SESSION_SECRET")) in *.
  repeat match goal with |- context [check ?b ?m ?l] =>
    let es := fresh "es" in let Hc := fresh "Hc" in
    destruct (check_report b m l) as (es & -> & Hc) end.
  cbn [d_SessionSecret d_AdminPasswordHash d_TrustedProxies]. split; [|done].
  rewrite errors_join_None, !app_nil, H1, H2, H3, H4, H5, H6, H7, Hc, Hc0. clearbody secret hash.
  assert ((secret <> EmptyString /\ negb (secret =? EmptyString)%string && (slen secret <? 32) = false)
    <-> 32 <= slen secret) as Hs.
  { destruct (String.eqb_spec secret EmptyString) as [->|Hne]; cbn [negb andb].
    - split; [by intros [? _]|]. intros Hl. by vm_compute in Hl.
    - rewrite Z.ltb_ge. tauto. }
  assert ((hash <> EmptyString /\ negb (hash =? EmptyString)%string && negb (has_prefix "$2" hash) = false)
    <-> has_prefix "$2" hash = true) as Hh.
  { destruct (String.eqb_spec hash EmptyString) as [->|Hne]; cbn [negb andb].
    - split; [by intros [? _]|done].
    - rewrite negb_false_iff. tauto. }
  tauto.
Qed.

(** The settings that have a default. *)
Lemma dashboard_config_defaults (e : env) :
  let cfg := (LoadDashboard e).1 in
  d_AdminUser cfg = str e "OS_ADMIN_USER" "admin" /\
  d_SessionTTL cfg = wrap64 (default (8 * 3600) (int_setting e "OS_SESSION_TTL_S" (8 * 3600)) * second) /\
  d_SecureCookies cfg = default false (bool_setting e "OS_SECURE_COOKIES" false).
Proof.
  unfold LoadDashboard, seconds. cbv zeta.
  destruct (required e "OS_POSTGRES_DSN" _) as [dsn e1]. destruct (integer e "OS_REDIS_DB" _ _) as [db e2].
  destruct (required e "OS_ADMIN_PASSWORD_HASH" _) as [hash e3].
  destruct (required e "OS_SESSION_SECRET" _) as [secret e4].
  destruct (integer_report e "OS_SESSION_TTL_S" (8 * 3600) e4) as (e5 & -> & _).
  destruct (boolean_report e "OS_SECURE_COOKIES" false (e4 ++ e5)) as (e6 & -> & _).
  by destruct (prefixes e "OS_TRUSTED_PROXY" _) as [ps e7].
Qed.

Lemma str_nonempty (e : env) key fallback : fallback <> EmptyString -> str e key fallback <> EmptyString.
Proof.
  intros Hf. unfold str. destruct (e !! key) as [raw|]; [|done].
  by destruct (String.eqb_spec raw EmptyString).
Qed.

(** A rate limit window of 18446744074 seconds, some 584 years, is accepted and wraps around to
    less than a third of a second. *)
Example window_wraps :
  let e : env := <["OS_POSTGRES_DSN" := "postgres://db"]>
                   {["OS_RATELIMIT_WINDOW_S" := "18446744074"]} in
  (LoadEngine e).2 = None /\ c_RateLimitWindow (LoadEngine e).1 = 290448384.
Proof. vm_compute. split; reflexivity. Qed.
End Properties.
