(* ===== verification/Support.v ===== *)
(** * Support of the dashboard's handlers

    [dashboard/api/internal/httpapi/support.go]: the throttle on failed sign-ins, whose address a
    request is attributed to, and the normalisation of access list entries.  The static files and
    the fixed response headers are not modelled. *)

From S2P Require Import Prelude Utf8 GoText GoTime Netip IPBlock.

(** ** The sign-in throttle *)

Record attemptRecord := Attempt { count : Z; first : Z }.

Record loginLimiter := MkLogin { max : Z; window : Z; attempts : gmap string attemptRecord }.

Definition newLoginLimiter (max window : Z) : loginLimiter := MkLogin max window ∅.

Definition set_attempts (l : loginLimiter) (m : gmap string attemptRecord) : loginLimiter :=
  MkLogin (max l) (window l) m.

(** [time.Since(record.first) > l.window] *)
Definition expired (l : loginLimiter) (now : Z) (r : attemptRecord) : bool :=
  window l <? now - first r.

Definition sweep (l : loginLimiter) (now : Z) : loginLimiter :=
  if Z.of_nat (size (attempts l)) <? 1024 then l
  else set_attempts l
         (filter (fun p : string * attemptRecord => expired l now p.2 = false) (attempts l)).

Definition allow (l : loginLimiter) (now : Z) (ip : string) : loginLimiter * bool :=
  let l := sweep l now in
  match attempts l !! ip with
  | None => (l, true)
  | Some record =>
      if expired l now record then (set_attempts l (delete ip (attempts l)), true)
      else (l, count record <? max l)
  end.

Definition fail (l : loginLimiter) (now : Z) (ip : string) : loginLimiter :=
  match attempts l !! ip with
  | Some record =>
      if expired l now record then set_attempts l (<[ip := Attempt 1 now]> (attempts l))
      else set_attempts l (<[ip := Attempt (count record + 1) (first record)]> (attempts l))
  | None => set_attempts l (<[ip := Attempt 1 now]> (attempts l))
  end.

Definition reset (l : loginLimiter) (ip : string) : loginLimiter :=
  set_attempts l (delete ip (attempts l)).

(** ** Who sent a request *)

Definition trustedProxies := list prefix.

Definition trusts (t : trustedProxies) (a : addr) : bool := existsb (fun p => contains p a) t.

(** The part before the last colon and the part after it. *)
Definition split_last_colon (s : string) : option (string * string) :=
  match rev (split_on ":" s) with
  | [] | [_] => None
  | last :: init => Some (join ":" (rev init), last)
  end.

Definition no_brackets (s : string) : bool := no_char "[" s && no_char "]" s.

(** [net.SplitHostPort], the host only. *)
Definition split_host (s : string) : option string :=
  '(host, port) ← split_last_colon s;
  match host with
  | String c rest =>
      if Ascii.eqb c "[" then
        match rev (split_on "]" rest) with
        | [EmptyString; inner] => if no_brackets inner && no_brackets port then Some inner else None
        | _ => None
        end
      else if no_char ":" host && no_brackets host && no_brackets port then Some host else None
  | EmptyString => if no_brackets port then Some EmptyString else None
  end.

Definition peerAddr (remoteAddr : string) : string :=
  match split_host remoteAddr with Some host => host | None => remoteAddr end.

(** The loop over the forwarded addresses, the last one first. *)
Fixpoint forwarded_loop (t : trustedProxies) (peer : string) (candidates : list string) : string :=
  match candidates with
  | [] => peer
  | c :: candidates =>
      let candidate := trim_space c in
      if String.eqb candidate EmptyString then forwarded_loop t peer candidates
      else
        match parse_addr candidate with
        | None => peer
        | Some parsed =>
            if negb (trusts t parsed) then addr_str parsed else forwarded_loop t peer candidates
        end
  end.

(** [clientIP]; [header] is the first X-Forwarded-For line, empty when there is none. *)
Definition clientIP (t : trustedProxies) (remoteAddr header : string) : string :=
  let peer := peerAddr remoteAddr in
  match t with
  | [] => peer
  | _ =>
      match parse_addr peer with
      | None => peer
      | Some a =>
          if negb (trusts t a) then peer
          else forwarded_loop t peer (rev (split_on "," header))
      end
  end.

(** ** Access list entries *)

Definition parsePrefix `{UnicodePrint} (value : string) : result string :=
  let value := trim_space value in
  if String.eqb value EmptyString then Err "cidr is required"
  else
    match parse_prefix value with
    | Some p => Ok (prefix_str (masked p))
    | None =>
        match parse_addr value with
        | None => Err (quote value +:+ " is neither an IP address nor a CIDR range")
        | Some a => Ok (prefix_str (prefix_from a (bit_len a)))
        end
    end.

(** ** A history of sign-ins

    Each attempt asks [allow], and when it may go on, records how the password check ended, if the
    body held a password to check. *)

Inductive answer := Throttled | Malformed | Wrong | Granted.

Definition attempt (l : loginLimiter) (now : Z) (ip : string) (right_ : option bool) : loginLimiter * answer :=
  let '(l, ok) := allow l now ip in
  if negb ok then (l, Throttled)
  else
    match right_ with
    | None => (l, Malformed)
    | Some true => (reset l ip, Granted)
    | Some false => (fail l now ip, Wrong)
    end.

Record tried := Tried { t_now : Z; t_ip : string; t_right : option bool; t_answer : answer }.

Inductive logins (l0 : loginLimiter) : list tried -> loginLimiter -> Prop :=
| logins_none : logins l0 [] l0
| logins_more h l now ip right_ l' a : logins l0 h l ->
    (forall x, x ∈ h -> t_now x <= now) -> attempt l now ip right_ = (l', a) ->
    logins l0 (h ++ [Tried now ip right_ a]) l'.

(** Wrong passwords tried from [ip] in the window of length [w] that ends at [t]. *)
Definition wrong_in (ip : string) (w t : Z) (x : tried) : bool :=
  String.eqb (t_ip x) ip && (t - w <? t_now x) && (t_now x <=? t) &&
  match t_answer x with Wrong => true | _ => false end.

(** ** Counting wrong passwords *)

Definition tally (p : Z -> bool) (ds : list Z) : Z := Z.of_nat (List.length (List.filter p ds)).

Lemma tally_snoc p ds d : tally p (ds ++ [d]) = tally p ds + (if p d then 1 else 0).
Proof. unfold tally. rewrite List.filter_app, length_app. cbn. destruct (p d); cbn; lia. Qed.

Lemma tally_le p q ds : (forall d, d ∈ ds -> p d = true -> q d = true) -> tally p ds <= tally q ds.
Proof.
  unfold tally. induction ds as [|d ds IH]; intros Hx; [done|]. cbn [List.filter].
  assert (tally p ds <= tally q ds) as Hl by (apply IH; intros e He; apply Hx; by right).
  unfold tally in Hl. specialize (Hx d ltac:(left)).
  destruct (p d); [rewrite Hx by done; cbn; lia|]. destruct (q d); cbn; lia.
Qed.

Lemma tally_sum p q r ds : (forall d, d ∈ ds -> p d = true -> q d = true \/ r d = true) ->
  tally p ds <= tally q ds + tally r ds.
Proof.
  unfold tally. induction ds as [|d ds IH]; intros Hx; [done|]. cbn [List.filter].
  assert (tally p ds <= tally q ds + tally r ds) as Hl by (apply IH; intros e He; apply Hx; by right).
  unfold tally in Hl. specialize (Hx d ltac:(left)).
  destruct (p d), (q d), (r d); cbn; (try lia); by destruct Hx.
Qed.

Lemma tally_none p ds : (forall d, d ∈ ds -> p d = false) -> tally p ds = 0.
Proof.
  unfold tally. induction ds as [|d ds IH]; intros Hx; [done|]. cbn [List.filter].
  rewrite (Hx d) by left. apply IH. intros e He. apply Hx. by right.
Qed.

Lemma tally_nonneg p ds : 0 <= tally p ds.
Proof. unfold tally. lia. Qed.

(** From a time on; in the window before a time; in the window that ends at a time. *)
Definition from_on (f d : Z) : bool := f <=? d.
Definition before (w f d : Z) : bool := (f - w <? d) && (d <? f).
Definition ending (w t d : Z) : bool := (t - w <? d) && (d <=? t).

Ltac tallies := unfold from_on, before, ending; intros; bsimp; rewrite ?andb_true_iff, ?Z.leb_le, ?Z.ltb_lt; try lia.

(** What the times of the wrong passwords satisfy while the period that began at [f] lasts. *)
Record period (mx w f : Z) (ds : list Z) : Prop := {
  pd_now : tally (from_on f) ds <= mx;
  pd_before : tally (before w f) ds <= mx;
  pd_end : forall d, d ∈ ds -> d <= f + w;
  pd_all : forall t, tally (ending w t) ds <= 2 * mx
}.

Lemma period_new mx w f ds now : 1 <= mx -> period mx w f ds ->
  (ds = [] \/ w < now - f) -> (forall d, d ∈ ds -> d <= now) -> 0 <= w ->
  period mx w now (ds ++ [now]) /\ tally (from_on now) (ds ++ [now]) = 1.
Proof.
  intros Hm [P1 P2 P3 P4] Hold Hle Hw.
  assert (forall d, d ∈ ds -> d < now) as Hlt.
  { intros d Hd. destruct Hold as [->|Hold]; [by apply elem_of_nil in Hd|]. specialize (P3 d Hd). lia. }
  assert (tally (from_on now) ds = 0) as H0.
  { apply tally_none. intros d Hd. specialize (Hlt d Hd). unfold from_on. apply Z.leb_gt. lia. }
  assert (forall p : Z -> bool, (forall d, p d = true -> now - w < d) -> tally p ds <= mx) as Hrec.
  { intros p Hp. destruct Hold as [->|Hold]; [change (tally p []) with 0; lia|].
    etransitivity; [|exact P1]. apply tally_le. intros d Hd Hpd. specialize (Hp d Hpd).
    unfold from_on. apply Z.leb_le. lia. }
  split; [split|].
  - rewrite tally_snoc, H0. unfold from_on. rewrite Z.leb_refl. lia.
  - rewrite tally_snoc. unfold before at 2. rewrite Z.ltb_irrefl, andb_false_r.
    specialize (Hrec (before w now)). rewrite Z.add_0_r. apply Hrec. tallies.
  - intros d [Hd|Hd%list_elem_of_singleton]%elem_of_app; [specialize (Hlt d Hd)|]; lia.
  - intros t. rewrite tally_snoc. unfold ending at 2. destruct (Z.leb_spec now t) as [Ht|Ht].
    + assert (tally (ending w t) ds <= mx); [apply Hrec; tallies|].
      destruct (t - w <? now); cbn; lia.
    + rewrite andb_false_r. specialize (P4 t). lia.
  - rewrite tally_snoc, H0. unfold from_on. rewrite Z.leb_refl. lia.
Qed.

Lemma period_more mx w f ds now : period mx w f ds -> f <= now <= f + w ->
  tally (from_on f) ds < mx ->
  period mx w f (ds ++ [now]) /\ tally (from_on f) (ds ++ [now]) = tally (from_on f) ds + 1.
Proof.
  intros [P1 P2 P3 P4] Hn Hlt. split; [split|].
  - rewrite tally_snoc. unfold from_on at 2. rewrite (proj2 (Z.leb_le f now)) by lia. lia.
  - rewrite tally_snoc. unfold before at 2. rewrite (proj2 (Z.ltb_ge now f)) by lia.
    rewrite andb_false_r. lia.
  - intros d [Hd|Hd%list_elem_of_singleton]%elem_of_app; [by apply P3|]. lia.
  - intros t. rewrite tally_snoc. unfold ending at 2. destruct (Z.leb_spec now t) as [Ht|Ht].
    + assert (tally (ending w t) ds <= tally (from_on f) ds + tally (before w f) ds) as Hs.
      { apply tally_sum. intros d Hd Hp. unfold from_on. destruct (Z.leb_spec f d); [by left|].
        right. revert Hp. tallies. }
      destruct (t - w <? now); cbn; lia.
    + rewrite andb_false_r. specialize (P4 t). lia.
  - rewrite tally_snoc. unfold from_on at 2. by rewrite (proj2 (Z.leb_le f now)) by lia.
Qed.

(** ** The limiter along a history *)

Definition wrongs (ip : string) (h : list tried) : list Z :=
  map t_now (List.filter (fun x => String.eqb (t_ip x) ip &&
    match t_answer x with Wrong => true | _ => false end) h).

(** What the limiter holds for an address: the count of the period, or nothing once the period
    is over. *)
Definition tracked (ip : string) (h : list tried) (l : loginLimiter) : Prop :=
  exists f, period (max l) (window l) f (wrongs ip h) /\
    (attempts l !! ip = Some (Attempt (tally (from_on f) (wrongs ip h)) f) /\ (exists x, x ∈ h /\ f <= t_now x)
     \/ attempts l !! ip = None /\
        (wrongs ip h = [] \/ exists x, x ∈ h /\ window l < t_now x - f)).

Lemma sweep_lookup l now ip :
  attempts (sweep l now) !! ip = attempts l !! ip \/
  (attempts (sweep l now) !! ip = None /\ exists r, attempts l !! ip = Some r /\ expired l now r = true).
Proof.
  unfold sweep. destruct (_ <? _); [by left|]. cbn [attempts set_attempts].
  destruct (attempts l !! ip) as [r|] eqn:E.
  - destruct (expired l now r) eqn:Ex.
    + right. split; [|by exists r]. apply map_lookup_filter_None. right. intros r' E'. cbn. congruence.
    + left. apply map_lookup_filter_Some. by split.
  - left. apply map_lookup_filter_None. by left.
Qed.

Lemma sweep_fields l now : max (sweep l now) = max l /\ window (sweep l now) = window l.
Proof. unfold sweep. by destruct (_ <? _). Qed.

(** No record, or one whose window is over. *)
Definition stale (l : loginLimiter) (now : Z) (ip : string) : Prop :=
  attempts l !! ip = None \/ exists r, attempts l !! ip = Some r /\ expired l now r = true.

Lemma allow_view l now ip l1 ok : allow l now ip = (l1, ok) ->
  max l1 = max l /\ window l1 = window l /\
  ((stale l now ip /\ attempts l1 !! ip = None /\ ok = true) \/
   (exists r, attempts l !! ip = Some r /\ expired l now r = false /\
      attempts l1 !! ip = Some r /\ ok = (count r <? max l))) /\
  (forall ip', ip' <> ip -> attempts l1 !! ip' = attempts l !! ip' \/
     (attempts l1 !! ip' = None /\ stale l now ip')).
Proof.
  unfold allow. destruct (sweep_fields l now) as [E1 E2]. set (l0 := sweep l now) in *.
  assert (forall r, expired l0 now r = expired l now r) as Ex by (intros r; unfold expired; by rewrite E2).
  assert (forall ip', attempts l0 !! ip' = attempts l !! ip' \/
    (attempts l0 !! ip' = None /\ stale l now ip')) as Hs.
  { intros ip'. destruct (sweep_lookup l now ip') as [H|[H Hr]]; [by left|]. right. split; [done|by right]. }
  destruct (attempts l0 !! ip) as [r|] eqn:E.
  - destruct (Hs ip) as [H|[H _]]; [|congruence]. rewrite E in H. symmetry in H. rewrite Ex.
    destruct (expired l now r) eqn:Er; intros [= <- <-]; cbn [max window attempts set_attempts].
    + split; [done|]. split; [done|]. split.
      * left. split; [right; by exists r|]. split; [by rewrite lookup_delete_eq|done].
      * intros ip' Hne. rewrite lookup_delete_ne by done. apply Hs.
    + split; [done|]. split; [done|]. split; [|intros ip' _; apply Hs].
      right. exists r. by rewrite E1.
  - intros [= <- <-]. split; [done|]. split; [done|]. split; [|intros ip' _; apply Hs].
    left. split; [|done]. destruct (Hs ip) as [H|[_ H]]; [left; congruence|done].
Qed.

Lemma fail_view l now ip : attempts (fail l now ip) !! ip =
    match attempts l !! ip with
    | Some r => if expired l now r then Some (Attempt 1 now)
                else Some (Attempt (count r + 1) (first r))
    | None => Some (Attempt 1 now)
    end /\
  max (fail l now ip) = max l /\ window (fail l now ip) = window l /\
  (forall ip', ip' <> ip -> attempts (fail l now ip) !! ip' = attempts l !! ip').
Proof.
  unfold fail. destruct (attempts l !! ip) as [r|]; [destruct (expired l now r)|];
    cbn [attempts set_attempts max window]; rewrite lookup_insert_eq;
    (split; [done|]); (split; [done|]); (split; [done|]); intros ip' Hne; by rewrite lookup_insert_ne.
Qed.

Lemma wrongs_snoc ip h x : wrongs ip (h ++ [x]) = wrongs ip h ++
  (if String.eqb (t_ip x) ip then match t_answer x with Wrong => [t_now x] | _ => [] end else []).
Proof.
  unfold wrongs. rewrite List.filter_app, map_app. cbn [List.filter].
  destruct (String.eqb (t_ip x) ip), (t_answer x); done.
Qed.

Lemma wrongs_elem ip h d : d ∈ wrongs ip h -> exists x, x ∈ h /\ t_now x = d.
Proof.
  unfold wrongs. intros Hd%list_elem_of_In. apply in_map_iff in Hd as (x & <- & Hx).
  apply filter_In in Hx as [Hx _]. exists x. split; [by apply list_elem_of_In|done].
Qed.

(** A stale address: its last period is over, or it never failed. *)
Lemma tracked_stale ip h l now f :
  (forall x, x ∈ h -> t_now x <= now) -> stale l now ip ->
  (attempts l !! ip = Some (Attempt (tally (from_on f) (wrongs ip h)) f) /\ (exists x, x ∈ h /\ f <= t_now x)
   \/ attempts l !! ip = None /\ (wrongs ip h = [] \/ exists x, x ∈ h /\ window l < t_now x - f)) ->
  wrongs ip h = [] \/ window l < now - f.
Proof.
  intros Hle Hs [[E _]|[E [Hn|(x & Hx & Hlt)]]]; [|by left|specialize (Hle x Hx); right; lia].
  destruct Hs as [Hs|(r & Hr & Hx)]; [congruence|]. right. rewrite E in Hr. injection Hr as <-.
  unfold expired in Hx. cbn in Hx. by apply Z.ltb_lt.
Qed.

Lemma tracked_other ip h l l' x now :
  tracked ip h l -> (forall y, y ∈ h -> t_now y <= now) -> t_now x = now ->
  max l' = max l -> window l' = window l ->
  wrongs ip (h ++ [x]) = wrongs ip h ->
  (attempts l' !! ip = attempts l !! ip \/ attempts l' !! ip = None /\ stale l now ip) ->
  tracked ip (h ++ [x]) l'.
Proof.
  intros (f & Hp & Hr) Hle Hx E1 E2 Ew Ha. exists f. rewrite Ew, E1, E2. split; [done|].
  assert (forall (P : tried -> Prop), (exists y, y ∈ h /\ P y) -> exists y, y ∈ h ++ [x] /\ P y) as Hmore.
  { intros P (y & Hy & HP). exists y. split; [apply elem_of_app; by left|done]. }
  destruct Ha as [->|[-> Hs]].
  - destruct Hr as [[Hr Hy]|[Hr [Hn|Hy]]]; [left; split; [done|by apply Hmore]|right; auto|].
    right. split; [done|]. right. by apply Hmore.
  - right. split; [done|]. destruct (tracked_stale ip h l now f Hle Hs Hr) as [Hn|Hn]; [by left|].
    right. exists x. split; [apply elem_of_app; right; left|]. by rewrite Hx.
Qed.

Lemma tracked_step ip h l now ip' b l' a :
  1 <= max l -> 0 <= window l -> tracked ip h l -> (forall x, x ∈ h -> t_now x <= now) ->
  attempt l now ip' b = (l', a) -> (ip' = ip -> a <> Granted) ->
  tracked ip (h ++ [Tried now ip' b a]) l' /\ max l' = max l /\ window l' = window l.
Proof.
  intros Hm Hw Ht Hle Hat Hng. unfold attempt in Hat. destruct (allow l now ip') as [l1 ok] eqn:Ea.
  apply allow_view in Ea as (E1 & E2 & Hview & Hother).
  assert (forall m w, max m = max l -> window m = window l -> m = w -> max w = max l /\ window w = window l)
    as Heq by (intros m w ? ? <-; done).
  destruct (String.eqb_spec ip' ip) as [->|Hne].
  2: { assert (attempts l' !! ip = attempts l1 !! ip /\ max l' = max l /\ window l' = window l) as (E3 & E4 & E5).
       { destruct ok; cbn [negb] in Hat; [destruct b as [[]|]|]; injection Hat as <- <-; [| |done..].
         - cbn [reset attempts set_attempts max window]. by rewrite lookup_delete_ne.
         - destruct (fail_view l1 now ip') as (_ & -> & -> & Hf). by rewrite Hf. }
       split; [|done]. eapply (tracked_other ip h l l' _ now); try done.
       - rewrite wrongs_snoc. cbn. destruct (String.eqb_spec ip' ip); [done|]. by rewrite app_nil_r.
       - rewrite E3. by apply Hother. }
  assert (attempts l1 !! ip = attempts l !! ip \/ attempts l1 !! ip = None /\ stale l now ip) as Hkept.
  { destruct Hview as [(Hs & -> & _)|(r & -> & _ & -> & _)]; [by right|by left]. }
  destruct ok; cbn [negb] in Hat; [destruct b as [[]|]|].
  1: injection Hat as <- <-; by destruct (Hng eq_refl).
  2, 3: injection Hat as <- <-; split; [|done]; eapply (tracked_other ip h l l1 _ now); try done;
    rewrite wrongs_snoc; cbn; by rewrite String.eqb_refl, app_nil_r.
  injection Hat as <- <-. destruct (fail_view l1 now ip) as (Hf & E3 & E4 & _).
  split; [|by rewrite E3, E4]. unfold tracked. rewrite E3, E4, E1, E2, wrongs_snoc.
  cbn [t_ip t_answer t_now]. rewrite String.eqb_refl, Hf. destruct Ht as (f & Hp & Hr).
  destruct Hview as [(Hs & -> & _)|(r & Hr' & Hx & -> & Hc)].
  - destruct (period_new (max l) (window l) f (wrongs ip h) now) as [Hp' Ht']; try done.
    + by eapply tracked_stale.
    + intros d (x & Hx & <-)%wrongs_elem. by apply Hle.
    + exists now. split; [done|]. left. rewrite Ht'. split; [done|].
      eexists. split; [apply elem_of_app; right; left|]. cbn. lia.
  - destruct Hr as [[Hr (x & Hin & Hfx)]|[Hr _]]; [|congruence]. rewrite Hr' in Hr. injection Hr as ->.
    cbn [count first] in *. unfold expired in *. cbn [first] in *. rewrite E2.
    symmetry in Hc. apply Z.ltb_lt in Hc. apply Z.ltb_ge in Hx. rewrite (proj2 (Z.ltb_ge _ _) Hx).
    specialize (Hle x Hin).
    destruct (period_more (max l) (window l) f (wrongs ip h) now) as [Hp' Ht']; [done|lia|done|].
    exists f. split; [done|]. left. rewrite Ht'. split; [done|]. exists x.
    split; [apply elem_of_app; by left|done].
Qed.

Lemma logins_tracked mx w h l ip : 1 <= mx -> 0 <= w -> logins (newLoginLimiter mx w) h l ->
  Forall (fun x => t_ip x = ip -> t_answer x <> Granted) h ->
  tracked ip h l /\ max l = mx /\ window l = w.
Proof.
  intros Hm Hw Hl. remember (newLoginLimiter mx w) as l0 eqn:E0.
  induction Hl as [|h l now ip' b l' a Hl IH Hle Hat]; intros Hng; subst.
  - split; [|done]. exists 0. split; [|by right; split; [apply lookup_empty|left]].
    assert (forall p, tally p (wrongs ip []) = 0) as Hz by done. cbn [newLoginLimiter max window].
    split; [rewrite Hz; lia|rewrite Hz; lia|intros d Hd; by apply elem_of_nil in Hd|].
    intros t. rewrite Hz. lia.
  - apply list.Forall_app in Hng as [Hng Hlast]. apply list.Forall_cons in Hlast as [Hlast _].
    destruct (IH Hng) as (Ht & E1 & E2).
    destruct (tracked_step ip h l now ip' b l' a) as (Ht' & E3 & E4); try done; try lia.
    by rewrite E3, E4.
Qed.

Lemma wrong_in_tally ip w t h :
  Z.of_nat (List.length (List.filter (wrong_in ip w t) h)) = tally (ending w t) (wrongs ip h).
Proof.
  unfold tally, wrongs, wrong_in, ending. f_equal. induction h as [|x h IH]; [done|].
  cbn [List.filter]. destruct (String.eqb (t_ip x) ip); cbn [andb]; [|exact IH].
  destruct (t_answer x); rewrite ?andb_false_r, ?andb_true_r; cbn [map List.filter]; [exact IH..| |exact IH].
  destruct ((t - w <? t_now x) && (t_now x <=? t)); cbn; by rewrite IH.
Qed.

(** ** Properties *)

(** Guessing is throttled.  In any history of sign-ins, one after the other, with a clock that
    does not go back: from an address that never signs in successfully, at most twice the
    configured number of wrong passwords are checked in any window of the configured length,
    wherever it ends, whatever other addresses do meanwhile and however often the records are
    swept. *)
Theorem login_throttled mx w h l ip t :
  1 <= mx -> 0 <= w -> logins (newLoginLimiter mx w) h l ->
  Forall (fun x => t_ip x = ip -> t_answer x <> Granted) h ->
  Z.of_nat (List.length (List.filter (wrong_in ip w t) h)) <= 2 * mx.
Proof.
  intros Hm Hw Hl Hng. destruct (logins_tracked mx w h l ip Hm Hw Hl Hng) as ((f & Hp & _) & E1 & E2).
  rewrite wrong_in_tally. rewrite E1, E2 in Hp. apply (pd_all _ _ _ _ Hp).
Qed.

(** [n] requests that reach [allow] before any of them fails. *)
Fixpoint ask (n : nat) (l : loginLimiter) (now : Z) (ip : string) : loginLimiter * list bool :=
  match n with
  | O => (l, [])
  | S n => let '(l, ok) := allow l now ip in let '(l, oks) := ask n l now ip in (l, ok :: oks)
  end.

(** Concurrent guesses are not throttled.  [allow] and [fail] are separate critical sections
    with the password check between them, so requests that arrive together all pass [allow]
    before any failure is recorded: from an address without failures, any number of passwords in
    flight are all checked, however small the limit. *)
Theorem concurrent_guesses_pass (l : loginLimiter) ip now (n : nat) :
  attempts l !! ip = None -> (ask n l now ip).2 = replicate n true.
Proof.
  revert l. induction n as [|n IH]; intros l Hn; [done|]. cbn [ask]. unfold allow.
  assert (attempts (sweep l now) !! ip = None) as Hs.
  { destruct (sweep_lookup l now ip) as [->|[? _]]; done. }
  rewrite Hs. specialize (IH _ Hs). destruct (ask n (sweep l now) now ip) as [l' oks]. cbn in *.
  by rewrite IH.
Qed.

Lemma split_rev_join forged hop hops :
  Forall (fun h => no_char "," h = true) (hop :: hops) ->
  rev (split_on "," (forged +:+ sconcat (map (fun h => String "," h) (hop :: hops))))
  = rev (hop :: hops) ++ rev (split_on "," forged).
Proof.
  intros Hn. rewrite <- rev_app_distr. f_equal. revert forged.
  assert (forall l, Forall (fun h => no_char "," h = true) l -> forall forged,
    split_on "," (forged +:+ sconcat (map (fun h => String "," h) l)) = split_on "," forged ++ l) as Hx;
    [|by apply Hx].
  clear Hn. intros l Hl.
  assert (forall x rest, no_char "," x = true ->
    split_on "," (x +:+ sconcat (map (fun h => String "," h) rest)) =
    x :: match rest with [] => [] | h :: rest => split_on "," (h +:+ sconcat (map (fun h => String "," h) rest)) end)
    as Hone.
  { intros x [|h rest] Hx; cbn [map sconcat].
    - by rewrite app_nil_str, split_on_none.
    - cbn [String.append]. by rewrite split_on_app. }
  assert (forall l x, Forall (fun h => no_char "," h = true) (x :: l) ->
    split_on "," (x +:+ sconcat (map (fun h => String "," h) l)) = x :: l) as Hplain.
  { clear l Hl. intros l. induction l as [|h l IH]; intros x Hx;
      apply list.Forall_cons in Hx as [Hx Hl]; rewrite Hone by done; [done|]. by rewrite IH. }
  induction forged as [|c s IH].
  - destruct l as [|h l]; [done|]. cbn [String.append map sconcat split_on]. cbn [String.append].
    cbn [split_on]. rewrite Ascii.eqb_refl. by rewrite Hplain.
  - cbn [String.append split_on]. destruct (Ascii.eqb "," c); [by rewrite IH|].
    rewrite IH. destruct (split_on "," s) as [|p ps] eqn:E; [|done].
    by destruct (split_on_nonempty "," s).
Qed.

(** C26: Whose word is taken for a client's address.  Without trusted proxies, or when the
    connection does not come from one, a request is attributed to the address that opened the
    connection, whatever headers it carries.  Behind trusted proxies, when the header ends with an
    address outside the trusted set followed only by trusted ones, it is attributed to that
    address, and nothing a client wrote in front of it changes the result. *)
Theorem client_ip_unforgeable (t : trustedProxies) remoteAddr header forged hop hops a :
  (t = [] \/ parse_addr (peerAddr remoteAddr) = None \/
   (exists p, parse_addr (peerAddr remoteAddr) = Some p /\ trusts t p = false) ->
   clientIP t remoteAddr header = peerAddr remoteAddr) /\
  ((exists p, parse_addr (peerAddr remoteAddr) = Some p /\ trusts t p = true) ->
   Forall (fun h => no_char "," h = true) (hop :: hops) ->
   parse_addr (trim_space hop) = Some a -> trusts t a = false ->
   Forall (fun h => trim_space h = EmptyString \/
             exists b, parse_addr (trim_space h) = Some b /\ trusts t b = true) hops ->
   clientIP t remoteAddr (forged +:+ sconcat (map (fun h => String "," h) (hop :: hops))) = addr_str a).
Proof.
  split.
  - unfold clientIP. intros [->|[E|(p & E & Ht)]]; [done| |]; destruct t as [|q t]; try done;
      rewrite E; [done|]. by rewrite Ht.
  - intros (p & E & Ht) Hc Ha Hu Hops. unfold clientIP. destruct t as [|q t]; [done|].
    rewrite E, Ht. cbn [negb]. rewrite split_rev_join by done. cbn [rev]. rewrite <- !app_assoc.
    cbn [app].
    assert (trim_space hop <> EmptyString) as Hne by (intros E'; by rewrite E' in Ha).
    assert (forall l rest, Forall (fun h => trim_space h = EmptyString \/
              exists b, parse_addr (trim_space h) = Some b /\ trusts (q :: t) b = true) l ->
      forwarded_loop (q :: t) (peerAddr remoteAddr) (l ++ rest)
      = forwarded_loop (q :: t) (peerAddr remoteAddr) rest) as Hskip.
    { intros l rest Hl. induction Hl as [|h l Hh _ IH]; [done|]. cbn [app forwarded_loop].
      destruct Hh as [->|(b & Hb & Htb)]; [done|].
      destruct (String.eqb (trim_space h) EmptyString); [done|]. rewrite Hb, Htb. done. }
    rewrite Hskip by (apply List.Forall_rev; exact Hops). cbn [forwarded_loop].
    destruct (String.eqb_spec (trim_space hop) EmptyString); [done|]. rewrite Ha, Hu. done.
Qed.

(** ** A run *)

Definition tries : list (Z * string * option bool) :=
  [(0, "203.0.113.7", Some false); (1, "203.0.113.7", None); (1, "203.0.113.7", Some false);
   (2, "198.51.100.4", Some true); (3, "203.0.113.7", Some false); (100, "203.0.113.7", Some false)].

Fixpoint try_all (l : loginLimiter) (ts : list (Z * string * option bool)) : loginLimiter * list tried :=
  match ts with
  | [] => (l, [])
  | (now, ip, ok) :: ts =>
      let '(l, a) := attempt l now ip ok in
      let '(l, h) := try_all l ts in (l, Tried now ip ok a :: h)
  end.

Definition tried_all := try_all (newLoginLimiter 2 60) tries.

Example throttled_third : map t_answer tried_all.2 = [Wrong; Malformed; Wrong; Granted; Throttled; Wrong].
Proof. vm_compute. reflexivity. Qed.

Lemma try_all_logins l0 h l ts : logins l0 h l ->
  StronglySorted Z.le (map t_now h ++ map (fun x => x.1.1) ts) ->
  logins l0 (h ++ (try_all l ts).2) (try_all l ts).1.
Proof.
  revert h l. induction ts as [|[[now ip] ok] ts IH]; intros h l Hl Hs; cbn [try_all].
  - by rewrite app_nil_r.
  - destruct (attempt l now ip ok) as [l1 a] eqn:Ea. specialize (IH (h ++ [Tried now ip ok a]) l1).
    destruct (try_all l1 ts) as [l2 h2]. cbn [fst snd] in *. rewrite <- app_assoc in IH. apply IH.
    + eapply logins_more; [done| |done]. intros x Hx. cbn [map] in Hs.
      apply StronglySorted_app in Hs as (Hs & _). apply Hs; [|by left].
      by apply (list_elem_of_fmap_2 t_now).
    + rewrite map_app, <- app_assoc. exact Hs.
Qed.

Lemma login_throttled_witness :
  Z.of_nat (List.length (List.filter (wrong_in "203.0.113.7" 60 100) tried_all.2)) <= 2 * 2.
Proof.
  apply (login_throttled 2 60 tried_all.2 tried_all.1 "203.0.113.7" 100); [lia|lia| |].
  - apply (try_all_logins _ []); [constructor|].
    repeat (apply SSorted_cons; [|repeat (apply List.Forall_cons; [vm_compute; discriminate|]); apply List.Forall_nil]).
    apply SSorted_nil.
  - repeat (apply List.Forall_cons; [vm_compute; discriminate|]). apply List.Forall_nil.
Defined.

Lemma concurrent_guesses_pass_witness :
  (ask 100 (newLoginLimiter 1 60) 0 "203.0.113.7").2 = replicate 100 true.
Proof. apply (concurrent_guesses_pass (newLoginLimiter 1 60) "203.0.113.7" 0 100). reflexivity. Defined.

Lemma client_ip_unforgeable_witness :
  clientIP [Prefix (V4 167772160) 8] "10.0.0.2:443" "1.2.3.4, 203.0.113.7,10.0.0.9" = "203.0.113.7".
Proof.
  apply (client_ip_unforgeable [Prefix (V4 167772160) 8] "10.0.0.2:443" EmptyString
    "1.2.3.4" " 203.0.113.7" ["10.0.0.9"] (V4 3405803783)).
  - exists (V4 167772162). split; vm_compute; reflexivity.
  - repeat (apply List.Forall_cons; [vm_compute; reflexivity|]). apply List.Forall_nil.
  - vm_compute. reflexivity.
  - vm_compute. reflexivity.
  - apply List.Forall_cons; [|apply List.Forall_nil]. right. exists (V4 167772169).
    split; vm_compute; reflexivity.
Defined.
