(* ===== verification/GoParse.v ===== *)
(** * Reading instants, durations and query strings

    The parts of [time] and [net/url] the dashboard reads its requests with, and the instants
    inside JSON: [time.Parse] with [time.RFC3339], [time.ParseDuration], [url.ParseQuery]. *)

From S2P Require Import Prelude Utf8 GoText GoTime GoJson GoJsonRound.

(** ** [time.Parse(time.RFC3339, _)] *)

Definition days_of_civil (y m d : Z) : Z :=
  let y := if m <=? 2 then y - 1 else y in
  let mp := if m <=? 2 then m + 9 else m - 3 in
  let yoe := y mod 400 in
  y / 400 * 146097 + (yoe * 365 + yoe / 4 - yoe / 100 + ((153 * mp + 2) / 5 + d - 1)) - 719468.

Definition leap (y : Z) : bool :=
  (y mod 4 =? 0) && (negb (y mod 100 =? 0) || (y mod 400 =? 0)).

Definition days_in (m y : Z) : Z :=
  if m =? 2 then if leap y then 29 else 28
  else if (m =? 4) || (m =? 6) || (m =? 9) || (m =? 11) then 30 else 31.

Definition one_digit (s : string) : option (Z * string) :=
  match s with
  | String c s => if is_digit c then Some (bval c - 48, s) else None
  | EmptyString => None
  end.

(** [getnum]: two digits, or when [fixed] is off also one. *)
Definition getnum (fixed : bool) (s : string) : option (Z * string) :=
  '(a, t) ← one_digit s;
  match one_digit t with
  | Some (b, u) => Some (a * 10 + b, u)
  | None => if fixed then None else Some (a, t)
  end.

Definition four_digits (s : string) : option (Z * string) :=
  '(a, s) ← getnum true s; '(b, s) ← getnum true s; Some (a * 100 + b, s).

Definition skip (c : ascii) (s : string) : option string :=
  match s with
  | String d s => if Ascii.eqb c d then Some s else None
  | EmptyString => None
  end.

(** The nanoseconds that digits after the point stand for. *)
Definition nanos (ds : string) : Z :=
  let ds := stake 9 ds in default 0 (parse_digits 0 ds) * 10 ^ (9 - slen ds).

Definition fraction (s : string) : Z * string :=
  match s with
  | String c t =>
      if Ascii.eqb c "." || Ascii.eqb c "," then
        let '(ds, rest) := span_digits t in
        if String.eqb ds EmptyString then (0, s) else (nanos ds, rest)
      else (0, s)
  | EmptyString => (0, s)
  end.

(** The offset from UTC in seconds; hours up to 24 and minutes up to 60 pass. *)
Definition zone (s : string) : option (Z * string) :=
  match s with
  | EmptyString => None
  | String c t =>
      if Ascii.eqb c "Z" then Some (0, t)
      else
        '(hr, t) ← getnum true t; t ← skip ":" t; '(mm, t) ← getnum true t;
        if (24 <? hr) || (60 <? mm) then None
        else
          let off := (hr * 60 + mm) * 60 in
          if Ascii.eqb c "+" then Some (off, t)
          else if Ascii.eqb c "-" then Some (- off, t)
          else None
  end.

(** The instant.  [parseRFC3339], which is tried first, accepts less and gives the same. *)
Definition parse_rfc3339 (s : string) : option Z :=
  '(year, s) ← four_digits s; s ← skip "-" s;
  '(month, s) ← getnum true s; s ← skip "-" s;
  '(day, s) ← getnum true s; s ← skip "T" s;
  '(hr, s) ← getnum false s; s ← skip ":" s;
  '(mn, s) ← getnum true s; s ← skip ":" s;
  '(sec, s) ← getnum true s;
  let '(ns, s) := fraction s in
  '(off, s) ← zone s;
  if String.eqb s EmptyString && (1 <=? month) && (month <=? 12) && (1 <=? day)
     && (day <=? days_in month year) && (hr <? 24) && (mn <? 60) && (sec <? 60)
  then Some ((days_of_civil year month day * 86400 + hr * 3600 + mn * 60 + sec - off) * second + ns)
  else None.

(** ** [time.ParseDuration] *)

Definition unit_of (u : string) : option Z :=
  assoc u [("ns", nanosecond); ("us", microsecond); (micro_sign +:+ "s", microsecond);
           (byte_str 0xCE +:+ byte_str 0xBC +:+ "s", microsecond); ("ms", millisecond);
           ("s", second); ("m", minute); ("h", hour)].

Fixpoint leadingInt (x : Z) (s : string) : option (Z * string) :=
  match s with
  | String c s' =>
      if is_digit c then
        if 2 ^ 63 / 10 <? x then None
        else
          let y := x * 10 + (bval c - 48) in
          if 2 ^ 63 <? y then None else leadingInt y s'
      else Some (x, s)
  | EmptyString => Some (x, s)
  end.

(** Digits past the range of the counter are skipped. *)
Fixpoint leadingFraction (x : Z) (scale : spec_float) (overflow : bool) (s : string)
  : Z * spec_float * string :=
  match s with
  | String c s' =>
      if is_digit c then
        if overflow || ((2 ^ 63 - 1) / 10 <? x) then leadingFraction x scale true s'
        else
          let y := x * 10 + (bval c - 48) in
          if 2 ^ 63 <? y then leadingFraction x scale true s'
          else leadingFraction y (SFmul 53 1024 scale (float_of_int 10)) false s'
      else (x, scale, s)
  | EmptyString => (x, scale, s)
  end.

(** [uint64(f)] of a float that is not negative. *)
Definition float_trunc (f : spec_float) : Z :=
  match f with
  | S754_finite false m e => if 0 <=? e then Zpos m * 2 ^ e else Zpos m / 2 ^ (- e)
  | _ => 0
  end.

Fixpoint span_unit (s : string) : string * string :=
  match s with
  | String c s' =>
      if Ascii.eqb c "." || is_digit c then (EmptyString, s)
      else let '(u, rest) := span_unit s' in (String c u, rest)
  | EmptyString => (EmptyString, s)
  end.

Fixpoint duration_loop (fuel : nat) (d : Z) (s : string) : option Z :=
  match fuel with
  | O => None
  | S fuel =>
      match s with
      | EmptyString => Some d
      | String c _ =>
          if negb (Ascii.eqb c "." || is_digit c) then None
          else
            '(v, s1) ← leadingInt 0 s;
            let pre := negb (slen s1 =? slen s) in
            let '(f, scale, s2, post) :=
              match skip "." s1 with
              | Some t => let '(f, scale, u) := leadingFraction 0 (float_of_int 1) false t in
                          (f, scale, u, negb (slen u =? slen t))
              | None => (0, float_of_int 1, s1, false)
              end in
            if negb pre && negb post then None
            else
              let '(u, s3) := span_unit s2 in
              unit ← unit_of u;
              if 2 ^ 63 / unit <? v then None
              else
                let v := v * unit +
                  (if 0 <? f then float_trunc (SFmul 53 1024 (float_of_int f) (float_div (float_of_int unit) scale))
                   else 0) in
                if (0 <? f) && (2 ^ 63 <? v) then None
                else
                  let d := (d + v) mod 2 ^ 64 in
                  if 2 ^ 63 <? d then None else duration_loop fuel d s3
      end
  end.

Definition ParseDuration (s : string) : option Z :=
  let '(neg, s) :=
    match s with
    | String c s' => if Ascii.eqb c "-" then (true, s') else if Ascii.eqb c "+" then (false, s') else (false, s)
    | EmptyString => (false, s)
    end in
  if String.eqb s "0" then Some 0
  else if String.eqb s EmptyString then None
  else
    d ← duration_loop (S (String.length s)) 0 s;
    if neg : bool then Some (- d) else if 2 ^ 63 - 1 <? d then None else Some d.

(** ** [url.ParseQuery] *)

(** [url.QueryUnescape] *)
Fixpoint query_unescape (s : string) : option string :=
  match s with
  | EmptyString => Some EmptyString
  | String c s =>
      if Ascii.eqb c "%" then
        match s with
        | String a (String b s) =>
            x ← hex_val a; y ← hex_val b; t ← query_unescape s; Some (String (bof (x * 16 + y)) t)
        | _ => None
        end
      else t ← query_unescape s; Some (String (if Ascii.eqb c "+" then " "%char else c) t)
  end.

(** [strings.Cut]: before the first [c] and after it. *)
Fixpoint cut (c : ascii) (s : string) : string * string :=
  match s with
  | EmptyString => (EmptyString, EmptyString)
  | String d s' => if Ascii.eqb c d then (EmptyString, s') else let '(a, b) := cut c s' in (String d a, b)
  end.

(** One setting of a query; malformed ones and those with a semicolon are left out. *)
Definition query_pair (key : string) : option (string * string) :=
  if negb (no_char ";" key) || String.eqb key EmptyString then None
  else
    let '(k, v) := cut "=" key in
    k ← query_unescape k; v ← query_unescape v; Some (k, v).

Definition parse_query (raw : string) : list (string * string) := omap query_pair (split_on "&" raw).

(** [r.URL.Query().Get(key)]: the first value, or the empty string. *)
Definition query_get (raw key : string) : string := default EmptyString (assoc key (parse_query raw)).

Example parses :
  (parse_rfc3339 "2026-08-25T12:00:00Z", parse_rfc3339 "2024-02-29T1:00:00,5+02:00",
   parse_rfc3339 "2023-02-29T00:00:00Z")
  = (Some (1787659200 * second), Some (1709161200 * second + 500000000), None)
  /\ map ParseDuration ["1h"; "720h"; "1.5m"; "-1s"; "0"; "1"; ""; "1h30m.5s"; "9223372036854775808ns"]
     = [Some hour; Some (720 * hour); Some (90 * second); Some (- second); Some 0; None; None;
        Some (90 * minute + 500 * millisecond); None]
  /\ map (query_get "a=1&b=x%2Fy+z&a=2&;c=3&d=%zz&e") ["a"; "b"; "c"; "d"; "e"]
     = ["1"; "x/y z"; ""; ""; ""].
Proof. vm_compute. repeat split. Qed.

(** ** What [time] prints it also reads *)

Lemma one_digit_app d s : 0 <= d < 10 -> one_digit (String (digit d) s) = Some (d, s).
Proof. intros Hd. cbn. rewrite is_digit_digit, bval_digit by done. do 2 f_equal. lia. Qed.

Lemma getnum_fixed b n s : 0 <= n < 100 -> getnum b (fixed_dec 2 n +:+ s) = Some (n, s).
Proof.
  intros Hn. cbn [fixed_dec String.append]. unfold getnum, str1. cbn [String.append].
  rewrite one_digit_app by dlia. cbn [mbind option_bind]. rewrite one_digit_app by dlia. do 2 f_equal. dlia.
Qed.

Lemma fixed_dec_split a b n : fixed_dec (a + b) n = fixed_dec a (n / 10 ^ Z.of_nat b) +:+ fixed_dec b n.
Proof.
  revert n. induction b as [|b IH]; intros n.
  - cbn [fixed_dec]. by rewrite Nat.add_0_r, app_nil_str, Z.div_1_r.
  - rewrite Nat.add_succ_r. cbn [fixed_dec]. rewrite IH, app_assoc_str. do 2 f_equal.
    rewrite Z.div_div by lia. f_equal. rewrite Nat2Z.inj_succ, Z.pow_succ_r by lia. lia.
Qed.

Lemma four_digits_fixed n s : 0 <= n < 10000 -> four_digits (fixed_dec 4 n +:+ s) = Some (n, s).
Proof.
  intros Hn. rewrite (fixed_dec_split 2 2), app_assoc_str. unfold four_digits.
  change (10 ^ Z.of_nat 2) with 100. rewrite getnum_fixed by dlia. cbn [mbind option_bind].
  assert (fixed_dec 2 n = fixed_dec 2 (n mod 100)) as ->.
  { cbn [fixed_dec]. assert (n mod 100 mod 10 = n mod 10) as -> by dlia.
    by assert (n mod 100 / 10 mod 10 = n / 10 mod 10) as -> by dlia. }
  rewrite getnum_fixed by dlia. cbn. do 2 f_equal. dlia.
Qed.

(** *** Fractions *)

Lemma fixed_dec_digits w n : sall is_digit (fixed_dec w n) = true.
Proof.
  revert n. induction w as [|w IH]; intros n; [done|]. cbn [fixed_dec]. rewrite sall_app, IH.
  cbn. rewrite is_digit_digit; [done|]. dlia.
Qed.

Lemma parse_digits_app acc s t m : parse_digits acc s = Some m -> parse_digits acc (s +:+ t) = parse_digits m t.
Proof.
  revert acc. induction s as [|c s IH]; intros acc; cbn; [by intros [= ->]|].
  destruct (is_digit c); [|done]. apply IH.
Qed.

Lemma parse_fixed w n : 0 <= n < 10 ^ Z.of_nat w -> parse_digits 0 (fixed_dec w n) = Some n.
Proof.
  revert n. induction w as [|w IH]; intros n Hn.
  - cbn in *. f_equal. lia.
  - rewrite Nat2Z.inj_succ, Z.pow_succ_r in Hn by lia. cbn [fixed_dec].
    rewrite (parse_digits_app 0 _ _ (n / 10)); [|apply IH; dlia].
    cbn. rewrite is_digit_digit, bval_digit by dlia. f_equal. dlia.
Qed.

Lemma parse_zeros k m : parse_digits m (sconcat (map str1 (replicate k "0"%char))) = Some (m * 10 ^ Z.of_nat k).
Proof.
  revert m. induction k as [|k IH]; intros m; [cbn; f_equal; lia|].
  cbn [replicate map sconcat str1 String.append parse_digits].
  change (is_digit "0") with true. cbv iota. change (bval "0" - 48) with 0.
  rewrite IH. f_equal. rewrite Nat2Z.inj_succ, Z.pow_succ_r by lia. ring.
Qed.

(** The digits kept in front of the zeros that were cut off. *)
Lemma frac_kept w n : exists l k,
  schars (fixed_dec w n) = l ++ replicate k "0"%char /\
  rev (drop_zeros (rev (schars (fixed_dec w n)))) = l /\ (List.length l + k = w)%nat.
Proof.
  destruct (drop_zeros_spec (rev (schars (fixed_dec w n)))) as [k E].
  exists (rev (drop_zeros (rev (schars (fixed_dec w n))))), k.
  assert (schars (fixed_dec w n) = rev (drop_zeros (rev (schars (fixed_dec w n)))) ++ replicate k "0"%char) as E'.
  { apply (f_equal (@rev _)) in E. rewrite rev_involutive, rev_app_distr in E. rewrite E at 1.
    f_equal. rewrite rev_alt. apply reverse_replicate. }
  split; [done|]. split; [done|]. apply (f_equal (@List.length _)) in E'.
  rewrite length_app, length_replicate, length_schars, length_fixed_dec in E'. lia.
Qed.

Lemma parse_digits_all s : sall is_digit s = true -> forall acc, is_Some (parse_digits acc s).
Proof.
  induction s as [|c s IH]; cbn; intros Hs acc; [by eexists|].
  apply andb_prop in Hs as [-> Hs]. by apply IH.
Qed.

Lemma sconcat_schars s : sconcat (map str1 (schars s)) = s.
Proof. apply schars_inj. apply sconcat_str1. Qed.

(** A fraction that [time] printed reads back, whatever follows it that is not a digit. *)
Lemma fraction_frac_str n rest : 0 <= n < 10 ^ 9 ->
  match rest with EmptyString => True | String c _ => is_digit c = false /\ c <> "."%char /\ c <> ","%char end ->
  fraction (frac_str 9 n +:+ rest) = (n, rest).
Proof.
  intros Hn Hr. unfold frac_str. destruct (frac_kept 9 n) as (l & k & E1 & -> & E2).
  pose proof (fixed_dec_digits 9 n) as Hd. pose proof (parse_fixed 9 n Hn) as Hp.
  rewrite <- (sconcat_schars (fixed_dec 9 n)), E1, map_app, sconcat_app in Hd, Hp.
  rewrite sall_app in Hd. apply andb_prop in Hd as [Hd _].
  destruct (parse_digits_all _ Hd 0) as [m Hm]. rewrite (parse_digits_app 0 _ _ m Hm), parse_zeros in Hp.
  injection Hp as Hp. destruct l as [|c l].
  - cbn in Hm. injection Hm as <-. cbn [String.append]. unfold fraction. destruct rest as [|c t]; [f_equal; lia|].
    destruct Hr as (_ & H1 & H2). apply Ascii.eqb_neq in H1, H2. rewrite H1, H2. cbn. f_equal. lia.
  - set (ds := sconcat (map str1 (c :: l))) in *. cbn [String.append]. unfold fraction.
    rewrite Ascii.eqb_refl. cbn [orb]. rewrite span_digits_all; [|done|by destruct rest; [|destruct Hr]].
    assert (String.length ds = List.length (c :: l)) as Hlen.
    { rewrite <- length_schars. unfold ds. by rewrite sconcat_str1. }
    destruct (String.eqb_spec ds EmptyString) as [E|_]; [by rewrite E in Hlen|].
    f_equal. unfold nanos. rewrite stake_all by lia. rewrite Hm. cbn [default].
    rewrite <- Hp. f_equal. f_equal. unfold slen. lia.
Qed.

(** *** The calendar *)

Lemma days_of_civil_civil days : let '(y, m, d) := civil days in days_of_civil y m d = days.
Proof.
  unfold civil. cbv zeta. set (z := days + 719468). divmod z 146097.
  pose proof (yoe_bounds (z mod 146097) ltac:(lia)) as [Hy _].
  pose proof (month_of_day_bounds (z mod 146097) ltac:(lia)) as [Hm _].
  assert (day_of_year (z mod 146097) + (365 * year_of_era (z mod 146097)
    + year_of_era (z mod 146097) / 4 - year_of_era (z mod 146097) / 100)
    = z mod 146097) as Ez by (unfold day_of_year; lia).
  set (yoe := year_of_era (z mod 146097)) in *. set (doy := day_of_year (z mod 146097)) in *.
  set (mp := (5 * doy + 2) / 153) in *. unfold days_of_civil. cbv zeta.
  set (mo := if mp <? 10 then mp + 3 else mp - 9).
  assert ((mo <=? 2) = negb (mp <? 10)) as Emo.
  { unfold mo. destruct (Z.ltb_spec mp 10); cbn [negb]; [apply Z.leb_gt|apply Z.leb_le]; lia. }
  rewrite Emo. set (yy := if negb (mp <? 10) then _ - 1 else _).
  assert (yy = yoe + z / 146097 * 400) as ->.
  { unfold yy. destruct (mp <? 10); cbn [negb]; lia. }
  assert ((if negb (mp <? 10) then mo + 9 else mo - 3) = mp) as ->.
  { unfold mo. destruct (mp <? 10); cbn [negb]; lia. }
  rewrite Z.mod_add, Z.div_add by lia. rewrite (Z.mod_small yoe), (Z.div_small yoe) by lia.
  unfold z in *. lia.
Qed.

(** The year that starts in March has 366 days at most, and 365 when its February is short. *)
Definition last_day_ok (yoe : Z) : bool :=
  let day k := 365 * yoe + yoe / 4 - yoe / 100 + k in
  let absent k := negb ((day k <? 146097) && (year_of_era (day k) =? yoe)) in
  absent 366 && (absent 365 || leap (yoe + 1)).

Lemma last_days yoe doe : 0 <= doe < 146097 -> year_of_era doe = yoe ->
  day_of_year doe <= 365 /\ (day_of_year doe = 365 -> leap (yoe + 1) = true).
Proof.
  intros Hd <-. pose proof (yoe_bounds doe Hd) as [Hy Hb].
  assert (forallb last_day_ok (map Z.of_nat (seq 0 400)) = true) as Hl by by vm_compute.
  rewrite forallb_forall in Hl. specialize (Hl (year_of_era doe)). unfold last_day_ok in Hl. cbv zeta in Hl.
  assert (forall k, day_of_year doe = k ->
    365 * year_of_era doe + year_of_era doe / 4 - year_of_era doe / 100 + k = doe) as Hk.
  { intros k <-. unfold day_of_year. lia. }
  assert (In (year_of_era doe) (map Z.of_nat (seq 0 400))) as Hin.
  { apply in_map_iff. exists (Z.to_nat (year_of_era doe)). split; [lia|]. apply in_seq. lia. }
  apply Hl, andb_prop in Hin as [H1 H2]. split.
  - assert (day_of_year doe <> 366) as Hne; [|lia]. intros E. rewrite (Hk 366 E), Z.eqb_refl in H1.
    by rewrite (proj2 (Z.ltb_lt doe 146097)) in H1 by lia.
  - intros E. rewrite (Hk 365 E), Z.eqb_refl in H2.
    by rewrite (proj2 (Z.ltb_lt doe 146097)) in H2 by lia.
Qed.

Lemma leap_period y k : leap (y + k * 400) = leap y.
Proof.
  unfold leap. replace (y + k * 400) with (y + (k * 100) * 4) at 1 by ring. rewrite Z.mod_add by lia.
  replace (y + k * 400) with (y + (k * 4) * 100) at 1 by ring. rewrite Z.mod_add by lia.
  by rewrite Z.mod_add by lia.
Qed.

Lemma civil_day_exists days : let '(y, m, d) := civil days in d <= days_in m y.
Proof.
  unfold civil. cbv zeta. set (z := days + 719468). divmod z 146097.
  pose proof (yoe_bounds (z mod 146097) ltac:(lia)) as [Hy Hd].
  pose proof (month_of_day_bounds (z mod 146097) ltac:(lia)) as [Ha Hb].
  assert (day_of_year (z mod 146097) + (365 * year_of_era (z mod 146097)
    + year_of_era (z mod 146097) / 4 - year_of_era (z mod 146097) / 100)
    = z mod 146097) as Ez by (unfold day_of_year; lia).
  set (yoe := year_of_era (z mod 146097)) in *. set (doy := day_of_year (z mod 146097)) in *.
  set (mp := (5 * doy + 2) / 153) in *.
  destruct (last_days yoe (z mod 146097)) as [Hmax Hleap]; [lia|done|]. fold doy in Hmax, Hleap.
  clearbody mp doy yoe. unfold days_in.
  assert (mp = 0 \/ mp = 1 \/ mp = 2 \/ mp = 3 \/ mp = 4 \/ mp = 5 \/ mp = 6 \/ mp = 7
    \/ mp = 8 \/ mp = 9 \/ mp = 10 \/ mp = 11) as Hm by lia.
  repeat destruct Hm as [->|Hm]; try subst mp; cbn [Z.ltb Z.leb Z.eqb Z.add Z.sub Z.compare Z.opp]; simpl; try dlia.
  replace (yoe + z / 146097 * 400 + 1) with (yoe + 1 + z / 146097 * 400) by ring. rewrite leap_period.
  destruct (leap (yoe + 1)); [dlia|]. assert (doy <> 365) by (intros E; discriminate (Hleap E)). dlia.
Qed.

(** An instant that RFC 3339 can write reads back from its own text. *)
Lemma parse_rfc3339_nano t : rfc_year t -> parse_rfc3339 (rfc3339_nano t) = Some t.
Proof.
  intros Ht. unfold rfc3339_nano, date_str, clock_str. unfold rfc_year, year_of in Ht.
  pose proof (days_of_civil_civil (days_of t)) as Hc. pose proof (civil_month_day (days_of t)) as Hmd.
  pose proof (civil_day_exists (days_of t)) as Hday.
  destruct (civil (days_of t)) as [[y m] d]. cbn [fst] in Ht. cbv zeta.
  set (s := t / second mod 86400). assert (0 <= s < 86400) as Hs by (apply Z.mod_pos_bound; lia).
  rewrite year_str_fixed by done. unfold parse_rfc3339. rewrite !app_assoc_str.
  rewrite four_digits_fixed by done. cbn [mbind option_bind String.append skip].
  rewrite Ascii.eqb_refl. cbn [mbind option_bind]. rewrite getnum_fixed by lia.
  cbn [mbind option_bind String.append skip]. rewrite Ascii.eqb_refl. cbn [mbind option_bind].
  rewrite getnum_fixed by lia. cbn [mbind option_bind String.append skip]. rewrite Ascii.eqb_refl.
  cbn [mbind option_bind]. rewrite getnum_fixed by dlia.
  cbn [mbind option_bind String.append skip]. rewrite Ascii.eqb_refl. cbn [mbind option_bind].
  rewrite getnum_fixed by dlia. cbn [mbind option_bind String.append skip]. rewrite Ascii.eqb_refl.
  cbn [mbind option_bind]. rewrite getnum_fixed by dlia. cbn [mbind option_bind].
  rewrite fraction_frac_str; [|apply Z.mod_pos_bound; done|done].
  cbn [mbind option_bind zone]. rewrite Ascii.eqb_refl. cbn [mbind option_bind].
  rewrite String.eqb_refl, !(proj2 (Z.leb_le _ _)) by lia. rewrite !(proj2 (Z.ltb_lt _ _)) by dlia.
  cbn [andb]. f_equal. rewrite Hc. pose proof (instant_split t) as Et. fold s in Et.
  assert (s / 3600 * 3600 + s / 60 mod 60 * 60 + s mod 60 = s) as Es
    by (replace (s / 3600) with (s / 60 / 60) by (by rewrite Z.div_div by lia); dlia).
  unfold second in *. clearbody s. lia.
Qed.
