(* ===== verification/Events.v ===== *)
(** * Publishing audit entries

    [internal/events/events.go]: what a committed entry looks like on the events channel, what a
    subscriber makes of it, and the control channel.  Redis itself is a function from a channel
    and a message to the error it answers with, and, on the reading side, the sequence of messages
    it delivers. *)

From S2P Require Import Prelude Utf8 GoText GoTime GoParse GoJson GoJsonRound GoStruct Canonical Model.

(** ** An entry as JSON *)

(** [time.Time] in JSON: only years RFC 3339 can write.  A time in a message is read from the
    value of its string. *)
Definition time_json (t : Z) : option string :=
  if decide (rfc_year t) then Some (json_quote true (rfc3339_nano t)) else None.

Definition as_time (v : gval) : option Z :=
  match v with VString s => parse_rfc3339 s | _ => None end.

Definition get_time := get as_time zero_time.

(** The fields of [model.AuditEntry]. *)
Definition entry_fields (e : AuditEntry) : option (list (string * string)) :=
  time ← time_json (e_Timestamp e);
  payload ← marshal (VObject (e_Payload e));
  Some [("id", json_quote true (e_ID e)); ("request_id", json_quote true (e_RequestID e));
        ("timestamp", time); ("kind", json_quote true (e_Kind e)); ("payload", payload);
        ("prev_hash", json_quote true (e_PrevHash e)); ("hash", json_quote true (e_Hash e))].

(** [json.Marshal(entry)] *)
Definition entry_json (e : AuditEntry) : option string := enc_struct <$> entry_fields e.

(** [json.Unmarshal(_, &entry)]: the payload's numbers become floats. *)
Definition decode_entry (v : gval) : option AuditEntry :=
  as_struct (fun m =>
    id ← get_string "id" m;
    request ← get_string "request_id" m;
    time ← get_time "timestamp" m;
    kind ← get_string "kind" m;
    payload ← get as_any_map [] "payload" m;
    prev ← get_string "prev_hash" m;
    hash ← get_string "hash" m;
    Some (Entry id request time kind payload prev hash)) v.

(** ** Publishing *)

Definition ControlChannelSuffix : string := ":control".

Section Publisher.
(** [client.Publish]: the error, if any. *)
Context (send : string -> string -> option string).

Definition Publish (channel : string) (entry : AuditEntry) : result unit :=
  match entry_json entry with
  | None => Err "events: marshal entry"
  | Some payload =>
      match send channel payload with
      | Some m => Err ("events: publish: " +:+ m)
      | None => Ok tt
      end
  end.

Definition Notify (channel kind : string) : result unit :=
  match send (channel +:+ ControlChannelSuffix) kind with
  | Some m => Err ("events: notify " +:+ kind +:+ ": " +:+ m)
  | None => Ok tt
  end.
End Publisher.

(** ** Subscribing *)

Definition buffer_of (buffer : Z) : Z := if buffer <=? 0 then 256 else buffer.

(** One message, with what the subscriber has not taken yet. *)
Definition deliver (buffer : Z) (out : list AuditEntry) (payload : string) : list AuditEntry :=
  match unmarshal payload ≫= decode_entry with
  | None => out
  | Some entry => if Z.of_nat (List.length out) <? buffer_of buffer then out ++ [entry] else out
  end.

Definition control_buffer : Z := 8.

Definition deliver_control (out : list string) (payload : string) : list string :=
  if Z.of_nat (List.length out) <? control_buffer then out ++ [payload] else out.

(** ** Lemmas *)

Definition ascii_str (s : string) : bool := sall (fun c => bval c <? 128) s.

Lemma ascii_valid s : ascii_str s = true -> valid_utf8 s = true.
Proof.
  induction s as [|c s IH]; [done|]. unfold ascii_str. cbn [sall]. intros [Hc Hs]%andb_prop.
  assert (String c s = encode_rune (bval c) +:+ s) as ->.
  { pose proof (bval_bound c). apply Z.ltb_lt in Hc. unfold encode_rune.
    assert (valid_rune (bval c) = true) as -> by (apply valid_rune_intro; lia).
    rewrite (proj2 (Z.ltb_lt _ _)) by lia. unfold byte_str, str1. cbn [String.append]. by rewrite bof_bval. }
  rewrite valid_utf8_encode. by apply IH.
Qed.

Lemma digits_ascii s : sall is_digit s = true -> ascii_str s = true.
Proof. apply sall_impl. unfold is_digit. intros c Hc. bsimp. apply Z.ltb_lt. lia. Qed.

Lemma ascii_app s t : ascii_str (s +:+ t) = ascii_str s && ascii_str t.
Proof. apply sall_app. Qed.

Lemma frac_str_ascii n : ascii_str (frac_str 9 n) = true.
Proof.
  unfold frac_str. destruct (frac_kept 9 n) as (l & k & E1 & -> & _).
  pose proof (fixed_dec_digits 9 n) as Hd.
  rewrite <- (sconcat_schars (fixed_dec 9 n)), E1, map_app, sconcat_app, sall_app in Hd.
  apply andb_prop in Hd as [Hd _]. destruct l as [|c l]; [done|].
  unfold ascii_str. cbn [sall]. change (bval "." <? 128) with true. cbn [andb]. by apply digits_ascii.
Qed.

Lemma rfc3339_nano_ascii t : rfc_year t -> ascii_str (rfc3339_nano t) = true.
Proof.
  intros Ht. unfold rfc3339_nano, date_str, clock_str. unfold rfc_year, year_of in Ht.
  destruct (civil (days_of t)) as [[y m] d]. cbn [fst] in Ht. rewrite year_str_fixed by done.
  cbv zeta. rewrite !ascii_app, !(digits_ascii (fixed_dec _ _)) by apply fixed_dec_digits.
  by rewrite frac_str_ascii.
Qed.

(** A struct reads back as the object of its fields. *)
Lemma reads_struct d es ns :
  1 <= d -> Forall2 (same_keys (fun e n => reads (d - 1) e n /\ good_head e)) es ns ->
  reads d (enc_struct es) (VObject (foldl (fun acc p => assoc_set (fix_utf8 p.1) p.2 acc) [] ns))
  /\ good_head (enc_struct es).
Proof.
  intros Hd He. split; [|unfold enc_struct; by do 2 eexists].
  intros f rest Hf Hr. unfold enc_struct in *. fold (member_str true) in *.
  cbn [String.append] in *. rewrite app_assoc_str. cbn [String.append].
  cbn [String.length] in Hf. rewrite length_app_str in Hf. simpl (String.length "}") in Hf.
  destruct f as [|f]; [lia|]. cbn [parse_value].
  change (Ascii.eqb "{" dquote) with false. change (Ascii.eqb "{" "[") with false.
  change (Ascii.eqb "{" "{") with true. cbv iota. destruct (Z.leb_spec d 0); [lia|].
  destruct es as [|e es']; inversion He as [|? n ? ns' Hx Hes]; subst; [done|].
  assert (good_head (join "," (map (member_str true) (e :: es')))) as Hg.
  { cbn [map]. apply good_head_join, good_head_app, json_quote_head. }
  rewrite skip_ws_good by done.
  rewrite parse_members_join with (ns := n :: ns') by first [done | by constructor | lia].
  destruct Hg as (c & t & E & _ & _ & Hc). rewrite E.
  cbn [String.append]. by destruct (Ascii.eqb_spec c "}").
Qed.

Lemma unmarshal_reads e n : reads max_depth e n -> good_head e -> unmarshal e = Some n.
Proof.
  intros Hr Hg. unfold unmarshal. pose proof (skip_ws_good e EmptyString Hg) as Hs.
  rewrite app_nil_str in Hs. rewrite Hs. specialize (Hr (S (String.length e)) EmptyString).
  rewrite app_nil_str in Hr. rewrite Hr by (done || lia). done.
Qed.

Lemma reads_valid d s : valid_utf8 s = true ->
  reads d (json_quote true s) (VString s) /\ good_head (json_quote true s).
Proof.
  intros Hs. split; [|apply json_quote_head]. rewrite <- (fix_utf8_valid s Hs) at 2. apply reads_string.
Qed.

(** The strings of an entry are text. *)
Record texts_ok (e : AuditEntry) : Prop := {
  tx_id : valid_utf8 (e_ID e) = true;
  tx_request : valid_utf8 (e_RequestID e) = true;
  tx_kind : valid_utf8 (e_Kind e) = true;
  tx_prev : valid_utf8 (e_PrevHash e) = true;
  tx_hash : valid_utf8 (e_Hash e) = true
}.

Definition normal_of (p : gobj) : gobj := match norm (VObject p) with VObject q => q | _ => [] end.

Lemma norm_object p : norm (VObject p) = VObject (normal_of p).
Proof. done. Qed.

Lemma entry_reads e payload :
  texts_ok e -> rfc_year (e_Timestamp e) -> marshal (VObject (e_Payload e)) = Some payload ->
  depth (VObject (e_Payload e)) < max_depth ->
  exists s, entry_json e = Some s /\
    unmarshal s ≫= decode_entry
    = (fun p => Entry (e_ID e) (e_RequestID e) (e_Timestamp e) (e_Kind e) p (e_PrevHash e) (e_Hash e))
        <$> as_any_map (VObject (normal_of (e_Payload e))).
Proof.
  intros [T1 T2 T3 T4 T5] Ht Hp Hd. unfold entry_json, entry_fields, time_json.
  rewrite decide_True by done. cbn [mbind option_bind]. rewrite Hp. cbn [mbind option_bind fmap option_fmap option_map].
  eexists. split; [done|].
  set (ns := [("id", VString (e_ID e)); ("request_id", VString (e_RequestID e));
    ("timestamp", VString (rfc3339_nano (e_Timestamp e))); ("kind", VString (e_Kind e));
    ("payload", norm (VObject (e_Payload e))); ("prev_hash", VString (e_PrevHash e));
    ("hash", VString (e_Hash e))] : gobj).
  match goal with |- unmarshal (enc_struct ?es) ≫= _ = _ =>
    destruct (reads_struct max_depth es ns) as [Hr Hg] end; [done| |].
  { pose proof (encode_reads true _ _ (max_depth - 1) Hp ltac:(lia)) as Hpay.
    pose proof (reads_valid (max_depth - 1) _ (ascii_valid _ (rfc3339_nano_ascii _ Ht))) as Htime.
    subst ns. repeat (apply List.Forall2_cons; [split; [done|]; first [by apply reads_valid|done]|]).
    by apply List.Forall2_nil. }
  rewrite (unmarshal_reads _ _ Hr Hg). cbn [mbind option_bind].
  assert (foldl (fun acc (p : string * gval) => assoc_set (fix_utf8 p.1) p.2 acc) [] ns = ns) as -> by reflexivity.
  unfold decode_entry. cbn [as_struct].
  change (get_string "id" ns) with (Some (e_ID e)). change (get_string "request_id" ns) with (Some (e_RequestID e)).
  change (get_time "timestamp" ns) with (parse_rfc3339 (rfc3339_nano (e_Timestamp e))).
  rewrite (parse_rfc3339_nano _ Ht).
  change (get_string "kind" ns) with (Some (e_Kind e)). change (get_string "prev_hash" ns) with (Some (e_PrevHash e)).
  change (get_string "hash" ns) with (Some (e_Hash e)).
  change (get as_any_map [] "payload" ns) with (as_any_map (norm (VObject (e_Payload e)))).
  rewrite norm_object. cbn [mbind option_bind]. by destruct (as_any_map _).
Qed.

Lemma normal_encodes v : normal v -> is_Some (marshal v).
Proof.
  unfold marshal. induction v using gval_ind; intros Hn;
    inversion Hn as [| |? Hs|? Hv|? Hl|? Hnd Hm]; subst; cbn [encode]; try by eexists.
  - unfold number_lit. destruct (String.eqb l EmptyString); [by eexists|]. rewrite Hv. by eexists.
  - assert (is_Some (mapM (encode true) l)) as [es ->]; [|by eexists].
    apply mapM_is_Some_2. clear Hn. induction Hl as [|v l Hv _ IH]; constructor;
      apply list.Forall_cons in H as [H1 H2]; auto.
  - apply encode_members. clear Hn Hnd. induction Hm as [|[k v] m [_ Hv] _ IH]; constructor;
      apply list.Forall_cons in H as [H1 H2]; [by apply H1|by apply IH].
Qed.

(** ** Properties *)

(** C35: What a committed entry looks like to whoever is watching.  The message published for an
    entry with text fields, a timestamp RFC 3339 can write and a payload as the store keeps it
    reads back, on any subscription with room for it, as an entry with the same id, request,
    instant, kind and hashes, and the same payload up to the order of its keys and to numbers
    becoming floats; it is left out only when the subscriber is behind or a number has no float. *)
Theorem event_roundtrip e buffer out :
  texts_ok e -> rfc_year (e_Timestamp e) -> normal_payload (e_Payload e) ->
  depth (VObject (e_Payload e)) < max_depth ->
  exists s q, entry_json e = Some s /\
    (forall send channel, send channel s = None -> Publish send channel e = Ok tt) /\
    geq (VObject q) (VObject (e_Payload e)) /\
    deliver buffer out s =
      match as_any_map (VObject q) with
      | Some p =>
          if Z.of_nat (List.length out) <? buffer_of buffer
          then out ++ [Entry (e_ID e) (e_RequestID e) (e_Timestamp e) (e_Kind e) p (e_PrevHash e) (e_Hash e)]
          else out
      | None => out
      end.
Proof.
  intros Ht Hy [Hn _] Hd. destruct (normal_encodes _ Hn) as [payload Hp].
  destruct (entry_reads e payload Ht Hy Hp Hd) as (s & Hs & Hr).
  exists s, (normal_of (e_Payload e)). split; [done|]. split; [|split].
  - intros send channel E. unfold Publish. by rewrite Hs, E.
  - rewrite <- norm_object. by apply normal_norm.
  - unfold deliver. rewrite Hr. by destruct (as_any_map _).
Qed.

(** ** A run *)

Definition sample_event : AuditEntry :=
  Seal (Entry "7f1c" "r-1" (1700000000 * second + 120) KindTraffic
    [("verdict", VString "block"); ("decision_ms", VNumber "1.5")] EmptyString EmptyString) EmptyString.

Example sample_delivered :
  (fun s => deliver 0 [] s) <$> entry_json sample_event
  = Some [Entry "7f1c" "r-1" (1700000000 * second + 120) KindTraffic
      [("decision_ms", VFloat (S754_finite false 6755399441055744 (-52))); ("verdict", VString "block")]
      GenesisHash (e_Hash sample_event)].
Proof. vm_compute. reflexivity. Qed.

Lemma event_roundtrip_witness : exists s q, entry_json sample_event = Some s /\
  geq (VObject q) (VObject (e_Payload sample_event)).
Proof.
  destruct (event_roundtrip sample_event 0 []) as (s & q & H1 & _ & H3 & _).
  - split; vm_compute; reflexivity.
  - vm_compute. split; [discriminate|reflexivity].
  - split; [|vm_compute; discriminate]. apply normal_object.
    + repeat (apply list.NoDup_cons; split;
        [cbn; rewrite ?elem_of_cons, ?elem_of_nil; intuition congruence|]). apply NoDup_nil_2.
    + repeat (apply List.Forall_cons; [split; [vm_compute; reflexivity|]|]); [| |apply List.Forall_nil];
        constructor; vm_compute; reflexivity.
  - vm_compute. reflexivity.
  - exists s, q. by split.
Defined.
