(* ===== verification/Connect.v ===== *)
(** * Opening the stores

    [NewPostgres], [Close] of [internal/audit/postgres.go] and [NewClient] of
    [internal/events/events.go]: what is opened, what is checked, and what is closed again when the
    check fails.  The drivers are functions to what they answer. *)

From S2P Require Import Prelude GoText.

Record pg_driver := PgDriver {
  ParseConfig : string -> result unit;
  NewWithConfig : string -> result unit;
  pool_ping : string -> result unit
}.

(** What happens to the connections. *)
Inductive conn_event := Opened | Closed.

Definition NewPostgres (p : pg_driver) (dsn : string) : result unit * list conn_event :=
  match ParseConfig p dsn with
  | Err m => (Err ("audit: parse postgres dsn: " +:+ m), [])
  | Ok _ =>
      match NewWithConfig p dsn with
      | Err m => (Err ("audit: connect to postgres: " +:+ m), [])
      | Ok _ =>
          match pool_ping p dsn with
          | Err m => (Err ("audit: ping postgres: " +:+ m), [Opened; Closed])
          | Ok _ => (Ok tt, [Opened])
          end
      end
  end.

(** [Postgres.Close] *)
Definition Close : result unit * list conn_event := (Ok tt, [Closed]).

(** [NewClient]; [ping] is the server at the address. *)
Definition NewClient (ping : string -> string -> Z -> result unit) (addr password : string) (db : Z)
  : result unit * list conn_event :=
  match ping addr password db with
  | Err m => (Err ("events: connect to redis at " +:+ addr +:+ ": " +:+ m), [Opened; Closed])
  | Ok _ => (Ok tt, [Opened])
  end.

(** How many connections are left open. *)
Definition left_open (events : list conn_event) : Z :=
  foldr (fun e n => match e with Opened => n + 1 | Closed => n - 1 end) 0 events.

(** Nothing stays open behind an error: a store that is handed to the program is one open pool or
    client, checked; an error leaves none; and closing the store leaves none either. *)
Theorem nothing_left_open p dsn ping addr password db :
  left_open (NewPostgres p dsn).2 = (if is_Ok (NewPostgres p dsn).1 then 1 else 0) /\
  left_open (NewClient ping addr password db).2 = (if is_Ok (NewClient ping addr password db).1 then 1 else 0) /\
  (is_Ok (NewPostgres p dsn).1 = true -> left_open ((NewPostgres p dsn).2 ++ Close.2) = 0) /\
  (is_Ok (NewPostgres p dsn).1 = true -> pool_ping p dsn = Ok tt).
Proof.
  unfold NewPostgres, NewClient. destruct (ParseConfig p dsn); [|by destruct (ping addr password db)].
  destruct (NewWithConfig p dsn); [|by destruct (ping addr password db)].
  destruct (pool_ping p dsn) as [[]|]; by destruct (ping addr password db).
Qed.
