(* ===== verification/RuleStore.v ===== *)
(** * The configuration store

    [internal/rulestore/rulestore.go] over the tables of [migrations/postgres/002_rules.sql]:
    which rules are on, and the access list.  The [cidr] type of the server is the interface
    [CidrType]; a statement fails with the error the connection is in, if any. *)

From S2P Require Import Prelude Utf8 GoText GoTime GoJson GoJsonRound Canonical Model AuditRepo IPBlock.

#[local] Set Warnings "-clear-no-such-hyp".

(** ** The tables *)

(** The server's [cidr] type: reading a text, writing a value, and its order; [collate_ltb] is
    the order of texts in the database's collation.  [pg_refuse] is the
    reason the server refuses a text value for (a NUL byte, bytes that are not UTF-8). *)
Class CidrType := {
  cidr : Type;
  cidr_eq_dec :: EqDecision cidr;
  cidr_in : string -> option cidr;
  cidr_out : cidr -> string;
  cidr_ltb : cidr -> cidr -> bool;
  collate_ltb : string -> string -> bool;
  pg_refuse : string -> option string
}.

(** A value reads back from its own text. *)
Class CidrLaws `{CidrType} : Prop := cidr_in_out c : cidr_in (cidr_out c) = Some c.

Section Tables.
Context `{CidrType}.

Record rule_row := RuleRow {
  rr_name : string; rr_enabled : bool; rr_config : string; rr_updated_at : Z; rr_updated_by : string
}.

Record ip_row := IPRow {
  ir_cidr : cidr; ir_action : string; ir_note : string; ir_created_at : Z; ir_created_by : string
}.

(** The two tables, the server's clock, and the error the connection is in. *)
Record store := MkStore {
  s_rules : list rule_row; s_ips : list ip_row; s_now : Z; s_fault : option string
}.

Definition with_rules (s : store) (rs : list rule_row) : store :=
  MkStore rs (s_ips s) (s_now s) (s_fault s).
Definition with_ips (s : store) (rs : list ip_row) : store :=
  MkStore (s_rules s) rs (s_now s) (s_fault s).

(** The keys are unique and the check on [action] holds. *)
Record store_ok (s : store) : Prop := {
  so_rules : NoDup (map rr_name (s_rules s));
  so_ips : NoDup (map ir_cidr (s_ips s));
  so_actions : Forall (fun r => ir_action r = ActionAllow \/ ir_action r = ActionDeny) (s_ips s)
}.

(** ** Operations *)

Definition ErrUnknownRule : string := "rulestore: unknown rule".

(** An error that wraps [ErrUnknownRule], and any other. *)
Inductive set_error := UnknownRule (msg : string) | OtherError (msg : string).

Definition scan_rule (r : rule_row) : result RuleConfig :=
  config ← DecodeJSONPayload (rr_config r);
  Ok (MkRuleConfig (rr_name r) (rr_enabled r) config (rr_updated_at r) (rr_updated_by r)).

Definition Rules (s : store) : result (list RuleConfig) :=
  match s_fault s with
  | Some m => Err ("rulestore: list rules: " +:+ m)
  | None => mapM scan_rule (stable_sort (fun a b => collate_ltb (rr_name a) (rr_name b)) (s_rules s))
  end.

Definition EnabledMap (s : store) : result (gmap string bool) :=
  rules ← Rules s;
  Ok (foldl (fun out r => <[rc_Name r := rc_Enabled r]> out) ∅ rules).

(** [UPDATE rules SET ... WHERE name = $1 RETURNING ...]; the row stays changed when its
    configuration cannot be read. *)
Definition update_rule (s : store) (name : string) (enabled : bool) (actor : string) (r : rule_row)
  : rule_row :=
  if String.eqb (rr_name r) name then RuleRow (rr_name r) enabled (rr_config r) (s_now s) actor else r.

Definition SetEnabled (s : store) (name : string) (enabled : bool) (actor : string)
  : store * (RuleConfig + set_error) :=
  match s_fault s, pg_refuse name, pg_refuse actor with
  | Some m, _, _ | None, Some m, _ | None, None, Some m =>
      (s, inr (OtherError ("rulestore: update rule " +:+ name +:+ ": " +:+ m)))
  | None, None, None =>
      let s' := with_rules s (map (update_rule s name enabled actor) (s_rules s)) in
      match List.find (fun r => String.eqb (rr_name r) name) (s_rules s') with
      | None => (s', inr (UnknownRule (ErrUnknownRule +:+ ": " +:+ name)))
      | Some r =>
          match scan_rule r with
          | Err m => (s', inr (OtherError m))
          | Ok rule => (s', inl rule)
          end
      end
  end.

Definition scan_ip (r : ip_row) : IPRule :=
  MkIPRule (cidr_out (ir_cidr r)) (ir_action r) (ir_note r) (ir_created_at r) (ir_created_by r).

(** [ORDER BY action, cidr] *)
Definition ip_before (a b : ip_row) : bool :=
  if String.eqb (ir_action a) (ir_action b) then cidr_ltb (ir_cidr a) (ir_cidr b)
  else collate_ltb (ir_action a) (ir_action b).

Definition IPRules (s : store) : result (list IPRule) :=
  match s_fault s with
  | Some m => Err ("rulestore: list ip rules: " +:+ m)
  | None => Ok (map scan_ip (stable_sort ip_before (s_ips s)))
  end.

(** [INSERT ... ON CONFLICT (cidr) DO UPDATE] *)
Definition upsert (row : ip_row) (rows : list ip_row) : list ip_row :=
  if existsb (fun r => bool_decide (ir_cidr r = ir_cidr row)) rows
  then map (fun r => if bool_decide (ir_cidr r = ir_cidr row) then row else r) rows
  else rows ++ [row].

Section Quoted.
Context `{UnicodePrint}.

Definition AddIPRule (s : store) (rule : IPRule) (actor : string) : store * result IPRule :=
  if negb (String.eqb (Action rule) ActionAllow) && negb (String.eqb (Action rule) ActionDeny)
  then (s, Err ("rulestore: action must be " +:+ quote ActionAllow +:+ " or " +:+ quote ActionDeny
                +:+ ", got " +:+ quote (Action rule)))
  else
    let failed m := (s, Err ("rulestore: add ip rule " +:+ CIDR rule +:+ ": " +:+ m)) in
    match s_fault s, pg_refuse (Note rule), pg_refuse actor with
    | Some m, _, _ | None, Some m, _ | None, None, Some m => failed m
    | None, None, None =>
        match cidr_in (CIDR rule) with
        | None => failed ("invalid input syntax for type cidr: " +:+ CIDR rule)
        | Some c =>
            let row := IPRow c (Action rule) (Note rule) (s_now s) actor in
            (with_ips s (upsert row (s_ips s)), Ok (scan_ip row))
        end
    end.
End Quoted.

Definition DeleteIPRule (s : store) (text : string) : store * result bool :=
  let failed m := (s, Err ("rulestore: delete ip rule " +:+ text +:+ ": " +:+ m)) in
  match s_fault s, cidr_in text with
  | Some m, _ => failed m
  | None, None => failed ("invalid input syntax for type cidr: " +:+ text)
  | None, Some c =>
      let kept := List.filter (fun r => negb (bool_decide (ir_cidr r = c))) (s_ips s) in
      (with_ips s kept, Ok (existsb (fun r => bool_decide (ir_cidr r = c)) (s_ips s)))
  end.
End Tables.

(** ** Abstract view and lemmas *)

Section Views.
Context `{CidrType} `{UnicodePrint}.

(** The switch of a rule, and what the access list says of a network. *)
Definition switch (s : store) (name : string) : option bool :=
  rr_enabled <$> List.find (fun r => String.eqb (rr_name r) name) (s_rules s).

Definition listed (s : store) (c : cidr) : option ip_row :=
  List.find (fun r => bool_decide (ir_cidr r = c)) (s_ips s).

(** Every configuration column holds an object. *)
Definition configs_ok (s : store) : Prop :=
  Forall (fun r => is_Ok (scan_rule r) = true) (s_rules s).

Section Keyed.
Context {A K : Type} (key : A -> K) (has : K -> A -> bool).
Hypothesis has_spec : forall k a, has k a = true <-> key a = k.

Lemma find_key k l a : NoDup (map key l) -> List.find (has k) l = Some a <-> a ∈ l /\ key a = k.
Proof.
  intros Hn. induction l as [|b l IH]; cbn [List.find].
  - split; [done|]. intros [Ha _]. by apply elem_of_nil in Ha.
  - cbn [map] in Hn. apply list.NoDup_cons in Hn as [Hb Hn]. specialize (IH Hn).
    destruct (has k b) eqn:E.
    + apply has_spec in E. split.
      * intros [= ->]. split; [left|done].
      * intros [[->|Ha]%elem_of_cons Hk]; [done|]. destruct Hb. rewrite E, <- Hk.
        by apply (list_elem_of_fmap_2 key).
    + rewrite IH. split; [intros [Ha Hk]; split; [by right|done]|].
      intros [[->|Ha]%elem_of_cons Hk]; [|done]. apply has_spec in Hk. congruence.
Qed.

Lemma find_key_none k l : List.find (has k) l = None <-> k ∉ map key l.
Proof.
  induction l as [|b l IH]; cbn [List.find map]; [split; [intros _ Hx; by apply elem_of_nil in Hx|done]|].
  destruct (has k b) eqn:E.
  - apply has_spec in E. split; [done|]. intros Hx. destruct Hx. rewrite E. left.
  - rewrite IH, elem_of_cons. split; [|tauto]. intros Hk [Hx|Hx]; [|done].
    symmetry in Hx. apply has_spec in Hx. congruence.
Qed.
End Keyed.

Lemma name_is k (r : rule_row) : String.eqb (rr_name r) k = true <-> rr_name r = k.
Proof. apply String.eqb_eq. Qed.

Lemma cidr_is c (r : ip_row) : bool_decide (ir_cidr r = c) = true <-> ir_cidr r = c.
Proof. apply bool_decide_eq_true. Qed.

Lemma rule_find k l r : NoDup (map rr_name l) ->
  List.find (fun r => String.eqb (rr_name r) k) l = Some r <-> r ∈ l /\ rr_name r = k.
Proof. apply (find_key rr_name (fun k r => String.eqb (rr_name r) k) name_is). Qed.

Lemma rule_find_none k l :
  List.find (fun r => String.eqb (rr_name r) k) l = None <-> k ∉ map rr_name l.
Proof. apply (find_key_none rr_name (fun k r => String.eqb (rr_name r) k) name_is). Qed.

Lemma update_rule_names s name on actor l :
  map rr_name (map (update_rule s name on actor) l) = map rr_name l.
Proof.
  induction l as [|r l IH]; [done|]. cbn [map]. rewrite IH. f_equal. unfold update_rule.
  by destruct (String.eqb _ _).
Qed.

Lemma update_rule_find s name on actor k l :
  List.find (fun r => String.eqb (rr_name r) k) (map (update_rule s name on actor) l)
  = update_rule s name on actor <$> List.find (fun r => String.eqb (rr_name r) k) l.
Proof.
  induction l as [|r l IH]; [done|]. cbn [map List.find].
  assert (rr_name (update_rule s name on actor r) = rr_name r) as ->
    by (unfold update_rule; by destruct (String.eqb _ _)).
  destruct (String.eqb (rr_name r) k); [done|]. exact IH.
Qed.

Lemma upsert_cidrs (row : ip_row) l :
  map ir_cidr (upsert row l) = if existsb (fun r => bool_decide (ir_cidr r = ir_cidr row)) l
                               then map ir_cidr l else map ir_cidr l ++ [ir_cidr row].
Proof.
  unfold upsert. destruct (existsb _ l); [|by rewrite map_app].
  rewrite map_map. apply map_ext. intros r. by case_bool_decide.
Qed.

Lemma existsb_cidr c l :
  existsb (fun r => bool_decide (ir_cidr r = c)) l = true <-> c ∈ map ir_cidr l.
Proof.
  rewrite existsb_exists. rewrite list_elem_of_In, in_map_iff.
  split; intros (r & H1 & H2); exists r; [split; [by apply cidr_is|done]|split; [done|by apply cidr_is]].
Qed.

Lemma replace_find (row : ip_row) l c :
  List.find (fun r => bool_decide (ir_cidr r = c))
    (map (fun r => if bool_decide (ir_cidr r = ir_cidr row) then row else r) l)
  = if bool_decide (ir_cidr row = c)
    then if existsb (fun r => bool_decide (ir_cidr r = ir_cidr row)) l then Some row else None
    else List.find (fun r => bool_decide (ir_cidr r = c)) l.
Proof.
  induction l as [|r l IH]; [by case_bool_decide|]. cbn [map List.find existsb].
  destruct (bool_decide_reflect (ir_cidr r = ir_cidr row)) as [E|E]; cbn [List.find orb]; rewrite IH;
    destruct (bool_decide_reflect (ir_cidr row = c)) as [E'|E']; try done;
    rewrite ?(bool_decide_eq_false_2 (ir_cidr r = c)) by congruence; done.
Qed.

Lemma upsert_find (row : ip_row) l c :
  List.find (fun r => bool_decide (ir_cidr r = c)) (upsert row l)
  = if bool_decide (ir_cidr row = c) then Some row
    else List.find (fun r => bool_decide (ir_cidr r = c)) l.
Proof.
  unfold upsert. destruct (existsb _ l) eqn:E; [by rewrite replace_find, E|].
  induction l as [|r l IH]; cbn [app List.find existsb] in *; [done|].
  apply orb_false_iff in E as [Er El]. rewrite (IH El). apply bool_decide_eq_false in Er.
  destruct (bool_decide_reflect (ir_cidr row = c)); [|done].
  by rewrite bool_decide_eq_false_2 by congruence.
Qed.

Lemma filter_find c d l :
  List.find (fun r => bool_decide (ir_cidr r = d)) (List.filter (fun r => negb (bool_decide (ir_cidr r = c))) l)
  = if bool_decide (d = c) then None else List.find (fun r => bool_decide (ir_cidr r = d)) l.
Proof.
  induction l as [|r l IH]; [by case_bool_decide|]. cbn [List.filter List.find].
  destruct (bool_decide_reflect (ir_cidr r = c)) as [E|E]; cbn [negb List.find]; rewrite IH;
    destruct (bool_decide_reflect (d = c)) as [E'|E']; try done.
  - by rewrite bool_decide_eq_false_2 by congruence.
  - by rewrite bool_decide_eq_false_2 by congruence.
Qed.

Lemma mapM_scan_ok l : Forall (fun r => is_Ok (scan_rule r) = true) l ->
  exists rules, mapM scan_rule l = Ok rules /\
    map (fun r => (rc_Name r, rc_Enabled r)) rules = map (fun r => (rr_name r, rr_enabled r)) l.
Proof.
  induction 1 as [|r l Hr _ (rules & IH1 & IH2)]; [by exists []|].
  cbn [mapM]. destruct (scan_rule r) as [rule|m] eqn:E; [|done].
  exists (rule :: rules). rewrite IH1. split; [done|]. cbn [map]. rewrite IH2. f_equal.
  unfold scan_rule in E. destruct (DecodeJSONPayload (rr_config r)); [|done]. by injection E as <-.
Qed.

Lemma foldl_switches rules (m : gmap string bool) k :
  NoDup (map rc_Name rules) ->
  foldl (fun out r => <[rc_Name r := rc_Enabled r]> out) m rules !! k
  = match List.find (fun r => String.eqb (rc_Name r) k) rules with
    | Some r => Some (rc_Enabled r)
    | None => m !! k
    end.
Proof.
  revert m. induction rules as [|r rules IH]; intros m Hn; [done|].
  cbn [map] in Hn. apply list.NoDup_cons in Hn as [Hr Hn]. cbn [foldl List.find]. rewrite IH by done.
  destruct (String.eqb_spec (rc_Name r) k) as [E|E].
  - assert (List.find (fun r => String.eqb (rc_Name r) k) rules = None) as ->.
    { apply (find_key_none rc_Name (fun k r => String.eqb (rc_Name r) k));
        [intros; apply String.eqb_eq|congruence]. }
    rewrite E. by rewrite lookup_insert_eq.
  - destruct (List.find _ rules); [done|]. by rewrite lookup_insert_ne.
Qed.

(** The engine reads the switches as they are stored. *)
Lemma EnabledMap_spec s : store_ok s -> configs_ok s -> s_fault s = None ->
  exists m, EnabledMap s = Ok m /\ forall k, m !! k = switch s k.
Proof.
  intros [Hn _ _] Hc Hf. unfold EnabledMap, Rules. rewrite Hf.
  set (sorted := stable_sort _ (s_rules s)).
  assert (sorted ≡ₚ s_rules s) as Hp by apply stable_sort_perm.
  destruct (mapM_scan_ok sorted) as (rules & -> & Hm).
  { unfold configs_ok in Hc. by rewrite Hp. }
  cbn [mbind result_bind]. eexists. split; [done|]. intros k.
  assert (map rc_Name rules = map rr_name sorted) as Hnames.
  { apply (f_equal (map fst)) in Hm. by rewrite !map_map in Hm. }
  assert (NoDup (map rr_name sorted)) as Hns by by rewrite Hp.
  rewrite foldl_switches by by rewrite Hnames.
  assert (match List.find (fun r => String.eqb (rc_Name r) k) rules with
          | Some r => Some (rc_Enabled r) | None => (∅ : gmap string bool) !! k end
    = rr_enabled <$> List.find (fun r => String.eqb (rr_name r) k) sorted) as ->.
  { clear -Hm. revert Hm. generalize sorted. intros l. revert l.
    induction rules as [|r rules IH]; intros [|x l] Hm; [by rewrite lookup_empty|done|done|].
    cbn [map] in Hm. injection Hm as E1 E2 Hm. cbn [List.find]. rewrite E1.
    destruct (String.eqb (rr_name x) k); [cbn; by rewrite E2|by apply IH]. }
  unfold switch. f_equal.
  destruct (List.find _ (s_rules s)) as [r|] eqn:E.
  - apply rule_find in E as [E1 E2]; [|done]. apply rule_find; [done|]. by rewrite Hp.
  - apply rule_find_none in E. apply rule_find_none. by rewrite Hp.
Qed.

(** ** Changes, and what they mean *)

Inductive change :=
| Switch (name : string) (enabled : bool) (actor : string)
| Put (rule : IPRule) (actor : string)
| Remove (text : string).

(** One call, at a time and on a connection that may fail. *)
Record call := Call { c_now : Z; c_fault : option string; c_change : change }.

Definition at_call (s : store) (c : call) : store :=
  MkStore (s_rules s) (s_ips s) (c_now c) (c_fault c).

Definition run (s : store) (c : call) : store :=
  match c_change c with
  | Switch name enabled actor => (SetEnabled (at_call s c) name enabled actor).1
  | Put rule actor => (AddIPRule (at_call s c) rule actor).1
  | Remove text => (DeleteIPRule (at_call s c) text).1
  end.

(** The abstract configuration: the switch of each rule the chain has, and of each network the
    verdict, the note and who put it there. *)
Record view := View {
  v_switch : string -> option bool; v_listed : cidr -> option (string * string * string)
}.

#[global] Instance view_equiv : Equiv view := fun v w =>
  (forall k, v_switch v k = v_switch w k) /\ (forall c, v_listed v c = v_listed w c).

#[global] Instance view_equivalence : Equivalence (≡@{view}).
Proof.
  split.
  - by intros v.
  - intros v w [H1 H2]. by split.
  - intros u v w [H1 H2] [H3 H4]. split; intros; [by rewrite H1|by rewrite H2].
Qed.

Definition view_of (s : store) : view :=
  View (switch s) (fun c => (fun r => (ir_action r, ir_note r, ir_created_by r)) <$> listed s c).

Definition accepted (texts : list string) (c : call) : bool :=
  match c_fault c with
  | Some _ => false
  | None => forallb (fun t => match pg_refuse t with None => true | Some _ => false end) texts
  end.

(** The specification of a change. *)
Definition intended (v : view) (c : call) : view :=
  match c_change c with
  | Switch name enabled actor =>
      if accepted [name; actor] c
      then View (fun k => if String.eqb name k then (fun _ => enabled) <$> v_switch v k else v_switch v k)
             (v_listed v)
      else v
  | Put rule actor =>
      if accepted [Note rule; actor] c
         && (String.eqb (Action rule) ActionAllow || String.eqb (Action rule) ActionDeny)
      then match cidr_in (CIDR rule) with
           | None => v
           | Some n => View (v_switch v) (fun c =>
               if bool_decide (n = c) then Some (Action rule, Note rule, actor) else v_listed v c)
           end
      else v
  | Remove text =>
      if accepted [] c
      then match cidr_in text with
           | None => v
           | Some n => View (v_switch v) (fun c => if bool_decide (c = n) then None else v_listed v c)
           end
      else v
  end.

#[global] Instance intended_proper : Proper ((≡) ==> (=) ==> (≡)) intended.
Proof.
  intros v w [H1 H2] c ? <-. unfold intended.
  destruct (c_change c); destruct (accepted _ c); cbn [andb]; try by split.
  - split; [|done]. intros k. cbn. by rewrite H1.
  - destruct (_ || _); [|by split]. destruct (cidr_in _); [|by split].
    split; [done|]. intros d. cbn. by rewrite H2.
  - destruct (cidr_in _); [|by split]. split; [done|]. intros d. cbn. by rewrite H2.
Qed.

(** Both invariants of the tables. *)
Definition sound (s : store) : Prop := store_ok s /\ configs_ok s.

Lemma update_rule_scan s name on actor r :
  is_Ok (scan_rule (update_rule s name on actor r)) = is_Ok (scan_rule r).
Proof.
  unfold update_rule. destruct (String.eqb _ _); [|done]. unfold scan_rule. cbn.
  by destruct (DecodeJSONPayload _).
Qed.

Lemma SetEnabled_sound s name on actor : sound s -> sound (SetEnabled s name on actor).1.
Proof.
  intros [[Hn Hi Ha] Hc]. unfold SetEnabled.
  destruct (s_fault s), (pg_refuse name), (pg_refuse actor); try done.
  assert (sound (with_rules s (map (update_rule s name on actor) (s_rules s)))) as Hs.
  { split; [split; try done; cbn; by rewrite update_rule_names|].
    unfold configs_ok. cbn. apply List.Forall_map.
    eapply List.Forall_impl; [|exact Hc]. cbn. intros r Hr. by rewrite update_rule_scan. }
  destruct (List.find _ _) as [r|]; [|done]. by destruct (scan_rule r).
Qed.

Lemma upsert_nodup row l : NoDup (map ir_cidr l) -> NoDup (map ir_cidr (upsert row l)).
Proof.
  intros Hn. rewrite upsert_cidrs. destruct (existsb _ l) eqn:E; [done|].
  apply list.NoDup_app. split; [done|]. split; [|apply NoDup_singleton].
  intros c Hc ->%list_elem_of_singleton. apply existsb_cidr in Hc. congruence.
Qed.

Lemma upsert_forall (P : ip_row -> Prop) row l : P row -> Forall P l -> Forall P (upsert row l).
Proof.
  intros Hr Hl. unfold upsert. destruct (existsb _ l).
  - apply List.Forall_map. eapply List.Forall_impl; [|exact Hl]. cbn. intros r. by case_bool_decide.
  - apply list.Forall_app. split; [done|]. by apply list.Forall_singleton.
Qed.

Lemma AddIPRule_sound s rule actor : sound s -> sound (AddIPRule s rule actor).1.
Proof.
  intros [[Hn Hi Ha] Hc]. unfold AddIPRule.
  destruct (negb _ && negb _) eqn:E; [done|].
  destruct (s_fault s), (pg_refuse (Note rule)), (pg_refuse actor); try done.
  destruct (cidr_in (CIDR rule)) as [c|]; [|done].
  split; [split; try done; cbn|done]; [by apply upsert_nodup|]. apply upsert_forall; [|done]. cbn.
  apply andb_false_iff in E as [E|E]; apply negb_false_iff, String.eqb_eq in E; auto.
Qed.

Lemma filter_cidrs (P : ip_row -> bool) l : NoDup (map ir_cidr l) -> NoDup (map ir_cidr (List.filter P l)).
Proof.
  induction l as [|r l IH]; [done|]. cbn [map List.filter]. intros [Hr Hl]%list.NoDup_cons.
  destruct (P r); [|by apply IH]. cbn [map]. apply list.NoDup_cons. split; [|by apply IH].
  rewrite list_elem_of_In, in_map_iff. intros (x & Hx & [Hin _]%filter_In). destruct Hr. rewrite <- Hx.
  rewrite list_elem_of_In. by apply in_map.
Qed.

Lemma DeleteIPRule_sound s text : sound s -> sound (DeleteIPRule s text).1.
Proof.
  intros [[Hn Hi Ha] Hc]. unfold DeleteIPRule.
  destruct (s_fault s), (cidr_in text) as [c|]; try done.
  split; [split; try done; cbn|done]; [by apply filter_cidrs|].
  apply List.Forall_forall. intros r [Hr _]%filter_In. revert r Hr. by apply List.Forall_forall.
Qed.

Lemma run_sound s c : sound s -> sound (run s c).
Proof.
  intros Hs. unfold run.
  destruct (c_change c);
    [apply SetEnabled_sound|apply AddIPRule_sound|apply DeleteIPRule_sound];
    destruct Hs as [[] ?]; by split.
Qed.

Lemma SetEnabled_view s name on actor :
  view_of (SetEnabled s name on actor).1 ≡ intended (view_of s) (Call (s_now s) (s_fault s) (Switch name on actor)).
Proof.
  unfold SetEnabled, intended, accepted. cbn.
  destruct (s_fault s); [done|]. destruct (pg_refuse name), (pg_refuse actor); try done. cbn.
  match goal with |- view_of (fst ?x) ≡ _ => assert (x.1 = with_rules s (map (update_rule s name on actor) (s_rules s))) as -> end.
  { destruct (List.find _ _); [|done]. by destruct (scan_rule _). }
  split; [|done]. intros k. cbn. unfold switch. cbn. rewrite update_rule_find.
  destruct (List.find _ (s_rules s)) as [r|] eqn:E; cbn; [|by destruct (String.eqb name k)].
  apply find_some in E as [_ E]. apply String.eqb_eq in E. subst k. unfold update_rule.
  rewrite (String.eqb_sym name). by destruct (String.eqb _ _).
Qed.

Lemma AddIPRule_view s rule actor :
  view_of (AddIPRule s rule actor).1 ≡ intended (view_of s) (Call (s_now s) (s_fault s) (Put rule actor)).
Proof.
  unfold AddIPRule, intended, accepted. cbn. rewrite <- negb_orb.
  destruct (_ || _); cbn; [|by rewrite andb_false_r]. rewrite andb_true_r.
  destruct (s_fault s); [done|]. destruct (pg_refuse (Note rule)), (pg_refuse actor); try done. cbn.
  destruct (cidr_in (CIDR rule)) as [n|]; [|done]. split; [done|]. intros d. cbn. unfold listed. cbn.
  rewrite upsert_find. cbn. by destruct (bool_decide (n = d)).
Qed.

Lemma DeleteIPRule_view s text :
  view_of (DeleteIPRule s text).1 ≡ intended (view_of s) (Call (s_now s) (s_fault s) (Remove text)).
Proof.
  unfold DeleteIPRule, intended, accepted. cbn.
  destruct (s_fault s); [done|]. destruct (cidr_in text) as [n|]; [|done]. cbn.
  split; [done|]. intros d. cbn. unfold listed. cbn. rewrite filter_find.
  by destruct (bool_decide (d = n)).
Qed.

Lemma run_view s c : view_of (run s c) ≡ intended (view_of s) c.
Proof.
  destruct c as [now fault c]. unfold run, at_call. cbn.
  destruct c; [rewrite SetEnabled_view|rewrite AddIPRule_view|rewrite DeleteIPRule_view]; done.
Qed.

Lemma runs_view cs s : view_of (foldl run s cs) ≡ foldl intended (view_of s) cs.
Proof.
  revert s. induction cs as [|c cs IH]; intros s; [done|]. cbn [foldl]. rewrite IH.
  generalize (view_of (run s c)), (intended (view_of s) c), (run_view s c). clear.
  induction cs as [|c cs IH]; intros v w E; [done|]. cbn [foldl]. apply IH. by rewrite E.
Qed.

Lemma runs_sound cs s : sound s -> sound (foldl run s cs).
Proof. revert s. induction cs as [|c cs IH]; intros s Hs; [done|]. apply IH. by apply run_sound. Qed.

(** C39: the tables never break their rules: whatever changes are asked for, in whatever order and
    with whichever of them failing, no rule and no network is listed twice, every entry of the
    access list says [allow] or [deny], and every configuration column stays readable. *)
Theorem store_invariant s cs : sound s -> sound (foldl run s cs).
Proof. apply runs_sound. Qed.

(** C21: the store implements its abstract configuration.  After any sequence of changes, the map
    [EnabledMap] hands to the engine and the entries [IPRules] lists are the ones that the
    intended meaning of the changes leaves: a switch is what the last accepted change of a rule the
    chain has made it (an unknown rule is never added), and a network is listed as the last
    accepted entry for it says, or not at all. *)
Theorem store_refines s cs : sound s ->
  let s' := foldl run s cs in
  let v := foldl intended (view_of s) cs in
  s_fault s' = None ->
  exists m rows, EnabledMap s' = Ok m /\ (forall name, m !! name = v_switch v name) /\
    IPRules s' = Ok (map scan_ip rows) /\ NoDup (map ir_cidr rows) /\
    (forall c x, v_listed v c = Some x <->
       exists r, r ∈ rows /\ ir_cidr r = c /\ (ir_action r, ir_note r, ir_created_by r) = x).
Proof.
  intros Hs s' v Hf. destruct (runs_view cs s) as [H1 H2]. fold s' v in H1, H2.
  destruct (runs_sound cs s Hs) as [Hok Hc]. fold s' in Hok, Hc.
  destruct (EnabledMap_spec s' Hok Hc Hf) as (m & Hm & Hm').
  exists m, (stable_sort ip_before (s_ips s')).
  split; [done|]. split; [intros name; rewrite Hm'; apply H1|]. unfold IPRules. rewrite Hf.
  split; [done|]. destruct Hok as [_ Hi _]. split; [by rewrite stable_sort_perm|].
  intros c x. rewrite <- H2. cbn. rewrite fmap_Some. unfold listed.
  split; intros (r & Hr & Hx).
  - apply (find_key ir_cidr (fun c r => bool_decide (ir_cidr r = c)) cidr_is) in Hr as [Hr Hk]; [|done].
    exists r. by rewrite stable_sort_perm.
  - destruct Hx as [Hk Hx]. exists r. split; [|done]. rewrite stable_sort_perm in Hr.
    by apply (find_key ir_cidr (fun c r => bool_decide (ir_cidr r = c)) cidr_is).
Qed.
End Views.

(** ** A concrete server *)

Module Sample.
(** Networks as their texts, ordered as bytes. *)
Definition text_cidr : CidrType := {|
  cidr := string;
  cidr_eq_dec := String.string_dec;
  cidr_in := fun t => if String.eqb t EmptyString then None else Some t;
  cidr_out := fun c => c;
  cidr_ltb := fun a b => negb (str_leb b a);
  collate_ltb := fun a b => negb (str_leb b a);
  pg_refuse := fun _ => None
|}.
#[local] Existing Instance text_cidr.
#[local] Existing Instance IPBlock.ascii_print.

(** The tables as the migration leaves them. *)
Definition seeded : store :=
  MkStore (map (fun n => RuleRow n true "{}" 0 EmptyString) ["ipblock"; "ratelimit"; "sqli"; "xss"]) [] 0 None.

Definition changes : list call := [
  Call 10 None (Switch "xss" false "ana");
  Call 11 (Some "gone") (Switch "sqli" false "ana");
  Call 12 None (Switch "nosuch" true "ana");
  Call 13 None (Put (MkIPRule "10.0.0.0/8" "deny" "lab" 0 EmptyString) "ana");
  Call 14 None (Put (MkIPRule "10.0.0.0/8" "allow" EmptyString 0 EmptyString) "bob");
  Call 15 None (Remove "192.0.2.0/24")].

Lemma seeded_sound : sound seeded.
Proof.
  split; [split|].
  - cbn. repeat (apply list.NoDup_cons; split; [by rewrite ?elem_of_cons, ?elem_of_nil; intuition congruence|]).
    constructor.
  - constructor.
  - constructor.
  - unfold configs_ok. cbn [seeded s_rules map]. repeat (apply List.Forall_cons; [by vm_compute|]). constructor.
Defined.

Example changed : EnabledMap (foldl run seeded changes)
    = Ok (<["ipblock" := true]> (<["ratelimit" := true]> (<["sqli" := true]> {["xss" := false]})))
  /\ IPRules (foldl run seeded changes) = Ok [MkIPRule "10.0.0.0/8" "allow" EmptyString 14 "bob"].
Proof. split; by vm_compute. Qed.
End Sample.

#[local] Existing Instance Sample.text_cidr.
#[local] Existing Instance IPBlock.ascii_print.

Lemma store_invariant_witness : sound (foldl run Sample.seeded Sample.changes).
Proof. apply (store_invariant Sample.seeded Sample.changes). exact Sample.seeded_sound. Defined.

Lemma store_refines_witness : exists m rows,
  EnabledMap (foldl run Sample.seeded Sample.changes) = Ok m /\
  (forall name, m !! name = v_switch (foldl intended (view_of Sample.seeded) Sample.changes) name) /\
  IPRules (foldl run Sample.seeded Sample.changes) = Ok (map scan_ip rows) /\ NoDup (map ir_cidr rows).
Proof.
  destruct (store_refines Sample.seeded Sample.changes Sample.seeded_sound eq_refl)
    as (m & rows & H1 & H2 & H3 & H4 & _).
  by exists m, rows.
Defined.
