(* ===== verification/Hub.v ===== *)
(** * The live feed

    [dashboard/api/internal/ws/hub.go]: the set of connected browsers, the goroutine that copies
    each event to all of them, and the goroutines that serve one browser.  The hub is a store of
    clients, because the goroutines share them by pointer; closing a channel twice would be a
    panic.  The read lock is held from the first send of a broadcast to the last, so a client can
    take events in between but cannot join or leave. *)

From S2P Require Import Prelude Utf8 GoText GoTime GoParse GoJson GoStruct Model Events.

#[local] Set Warnings "-clear-no-such-hyp".

(** ** The hub *)

Definition clientBuffer : Z := 128.

(** The buffered channel of events, and whether [done] is closed. *)
Record client := Client { c_events : list AuditEntry; c_done : bool }.

Record Hub := MkHub { h_heap : gmap nat client; h_clients : gset nat; h_panicked : bool }.

Definition NewHub : Hub := MkHub ∅ ∅ false.

Definition Clients (h : Hub) : Z := Z.of_nat (size (h_clients h)).

Definition add (h : Hub) (c : nat) : Hub :=
  MkHub (<[c := Client [] false]> (h_heap h)) ({[c]} ∪ h_clients h) (h_panicked h).

(** [close(c.done)] *)
Definition close_done (h : Hub) (c : nat) : Hub :=
  match h_heap h !! c with
  | Some x =>
      if c_done x then MkHub (h_heap h) (h_clients h) true
      else MkHub (<[c := Client (c_events x) true]> (h_heap h)) (h_clients h) (h_panicked h)
  | None => h
  end.

Definition forget (h : Hub) (c : nat) : Hub :=
  close_done (MkHub (h_heap h) (h_clients h ∖ {[c]}) (h_panicked h)) c.

Definition remove (h : Hub) (c : nat) : Hub := if decide (c ∈ h_clients h) then forget h c else h.

Definition closeAll (h : Hub) : Hub := foldl forget h (elements (h_clients h)).

(** One iteration of [broadcast]: a full buffer is skipped. *)
Definition has_room (x : client) : bool := Z.of_nat (List.length (c_events x)) <? clientBuffer.

Definition offer (entry : AuditEntry) (x : client) : client :=
  if has_room x then Client (c_events x ++ [entry]) (c_done x) else x.

Definition send_to (entry : AuditEntry) (h : Hub) (c : nat) : Hub :=
  MkHub (alter (offer entry) c (h_heap h)) (h_clients h) (h_panicked h).

Definition broadcast (h : Hub) (entry : AuditEntry) : Hub :=
  foldl (send_to entry) h (elements (h_clients h)).

(** ** The goroutines *)

(** [Run]: waiting, in the middle of a broadcast with the clients still to come, or returned. *)
Inductive running := Idle | Sending (entry : AuditEntry) (todo : list nat) | Stopped.

(** The serving goroutine of a browser: in its loop, returned but with [h.remove] still to run,
    or gone. *)
Inductive phase := Serving | Leaving | Gone.

(** A connection: its goroutines and what was written to the browser; and, for the theorems, the
    entries written, the ones the hub offered and how many of them were skipped. *)
Record conn := Conn {
  k_phase : phase; k_reading : bool; k_wire : list string;
  k_written : list AuditEntry; k_offered : list AuditEntry; k_missed : Z
}.

Definition set_phase (p : phase) (k : conn) : conn :=
  Conn p (k_reading k) (k_wire k) (k_written k) (k_offered k) (k_missed k).
Definition stop_reading (k : conn) : conn :=
  Conn (k_phase k) false (k_wire k) (k_written k) (k_offered k) (k_missed k).
Definition write (e : AuditEntry) (payload : string) (k : conn) : conn :=
  Conn (k_phase k) (k_reading k) (k_wire k ++ [payload]) (k_written k ++ [e]) (k_offered k) (k_missed k).
Definition see (entry : AuditEntry) (x : client) (k : conn) : conn :=
  Conn (k_phase k) (k_reading k) (k_wire k) (k_written k) (k_offered k ++ [entry])
    (if has_room x then k_missed k else k_missed k + 1).

(** The hub, [Run], the connections by client, and every event [Run] took from the stream. *)
Record system := Sys {
  s_hub : Hub; s_run : running; s_conns : gmap nat conn; s_stream : list AuditEntry
}.

Definition start : system := Sys NewHub Idle ∅ [].

(** The lock is free for a writer. *)
Definition unlocked (s : system) : Prop :=
  match s_run s with Sending _ _ => False | _ => True end.

Definition pop (s : system) (c : nat) (x : client) (rest : list AuditEntry) (k : conn) : system :=
  Sys (MkHub (<[c := Client rest (c_done x)]> (h_heap (s_hub s))) (h_clients (s_hub s)) (h_panicked (s_hub s)))
    (s_run s) (<[c := k]> (s_conns s)) (s_stream s).

Inductive step : system -> system -> Prop :=
| step_connect s c :
    unlocked s -> h_heap (s_hub s) !! c = None ->
    step s (Sys (add (s_hub s) c) (s_run s) (<[c := Conn Serving true [] [] [] 0]> (s_conns s)) (s_stream s))
| step_stream s entry todo :
    s_run s = Idle -> todo ≡ₚ elements (h_clients (s_hub s)) ->
    step s (Sys (s_hub s) (Sending entry todo) (s_conns s) (s_stream s ++ [entry]))
| step_send s entry c todo x k :
    s_run s = Sending entry (c :: todo) ->
    h_heap (s_hub s) !! c = Some x -> s_conns s !! c = Some k ->
    step s (Sys (send_to entry (s_hub s) c) (Sending entry todo) (<[c := see entry x k]> (s_conns s)) (s_stream s))
| step_sent s entry :
    s_run s = Sending entry [] -> step s (Sys (s_hub s) Idle (s_conns s) (s_stream s))
| step_stop s :
    s_run s = Idle -> step s (Sys (closeAll (s_hub s)) Stopped (s_conns s) (s_stream s))
| step_write s c x k e rest payload :
    h_heap (s_hub s) !! c = Some x -> s_conns s !! c = Some k -> k_phase k = Serving ->
    c_events x = e :: rest -> entry_json e = Some payload ->
    step s (pop s c x rest (write e payload k))
| step_write_error s c x k e rest :
    h_heap (s_hub s) !! c = Some x -> s_conns s !! c = Some k -> k_phase k = Serving ->
    c_events x = e :: rest -> step s (pop s c x rest (set_phase Leaving k))
| step_return s c k :
    s_conns s !! c = Some k -> k_phase k = Serving ->
    step s (Sys (s_hub s) (s_run s) (<[c := set_phase Leaving k]> (s_conns s)) (s_stream s))
| step_remove s c k :
    unlocked s -> s_conns s !! c = Some k -> k_phase k = Leaving ->
    step s (Sys (remove (s_hub s) c) (s_run s) (<[c := set_phase Gone k]> (s_conns s)) (s_stream s))
| step_reader s c k :
    unlocked s -> s_conns s !! c = Some k -> k_reading k = true ->
    step s (Sys (remove (s_hub s) c) (s_run s) (<[c := stop_reading k]> (s_conns s)) (s_stream s)).

Definition steps : system -> system -> Prop := rtc step.

(** [Run] follows the random order of the map; every order gives the hub of [broadcast]. *)
Lemma sends_heap e l h c : NoDup l ->
  h_heap (foldl (send_to e) h l) !! c = (if bool_decide (c ∈ l) then offer e else id) <$> h_heap h !! c.
Proof.
  revert h. induction l as [|d l IH]; intros h Hnd; cbn [foldl].
  - rewrite bool_decide_eq_false_2 by set_solver. by destruct (h_heap h !! c).
  - apply list.NoDup_cons in Hnd as [Hd Hnd]. rewrite IH by done. cbn.
    destruct (decide (c = d)) as [->|Hne].
    + rewrite lookup_alter_eq, bool_decide_eq_false_2, bool_decide_eq_true_2 by set_solver.
      by destruct (h_heap h !! d).
    + rewrite lookup_alter_ne by done. f_equal. by rewrite (bool_decide_ext (c ∈ d :: l) (c ∈ l)) by set_solver.
Qed.

Lemma broadcast_any_order h e todo : todo ≡ₚ elements (h_clients h) ->
  foldl (send_to e) h todo = broadcast h e.
Proof.
  intros Hp. unfold broadcast.
  assert (NoDup todo) as Hnd by (rewrite Hp; apply NoDup_elements).
  assert (forall l h0, h_clients (foldl (send_to e) h0 l) = h_clients h0 /\
    h_panicked (foldl (send_to e) h0 l) = h_panicked h0) as Hsame.
  { intros l. induction l as [|c l IH]; intros h0; [done|]. cbn [foldl]. by destruct (IH (send_to e h0 c)). }
  assert (forall a b : Hub, h_heap a = h_heap b -> h_clients a = h_clients b -> h_panicked a = h_panicked b -> a = b)
    as Heq by (intros [] []; cbn; congruence).
  apply Heq.
  - apply map_eq. intros c. rewrite !sends_heap by (done || apply NoDup_elements).
    f_equal. by rewrite (bool_decide_ext (c ∈ todo) (c ∈ elements (h_clients h))) by by rewrite Hp.
  - by rewrite !(proj1 (Hsame _ _)).
  - by rewrite !(proj2 (Hsame _ _)).
Qed.

(** ** Invariant *)

(** What a client is still to be offered of the broadcast under way. *)
Definition pending (s : system) (c : nat) : list AuditEntry :=
  match s_run s with
  | Sending e todo => if bool_decide (c ∈ todo) then [e] else []
  | _ => []
  end.

Definition live (s : system) (c : nat) : Prop := c ∈ h_clients (s_hub s).

Record client_ok (s : system) (c : nat) (x : client) (k : conn) : Prop := {
  co_len : Z.of_nat (List.length (c_events x)) <= clientBuffer;
  co_done : c_done x = false <-> live s c;
  co_wire : Forall2 (fun e p => entry_json e = Some p) (k_written k) (k_wire k);
  co_order : (k_written k ++ c_events x) `sublist_of` k_offered k;
  co_count : k_phase k = Serving ->
    Z.of_nat (List.length (k_offered k))
    = Z.of_nat (List.length (k_written k) + List.length (c_events x)) + k_missed k;
  co_seen : exists pre post, s_stream s = pre ++ k_offered k ++ post /\ (live s c -> post = pending s c)
}.

Record inv (s : system) : Prop := {
  i_panic : h_panicked (s_hub s) = false;
  i_conns : forall c, is_Some (h_heap (s_hub s) !! c) <-> is_Some (s_conns s !! c);
  i_live : forall c, live s c -> is_Some (h_heap (s_hub s) !! c);
  i_clients : forall c x k, h_heap (s_hub s) !! c = Some x -> s_conns s !! c = Some k -> client_ok s c x k;
  i_todo : forall e todo, s_run s = Sending e todo -> NoDup todo /\ forall c, c ∈ todo -> live s c
}.

Lemma inv_start : inv start.
Proof.
  split; [done| | | |done].
  - intros c. cbn. split; intros [x Hx]; [by destruct (lookup_empty_Some c x)|].
    by destruct (lookup_empty_Some c x).
  - intros c Hc. unfold live in Hc. cbn in Hc. set_solver.
  - intros c x k Hx. cbn in Hx. by destruct (lookup_empty_Some c x).
Qed.

(** Leaving the set of clients, one at a time or all together. *)
Definition released (l : list nat) (h h' : Hub) : Prop :=
  h_panicked h' = h_panicked h /\ (forall c, c ∈ h_clients h' <-> c ∈ h_clients h /\ c ∉ l) /\
  (forall c, h_heap h' !! c
     = (fun x => Client (c_events x) (c_done x || bool_decide (c ∈ l))) <$> h_heap h !! c).

Definition open_members (h : Hub) : Prop :=
  forall c, c ∈ h_clients h -> exists x, h_heap h !! c = Some x /\ c_done x = false.

Lemma forget_released h c : open_members h -> c ∈ h_clients h -> released [c] h (forget h c).
Proof.
  intros Ho Hc. destruct (Ho c Hc) as (x & Hx & Hd). unfold forget, close_done. cbn. rewrite Hx, Hd.
  split; [done|]. split; [set_solver|]. intros d. cbn. destruct (decide (d = c)) as [->|Hne].
  - rewrite lookup_insert_eq, Hx. cbn. by rewrite bool_decide_eq_true_2, orb_true_r by set_solver.
  - rewrite lookup_insert_ne by done. rewrite bool_decide_eq_false_2 by set_solver.
    destruct (h_heap h !! d) as [[es b]|]; [|done]. cbn. by rewrite orb_false_r.
Qed.

Lemma closeAll_released h : open_members h -> released (elements (h_clients h)) h (closeAll h).
Proof.
  intros Ho. unfold closeAll.
  assert (forall l h0 done, NoDup l -> open_members h0 -> (forall c, c ∈ l -> c ∈ h_clients h0) ->
    released done h h0 -> released (done ++ l) h (foldl forget h0 l)) as Hl.
  { intros l. induction l as [|c l IH]; intros h0 d Hnd Ho0 Hin Hr; cbn [foldl]; [by rewrite app_nil_r|].
    apply list.NoDup_cons in Hnd as [Hc Hnd].
    destruct (forget_released h0 c Ho0 (Hin c ltac:(left))) as (F1 & F2 & F3).
    rewrite cons_middle, app_assoc. apply IH; [done| | |].
    - intros y [Hy Hyc]%F2. destruct (Ho0 y Hy) as (x & Hx & Hd). exists (Client (c_events x) false).
      rewrite F3, Hx. cbn. rewrite Hd, bool_decide_eq_false_2 by done. done.
    - intros y Hy. apply F2. split; [apply Hin; by right|]. intros ->%list_elem_of_singleton. done.
    - destruct Hr as (R1 & R2 & R3). split; [congruence|]. split.
      + intros y. rewrite F2, R2. set_solver.
      + intros y. rewrite F3, R3. destruct (h_heap h !! y); [|done]. cbn. do 2 f_equal.
        rewrite <- orb_assoc. f_equal. repeat case_bool_decide; set_solver. }
  specialize (Hl (elements (h_clients h)) h []). cbn [app] in Hl. apply Hl.
  - apply NoDup_elements.
  - done.
  - intros c. by rewrite elem_of_elements.
  - split; [done|]. split; [set_solver|]. intros c. destruct (h_heap h !! c) as [[es b]|]; [|done].
    cbn. by rewrite orb_false_r.
Qed.

Lemma inv_open s : inv s -> open_members (s_hub s).
Proof.
  intros Hs c Hc. destruct (i_live s Hs c Hc) as [x Hx].
  destruct (proj1 (i_conns s Hs c) (mk_is_Some _ _ Hx)) as [k Hk].
  exists x. split; [done|]. by apply (co_done _ _ _ _ (i_clients s Hs c x k Hx Hk)).
Qed.

(** A release while the lock is free keeps the invariant. *)
Lemma inv_released s s' l : inv s -> unlocked s -> unlocked s' -> released l (s_hub s) (s_hub s') ->
  s_stream s' = s_stream s -> s_conns s' = s_conns s -> inv s'.
Proof.
  intros Hs Hu Hu' (R1 & R2 & R3) Est Eco. split.
  - rewrite R1. apply (i_panic s Hs).
  - intros c. rewrite R3, fmap_is_Some, Eco. apply (i_conns s Hs).
  - intros c [Hc _]%R2. rewrite R3, fmap_is_Some. by apply (i_live s Hs).
  - intros c x' k Hx' Hk. rewrite R3 in Hx'. rewrite Eco in Hk.
    apply fmap_Some in Hx' as (x & Hx & ->). destruct (i_clients s Hs c x k Hx Hk).
    split; cbn; try done.
    + unfold live in *. rewrite R2, orb_false_iff, bool_decide_eq_false, co_done0. done.
    + destruct co_seen0 as (pre & post & E & Hp). exists pre, post. rewrite Est. split; [done|].
      intros [Hc _]%R2. rewrite (Hp Hc). unfold pending. unfold unlocked in *.
      by destruct (s_run s), (s_run s').
  - intros e todo E. unfold unlocked in Hu'. by rewrite E in Hu'.
Qed.

(** One client and its connection change; the others see the same broadcast. *)
Lemma inv_update s s' c x' k' : inv s ->
  h_panicked (s_hub s') = h_panicked (s_hub s) -> h_clients (s_hub s') = h_clients (s_hub s) ->
  h_heap (s_hub s') = <[c := x']> (h_heap (s_hub s)) -> is_Some (h_heap (s_hub s) !! c) ->
  s_conns s' = <[c := k']> (s_conns s) -> s_stream s' = s_stream s ->
  (forall d, d <> c -> pending s' d = pending s d) -> client_ok s' c x' k' ->
  (forall e todo, s_run s' = Sending e todo -> NoDup todo /\ forall d, d ∈ todo -> live s d) -> inv s'.
Proof.
  intros Hs Ep Em Eh Hc Ek Est Hpend Hok Htodo.
  assert (forall d, live s' d <-> live s d) as Hl by (intros d; unfold live; by rewrite Em).
  split.
  - rewrite Ep. apply (i_panic s Hs).
  - intros d. rewrite Eh, Ek. destruct (decide (d = c)) as [->|Hne].
    + by rewrite !lookup_insert_eq.
    + rewrite !lookup_insert_ne by done. apply (i_conns s Hs).
  - intros d Hd%Hl. rewrite Eh. destruct (decide (d = c)) as [->|Hne]; [by rewrite lookup_insert_eq|].
    rewrite lookup_insert_ne by done. by apply (i_live s Hs).
  - intros d y l Hy Hk. rewrite Eh in Hy. rewrite Ek in Hk. destruct (decide (d = c)) as [->|Hne].
    + rewrite lookup_insert_eq in Hy. rewrite lookup_insert_eq in Hk. by simplify_eq.
    + rewrite lookup_insert_ne in Hy by done. rewrite lookup_insert_ne in Hk by done. destruct (i_clients s Hs d y l Hy Hk).
      split; try done; [by rewrite Hl|]. destruct co_seen0 as (pre & post & E & Hp).
      exists pre, post. rewrite Est, Hl, Hpend by done. by split.
  - intros e todo Er. destruct (Htodo e todo Er) as [H1 H2]. split; [done|]. intros d Hd. by apply Hl, H2.
Qed.

(** The same client, up to what it still has in its buffer and what was done with it. *)
Lemma client_ok_same s s' c x x' k k' : client_ok s c x k ->
  h_clients (s_hub s') = h_clients (s_hub s) -> s_stream s' = s_stream s -> s_run s' = s_run s ->
  c_done x' = c_done x -> k_offered k' = k_offered k ->
  Z.of_nat (List.length (c_events x')) <= clientBuffer ->
  Forall2 (fun e p => entry_json e = Some p) (k_written k') (k_wire k') ->
  (k_written k' ++ c_events x') `sublist_of` k_offered k ->
  (k_phase k' = Serving -> Z.of_nat (List.length (k_offered k))
    = Z.of_nat (List.length (k_written k') + List.length (c_events x')) + k_missed k') ->
  client_ok s' c x' k'.
Proof.
  intros [] Em Est Er Ed Eo H1 H2 H3 H4. split; rewrite ?Eo; try done.
  - unfold live in *. by rewrite Ed, Em.
  - destruct co_seen0 as (pre & post & E & Hp). exists pre, post. rewrite Est. split; [done|].
    unfold live, pending in *. by rewrite Em, Er.
Qed.

Lemma pending_run s s' : s_run s' = s_run s -> forall c, pending s' c = pending s c.
Proof. intros E c. unfold pending. by rewrite E. Qed.

Lemma inv_connect s c : inv s -> unlocked s -> h_heap (s_hub s) !! c = None ->
  inv (Sys (add (s_hub s) c) (s_run s) (<[c := Conn Serving true [] [] [] 0]> (s_conns s)) (s_stream s)).
Proof.
  intros Hs Hu Hn. set (s' := Sys _ _ _ _).
  assert (~ live s c) as Hnl by (intros Hc%(i_live s Hs); rewrite Hn in Hc; by destruct Hc).
  assert (forall d, live s' d <-> d = c \/ live s d) as Hl.
  { intros d. unfold live, s'. cbn. set_solver. }
  split; unfold s'; cbn.
  - apply (i_panic s Hs).
  - intros d. destruct (decide (d = c)) as [->|Hne]; [by rewrite !lookup_insert_eq|].
    rewrite !lookup_insert_ne by done. apply (i_conns s Hs).
  - intros d [->|Hd]%Hl; [by rewrite lookup_insert_eq|].
    rewrite lookup_insert_ne; [by apply (i_live s Hs)|]. congruence.
  - intros d x k Hx Hk. destruct (decide (d = c)) as [->|Hne].
    + rewrite lookup_insert_eq in Hx. rewrite lookup_insert_eq in Hk. simplify_eq. split; cbn; try done.
      * split; [|done]. intros _. apply Hl. by left.
      * exists (s_stream s), []. rewrite app_nil_r. split; [done|]. intros _. unfold pending. cbn.
        unfold unlocked in Hu. by destruct (s_run s).
    + rewrite lookup_insert_ne in Hx by done. rewrite lookup_insert_ne in Hk by done. destruct (i_clients s Hs d x k Hx Hk).
      split; try done.
      * rewrite co_done0. fold s'. rewrite Hl. split; [by right|]. by intros [?|?].
      * destruct co_seen0 as (pre & post & E & Hp). exists pre, post. split; [done|].
        intros [?|Hd]%Hl; [done|]. rewrite Hp by done. by apply pending_run.
  - intros e todo E. unfold unlocked in Hu. by rewrite E in Hu.
Qed.

Lemma inv_stream s entry todo : inv s -> s_run s = Idle -> todo ≡ₚ elements (h_clients (s_hub s)) ->
  inv (Sys (s_hub s) (Sending entry todo) (s_conns s) (s_stream s ++ [entry])).
Proof.
  intros Hs Hr Hp. split; cbn.
  - apply (i_panic s Hs).
  - apply (i_conns s Hs).
  - apply (i_live s Hs).
  - intros c x k Hx Hk. destruct (i_clients s Hs c x k Hx Hk). split; try done.
    destruct co_seen0 as (pre & post & E & Hpost). exists pre, (post ++ [entry]). cbn.
    rewrite E, <- !app_assoc. split; [done|]. unfold live. cbn. intros Hc. rewrite Hpost by done.
    unfold pending. rewrite Hr. cbn. rewrite bool_decide_eq_true_2; [done|].
    by rewrite Hp, elem_of_elements.
  - intros e l [= <- <-]. split; [rewrite Hp; apply NoDup_elements|].
    intros c Hc. rewrite Hp, elem_of_elements in Hc. exact Hc.
Qed.

Lemma inv_idle s entry : inv s -> s_run s = Sending entry [] ->
  inv (Sys (s_hub s) Idle (s_conns s) (s_stream s)).
Proof.
  intros Hs Hr. split; cbn; try apply Hs; [|done].
  intros c x k Hx Hk. destruct (i_clients s Hs c x k Hx Hk). split; try done.
  destruct co_seen0 as (pre & post & E & Hp). exists pre, post. split; [done|].
  intros Hc. rewrite (Hp Hc). unfold pending. by rewrite Hr.
Qed.

Lemma sublist_length_eq {A} (l1 l2 : list A) :
  l1 `sublist_of` l2 -> (List.length l2 <= List.length l1)%nat -> l1 = l2.
Proof.
  induction 1 as [|x l1 l2 Hl IH|x l1 l2 Hl IH]; cbn; intros Hle; [done| |].
  - f_equal. apply IH. lia.
  - apply sublist_length in Hl. lia.
Qed.

Lemma sublist_snoc {A} (l1 l2 : list A) x : l1 `sublist_of` l2 -> (l1 ++ [x]) `sublist_of` (l2 ++ [x]).
Proof. intros Hl. by apply sublist_app. Qed.

Lemma inv_send s entry c todo x k : inv s -> s_run s = Sending entry (c :: todo) ->
  h_heap (s_hub s) !! c = Some x -> s_conns s !! c = Some k ->
  inv (Sys (send_to entry (s_hub s) c) (Sending entry todo) (<[c := see entry x k]> (s_conns s)) (s_stream s)).
Proof.
  intros Hs Hr Hx Hk. destruct (i_todo s Hs _ _ Hr) as [Hnd Hin]. apply list.NoDup_cons in Hnd as [Hc Hnd].
  pose proof (i_clients s Hs c x k Hx Hk) as [].
  apply (inv_update s _ c (offer entry x) (see entry x k)); cbn; try done.
  - apply map_eq. intros d. destruct (decide (d = c)) as [->|Hne].
    + by rewrite lookup_alter_eq, lookup_insert_eq, Hx.
    + by rewrite lookup_alter_ne, lookup_insert_ne.
  - intros d Hne. unfold pending. cbn. rewrite Hr. case_bool_decide as H1; case_bool_decide as H2; set_solver.
  - unfold offer, has_room. unfold clientBuffer in *.
    destruct (Z.ltb_spec (Z.of_nat (List.length (c_events x))) 128) as [Hlt|Hge].
    + split; cbn; try done.
      * rewrite length_app. cbn. unfold clientBuffer. lia.
      * rewrite app_assoc. by apply sublist_snoc.
      * intros Hp. specialize (co_count0 Hp). unfold has_room, clientBuffer.
        rewrite (proj2 (Z.ltb_lt _ _)), !length_app by lia. cbn. lia.
      * destruct co_seen0 as (pre & post & E & Hpost). exists pre, (tail post).
        assert (live s c) as Hl by (apply Hin; left). rewrite E, (Hpost Hl). unfold pending.
        rewrite Hr, bool_decide_eq_true_2 by left. cbn. split; [by rewrite app_nil_r|].
        intros _. by rewrite bool_decide_eq_false_2.
    + split; cbn; try done.
      * by apply sublist_inserts_r.
      * intros Hp. specialize (co_count0 Hp). unfold has_room, clientBuffer.
        rewrite (proj2 (Z.ltb_ge _ _)), !length_app by lia. cbn. lia.
      * destruct co_seen0 as (pre & post & E & Hpost). exists pre, (tail post).
        assert (live s c) as Hl by (apply Hin; left). rewrite E, (Hpost Hl). unfold pending.
        rewrite Hr, bool_decide_eq_true_2 by left. cbn. split; [by rewrite app_nil_r|].
        intros _. by rewrite bool_decide_eq_false_2.
  - intros e l [= <- <-]. split; [done|]. intros d Hd. apply Hin. by right.
Qed.

(** The handler's steps on its own channel and connection. *)
Lemma inv_pop s c x k e rest k' : inv s ->
  h_heap (s_hub s) !! c = Some x -> s_conns s !! c = Some k -> c_events x = e :: rest ->
  k_offered k' = k_offered k ->
  Forall2 (fun e p => entry_json e = Some p) (k_written k') (k_wire k') ->
  (k_written k' ++ rest) `sublist_of` k_offered k ->
  (k_phase k' = Serving -> Z.of_nat (List.length (k_offered k))
    = Z.of_nat (List.length (k_written k') + List.length rest) + k_missed k') ->
  inv (pop s c x rest k').
Proof.
  intros Hs Hx Hk He H1 H2 H3 H4. pose proof (i_clients s Hs c x k Hx Hk) as Hok.
  apply (inv_update s _ c (Client rest (c_done x)) k'); cbn; try done.
  - eapply (client_ok_same s); [exact Hok|done..| |done|done|done].
    cbn. destruct Hok. rewrite He in co_len0. cbn in co_len0. lia.
  - apply (i_todo s Hs).
Qed.

Lemma inv_conn s c k k' hub : inv s -> s_conns s !! c = Some k ->
  k_offered k' = k_offered k -> k_written k' = k_written k -> k_wire k' = k_wire k ->
  k_missed k' = k_missed k -> (k_phase k' = Serving -> k_phase k = Serving) ->
  hub = s_hub s -> inv (Sys hub (s_run s) (<[c := k']> (s_conns s)) (s_stream s)).
Proof.
  intros Hs Hk E1 E2 E3 E4 E5 ->.
  destruct (proj2 (i_conns s Hs c) (mk_is_Some _ _ Hk)) as [x Hx].
  pose proof (i_clients s Hs c x k Hx Hk) as Hok.
  apply (inv_update s _ c x k'); cbn; try done.
  - by rewrite insert_id.
  - eapply (client_ok_same s); [exact Hok|done..| | | |]; destruct Hok; rewrite ?E2, ?E3, ?E4; auto.
  - apply (i_todo s Hs).
Qed.

Lemma remove_released h c : open_members h -> exists l, released l h (remove h c).
Proof.
  intros Ho. unfold remove. destruct (decide _) as [Hc|Hc]; [exists [c]; by apply forget_released|].
  exists []. split; [done|]. split; [set_solver|]. intros d. destruct (h_heap h !! d) as [[es b]|]; [|done].
  cbn. by rewrite orb_false_r.
Qed.

Lemma inv_step s s' : inv s -> step s s' -> inv s'.
Proof.
  intros Hs Hst. pose proof (inv_open s Hs) as Ho.
  destruct Hst as [s c Hu Hn|s e todo Hr Hp|s e c todo x k Hr Hx Hk|s e Hr|s Hr|s c x k e rest p Hx Hk Hp He Hj
    |s c x k e rest Hx Hk Hp He|s c k Hk Hp|s c k Hu Hk Hp|s c k Hu Hk Hp].
  - by apply inv_connect.
  - by apply inv_stream.
  - by apply inv_send.
  - by apply (inv_idle s e).
  - apply (inv_released s _ (elements (h_clients (s_hub s)))); try done; [unfold unlocked; by rewrite Hr|].
    by apply closeAll_released.
  - destruct (i_clients s Hs c x k Hx Hk). apply (inv_pop s c x k e); try done; cbn.
    + apply Forall2_app; [done|]. constructor; [done|constructor].
    + rewrite <- app_assoc. by rewrite He in co_order0.
    + intros Hph. specialize (co_count0 Hph). rewrite He in co_count0. rewrite length_app. cbn in *. lia.
  - destruct (i_clients s Hs c x k Hx Hk). apply (inv_pop s c x k e); try done.
    rewrite He in co_order0. cbn. etrans; [|exact co_order0]. apply sublist_app; [done|]. by constructor.
  - by apply (inv_conn s c k).
  - destruct (remove_released (s_hub s) c Ho) as [l Hl].
    apply (inv_released (Sys (s_hub s) (s_run s) (<[c := set_phase Gone k]> (s_conns s)) (s_stream s)) _ l);
      try done. by apply (inv_conn s c k).
  - destruct (remove_released (s_hub s) c Ho) as [l Hl].
    apply (inv_released (Sys (s_hub s) (s_run s) (<[c := stop_reading k]> (s_conns s)) (s_stream s)) _ l);
      try done. by apply (inv_conn s c k).
Qed.

Lemma inv_reachable s : steps start s -> inv s.
Proof.
  intros Hs. assert (forall a b, steps a b -> inv a -> inv b) as Hr.
  { intros a b H. induction H as [|a b c Hab _ IH]; [done|]. intros Ha. apply IH. by eapply inv_step. }
  eapply Hr; [exact Hs|apply inv_start].
Qed.

(** ** Properties *)

(** C20: The hub never panics and never grows without bound.  Whatever the browsers, the stream and
    the shutdown do, in any order, no [done] channel is closed twice (a connection is removed by
    its reader, by its handler and by the shutdown, and only the first of them closes it); the
    channel of a client is open exactly while it is in the set, so a client that left is always
    told; and no buffer holds more than 128 events. *)
Theorem hub_safe s : steps start s ->
  h_panicked (s_hub s) = false /\
  (forall c, c ∈ h_clients (s_hub s) <->
     exists x, h_heap (s_hub s) !! c = Some x /\ c_done x = false) /\
  (forall c x, h_heap (s_hub s) !! c = Some x -> Z.of_nat (List.length (c_events x)) <= 128).
Proof.
  intros Hs%inv_reachable.
  assert (forall c x, h_heap (s_hub s) !! c = Some x -> exists k, client_ok s c x k) as Hok.
  { intros c x Hx. destruct (proj1 (i_conns s Hs c) (mk_is_Some _ _ Hx)) as [k Hk].
    exists k. by apply (i_clients s Hs). }
  split; [apply (i_panic s Hs)|]. split.
  - intros c. split.
    + intros Hc. destruct (inv_open s Hs c Hc) as (x & Hx & Hd). by exists x.
    + intros (x & Hx & Hd). destruct (Hok c x Hx) as [k []]. by apply co_done0.
  - intros c x Hx. destruct (Hok c x Hx) as [k []]. exact co_len0.
Qed.

(** What a browser is shown.  The messages written to it, followed by what its buffer still
    holds, are events of the stream in the order of the stream, each at most once, from the moment
    it joined; whoever is still connected when no broadcast is under way has been offered every
    event since then; and a browser that never let its buffer fill has missed none of them. *)
Theorem hub_in_order s c x k : steps start s ->
  h_heap (s_hub s) !! c = Some x -> s_conns s !! c = Some k ->
  Forall2 (fun e p => entry_json e = Some p) (k_written k) (k_wire k) /\
  (k_written k ++ c_events x) `sublist_of` k_offered k /\
  (k_phase k = Serving -> k_missed k = 0 -> k_written k ++ c_events x = k_offered k) /\
  exists before after, s_stream s = before ++ k_offered k ++ after /\
    (c ∈ h_clients (s_hub s) -> s_run s = Idle -> after = []).
Proof.
  intros Hs%inv_reachable Hx Hk. destruct (i_clients s Hs c x k Hx Hk).
  split; [done|]. split; [done|]. split.
  - intros Hp Hm. apply sublist_length_eq; [done|]. specialize (co_count0 Hp). rewrite length_app. lia.
  - destruct co_seen0 as (pre & post & E & Hpost). exists pre, post. split; [done|].
    intros Hc Hr. rewrite (Hpost Hc). unfold pending. by rewrite Hr.
Qed.

(** What [Run] does next in a broadcast. *)
Definition next (r : running) : running :=
  match r with Sending e (_ :: todo) => Sending e todo | _ => Idle end.

Lemma send_enabled s e todo : inv s -> s_run s = Sending e todo ->
  exists s', step s s' /\ s_run s' = next (s_run s).
Proof.
  intros Hs Hr. destruct todo as [|c todo].
  - eexists. split; [by eapply step_sent|]. by rewrite Hr.
  - destruct (i_todo s Hs _ _ Hr) as [_ Hin]. destruct (inv_open s Hs c (Hin c ltac:(left))) as (x & Hx & _).
    destruct (proj1 (i_conns s Hs c) (mk_is_Some _ _ Hx)) as [k Hk].
    eexists. split; [by eapply step_send|]. by rewrite Hr.
Qed.

(** One slow browser cannot stall the others.  In the middle of a broadcast the hub's next
    step is always possible, whatever state the browsers are in; no step of any other goroutine
    adds to what is left to do; and so a broadcast to [n] clients ends after [n + 1] steps of the
    hub. *)
Theorem hub_never_blocks s e todo : steps start s -> s_run s = Sending e todo ->
  (exists s', step s s' /\ s_run s' = next (s_run s)) /\
  (forall s', step s s' -> s_run s' = s_run s \/ s_run s' = next (s_run s)) /\
  (exists s', nsteps step (S (List.length todo)) s s' /\ s_run s' = Idle).
Proof.
  intros Hs%inv_reachable Hr. split; [by eapply send_enabled|]. split.
  - intros s' Hst. destruct Hst as [| | |s e' Hr'| | | | | |]; cbn; auto; try congruence.
    + right. by rewrite H.
    + right. by rewrite Hr'.
  - revert s Hs Hr. induction todo as [|c todo IH]; intros s Hs Hr.
    + destruct (send_enabled s e [] Hs Hr) as (s' & Hst & E). exists s'. rewrite E, Hr.
      split; [|done]. by apply nsteps_once.
    + destruct (send_enabled s e (c :: todo) Hs Hr) as (s' & Hst & E). rewrite Hr in E. cbn in E.
      destruct (IH s' (inv_step s s' Hs Hst) E) as (t & Ht & Hi). exists t. split; [|done].
      by eapply nsteps_l.
Qed.

(** A browser that connects after the shutdown is not told.  Once [Run] has returned it never
    closes a channel again: a client in the set stays there until its own handler or reader
    leaves. *)
Theorem late_client_not_told s s' c : s_run s = Stopped -> c ∈ h_clients (s_hub s) -> step s s' ->
  s_run s' = Stopped /\
  (c ∈ h_clients (s_hub s') \/
   exists k, s_conns s' !! c = Some k /\ (k_phase k = Gone \/ k_reading k = false)).
Proof.
  intros Hr Hc Hst.
  assert (forall d, c ∈ h_clients (remove (s_hub s) d) \/ c = d) as Hrm.
  { intros d. destruct (decide (c = d)) as [->|Hne]; [by right|left]. unfold remove.
    destruct (decide _); [|done]. unfold forget, close_done. cbn.
    destruct (h_heap (s_hub s) !! d) as [x|]; [destruct (c_done x)|]; cbn; set_solver. }
  destruct Hst as [s d Hu Hn| | | | | | | |s d k Hu Hk Hp|s d k Hu Hk Hp]; try congruence;
    cbn; (split; [done|]); try (left; done).
  - left. set_solver.
  - destruct (Hrm d) as [?|<-]; [by left|]. right. exists (set_phase Gone k).
    rewrite lookup_insert_eq. split; [done|by left].
  - destruct (Hrm d) as [?|<-]; [by left|]. right. exists (stop_reading k).
    rewrite lookup_insert_eq. split; [done|by right].
Qed.

(** ** A run *)

(** One browser connects, and the hub is in the middle of the first broadcast; then the event is
    in its buffer. *)
Definition sys1 : system := Sys (add NewHub 1) Idle {[1%nat := Conn Serving true [] [] [] 0]} [].
Definition sys2 : system := Sys (s_hub sys1) (Sending sample_event [1%nat]) (s_conns sys1) [sample_event].
Definition sys3 : system :=
  Sys (send_to sample_event (s_hub sys2) 1) (Sending sample_event [])
    (<[1%nat := see sample_event (Client [] false) (Conn Serving true [] [] [] 0)]> (s_conns sys2)) [sample_event].

Lemma sys2_reachable : steps start sys2.
Proof.
  eapply rtc_l; [apply (step_connect start 1); [done|reflexivity]|].
  apply rtc_once. apply (step_stream sys1 sample_event [1%nat]); [reflexivity|].
  vm_compute. reflexivity.
Defined.

Lemma sys3_reachable : steps start sys3.
Proof.
  eapply rtc_r; [exact sys2_reachable|].
  apply (step_send sys2 sample_event 1 [] (Client [] false) (Conn Serving true [] [] [] 0)); reflexivity.
Defined.

Lemma hub_safe_witness : h_panicked (s_hub sys3) = false.
Proof. exact (proj1 (hub_safe sys3 sys3_reachable)). Defined.

Lemma hub_in_order_witness : [] ++ [sample_event] = [sample_event].
Proof.
  apply (proj1 (proj2 (proj2 (hub_in_order sys3 1 (Client [sample_event] false)
    (Conn Serving true [] [] [sample_event] 0) sys3_reachable eq_refl eq_refl)))); reflexivity.
Defined.

Lemma hub_never_blocks_witness : exists s', nsteps step 2 sys2 s' /\ s_run s' = Idle.
Proof. exact (proj2 (proj2 (hub_never_blocks sys2 sample_event [1%nat] sys2_reachable eq_refl))). Defined.

Lemma late_client_not_told_witness :
  let s := Sys (add NewHub 1) Stopped {[1%nat := Conn Serving true [] [] [] 0]} [] in
  let s' := Sys (s_hub s) Stopped {[1%nat := Conn Leaving true [] [] [] 0]} [] in
  1%nat ∈ h_clients (s_hub s').
Proof.
  intros s s'.
  destruct (late_client_not_told s s' 1) as [_ [Hc|(k & Hk & Hx)]]; [done| | |exact Hc|].
  - apply elem_of_union_l, elem_of_singleton_2. done.
  - apply (step_return s 1 (Conn Serving true [] [] [] 0)); reflexivity.
  - exfalso. cbn in Hk. injection Hk as <-. cbn in Hx. destruct Hx; discriminate.
Defined.
