(* ===== verification/Feed.v ===== *)
(** * From the log to the browser

    The live view end to end: the writer of [AuditWriter] publishes what it has committed
    ([writer.go], [append]), Redis carries the messages and may lose any of them, [Subscribe]
    ([internal/events/events.go]) reads them into a bounded channel, and [Run] of [Hub] takes them
    from there.  Everything interleaves. *)

From S2P Require Import Prelude Utf8 GoText GoTime GoParse GoJson GoJsonRound GoStruct Sha256 Canonical Model AuditChain AuditRepo AuditWriter Events Hub.

(** A selection on one side of a pairing is a selection on the other. *)
Lemma Forall2_sublist {A B} (R : A -> B -> Prop) l k k' : Forall2 R l k -> k' `sublist_of` k ->
  exists l', l' `sublist_of` l /\ Forall2 R l' k'.
Proof.
  intros Hm. revert k'. induction Hm as [|x y l k Hx _ IH]; intros k' Hs.
  - apply sublist_nil_r in Hs as ->. exists []. by split; [|constructor].
  - apply sublist_cons_r in Hs as [Hs|(t & -> & Hs)]; destruct (IH _ Hs) as (l' & Hl & Hk).
    + exists l'. split; [by apply sublist_cons|done].
    + exists (x :: l'). split; [by apply sublist_skip|]. by constructor.
Qed.

Section Feed.
Context {L : Type} `{Repository L} (buffer : Z).

(** The writer, the messages Redis has not delivered, the channel [Subscribe] returned, the hub. *)
Record feed := MkFeed {
  f_writer : Writer L; f_wire : list string; f_out : list AuditEntry; f_hub : Hub.system
}.

(** What the writer published in a step. *)
Definition fresh (w w' : Writer L) : list AuditEntry :=
  drop (List.length (w_published w)) (w_published w').

Inductive fstep : feed -> feed -> Prop :=
| feed_write x w sent : wstep (f_writer x) w -> sent `sublist_of` omap entry_json (fresh (f_writer x) w) ->
    fstep x (MkFeed w (f_wire x ++ sent) (f_out x) (f_hub x))
| feed_lose x wire : wire `sublist_of` f_wire x -> fstep x (MkFeed (f_writer x) wire (f_out x) (f_hub x))
| feed_deliver x payload wire : f_wire x = payload :: wire ->
    fstep x (MkFeed (f_writer x) wire (deliver buffer (f_out x) payload) (f_hub x))
| feed_take x e out h : f_out x = e :: out -> Hub.step (f_hub x) h -> s_stream h = s_stream (f_hub x) ++ [e] ->
    fstep x (MkFeed (f_writer x) (f_wire x) out h)
| feed_serve x h : Hub.step (f_hub x) h -> s_stream h = s_stream (f_hub x) ->
    fstep x (MkFeed (f_writer x) (f_wire x) (f_out x) h).

Definition feeding (w : Writer L) : feed := MkFeed w [] [] Hub.start.

(** What a subscriber makes of a published entry. *)
Definition received (e e' : AuditEntry) : Prop :=
  exists payload, entry_json e = Some payload /\ unmarshal payload ≫= decode_entry = Some e'.

(** ** Where things come from *)

(** Messages are those of a selection of entries, in order. *)
Definition messages (es : list AuditEntry) (ms : list string) : Prop :=
  Forall2 (fun e m => entry_json e = Some m) es ms.

Lemma messages_omap es : exists es', es' `sublist_of` es /\ messages es' (omap entry_json es).
Proof.
  induction es as [|e es (es' & Hes & Hm)]; [exists []; by split; [|constructor]|].
  cbn. destruct (entry_json e) as [m|] eqn:E.
  - exists (e :: es'). split; [by apply sublist_skip|]. by constructor.
  - exists es'. split; [by apply sublist_cons|done].
Qed.

Lemma published_grows (w w' : Writer L) : wstep w w' -> w_published w' = w_published w ++ fresh w w'.
Proof.
  intros Hs. unfold fresh.
  assert (exists l, w_published w' = w_published w ++ l) as [l ->].
  { destruct Hs as [w now uuid kind rid p sync|w w2 a item b E Hl| |w w2 Hr| |];
      try (exists []; by rewrite app_nil_r).
    - exists []. rewrite app_nil_r. unfold enter. cbn [q_done]. destruct sync; cbn; by destruct (w_closed w).
    - exists []. rewrite app_nil_r. unfold leave in Hl. cbn [w_closed set_inflight] in Hl.
      destruct (w_closed w); [by injection Hl as <-|]. destruct (_ <? _)%nat; [by injection Hl as <-|].
      destruct (q_done item); [done|]. by injection Hl as <-.
    - unfold run_one in Hr. destruct (w_queue w) as [|item q]; [done|].
      destruct (append (receive w q) (q_entry item)) as [w1 o] eqn:Ea. injection Hr as <-. cbn. revert Ea.
      unfold append. destruct (NormalizePayload _) as [p|m]; [|intros [= <- <-]; exists []; by rewrite app_nil_r].
      destruct (Append _ _) as [s [m|]]; intros [= <- <-]; cbn; [exists []; by rewrite app_nil_r|].
      destruct (w_pub w); [by eexists|exists []; by rewrite app_nil_r]. }
  by rewrite drop_app_length.
Qed.

(** Everything on its way and everything the hub has taken, as published entries in order. *)
Record flow (x : feed) : Prop := {
  fl_hub : steps Hub.start (f_hub x);
  fl_order : exists taken kept wired,
    (taken ++ kept ++ wired) `sublist_of` w_published (f_writer x) /\
    Forall2 received taken (s_stream (f_hub x)) /\ Forall2 received kept (f_out x) /\ messages wired (f_wire x)
}.

Lemma fstep_flow x y : flow x -> fstep x y -> flow y.
Proof.
  intros [Hh (taken & kept & wired & Hsub & Ht & Hk & Hw)] Hs. destruct Hs as [x w sent Hw' Hsent|x wire Hwire
    |x payload wire Hwire|x e out h Hout Hst Hstr|x h Hst Hstr]; split; cbn; try done.
  - destruct (messages_omap (fresh (f_writer x) w)) as (es & Hes & Hm).
    destruct (Forall2_sublist _ _ _ _ Hm Hsent) as (es' & Hes' & Hm').
    exists taken, kept, (wired ++ es'). rewrite (published_grows _ _ Hw'), !app_assoc. split.
    + apply sublist_app; [by rewrite <- app_assoc|]. by transitivity es.
    + repeat split; try done. by apply Forall2_app.
  - destruct (Forall2_sublist _ _ _ _ Hw Hwire) as (es' & Hes' & Hm').
    exists taken, kept, es'. split; [|done]. etransitivity; [|exact Hsub].
    apply sublist_app; [done|]. by apply sublist_app.
  - rewrite Hwire in Hw. inversion Hw as [|e ? wired' ? He Hw' E1 E2]; subst.
    unfold deliver. destruct (unmarshal payload ≫= decode_entry) as [e'|] eqn:Ed.
    + destruct (_ <? _).
      * exists taken, (kept ++ [e]), wired'. rewrite <- app_assoc. split; [done|]. split; [done|].
        split; [|done]. apply Forall2_app; [done|]. constructor; [by exists payload|constructor].
      * exists taken, kept, wired'. split; [|done]. etransitivity; [|exact Hsub].
        do 2 (apply sublist_app; [done|]). by apply sublist_cons.
    + exists taken, kept, wired'. split; [|done]. etransitivity; [|exact Hsub].
      do 2 (apply sublist_app; [done|]). by apply sublist_cons.
  - by eapply rtc_r.
  - rewrite Hout in Hk. inversion Hk as [|e0 ? kept' ? He Hk' E1 E2]; subst.
    exists (taken ++ [e0]), kept', wired. rewrite <- app_assoc, Hstr. split; [done|]. split; [|done].
    apply Forall2_app; [done|]. by constructor.
  - by eapply rtc_r.
  - exists taken, kept, wired. by rewrite Hstr.
Qed.

Lemma fsteps_flow x y : rtc fstep x y -> flow x -> flow y.
Proof. induction 1; eauto using fstep_flow. Qed.

Lemma feeding_flow w : w_published w = [] -> flow (feeding w).
Proof.
  intros E. split; cbn; [done|]. exists [], [], []. split; [by rewrite E|]. repeat split; constructor.
Qed.

Lemma fsteps_writer x y : rtc fstep x y -> wsteps (f_writer x) (f_writer y).
Proof.
  induction 1 as [x|x y z Hs _ IH]; [constructor|]. eapply wsteps_trans; [|exact IH].
  destruct Hs; cbn; try constructor. eapply wsteps_step; [constructor|done].
Qed.

Lemma wsteps_pub (w w' : Writer L) : wsteps w w' -> w_pub w' = w_pub w.
Proof.
  induction 1 as [w|w w1 w2 _ IH Hs]; [done|]. rewrite <- IH.
  destruct (step_frame _ _ Hs) as [Hr|(_ & _ & _ & E & _)]; [|exact E].
  unfold run_one in Hr. destruct (w_queue w1) as [|item q]; [done|].
  destruct (append (receive w1 q) (q_entry item)) as [w3 o] eqn:Ea. injection Hr as <-. cbn. revert Ea.
  unfold append. destruct (NormalizePayload _); [|by intros [= <- _]].
  destruct (Append _ _) as [s [m|]]; by intros [= <- _].
Qed.
End Feed.

(** ** Property *)

(** C31: What an operator sees is what was recorded.  However recording, appending, the losses of
    Redis, the subscription and the browsers interleave: the log is what it was at the start
    followed by the entries the writer has published, in order (and, between them, the entries
    whose append was reported as failed after it was stored, if there are any), and what a browser
    has been shown is, in order and each at most once, what a selection of the published entries
    reads as after the channel. *)
Theorem live_feed_committed `{RepositoryLaws L} buffer repo n w0 x c cl k :
  AuditRepo.inv repo -> chain GenesisHash (log repo) -> NewWriter repo n true = Ok w0 ->
  rtc (fstep buffer) (feeding w0) x ->
  Forall (fun q => recordable (q_entry q)) (w_sent (f_writer x)) ->
  h_heap (s_hub (f_hub x)) !! c = Some cl -> s_conns (f_hub x) !! c = Some k ->
  (exists added, Forall2 same_entry (log (w_repo (f_writer x))) (log repo ++ added) /\
     w_published (f_writer x) `sublist_of` added /\
     (w_published (f_writer x) = added \/ late_error w0 (f_writer x))) /\
  exists shown, shown `sublist_of` w_published (f_writer x) /\
    Forall2 (fun e p => exists e', received e e' /\ entry_json e' = Some p) shown (k_wire k).
Proof.
  intros Hi Hc Hn Hx Hrec Hcl Hk. pose proof (fsteps_writer _ _ _ Hx) as Hw.
  assert (w_pub w0 = true /\ w_published w0 = []) as [Hpub Hp0]
    by (by apply NewWriter_ok in Hn as (h & cap & _ & _ & ->)).
  split.
  - destruct (run_log _ _ _ _ _ Hi Hc Hn Hw Hrec) as (added & stored & [HL _ Hst _ Hp _] & Hd).
    exists added. rewrite Hp by (by rewrite (wsteps_pub _ _ Hw)). split; [done|]. split; [done|].
    destruct Hd as [[_ ?]|Hlate]; [by left|right]. by eapply late_late_error.
  - destruct (fsteps_flow _ _ _ Hx (feeding_flow w0 Hp0)) as [Hhub (taken & kept & wired & Hsub & Ht & _ & _)].
    destruct (Hub.i_clients _ (inv_reachable _ Hhub) c cl k Hcl Hk) as [_ _ Hwire Horder _ (pre & post & Hseen & _)].
    assert (k_written k `sublist_of` s_stream (f_hub x)) as Hws.
    { rewrite Hseen. transitivity (k_offered k).
      - etransitivity; [|exact Horder]. apply sublist_inserts_r. done.
      - apply sublist_inserts_l, sublist_inserts_r. done. }
    destruct (Forall2_sublist _ _ _ _ Ht Hws) as (shown & Hshown & Hr). exists shown. split.
    + etransitivity; [exact Hshown|]. etransitivity; [|exact Hsub]. by apply sublist_inserts_r.
    + clear -Hr Hwire. revert Hr Hwire. generalize (k_wire k) as ps, (k_written k) as es. intros ps es Hr.
      revert ps. induction Hr as [|e e' l l' He _ IH]; intros ps Hps; inversion Hps; subst; constructor; eauto.
Qed.

(** ** A run: one entry, from the call of [Record] to a browser. *)

Definition feed_payload : string := Eval vm_compute in
  match omap entry_json (fresh run_queued run_stored) with p :: _ => p | [] => EmptyString end.

Definition feed_entry : AuditEntry := Eval vm_compute in
  match deliver 0 [] feed_payload with e :: _ => e | [] => q_entry run_item end.

Definition hub_joined : Hub.system := Hub.Sys (Hub.add NewHub 0) Idle {[0%nat := Conn Serving true [] [] [] 0]} [].
Definition hub_sending : Hub.system :=
  Hub.Sys (s_hub hub_joined) (Sending feed_entry [0%nat]) (s_conns hub_joined) [feed_entry].
Definition seen_conn : conn := see feed_entry (Client [] false) (Conn Serving true [] [] [] 0).
Definition hub_sent : Hub.system :=
  Hub.Sys (send_to feed_entry (s_hub hub_joined) 0) (Sending feed_entry []) (<[0%nat := seen_conn]> (s_conns hub_joined))
    [feed_entry].
Definition hub_idle : Hub.system := Hub.Sys (s_hub hub_sent) Idle (s_conns hub_sent) [feed_entry].
Definition hub_shown : Hub.system :=
  pop hub_idle 0 (Client [feed_entry] false) [] (Hub.write feed_entry feed_payload seen_conn).

Lemma feed_computed :
  omap entry_json (fresh run_queued run_stored) = [feed_payload] /\
  deliver 0 [] feed_payload = [feed_entry] /\ entry_json feed_entry = Some feed_payload.
Proof. vm_compute. repeat split. Qed.

Definition feed_shown : feed (L := list AuditEntry) := MkFeed run_stored [] [] hub_shown.

Lemma feed_run : rtc (fstep 0) (feeding AuditWriter.run_start) feed_shown.
Proof.
  destruct feed_computed as (C1 & C2 & C3).
  apply (rtc_l _ _ (MkFeed run_entered [] [] Hub.start)).
  { apply (feed_write 0 (feeding AuditWriter.run_start) run_entered []); [|apply sublist_nil_l]. apply step_enter. }
  apply (rtc_l _ _ (MkFeed run_queued [] [] Hub.start)).
  { apply (feed_write 0 (MkFeed run_entered [] [] Hub.start) run_queued []); [|apply sublist_nil_l].
    by apply (AuditWriter.step_leave _ _ [] run_item []). }
  apply (rtc_l _ _ (MkFeed run_stored [feed_payload] [] Hub.start)).
  { apply (feed_write 0 (MkFeed run_queued [] [] Hub.start) run_stored [feed_payload]).
    - apply AuditWriter.step_run. cbn [f_writer]. unfold run_stored.
      destruct (run_one run_queued) eqn:E; [reflexivity|]. exfalso. vm_compute in E. discriminate.
    - cbn [f_writer]. by rewrite C1. }
  apply (rtc_l _ _ (MkFeed run_stored [] [feed_entry] Hub.start)).
  { rewrite <- C2. by apply (feed_deliver 0 (MkFeed run_stored [feed_payload] [] Hub.start)). }
  apply (rtc_l _ _ (MkFeed run_stored [] [feed_entry] hub_joined)).
  { apply (feed_serve 0 (MkFeed run_stored [] [feed_entry] Hub.start) hub_joined); [|reflexivity].
    exact (step_connect Hub.start 0 I eq_refl). }
  apply (rtc_l _ _ (MkFeed run_stored [] [] hub_sending)).
  { apply (feed_take 0 (MkFeed run_stored [] [feed_entry] hub_joined) feed_entry [] hub_sending); [reflexivity| |reflexivity].
    exact (step_stream hub_joined feed_entry [0%nat] eq_refl (reflexivity [0%nat])). }
  apply (rtc_l _ _ (MkFeed run_stored [] [] hub_sent)).
  { apply (feed_serve 0 (MkFeed run_stored [] [] hub_sending) hub_sent); [|reflexivity].
    exact (step_send hub_sending feed_entry 0 [] (Client [] false) (Conn Serving true [] [] [] 0) eq_refl eq_refl eq_refl). }
  apply (rtc_l _ _ (MkFeed run_stored [] [] hub_idle)).
  { apply (feed_serve 0 (MkFeed run_stored [] [] hub_sent) hub_idle); [|reflexivity].
    exact (step_sent hub_sent feed_entry eq_refl). }
  apply rtc_once. apply (feed_serve 0 (MkFeed run_stored [] [] hub_idle) hub_shown); [|reflexivity].
  exact (step_write hub_idle 0 (Client [feed_entry] false) seen_conn feed_entry [] feed_payload
    eq_refl eq_refl eq_refl eq_refl C3).
Defined.

Lemma live_feed_committed_witness :
  exists k, s_conns (f_hub feed_shown) !! 0%nat = Some k /\ k_wire k = [feed_payload] /\
  exists shown, shown `sublist_of` w_published (f_writer feed_shown) /\
    Forall2 (fun e p => exists e', received e e' /\ entry_json e' = Some p) shown (k_wire k).
Proof.
  exists (Hub.write feed_entry feed_payload seen_conn). split; [reflexivity|]. split; [reflexivity|].
  assert (AuditRepo.inv (S := list AuditEntry) []) as Hi by exact I.
  refine (proj2 (live_feed_committed (L := list AuditEntry) 0 [] 2 AuditWriter.run_start feed_shown 0
    (Client [] false) _ Hi _ eq_refl feed_run run_recordable eq_refl eq_refl)).
  constructor.
Defined.
