(* ===== verification/Migrate.v ===== *)
(** * Migrations

    [internal/migrate/migrate.go]: applying the migration files once each, in the order of their
    names, under a lock that instances starting together contend for.  What a migration's SQL does
    to the schema is a parameter; a transaction takes effect when it commits, and a connection
    that is lost while committing may or may not have committed.  The lock belongs to the
    session: PostgreSQL releases it when the session ends, wherever the instance is. *)

From S2P Require Import Prelude Utf8 GoText AuditRepo.

(** ** Files and database *)

Record file := File { f_name : string; f_dir : bool; f_body : string }.

(** [sortedMigrations] *)
Definition is_migration (f : file) : bool := negb (f_dir f) && has_suffix ".sql" (f_name f).

Definition before (a b : string) : bool := negb (str_leb b a).

Definition sortedMigrations (src : list file) : list string :=
  stable_sort before (map f_name (List.filter is_migration src)).

(** [fs.ReadFile] *)
Definition ReadFile (src : list file) (name : string) : option string :=
  f_body <$> List.find (fun f => String.eqb (f_name f) name) src.

Section Apply.
Context {S : Type} (exec : S -> string -> result S).

(** The schema, and [schema_migrations] in the order its rows were inserted. *)
Record db := Db { d_schema : S; d_versions : list string }.

(** How the calls around the migration's own SQL go. *)
Inductive trouble :=
| Fine | AtBegin (m : string) | AtExec (m : string) | AtRecord (m : string) | AtCommit (applied : bool) (m : string).

(** The body of the loop for a name that is not applied. *)
Definition apply_one (src : list file) (d : db) (name : string) (t : trouble) : db * result unit :=
  match ReadFile src name with
  | None => (d, Err ("migrate: read " +:+ name))
  | Some body =>
      match t with
      | AtBegin m => (d, Err ("migrate: begin " +:+ name +:+ ": " +:+ m))
      | AtExec m => (d, Err ("migrate: apply " +:+ name +:+ ": " +:+ m))
      | _ =>
          match exec (d_schema d) body with
          | Err m => (d, Err ("migrate: apply " +:+ name +:+ ": " +:+ m))
          | Ok schema =>
              if bool_decide (name ∈ d_versions d)
              then (d, Err ("migrate: record " +:+ name +:+ ": duplicate key"))
              else
                let d' := Db schema (d_versions d ++ [name]) in
                match t with
                | AtRecord m => (d, Err ("migrate: record " +:+ name +:+ ": " +:+ m))
                | AtCommit applied m =>
                    (if applied then d' else d, Err ("migrate: commit " +:+ name +:+ ": " +:+ m))
                | _ => (d', Ok tt)
                end
          end
      end
  end.

(** What goes wrong around one run: the errors of the calls before the loop, and the trouble each
    migration meets.  Giving the lock back only warns when it fails. *)
Record faults := Faults {
  at_acquire : option string;
  at_lock : option string;
  at_create : option string;
  at_read : option string;
  at_list : option string;
  at_migration : string -> trouble
}.

Definition no_faults : faults := Faults None None None None None (fun _ => Fine).

Definition attempt (what : string) (o : option string) : result unit :=
  match o with Some m => Err (what +:+ ": " +:+ m) | None => Ok tt end.

(** The loop. *)
Fixpoint apply_all (at_ : string -> trouble) (src : list file) (applied : list string) (d : db)
  (names : list string) : db * result unit :=
  match names with
  | [] => (d, Ok tt)
  | name :: names =>
      if bool_decide (name ∈ applied) then apply_all at_ src applied d names
      else match apply_one src d name (at_ name) with
           | (d', Ok _) => apply_all at_ src applied d' names
           | failed => failed
           end
  end.

Definition Apply (f : faults) (src : list file) (d : db) : db * result unit :=
  match
    (_ ← attempt "migrate: acquire connection" (at_acquire f);
     _ ← attempt "migrate: acquire advisory lock" (at_lock f);
     _ ← attempt "migrate: create schema_migrations" (at_create f);
     _ ← attempt "migrate: read applied versions" (at_read f);
     attempt "migrate: list migrations" (at_list f))
  with
  | Err m => (d, Err m)
  | Ok _ => apply_all (at_migration f) src (d_versions d) d (sortedMigrations src)
  end.

(** Nothing goes wrong around a run on these tables. *)
Definition quiet (f : faults) (src : list file) (d : db) : Prop :=
  at_acquire f = None /\ at_lock f = None /\ at_create f = None /\ at_read f = None /\ at_list f = None /\
  forall name, name ∈ sortedMigrations src -> name ∉ d_versions d -> at_migration f name = Fine.

(** ** Instances that start together *)

(** Where an instance is in [Apply]. *)
Inductive pc :=
| Starting | Blocked | Creating | Reading | Listing (applied : list string)
| Loop (applied names : list string) | Unlocking (r : result unit) | Done (r : result unit).

(** The tables, who holds the advisory lock, where the instances are and whose session is alive. *)
Record system := Sys { y_db : db; y_lock : option nat; y_procs : list pc; y_live : list bool }.

Definition goto (s : system) (i : nat) (p : pc) : system :=
  Sys (y_db s) (y_lock s) (<[i := p]> (y_procs s)) (y_live s).
Definition with_lock (l : option nat) (s : system) : system := Sys (y_db s) l (y_procs s) (y_live s).
Definition with_db (d : db) (s : system) : system := Sys d (y_lock s) (y_procs s) (y_live s).

(** The server frees what the session held. *)
Definition released (i : nat) (l : option nat) : option nat := if bool_decide (l = Some i) then None else l.
Definition lose (i : nat) (s : system) : system :=
  Sys (y_db s) (released i (y_lock s)) (y_procs s) (<[i := false]> (y_live s)).

Definition at_pc (s : system) (i : nat) (p : pc) : Prop := y_procs s !! i = Some p.
Definition live (s : system) (i : nat) : Prop := y_live s !! i = Some true.

Definition finished (p : pc) : Prop := match p with Done _ => True | _ => False end.

(** Past the lock, before its release. *)
Definition critical (p : pc) : Prop :=
  match p with Creating | Reading | Listing _ | Loop _ _ | Unlocking _ => True | _ => False end.

Context (src : list file).

(** Every statement of an instance goes over the one connection it acquired: once its session has
    ended the statements fail, while reading the files and skipping what is applied goes on. *)
Inductive step : system -> system -> Prop :=
| step_acquire s i : at_pc s i Starting -> step s (goto s i Blocked)
| step_lock s i : at_pc s i Blocked -> live s i -> y_lock s = None ->
    step s (with_lock (Some i) (goto s i Creating))
| step_create s i : at_pc s i Creating -> live s i -> step s (goto s i Reading)
| step_applied s i : at_pc s i Reading -> live s i -> step s (goto s i (Listing (d_versions (y_db s))))
| step_list s i applied : at_pc s i (Listing applied) ->
    step s (goto s i (Loop applied (sortedMigrations src)))
| step_skip s i applied name names : at_pc s i (Loop applied (name :: names)) -> name ∈ applied ->
    step s (goto s i (Loop applied names))
| step_apply s i applied name names t d : at_pc s i (Loop applied (name :: names)) -> name ∉ applied ->
    live s i -> apply_one src (y_db s) name t = (d, Ok tt) ->
    step s (with_db d (goto s i (Loop applied names)))
| step_apply_error s i applied name names t d m : at_pc s i (Loop applied (name :: names)) ->
    name ∉ applied -> live s i \/ (exists m, t = AtBegin m) -> apply_one src (y_db s) name t = (d, Err m) ->
    step s (with_db d (goto s i (Unlocking (Err m))))
| step_end s i applied : at_pc s i (Loop applied []) -> step s (goto s i (Unlocking (Ok tt)))
| step_fail s i p m : at_pc s i p -> p = Starting \/ p = Blocked -> step s (goto s i (Done (Err m)))
| step_fail_locked s i p m : at_pc s i p -> p = Creating \/ p = Reading \/ (exists a, p = Listing a) ->
    step s (goto s i (Unlocking (Err m)))
| step_unlock s i r : at_pc s i (Unlocking r) -> live s i -> step s (with_lock None (goto s i (Done r)))
| step_unlock_fails s i r : at_pc s i (Unlocking r) -> step s (goto s i (Done r))
| step_lose s i p : at_pc s i p -> p = Blocked \/ critical p -> live s i -> step s (lose i s)
| step_crash s i p m : at_pc s i p -> ~ finished p ->
    step s (with_lock (released i (y_lock s)) (goto s i (Done (Err m))))
| step_session_end s i p : y_lock s = Some i -> at_pc s i p -> finished p -> step s (with_lock None s).

Definition begin (d : db) (n : nat) : system := Sys d None (replicate n Starting) (replicate n true).

(** ** Specification *)

(** The schema that running the named files in order gives. *)
Fixpoint replay (schema : S) (names : list string) : option S :=
  match names with
  | [] => Some schema
  | name :: names =>
      body ← ReadFile src name;
      match exec schema body with Ok schema => replay schema names | Err _ => None end
  end.

(** The first files of the directory have been applied to [schema0], and nothing else. *)
Definition applied_up_to (schema0 : S) (d : db) : Prop :=
  d_versions d `prefix_of` sortedMigrations src /\ replay schema0 (d_versions d) = Some (d_schema d).

(** ** Lemmas *)

Context (schema0 : S) (Hnames : NoDup (sortedMigrations src)).

Lemma replay_snoc schema names name schema' body schema'' :
  replay schema names = Some schema' -> ReadFile src name = Some body -> exec schema' body = Ok schema'' ->
  replay schema (names ++ [name]) = Some schema''.
Proof.
  revert schema. induction names as [|n names IH]; intros schema; cbn [app replay].
  - intros [= ->] -> E. cbn [mbind option_bind]. by rewrite E.
  - destruct (ReadFile src n) as [b|]; [|done]. cbn [mbind option_bind].
    destruct (exec schema b); [|done]. apply IH.
Qed.

(** One migration: nothing, or exactly the next one. *)
Lemma apply_one_next d name names t d' r :
  applied_up_to schema0 d -> sortedMigrations src = d_versions d ++ name :: names ->
  apply_one src d name t = (d', r) ->
  applied_up_to schema0 d' /\ (d' = d \/ d_versions d' = d_versions d ++ [name]) /\
  (r = Ok tt -> d_versions d' = d_versions d ++ [name]).
Proof.
  intros [Hp Hr] Es Ha. unfold apply_one in Ha.
  assert (forall m, (d, Err m) = (d', r) -> applied_up_to schema0 d' /\
    (d' = d \/ d_versions d' = d_versions d ++ [name]) /\
    (r = Ok tt -> d_versions d' = d_versions d ++ [name])) as Hsame.
  { intros m [= <- <-]. split; [done|]. split; [by left|done]. }
  destruct (ReadFile src name) as [body|] eqn:Eb; [|by eapply Hsame].
  destruct (exec (d_schema d) body) as [schema|] eqn:Ee; [|destruct t; by eapply Hsame].
  case_bool_decide as Hin; [destruct t; by eapply Hsame|].
  assert (applied_up_to schema0 (Db schema (d_versions d ++ [name]))) as Hnew.
  { split; cbn; [|by eapply replay_snoc]. exists names. by rewrite Es, <- app_assoc. }
  destruct t as [|m|m|m|[] m]; try (by eapply Hsame); injection Ha as <- <-.
  - split; [done|]. split; [by right|done].
  - split; [done|]. split; [by right|done].
Qed.

(** What holds of an instance at each point, whether or not its session is alive: the names it has
    passed are applied. *)
Definition pc_seen (d : db) (p : pc) : Prop :=
  match p with
  | Listing applied => applied `prefix_of` d_versions d
  | Loop applied names => exists pre, sortedMigrations src = pre ++ names /\
      applied `prefix_of` d_versions d /\ pre `prefix_of` d_versions d
  | Unlocking (Ok _) | Done (Ok _) => d_versions d = sortedMigrations src
  | _ => True
  end.

(** What its lock adds: nobody else has applied anything since. *)
Definition pc_alone (d : db) (p : pc) : Prop :=
  match p with
  | Listing applied => applied = d_versions d
  | Loop applied names => exists pre, sortedMigrations src = pre ++ names /\
      d_versions d = if (List.length pre <? List.length applied)%nat then applied else pre
  | _ => True
  end.

Record inv (s : system) : Prop := {
  i_db : applied_up_to schema0 (y_db s);
  i_lock : forall i p, at_pc s i p -> critical p -> live s i -> y_lock s = Some i;
  i_seen : forall i p, at_pc s i p -> pc_seen (y_db s) p;
  i_alone : forall i p, at_pc s i p -> live s i -> pc_alone (y_db s) p
}.

(** Where an instance is does not matter to the others. *)
Lemma at_goto s i p j q : at_pc (goto s i p) j q -> (j = i /\ q = p) \/ (j <> i /\ at_pc s j q).
Proof.
  unfold at_pc. cbn. destruct (decide (j = i)) as [->|Hne].
  - intros Hq. left. split; [done|]. apply list_lookup_insert_Some in Hq. destruct Hq as [(_ & <- & _)|[? _]]; done.
  - rewrite list_lookup_insert_ne by done. by right.
Qed.

Lemma live_lose s i j : live (lose i s) j -> j <> i /\ live s j.
Proof.
  unfold live. cbn. intros [(_ & ? & _)|[? ?]]%list_lookup_insert_Some; done.
Qed.

Lemma other_critical s i p j q : inv s -> at_pc s i p -> critical p -> live s i ->
  at_pc s j q -> critical q -> live s j -> j = i.
Proof.
  intros Hs Hi Hp Li Hj Hq Lj. pose proof (i_lock s Hs i p Hi Hp Li).
  pose proof (i_lock s Hs j q Hj Hq Lj). congruence.
Qed.

Lemma prefix_shorter {A} (a b c : list A) : a `prefix_of` c -> b `prefix_of` c ->
  (List.length a <= List.length b)%nat -> a `prefix_of` b.
Proof.
  intros Ha Hb Hl. destruct (prefix_weak_total a b c Ha Hb) as [?|Hp]; [done|].
  pose proof Hp as Hn. apply prefix_length in Hn. destruct Hp as [k ->]. rewrite length_app in *.
  destruct k; [|cbn in *; lia]. by rewrite app_nil_r.
Qed.

(** What an instance has passed stays applied. *)
Lemma seen_later d d' p : applied_up_to schema0 d' -> d_versions d `prefix_of` d_versions d' ->
  pc_seen d p -> pc_seen d' p.
Proof.
  intros [Hd' _] Hpre. destruct p as [| | | |applied|applied names|[]|[]]; cbn; try done.
  - intros Ha. by etrans.
  - intros (pre & E & Ha & Hp). exists pre. split; [done|]. split; by etrans.
  - intros Hr. rewrite Hr in Hpre. by apply (anti_symm prefix).
  - intros Hr. rewrite Hr in Hpre. by apply (anti_symm prefix).
Qed.

(** A step of one instance that keeps the tables. *)
Lemma inv_goto s i p q l : inv s -> at_pc s i p ->
  (critical q -> live s i -> l = Some i) -> pc_seen (y_db s) q -> (live s i -> pc_alone (y_db s) q) ->
  (forall j r, j <> i -> at_pc s j r -> critical r -> live s j -> l = y_lock s) ->
  inv (with_lock l (goto s i q)).
Proof.
  intros Hs Hp Hq Hseen Halone Hl. split; [apply (i_db s Hs)| | |]; intros j r [[-> ->]|[Hne Hj]]%at_goto; cbn.
  - apply Hq.
  - intros Hr Lj. rewrite (Hl j r Hne Hj Hr Lj). by apply (i_lock s Hs j r).
  - done.
  - by apply (i_seen s Hs j).
  - apply Halone.
  - by apply (i_alone s Hs j).
Qed.

(** A step of the instance that holds the lock which adds to the tables. *)
Lemma inv_apply s i p q d : inv s -> at_pc s i p -> critical p -> live s i ->
  applied_up_to schema0 d -> (d_versions (y_db s) `prefix_of` d_versions d) -> pc_seen d q -> pc_alone d q ->
  (critical q) -> inv (with_db d (goto s i q)).
Proof.
  intros Hs Hp Hcp Li Hd Hpre Hseen Halone Hq.
  split; [done| | |]; intros j r [[-> ->]|[Hne Hj]]%at_goto; cbn; try done.
  - intros _ _. by apply (i_lock s Hs i p).
  - intros Hr Lj. by apply (i_lock s Hs j r).
  - apply (seen_later (y_db s)); [done|done|]. by apply (i_seen s Hs j).
  - intros Lj. assert (critical r -> False) as Hnc.
    { intros Hr. destruct Hne. by apply (other_critical s i p j r). }
    destruct r as [| | | | |? ?|[]|[]]; cbn in *; try done; by destruct (Hnc I).
Qed.

Lemma with_lock_id s : with_lock (y_lock s) s = s.
Proof. by destruct s. Qed.

Lemma inv_move s i p q : inv s -> at_pc s i p -> (critical q -> critical p) -> pc_seen (y_db s) q ->
  (live s i -> pc_alone (y_db s) q) -> inv (goto s i q).
Proof.
  intros Hs Hp Hc Hseen Halone. rewrite <- (with_lock_id (goto s i q)).
  apply (inv_goto s i p); try done. intros Hq. by apply (i_lock s Hs i p Hp), Hc.
Qed.

Lemma released_other i j l : l = Some j -> j <> i -> released i l = l.
Proof. intros -> Hne. unfold released. rewrite bool_decide_eq_false_2; [done|]. congruence. Qed.

Lemma inv_lose s i : inv s -> inv (lose i s).
Proof.
  intros Hs. split; [apply (i_db s Hs)| |apply (i_seen s Hs)|].
  - intros j q Hj Hq [Hne Lj]%live_lose. cbn. rewrite (released_other i j); [|by apply (i_lock s Hs j q)|done].
    by apply (i_lock s Hs j q).
  - intros j q Hj [_ Lj]%live_lose. by apply (i_alone s Hs j).
Qed.

(** A name that is applied lies among the first ones. *)
Lemma applied_index d applied pre name names : applied_up_to schema0 d ->
  sortedMigrations src = pre ++ name :: names -> applied `prefix_of` d_versions d ->
  name ∈ applied <-> (List.length pre < List.length applied)%nat.
Proof.
  intros [Hd _] E Ha. assert (applied `prefix_of` sortedMigrations src) as [more Ea] by by etrans.
  assert (sortedMigrations src !! List.length pre = Some name) as H2 by (rewrite E; by apply list_lookup_middle).
  split; intros Hin.
  - apply list_elem_of_lookup_1 in Hin as [i Hi]. pose proof (lookup_lt_Some _ _ _ Hi) as Hb.
    assert (sortedMigrations src !! i = Some name) as H1 by by rewrite Ea, lookup_app_l.
    by rewrite (NoDup_lookup _ _ _ _ Hnames H2 H1).
  - apply (list_elem_of_lookup_2 _ (List.length pre)). by rewrite Ea, lookup_app_l in H2.
Qed.

(** Skipping a name that was read as applied. *)
Lemma seen_skip d applied name names : applied_up_to schema0 d ->
  pc_seen d (Loop applied (name :: names)) -> name ∈ applied -> pc_seen d (Loop applied names).
Proof.
  intros Hd (pre & E & Ha & Hp) Hin. apply (applied_index d applied pre name names Hd E Ha) in Hin.
  exists (pre ++ [name]). split; [by rewrite E, <- app_assoc|]. split; [done|].
  etrans; [|exact Ha]. destruct Hd as [Hd _].
  apply (prefix_shorter _ _ (sortedMigrations src)); [exists names; by rewrite E, <- app_assoc|by etrans|].
  rewrite length_app. cbn [List.length]. lia.
Qed.

Lemma alone_skip d applied name names : applied_up_to schema0 d -> pc_seen d (Loop applied (name :: names)) ->
  pc_alone d (Loop applied (name :: names)) -> name ∈ applied -> pc_alone d (Loop applied names).
Proof.
  intros Hd (pre & E & Ha & Hp) (pre' & E' & Ev) Hin.
  assert (pre' = pre) as -> by (rewrite E in E'; by apply app_inv_tail in E').
  apply (applied_index d applied pre name names Hd E Ha) in Hin.
  rewrite (proj2 (Nat.ltb_lt _ _) Hin) in Ev. exists (pre ++ [name]).
  split; [by rewrite E, <- app_assoc|]. rewrite length_app. cbn [List.length].
  destruct (Nat.ltb_spec (List.length pre + 1) (List.length applied)) as [|Hge]; [done|].
  rewrite Ev. apply (anti_symm prefix).
  - apply (prefix_shorter _ _ (sortedMigrations src)).
    + rewrite <- Ev. apply Hd.
    + exists names. by rewrite E, <- app_assoc.
    + rewrite length_app. cbn [List.length]. lia.
  - apply (prefix_shorter _ _ (sortedMigrations src)).
    + exists names. by rewrite E, <- app_assoc.
    + rewrite <- Ev. apply Hd.
    + rewrite length_app. cbn [List.length]. lia.
Qed.

(** The names still to visit, when the next one is not applied and the lock is held. *)
Lemma loop_at d applied name names : applied_up_to schema0 d -> pc_seen d (Loop applied (name :: names)) ->
  pc_alone d (Loop applied (name :: names)) -> name ∉ applied ->
  sortedMigrations src = d_versions d ++ name :: names.
Proof.
  intros Hd (pre & E & Ha & Hp) (pre' & E' & Ev) Hn.
  assert (pre' = pre) as -> by (rewrite E in E'; by apply app_inv_tail in E').
  rewrite Ev. destruct (Nat.ltb_spec (List.length pre) (List.length applied)) as [Hlt|]; [|done].
  destruct Hn. by apply (applied_index d applied pre name names).
Qed.

(** Applying the next name. *)
Lemma loop_next d d' applied name names :
  sortedMigrations src = d_versions d ++ name :: names -> applied `prefix_of` d_versions d ->
  d_versions d' = d_versions d ++ [name] -> pc_seen d' (Loop applied names) /\ pc_alone d' (Loop applied names).
Proof.
  intros E Ha E'. split; exists (d_versions d ++ [name]); rewrite E'.
  - split; [by rewrite E, <- app_assoc|]. split; [|done]. etrans; [exact Ha|]. by exists [name].
  - split; [by rewrite E, <- app_assoc|].
    destruct (Nat.ltb_spec (List.length (d_versions d ++ [name])) (List.length applied)) as [Hlt|]; [|done].
    apply prefix_length in Ha. rewrite length_app in Hlt. cbn in Hlt. lia.
Qed.

Lemma seen_done d applied : applied_up_to schema0 d -> pc_seen d (Loop applied []) ->
  d_versions d = sortedMigrations src.
Proof. intros [Hd _] (pre & E & _ & Hp). rewrite app_nil_r in E. rewrite <- E in Hp. by apply (anti_symm prefix). Qed.

Lemma applying_step s i applied name names t d r : inv s ->
  at_pc s i (Loop applied (name :: names)) -> name ∉ applied -> live s i ->
  apply_one src (y_db s) name t = (d, r) ->
  inv (with_db d (goto s i match r with Ok _ => Loop applied names | Err m => Unlocking (Err m) end)) /\
  (d = y_db s \/ d_versions d = d_versions (y_db s) ++ [name]).
Proof.
  intros Hs Hp Hn Li Ha. pose proof (i_seen s Hs i _ Hp) as Hseen.
  pose proof (loop_at _ _ _ _ (i_db s Hs) Hseen (i_alone s Hs i _ Hp Li) Hn) as E.
  destruct (apply_one_next _ name names t d r (i_db s Hs) E Ha) as (H1 & H2 & H3). split; [|done].
  assert (d_versions (y_db s) `prefix_of` d_versions d) as Hpre.
  { destruct H2 as [->| ->]; [done|by exists [name]]. }
  destruct Hseen as (pre & _ & Happ & _).
  apply (inv_apply s i (Loop applied (name :: names))); try done; destruct r as [[]|m]; try done;
    apply (loop_next (y_db s) d applied name names E Happ), H3; done.
Qed.

Lemma migrating_step s s' : inv s -> step s s' -> inv s'.
Proof.
  intros Hs Hst.
  destruct Hst as [s i Hp|s i Hp Li Hl|s i Hp Li|s i Hp Li|s i a Hp|s i a n ns Hp Hn|s i a n ns t d Hp Hn Li Ha
    |s i a n ns t d m Hp Hn Li Ha|s i a Hp|s i p m Hp Hc|s i p m Hp Hc|s i r Hp Li|s i r Hp|s i p Hp Hc Li
    |s i p m Hp Hf|s i p Hl Hp Hf].
  - by apply (inv_move s i Starting).
  - apply (inv_goto s i Blocked); try done. intros j r Hne Hj Hr Lj.
    by rewrite (i_lock s Hs j r Hj Hr Lj) in Hl.
  - by apply (inv_move s i Creating).
  - apply (inv_move s i Reading); try done. cbn. reflexivity.
  - pose proof (i_seen s Hs i _ Hp) as Hseen. apply (inv_move s i (Listing a)); try done.
    + exists []. split; [done|]. split; [exact Hseen|]. apply prefix_nil.
    + intros Li. exists []. split; [done|]. rewrite <- (i_alone s Hs i _ Hp Li). by destruct a.
  - pose proof (i_seen s Hs i _ Hp) as Hseen. apply (inv_move s i (Loop a (n :: ns))); try done.
    + apply (seen_skip _ a n ns); [apply (i_db s Hs)|done|done].
    + intros Li. apply (alone_skip _ a n ns); [apply (i_db s Hs)|done|by apply (i_alone s Hs i)|done].
  - apply (applying_step s i a n ns t d (Ok tt) Hs Hp Hn Li Ha).
  - destruct Li as [Li|[m' ->]]; [apply (applying_step s i a n ns t d (Err m) Hs Hp Hn Li Ha)|].
    assert (d = y_db s) as -> by (unfold apply_one in Ha; destruct (ReadFile src n); by injection Ha).
    change (with_db (y_db s) ?x) with x. by apply (inv_move s i (Loop a (n :: ns))).
  - apply (inv_move s i (Loop a [])); try done. cbn.
    apply (seen_done _ a (i_db s Hs)). by apply (i_seen s Hs i).
  - by apply (inv_move s i p).
  - apply (inv_move s i p); [done|done| |done|done]. intros _. by destruct Hc as [->|[->|[a ->]]].
  - apply (inv_goto s i (Unlocking r)); try done; [by apply (i_seen s Hs i _ Hp)|].
    intros j q Hne Hj Hq Lj. destruct Hne. by apply (other_critical s i (Unlocking r) j q).
  - apply (inv_move s i (Unlocking r)); try done. apply (i_seen s Hs i _ Hp).
  - by apply inv_lose.
  - apply (inv_goto s i p); try done. intros j q Hne Hj Hq Lj.
    apply (released_other i j); [by apply (i_lock s Hs j q)|done].
  - split; [apply (i_db s Hs)| |apply (i_seen s Hs)|apply (i_alone s Hs)].
    intros j q Hj Hq Lj. pose proof (i_lock s Hs j q Hj Hq Lj) as Hl'. rewrite Hl in Hl'. injection Hl' as ->.
    unfold at_pc in *. cbn in Hj. rewrite Hp in Hj. injection Hj as ->. by destruct q.
Qed.

Lemma migrating_begin d n : applied_up_to schema0 d -> inv (begin d n).
Proof.
  intros Hd. assert (forall i p, at_pc (begin d n) i p -> p = Starting) as Hp.
  { intros i p. unfold at_pc. cbn. by intros [-> _]%lookup_replicate_1. }
  split; [done| | |]; by intros i p ->%Hp.
Qed.

Lemma migrating_steps s s' : rtc step s s' -> inv s -> inv s'.
Proof. induction 1; eauto using migrating_step. Qed.

(** The tables change only by the hand of the instance that holds the lock, one file at a time. *)
Lemma step_tables s s' : inv s -> step s s' -> y_db s' = y_db s \/
  exists i name, y_lock s = Some i /\ live s i /\ d_versions (y_db s') = d_versions (y_db s) ++ [name].
Proof.
  intros Hs Hst.
  destruct Hst as [| | | | | |s i a n ns t d Hp Hn Li Ha|s i a n ns t d m Hp Hn Li Ha| | | | | | | |]; try by left.
  - destruct (applying_step s i a n ns t d (Ok tt) Hs Hp Hn Li Ha) as [_ [?|Hv]]; [by left|right].
    exists i, n. split; [by apply (i_lock s Hs i _ Hp)|by split].
  - destruct Li as [Li|[m' ->]].
    + destruct (applying_step s i a n ns t d (Err m) Hs Hp Hn Li Ha) as [_ [?|Hv]]; [by left|right].
      exists i, n. split; [by apply (i_lock s Hs i _ Hp)|by split].
    + left. unfold apply_one in Ha. destruct (ReadFile src n); by injection Ha.
Qed.

(** *** One run *)

Lemma apply_all_skip at_ applied d pre names : (forall n, n ∈ pre -> n ∈ applied) ->
  apply_all at_ src applied d (pre ++ names) = apply_all at_ src applied d names.
Proof.
  induction pre as [|n pre IH]; intros Hp; [done|]. cbn [app apply_all].
  rewrite bool_decide_eq_true_2 by (apply Hp; left). apply IH. intros m Hm. apply Hp. by right.
Qed.

Lemma replay_app schema a b : replay schema (a ++ b) = replay schema a ≫= fun s => replay s b.
Proof.
  revert schema. induction a as [|n a IH]; intros schema; [done|]. cbn [app replay].
  destruct (ReadFile src n); [|done]. cbn [mbind option_bind]. destruct (exec schema _); [apply IH|done].
Qed.

(** A migration that is not applied succeeds when its SQL does. *)
Lemma apply_one_fine d name : name ∉ d_versions d ->
  match replay (d_schema d) [name] with
  | Some schema => apply_one src d name Fine = (Db schema (d_versions d ++ [name]), Ok tt)
  | None => exists m, apply_one src d name Fine = (d, Err m)
  end.
Proof.
  intros Hn. unfold apply_one. cbn [replay]. destruct (ReadFile src name) as [body|]; [|by eexists].
  cbn [mbind option_bind]. destruct (exec (d_schema d) body); [|by eexists].
  by rewrite bool_decide_eq_false_2.
Qed.

(** Trouble around a migration is reported. *)
Lemma apply_one_trouble d name t d' r : apply_one src d name t = (d', r) -> t = Fine \/ exists m, r = Err m.
Proof.
  unfold apply_one. destruct (ReadFile src name) as [body|]; [|intros [= _ <-]; right; by eexists].
  destruct t as [|m|m|m|ap m]; [by left|..]; try (intros [= _ <-]; right; by eexists);
    (destruct (exec _ _); [|intros [= _ <-]; right; by eexists]);
    destruct (bool_decide _); intros [= _ <-]; right; by eexists.
Qed.

(** The rest of the loop. *)
Lemma apply_all_rest at_ applied names d :
  applied_up_to schema0 d -> sortedMigrations src = d_versions d ++ names ->
  applied `prefix_of` d_versions d ->
  exists d' r, apply_all at_ src applied d names = (d', r) /\ applied_up_to schema0 d' /\
    d_versions d `prefix_of` d_versions d' /\
    (r = Ok tt <-> (forall n, n ∈ names -> at_ n = Fine) /\ is_Some (replay (d_schema d) names)) /\
    (r = Ok tt -> d_versions d' = sortedMigrations src).
Proof.
  revert d. induction names as [|n names IH]; intros d Hd Es Ha; cbn [apply_all].
  - exists d, (Ok tt). rewrite app_nil_r in Es. split; [done|]. split; [done|]. split; [done|].
    split; [|done]. split; [|done]. intros _. split; [by intros n ?%elem_of_nil|by eexists].
  - assert (n ∉ d_versions d) as Hn.
    { pose proof Hnames as Hnd. rewrite Es in Hnd. apply list.NoDup_app in Hnd as (_ & Hx & _).
      intros Hin. apply (Hx n Hin). left. }
    rewrite bool_decide_eq_false_2 by (intros Hx; apply Hn; destruct Ha as [k ->]; apply elem_of_app; by left).
    destruct (apply_one src d n (at_ n)) as [d1 r1] eqn:Eone.
    destruct (apply_one_next d n names (at_ n) d1 r1 Hd Es Eone) as (H1 & H2 & H3).
    assert (d_versions d `prefix_of` d_versions d1) as Hpre by (destruct H2 as [->| ->]; [done|by exists [n]]).
    destruct (apply_one_trouble _ _ _ _ _ Eone) as [Hf|[m ->]].
    2: { exists d1, (Err m). split; [done|]. split; [done|]. split; [done|]. split; [|done].
         split; [done|]. intros [Hq Hsome]. exfalso. rewrite (Hq n) in Eone by left.
         pose proof (apply_one_fine d n Hn) as Hone. change (n :: names) with ([n] ++ names) in Hsome.
         rewrite replay_app in Hsome. destruct (replay (d_schema d) [n]); [congruence|].
         cbn [mbind option_bind] in Hsome. by destruct Hsome. }
    rewrite Hf in Eone. pose proof (apply_one_fine d n Hn) as Hone. change (n :: names) with ([n] ++ names).
    rewrite replay_app. destruct (replay (d_schema d) [n]) as [schema|] eqn:Er.
    + rewrite Eone in Hone. injection Hone as -> ->. specialize (H3 eq_refl).
      destruct (IH (Db schema (d_versions d ++ [n])) H1) as (d' & r & E & G2 & G3 & G4 & G5).
      * by rewrite H3, <- app_assoc.
      * rewrite H3. etrans; [exact Ha|]. by exists [n].
      * exists d', r. rewrite E. split; [done|]. split; [done|]. split; [by etrans|].
        split; [|done]. rewrite G4. cbn [mbind option_bind d_schema]. split; intros [Hq Hsome]; (split; [|done]).
        -- intros x [->|Hx]%elem_of_cons; [done|by apply Hq].
        -- intros x Hx. apply Hq. by right.
    + destruct Hone as [m Hone]. rewrite Eone in Hone. injection Hone as -> ->.
      exists d, (Err m). split; [done|]. split; [done|]. split; [done|].
      split; [|done]. split; [done|]. cbn [mbind option_bind]. by intros [_ [? ?]].
Qed.

(** A run of [Apply]. *)
Lemma Apply_run f d d' r : applied_up_to schema0 d -> Apply f src d = (d', r) ->
  applied_up_to schema0 d' /\ d_versions d `prefix_of` d_versions d' /\
  (r = Ok tt <-> quiet f src d /\ is_Some (replay schema0 (sortedMigrations src))) /\
  (r = Ok tt -> d_versions d' = sortedMigrations src).
Proof.
  intros Hd Ha. pose proof Hd as [[rest Es] Hr].
  assert (forall m, (d, Err m) = (d', r) -> ~ quiet f src d ->
    applied_up_to schema0 d' /\ d_versions d `prefix_of` d_versions d' /\
    (r = Ok tt <-> quiet f src d /\ is_Some (replay schema0 (sortedMigrations src))) /\
    (r = Ok tt -> d_versions d' = sortedMigrations src)) as Hearly.
  { intros m [= <- <-] Hq. split; [done|]. split; [done|]. split; [|done]. split; [done|by intros [? _]]. }
  unfold Apply, attempt in Ha. unfold quiet in Hearly |- *.
  destruct (at_acquire f); [apply (Hearly _ Ha); by intros (? & _)|].
  destruct (at_lock f); [apply (Hearly _ Ha); by intros (_ & ? & _)|].
  destruct (at_create f); [apply (Hearly _ Ha); by intros (_ & _ & ? & _)|].
  destruct (at_read f); [apply (Hearly _ Ha); by intros (_ & _ & _ & ? & _)|].
  destruct (at_list f); [apply (Hearly _ Ha); by intros (_ & _ & _ & _ & ? & _)|].
  cbn [mbind result_bind] in Ha. rewrite Es, apply_all_skip in Ha by done.
  destruct (apply_all_rest (at_migration f) (d_versions d) rest d Hd Es) as (d1 & r1 & E & H1 & H2 & H3 & H4); [done|].
  rewrite E in Ha. injection Ha as -> ->. split; [done|]. split; [done|]. split; [|done].
  rewrite H3, Es, replay_app, Hr. split; intros [Hq Hsome]; (split; [|exact Hsome]).
  - repeat (split; [done|]). intros n [Hn|Hn]%elem_of_app Hn'; [done|by apply Hq].
  - intros n Hn. apply Hq; [apply elem_of_app; by right|]. pose proof Hnames as Hnd. rewrite Es in Hnd.
    apply list.NoDup_app in Hnd as (_ & Hx & _). intros Hin. by apply (Hx n Hin).
Qed.

(** *** How long a start can take *)

Definition weight (p : pc) : nat :=
  let n := List.length (sortedMigrations src) in
  match p with
  | Starting => n + 9
  | Blocked => n + 8
  | Creating => n + 6
  | Reading => n + 5
  | Listing _ => n + 4
  | Loop _ names => List.length names + 3
  | Unlocking _ => 2
  | Done _ => 0
  end.

Definition held (l : option nat) : nat := match l with Some _ => 1 | None => 0 end.

Definition alive (b : bool) : nat := if b then 1 else 0.

Definition work (s : system) : nat :=
  sum_list_with weight (y_procs s) + held (y_lock s) + sum_list_with alive (y_live s).

Lemma sum_insert {A} (f : A -> nat) l i p q : l !! i = Some p ->
  (sum_list_with f (<[i := q]> l) + f p = sum_list_with f l + f q)%nat.
Proof.
  revert i. induction l as [|x l IH]; intros [|i] Hi; simpl in *; try done.
  - injection Hi as ->. lia.
  - specialize (IH i Hi). lia.
Qed.

Lemma work_goto s i p q l : at_pc s i p ->
  (weight q + held l < weight p + held (y_lock s))%nat ->
  (work (with_lock l (goto s i q)) < work s)%nat.
Proof. intros Hp Hw. unfold work. cbn. pose proof (sum_insert weight _ i p q Hp). destruct l, (y_lock s); lia. Qed.

Lemma work_move s d i p q : at_pc s i p -> (weight q < weight p)%nat -> (work (with_db d (goto s i q)) < work s)%nat.
Proof. intros Hp Hw. unfold work. cbn. pose proof (sum_insert weight _ i p q Hp). destruct (y_lock s); lia. Qed.

Lemma work_plain s i p q : at_pc s i p -> (weight q < weight p)%nat -> (work (goto s i q) < work s)%nat.
Proof. exact (work_move s (y_db s) i p q). Qed.

Lemma held_released i l : (held (released i l) <= held l)%nat.
Proof. unfold released. destruct (bool_decide _); [apply Nat.le_0_l|done]. Qed.

Lemma step_work s s' : step s s' -> (work s' < work s)%nat.
Proof.
  intros Hst.
  destruct Hst as [s i Hp|s i Hp Li Hl|s i Hp Li|s i Hp Li|s i a Hp|s i a n ns Hp Hn|s i a n ns t d Hp Hn Li Ha
    |s i a n ns t d m Hp Hn Li Ha|s i a Hp|s i p m Hp Hc|s i p m Hp Hc|s i r Hp Li|s i r Hp|s i p Hp Hc Li
    |s i p m Hp Hf|s i p Hl Hp Hf];
    try (eapply work_plain; [exact Hp|cbn; lia]); try (eapply work_move; [exact Hp|cbn; lia]).
  - eapply work_goto; [exact Hp|]. rewrite Hl. cbn. lia.
  - eapply work_plain; [exact Hp|]. destruct Hc as [->| ->]; cbn; lia.
  - eapply work_plain; [exact Hp|]. destruct Hc as [->|[->|[a ->]]]; cbn; lia.
  - eapply work_goto; [exact Hp|]. destruct (y_lock s); cbn; lia.
  - unfold work, lose. cbn. pose proof (held_released i (y_lock s)).
    pose proof (sum_insert alive (y_live s) i true false Li). cbn in *. lia.
  - eapply work_goto; [exact Hp|]. assert (1 < weight p)%nat by (destruct p; cbn in *; lia || done).
    pose proof (held_released i (y_lock s)). cbn. lia.
  - unfold work. rewrite Hl. cbn. lia.
Qed.
End Apply.

(** ** Properties *)

(** C16: Migrations are applied once each, in order, whatever instances do.  Any number of
    instances start together and are interleaved in any way; files fail, connections are lost
    before, during or after a commit, sessions end (and the server frees their lock) wherever an
    instance is, instances crash and locks stay behind.  At every moment the schema is the one that
    running the recorded files once each, in the order of their names, gives; the recorded files
    are the first ones of the directory; two instances whose sessions are alive are never both past
    the lock; the tables change only by the hand of the instance that holds the lock, by the next
    file; and an instance that reports success, its session lost on the way or not, leaves nothing
    unapplied. *)
Theorem migrations_in_order {S} (exec : S -> string -> result S) src schema0 d n s :
  NoDup (sortedMigrations src) -> applied_up_to exec src schema0 d ->
  rtc (step exec src) (begin d n) s ->
  applied_up_to exec src schema0 (y_db s) /\
  (forall i j p q, at_pc s i p -> at_pc s j q -> critical p -> critical q -> live s i -> live s j -> i = j) /\
  (forall s', step exec src s s' -> y_db s' = y_db s \/
     exists i name, y_lock s = Some i /\ live s i /\ d_versions (y_db s') = d_versions (y_db s) ++ [name]) /\
  (forall i, at_pc s i (Done (Ok tt)) -> d_versions (y_db s) = sortedMigrations src).
Proof.
  intros Hnd Hd Hs.
  assert (inv exec src schema0 s) as Hi
    by (apply (migrating_steps exec src schema0 Hnd _ s Hs); by apply (migrating_begin exec src schema0)).
  split; [apply (i_db _ _ _ _ Hi)|]. split; [|split].
  - intros i j p q H1 H2 H3 H4 H5 H6. by eapply (other_critical exec src schema0 s j q i p).
  - intros s' Hst. by apply (step_tables exec src schema0 Hnd s s').
  - intros i H1. apply (i_seen _ _ _ _ Hi i _ H1).
Qed.

(** C40: Starting always ends.  From any situation, however the instances are interleaved and
    whatever fails, only finitely many steps can follow: no instance retries or loops. *)
Theorem migrations_terminate {S} (exec : S -> string -> result S) src s :
  Acc (fun s' s => step exec src s s') s.
Proof.
  assert (forall n s, (work src s < n)%nat -> Acc (fun s' s => step exec src s s') s) as Hn; [|apply (Hn (Datatypes.S (work src s)) s); lia].
  intros n. induction n as [|n IH]; intros s' Hw; [lia|]. constructor. intros t Ht.
  apply IH. pose proof (step_work exec src s' t Ht). lia.
Qed.

(** One run.  From a database to which the first files have been applied, [Apply] applies the
    others in order; it succeeds exactly when nothing goes wrong around it and the SQL of every one
    of them succeeds, and keeps the ones before a failure; and after a success, running it again
    undisturbed changes nothing. *)
Theorem migrate_run {S} (exec : S -> string -> result S) src schema0 f d d' r :
  NoDup (sortedMigrations src) -> applied_up_to exec src schema0 d -> Apply exec f src d = (d', r) ->
  applied_up_to exec src schema0 d' /\ d_versions d `prefix_of` d_versions d' /\
  (r = Ok tt <-> quiet f src d /\ is_Some (replay exec src schema0 (sortedMigrations src))) /\
  (r = Ok tt -> d_versions d' = sortedMigrations src /\ Apply exec no_faults src d' = (d', Ok tt)).
Proof.
  intros Hnd Hd Ha. destruct (Apply_run exec src schema0 Hnd f d d' r Hd Ha) as (H1 & H2 & H3 & H4).
  split; [done|]. split; [done|]. split; [done|]. intros ->. specialize (H4 eq_refl). split; [done|].
  unfold Apply. cbn [attempt no_faults at_acquire at_lock at_create at_read at_list mbind result_bind at_migration].
  rewrite H4.
  pose proof (apply_all_skip exec src (fun _ => Fine) (sortedMigrations src) d' (sortedMigrations src) []
    (fun n Hn => Hn)) as E. by rewrite app_nil_r in E.
Qed.

(** ** A run *)

Definition sample_src : list file :=
  [File "README.md" false EmptyString; File "002_rules.sql" false "b"; File "001_audit.sql" false "a";
   File "old.sql" true EmptyString; File "010_more.sql" false "c"].

Definition sample_exec (s : string) (body : string) : result string :=
  if String.eqb body "c" then Err "syntax error" else Ok (s +:+ body).

Example sample_sorted : sortedMigrations sample_src = ["001_audit.sql"; "002_rules.sql"; "010_more.sql"].
Proof. vm_compute. reflexivity. Qed.

Lemma sample_nodup : NoDup (sortedMigrations sample_src).
Proof.
  assert (sortedMigrations sample_src = ["001_audit.sql"; "002_rules.sql"; "010_more.sql"]) as -> by (vm_compute; reflexivity).
  repeat (apply list.NoDup_cons; split;
    [rewrite ?elem_of_cons, ?elem_of_nil; intuition congruence|]). apply NoDup_nil_2.
Defined.

Lemma sample_empty : applied_up_to sample_exec sample_src EmptyString (Db EmptyString []).
Proof. split; [apply prefix_nil|reflexivity]. Defined.

Lemma migrate_run_witness :
  applied_up_to sample_exec sample_src EmptyString (Db "ab" ["001_audit.sql"; "002_rules.sql"]).
Proof.
  apply (migrate_run sample_exec sample_src EmptyString no_faults (Db EmptyString []) _
    (Err "migrate: apply 010_more.sql: syntax error") sample_nodup sample_empty).
  vm_compute. reflexivity.
Defined.

(** Two instances on two files: the first applies one, loses its session and fails at the next;
    the second, waiting for the lock, takes over. *)
Definition pair_src : list file := List.firstn 3 sample_src.

Lemma pair_sorted : sortedMigrations pair_src = ["001_audit.sql"; "002_rules.sql"].
Proof. vm_compute. reflexivity. Qed.

Lemma pair_nodup : NoDup (sortedMigrations pair_src).
Proof.
  rewrite pair_sorted. repeat (apply list.NoDup_cons; split;
    [rewrite ?elem_of_cons, ?elem_of_nil; intuition congruence|]). apply NoDup_nil_2.
Qed.

Definition pair_at (d : db (S := string)) (l : option nat) (p q : pc) (live0 : bool) : system :=
  Sys d l [p; q] [live0; true].

Definition pair_d0 : db := Db EmptyString [].
Definition pair_d1 : db := Db "a" ["001_audit.sql"].
Definition pair_d2 : db := Db "ab" ["001_audit.sql"; "002_rules.sql"].
Definition pair_end : system :=
  pair_at pair_d2 None (Done (Err "migrate: begin 002_rules.sql: conn closed")) (Done (Ok tt)) false.

(** One step, with the state it leads to evaluated. *)
Ltac take_step rule :=
  match goal with |- rtc _ ?s _ =>
    eapply (rtc_l _ s); [rule s|match goal with |- rtc _ ?t _ => let t' := eval vm_compute in t in change t with t' end]
  end.

Lemma pair_first : rtc (step sample_exec pair_src) (begin pair_d0 2)
  (pair_at pair_d1 None (Loop [] ["002_rules.sql"]) Blocked false).
Proof.
  take_step ltac:(fun s => by apply (step_acquire _ _ s 0)).
  take_step ltac:(fun s => by apply (step_acquire _ _ s 1)).
  take_step ltac:(fun s => by apply (step_lock _ _ s 0)).
  take_step ltac:(fun s => by apply (step_create _ _ s 0)).
  take_step ltac:(fun s => by apply (step_applied _ _ s 0)).
  take_step ltac:(fun s => by apply (step_list _ _ s 0 [])).
  take_step ltac:(fun s => apply (step_apply _ _ s 0 [] "001_audit.sql" ["002_rules.sql"] Fine pair_d1);
    [done|apply not_elem_of_nil|done|by vm_compute]).
  take_step ltac:(fun s => apply (step_lose _ _ s 0 (Loop [] ["002_rules.sql"])); [done|by right|done]).
  apply rtc_refl.
Qed.

Lemma pair_second : rtc (step sample_exec pair_src)
  (pair_at pair_d1 None (Loop [] ["002_rules.sql"]) Blocked false) pair_end.
Proof.
  take_step ltac:(fun s => by apply (step_lock _ _ s 1)).
  take_step ltac:(fun s => by apply (step_create _ _ s 1)).
  take_step ltac:(fun s => by apply (step_applied _ _ s 1)).
  take_step ltac:(fun s => by apply (step_list _ _ s 1 ["001_audit.sql"])).
  take_step ltac:(fun s => apply (step_skip _ _ s 1 ["001_audit.sql"] "001_audit.sql" ["002_rules.sql"]); [done|left]).
  take_step ltac:(fun s => apply (step_apply _ _ s 1 ["001_audit.sql"] "002_rules.sql" [] Fine pair_d2);
    [done|rewrite elem_of_cons, elem_of_nil; intuition congruence|done|by vm_compute]).
  take_step ltac:(fun s => apply (step_apply_error _ _ s 0 [] "002_rules.sql" [] (AtBegin "conn closed") pair_d2
    "migrate: begin 002_rules.sql: conn closed"); [done|apply not_elem_of_nil|right; by eexists|by vm_compute]).
  take_step ltac:(fun s => by eapply (step_unlock_fails _ _ s 0)).
  take_step ltac:(fun s => by eapply (step_end _ _ s 1)).
  take_step ltac:(fun s => by eapply (step_unlock _ _ s 1)).
  apply rtc_refl.
Qed.

Lemma pair_run : rtc (step sample_exec pair_src) (begin pair_d0 2) pair_end.
Proof. etrans; [exact pair_first|exact pair_second]. Qed.

Lemma migrations_in_order_witness :
  applied_up_to sample_exec pair_src EmptyString (y_db pair_end) /\
  d_versions (y_db pair_end) = sortedMigrations pair_src.
Proof.
  destruct (migrations_in_order sample_exec pair_src EmptyString pair_d0 2 pair_end pair_nodup
    (conj (prefix_nil _) eq_refl) pair_run) as (H1 & _ & _ & H4).
  split; [exact H1|exact (H4 1%nat eq_refl)].
Defined.
