(* ===== verification/DashApi.v ===== *)
(** * The dashboard's HTTP interface

    [dashboard/api/internal/httpapi/httpapi.go], [auditclient.go] and the middleware and static
    files of [support.go]: routing, sessions in front of the handlers, and the handlers, each of
    which answers and may post to the engine's audit endpoint, change the configuration store and
    notify the engine.  What a handler did is the list of those calls, in order.  The engine, Redis
    and the audit log are functions of the environment of a request.

    Left out: requests with the method CONNECT, which carry no path. *)

From S2P Require Import Prelude Utf8 GoText GoMux GoTime GoParse GoJson GoJsonRound GoStruct Netip Canonical Model AuditChain AuditRepo EngineApi RuleStore Auth Support Events.

(** ** Requests, the environment, answers *)

(** The path as it is escaped in the request line, the first X-Forwarded-For line, and the first
    cookie called [CookieName]. *)
Record request := Req {
  q_Method : string; q_Path : string; q_RawQuery : string; q_RemoteAddr : string;
  q_Forwarded : string; q_Cookie : option string; q_Body : string
}.

(** The server's dependencies, as they behave while one request is served.  [v_post] sends a body
    to the engine's audit endpoint; [v_status] is the body of its status; [v_send] publishes;
    [v_file] looks a name up in the embedded files. *)
Record env := Env {
  v_now : Z; v_version : string; v_sessions : Manager; v_trusted : trustedProxies;
  v_channel : string; v_clients : Z;
  v_post : string -> result (Z * string);
  v_status : result string;
  v_send : string -> string -> option string;
  v_list : Filter -> result (list AuditEntry);
  v_count : Filter -> result Z;
  v_stats : Z -> result Stats;
  v_verify : Z -> Z -> result VerifyResult;
  v_file : string -> option string
}.

Record response := Resp { p_Status : Z; p_Body : string; p_Cookie : option Cookie }.

(** Besides a response: a redirect of the router, a static file, the live feed, and a panic, which
    drops the connection. *)
Inductive outcome :=
| Answer (r : response)
| Redirected (path : string)
| StaticFile (name : string) (immutable : bool)
| Index (body : string)
| LiveFeed
| Panicked.

Section Dashboard.
Context `{CidrType} `{UnicodePrint} `{Bcrypt}.

(** What a handler did. *)
Inductive event :=
| Posted (body : string) (answer : result (Z * string))
| Stored (c : change)
| Notified (kind : string).

(** The state requests share. *)
Record dash := Dash { d_store : store; d_logins : loginLimiter }.

Definition with_store (d : dash) (s : store) : dash := Dash s (d_logins d).
Definition with_logins (d : dash) (l : loginLimiter) : dash := Dash (d_store d) l.

(** ** Writing responses *)

(** [writeJSON], with the encoded body; nothing is written when encoding fails. *)
Definition reply (status : Z) (body : option string) : response :=
  Resp status (match body with Some s => s +:+ byte_str 10 | None => EmptyString end) None.

Definition writeJSON (status : Z) (v : gval) : response := reply status (marshal v).

Definition apiError (m : string) : gval := VStringMap [("error", m)].

(** [Server.fail] *)
Definition fail_ (action : string) : response := writeJSON 500 (apiError (action +:+ " failed")).

Definition refuseUnaudited (m : string) : response :=
  writeJSON 503 (apiError ("the change was not applied because it could not be recorded in the audit log: " +:+ m)).

Definition opt_string (name value : string) : list (string * string) := omitempty name value.
Definition opt_int (name : string) (z : Z) : list (string * string) := if z =? 0 then [] else [(name, itoa z)].

Definition rule_json (r : RuleConfig) : option string :=
  time ← time_json (UpdatedAt r);
  config ← marshal (VObject (rc_Config r));
  Some (enc_struct
    ([("name", json_quote true (rc_Name r)); ("enabled", bool_str (rc_Enabled r))]
     ++ match rc_Config r with [] => [] | _ => [("config", config)] end
     ++ [("updated_at", time)] ++ opt_string "updated_by" (UpdatedBy r))).

Definition ip_json (r : IPRule) : option string :=
  time ← time_json (CreatedAt r);
  Some (enc_struct
    ([("cidr", json_quote true (CIDR r)); ("action", json_quote true (Action r))]
     ++ opt_string "note" (Note r) ++ [("created_at", time)] ++ opt_string "created_by" (CreatedBy r))).

Definition verify_json (r : VerifyResult) : string :=
  enc_struct
    ([("ok", bool_str (v_OK r)); ("checked", itoa (v_Checked r))]
     ++ opt_string "from" (v_From r) ++ opt_string "to" (v_To r) ++ opt_string "broken_at" (v_BrokenAt r)
     ++ opt_int "position" (v_Position r) ++ opt_string "timestamp" (v_Timestamp r)
     ++ opt_string "detail" (v_Detail r)).

(** A slice; a nil one is [null]. *)
Definition slice_json {A} (f : A -> option string) (l : list A) : option string := enc_array <$> mapM f l.
Definition nil_slice_json {A} (f : A -> option string) (l : list A) : option string :=
  match l with [] => Some "null" | _ => slice_json f l end.

Definition counted_json (c : CountedBy) : option string :=
  Some (enc_struct [("label", json_quote true (Label c)); ("count", itoa (Count c))]).

Definition bucket_json (b : Bucket) : option string :=
  start ← time_json (b_Start b);
  Some (enc_struct [("start", start); ("allowed", itoa (b_Allowed b)); ("blocked", itoa (b_Blocked b))]).

(** Empty lists are nil ones, as the PostgreSQL store returns them. *)
Definition stats_json (s : Stats) : option string :=
  ips ← nil_slice_json counted_json (TopIPs s);
  rules ← nil_slice_json counted_json (TopRules s);
  series ← nil_slice_json bucket_json (Series s);
  Some (enc_struct
    [("window", json_quote true (s_Window s)); ("total", itoa (s_Total s)); ("allowed", itoa (s_Allowed s));
     ("blocked", itoa (s_Blocked s)); ("top_ips", ips); ("top_rules", rules); ("series", series)]).

(** ** Reading requests *)

(** [decodeJSON]: a key that names no field is an error. *)
Definition known (names : list string) (m : gobj) : bool :=
  forallb (fun p : string * gval => existsb (fun n => selects n p.1) names) m.

Definition decodeJSON {A} (names : list string) (dec : gobj -> option A) (body : string) : option A :=
  v ← decode_upto (2 ^ 20) body;
  as_struct (fun m => if known names m then dec m else None) v.

Definition decode_login (body : string) : option (string * string) :=
  decodeJSON ["user"; "password"] (fun m =>
    user ← get_string "user" m; password ← get_string "password" m; Some (user, password)) body.

Definition decode_patch (body : string) : option (option bool) :=
  decodeJSON ["enabled"] (fun m => get (fun v => Some <$> as_bool v) None "enabled" m) body.

Definition decode_ip (body : string) : option IPRule :=
  decodeJSON ["cidr"; "action"; "note"; "created_at"; "created_by"] (fun m =>
    cidr ← get_string "cidr" m; action ← get_string "action" m; note ← get_string "note" m;
    created ← get_time "created_at" m; by_ ← get_string "created_by" m;
    Some (MkIPRule cidr action note created by_)) body.

Definition parseTime (raw : string) : result Z :=
  if String.eqb raw EmptyString then Ok zero_time
  else of_option "must be an RFC3339 timestamp, e.g. 2026-08-25T12:00:00Z" (parse_rfc3339 raw).

Definition prefix_err {A} (p : string) (r : result A) : result A :=
  match r with Ok a => Ok a | Err m => Err (p +:+ m) end.

(** A number of the query, or zero. *)
Definition number_param (name raw : string) : result Z :=
  if String.eqb raw EmptyString then Ok 0
  else of_option (name +:+ " must be a number") (parse_int raw).

Definition parseFilter (rawQuery : string) : result Filter :=
  let q := query_get rawQuery in
  from ← prefix_err "from: " (parseTime (q "from"));
  to ← prefix_err "to: " (parseTime (q "to"));
  limit ← number_param "limit" (q "limit");
  offset ← number_param "offset" (q "offset");
  Ok (MkFilter (q "kind") (q "verdict") (q "ip") (q "rule") (q "request_id") from to limit offset).

(** ** The audit client *)

(** The actor and the action are the server's: the details never replace them. *)
Definition admin_payload (actor action : string) (details : gobj) : gobj :=
  foldl (fun (payload : gobj) (d : string * gval) =>
           if String.eqb d.1 "actor" || String.eqb d.1 "action" then payload
           else assoc_set d.1 d.2 payload)
    [("actor", VString actor); ("action", VString action)] details.

Definition admin_body (actor action : string) (details : gobj) : option string :=
  marshal (VObject [("kind", VString KindAdmin); ("payload", VObject (admin_payload actor action details))]).

Definition RecordAdmin (v : env) (actor action : string) (details : gobj) : list event * result unit :=
  match admin_body actor action details with
  | None => ([], Err "audit client: encode entry")
  | Some body =>
      let answer := v_post v body in
      ([Posted body answer],
       match answer with
       | Err m => Err ("audit client: reach the engine: " +:+ m)
       | Ok (status, detail) =>
           if negb (status =? 201)
           then Err ("audit client: engine answered " +:+ itoa status +:+ ": " +:+ trim_space (stake 512 detail))
           else Ok tt
       end)
  end.

(** [EngineStatus]: [None] is the nil map that a body of [null] leaves. *)
Definition EngineStatus (v : env) : result (option gobj) :=
  match v_status v with
  | Err m => Err ("audit client: reach the engine: " +:+ m)
  | Ok body =>
      match decode_upto (2 ^ 20) body with
      | Some VNil => Ok None
      | Some w => of_option "audit client: decode engine status" (Some <$> as_any_map w)
      | None => Err "audit client: decode engine status"
      end
  end.

(** ** Sessions *)

Definition client_ip (v : env) (q : request) : string :=
  clientIP (v_trusted v) (q_RemoteAddr q) (q_Forwarded q).

Definition set_cookie (c : Cookie) (r : response) : response := Resp (p_Status r) (p_Body r) (Some c).

(** The state afterwards, the calls made, the response. *)
Definition handled : Type := dash * list event * outcome.

Definition handleLogin (d : dash) (v : env) (q : request) : handled :=
  let ip := client_ip v q in
  let '(l, ok) := allow (d_logins d) (v_now v) ip in
  let d := with_logins d l in
  if negb ok
  then (d, [], Answer (writeJSON 429 (apiError "too many failed sign-in attempts; try again later")))
  else
    match decode_login (q_Body q) with
    | None => (d, [], Answer (writeJSON 400 (apiError "malformed request")))
    | Some (user, password) =>
        match Login (v_sessions v) (v_now v) user password with
        | Err _ =>
            (with_logins d (fail l (v_now v) ip), [], Answer (writeJSON 401 (apiError "invalid credentials")))
        | Ok token =>
            let '(events, _) := RecordAdmin v user "login" [("ip", VString ip)] in
            (with_logins d (reset l ip), events,
             Answer (set_cookie (SetCookie (v_sessions v) token)
               (writeJSON 200 (VObject [("user", VString user);
                                        ("expires_in", VInt (Z.quot (m_ttl (v_sessions v)) second))]))))
        end
    end.

Definition handleLogout (d : dash) (v : env) (q : request) : handled :=
  let events :=
    match q_Cookie q with
    | None => []
    | Some value =>
        match Verify (v_sessions v) (v_now v) value with
        | Err _ => []
        | Ok user => (RecordAdmin v user "logout" []).1
        end
    end in
  (d, events, Answer (set_cookie (ClearCookie (v_sessions v)) (writeJSON 200 (VStringMap [("status", "signed out")])))).

Definition handleSession (d : dash) (v : env) (q : request) : handled :=
  match q_Cookie q with
  | None => (d, [], Answer (writeJSON 401 (apiError "no session")))
  | Some value =>
      match Verify (v_sessions v) (v_now v) value with
      | Err m => (d, [], Answer (set_cookie (ClearCookie (v_sessions v)) (writeJSON 401 (apiError m))))
      | Ok user => (d, [], Answer (writeJSON 200 (VStringMap [("user", user)])))
      end
  end.

(** ** The audit log *)

Definition handleEvents (v : env) (q : request) : response :=
  match parseFilter (q_RawQuery q) with
  | Err m => writeJSON 400 (apiError m)
  | Ok filter =>
      let filter := Normalized filter in
      match v_list v filter with
      | Err _ => fail_ "listing audit entries"
      | Ok entries =>
          match v_count v filter with
          | Err _ => fail_ "counting audit entries"
          | Ok total =>
              reply 200
                (es ← slice_json entry_json entries;
                 Some (enc_object true [("entries", es); ("total", itoa total);
                                        ("limit", itoa (f_Limit filter)); ("offset", itoa (f_Offset filter))]))
          end
      end
  end.

Definition by_request (id : string) : Filter :=
  MkFilter EmptyString EmptyString EmptyString EmptyString id zero_time zero_time 100 0.

Definition handleEvent (v : env) (id : string) : response :=
  match v_list v (by_request id) with
  | Err _ => fail_ "reading audit entry"
  | Ok [] => writeJSON 404 (apiError "no entry with that request id")
  | Ok entries => reply 200 (es ← slice_json entry_json entries; Some (enc_object true [("entries", es)]))
  end.

Definition handleStats (v : env) (q : request) : response :=
  let raw := query_get (q_RawQuery q) "window" in
  let window :=
    if String.eqb raw EmptyString then Some hour
    else
      parsed ← ParseDuration raw;
      if (parsed <=? 0) || (30 * 24 * hour <? parsed) then None else Some parsed in
  match window with
  | None => writeJSON 400 (apiError "window must be a duration between 1s and 720h, e.g. 1h or 24h")
  | Some window =>
      match v_stats v window with
      | Err _ => fail_ "computing traffic statistics"
      | Ok stats => reply 200 (stats_json stats)
      end
  end.

Definition handleVerify (v : env) (q : request) : response :=
  match prefix_err "from: " (parseTime (query_get (q_RawQuery q) "from")) with
  | Err m => writeJSON 400 (apiError m)
  | Ok from =>
      match prefix_err "to: " (parseTime (query_get (q_RawQuery q) "to")) with
      | Err m => writeJSON 400 (apiError m)
      | Ok to =>
          match v_verify v from to with
          | Err _ => fail_ "verifying the audit chain"
          | Ok result => reply 200 (Some (verify_json result))
          end
      end
  end.

(** ** Rules and the access list *)

Definition handleListRules (d : dash) (v : env) : response :=
  match Rules (d_store d) with
  | Err _ => fail_ "listing rules"
  | Ok rules => reply 200 (rs ← nil_slice_json rule_json rules; Some (enc_object true [("rules", rs)]))
  end.

Definition handlePatchRule (d : dash) (v : env) (q : request) (actor name : string) : handled :=
  match decode_patch (q_Body q) with
  | None | Some None =>
      (d, [], Answer (writeJSON 400 (apiError
         ("body must be {" +:+ str1 dquote +:+ "enabled" +:+ str1 dquote +:+ ": true|false}"))))
  | Some (Some enabled) =>
      let '(events, recorded) := RecordAdmin v actor "rule.set_enabled"
        [("rule", VString name); ("enabled", VBool enabled); ("ip", VString (client_ip v q))] in
      match recorded with
      | Err m => (d, events, Answer (refuseUnaudited m))
      | Ok _ =>
          let '(s, rule) := SetEnabled (d_store d) name enabled actor in
          let d := with_store d s in
          let events := events ++ [Stored (Switch name enabled actor)] in
          match rule with
          | inr (UnknownRule _) => (d, events, Answer (writeJSON 404 (apiError ("no such rule: " +:+ name))))
          | inr (OtherError _) => (d, events, Answer (fail_ "updating rule"))
          | inl rule => (d, events ++ [Notified "rules"], Answer (reply 200 (rule_json rule)))
          end
      end
  end.

Definition handleListIPRules (d : dash) (v : env) : response :=
  match IPRules (d_store d) with
  | Err _ => fail_ "listing ip rules"
  | Ok rules => reply 200 (rs ← slice_json ip_json rules; Some (enc_object true [("rules", rs)]))
  end.

Definition handleAddIPRule (d : dash) (v : env) (q : request) (actor : string) : handled :=
  match decode_ip (q_Body q) with
  | None => (d, [], Answer (writeJSON 400 (apiError "malformed request")))
  | Some req =>
      match parsePrefix (CIDR req) with
      | Err m => (d, [], Answer (writeJSON 400 (apiError m)))
      | Ok prefix =>
          let req := MkIPRule prefix (Action req) (Note req) (CreatedAt req) (CreatedBy req) in
          if negb (String.eqb (Action req) ActionAllow) && negb (String.eqb (Action req) ActionDeny)
          then (d, [], Answer (writeJSON 400 (apiError
                 ("action must be " +:+ str1 dquote +:+ "allow" +:+ str1 dquote +:+ " or "
                  +:+ str1 dquote +:+ "deny" +:+ str1 dquote))))
          else
            let '(events, recorded) := RecordAdmin v actor "ipblock.add"
              [("cidr", VString (CIDR req)); ("target", VString (Action req)); ("note", VString (Note req));
               ("ip", VString (client_ip v q))] in
            match recorded with
            | Err m => (d, events, Answer (refuseUnaudited m))
            | Ok _ =>
                let '(s, rule) := AddIPRule (d_store d) req actor in
                let d := with_store d s in
                let events := events ++ [Stored (Put req actor)] in
                match rule with
                | Err _ => (d, events, Answer (fail_ "adding ip rule"))
                | Ok rule => (d, events ++ [Notified "ipblock"], Answer (reply 201 (ip_json rule)))
                end
            end
      end
  end.

Definition handleDeleteIPRule (d : dash) (v : env) (q : request) (actor : string) : handled :=
  match parsePrefix (query_get (q_RawQuery q) "cidr") with
  | Err m => (d, [], Answer (writeJSON 400 (apiError m)))
  | Ok prefix =>
      let '(events, recorded) := RecordAdmin v actor "ipblock.delete"
        [("cidr", VString prefix); ("ip", VString (client_ip v q))] in
      match recorded with
      | Err m => (d, events, Answer (refuseUnaudited m))
      | Ok _ =>
          let '(s, removed) := DeleteIPRule (d_store d) prefix in
          let d := with_store d s in
          let events := events ++ [Stored (Remove prefix)] in
          match removed with
          | Err _ => (d, events, Answer (fail_ "deleting ip rule"))
          | Ok false => (d, events, Answer (writeJSON 404 (apiError ("no such entry: " +:+ prefix))))
          | Ok true => (d, events ++ [Notified "ipblock"], Answer (Resp 204 EmptyString None))
          end
      end
  end.

(** ** Status *)

Definition handleHealth (v : env) : response :=
  writeJSON 200 (VStringMap [("status", "ok"); ("version", v_version v)]).

Definition handleStatus (v : env) : outcome :=
  let status (engine : gobj) := writeJSON 200 (VObject
    [("version", VString (v_version v)); ("ws_clients", VInt (v_clients v)); ("engine", VObject engine)]) in
  match EngineStatus v with
  | Err m => Answer (status [("reachable", VBool false); ("error", VString m)])
  | Ok (Some engine) => Answer (status (assoc_set "reachable" (VBool true) engine))
  | Ok None => Panicked
  end.

(** ** Routing *)

(** The router in front of the sessions. *)
Inductive public_route := ToHealth | ToLogin | ToLogout | ToSession | ToGuarded | ToSPA | ToRedirect (path : string).

(** Matching comes before the redirect to a clean path; [/api] and [/ws] gain their slash. *)
Definition public (method path : string) : public_route :=
  let clean := cleanPath path in
  let segs := segments clean in
  let private_ := starts segs "api" || starts segs "ws" in
  if private_ && (List.length segs =? 1)%nat then ToRedirect (clean +:+ "/")
  else if negb (String.eqb clean path) then ToRedirect clean
  else if is_get method && same segs ["healthz"] then ToHealth
  else if String.eqb method "POST" && same segs ["api"; "v1"; "login"] then ToLogin
  else if String.eqb method "POST" && same segs ["api"; "v1"; "logout"] then ToLogout
  else if is_get method && same segs ["api"; "v1"; "session"] then ToSession
  else if private_ then ToGuarded
  else ToSPA.

(** The router behind them, by method. *)
Inductive guarded_route :=
| ToEvents | ToEvent (id : string) | ToStats | ToVerify | ToListRules | ToPatchRule (name : string)
| ToListIPRules | ToAddIPRule | ToDeleteIPRule | ToStatus | ToLive.

Definition guarded_routes (segs : list string) : list (string * guarded_route) :=
  match segs with
  | [a; b; c] =>
      if String.eqb a "api" && String.eqb b "v1" then
        if String.eqb c "events" then [("GET", ToEvents)]
        else if String.eqb c "stats" then [("GET", ToStats)]
        else if String.eqb c "rules" then [("GET", ToListRules)]
        else if String.eqb c "ipblock"
        then [("GET", ToListIPRules); ("POST", ToAddIPRule); ("DELETE", ToDeleteIPRule)]
        else if String.eqb c "status" then [("GET", ToStatus)]
        else []
      else []
  | [a; b; c; d] =>
      if String.eqb a "api" && String.eqb b "v1" then
        if String.eqb c "audit" && String.eqb d "verify" then [("GET", ToVerify)]
        else if String.eqb d "/" then []
        else if String.eqb c "events" then [("GET", ToEvent d)]
        else if String.eqb c "rules" then [("PATCH", ToPatchRule d)]
        else []
      else []
  | [a; b] => if String.eqb a "ws" && String.eqb b "live" then [("GET", ToLive)] else []
  | _ => []
  end.

Definition text (status : Z) (body : string) : outcome := Answer (Resp status (body +:+ byte_str 10) None).

Definition handle_guarded (d : dash) (v : env) (q : request) (user : string) : handled :=
  let routes := guarded_routes (segments (q_Path q)) in
  match method_route (q_Method q) routes with
  | None =>
      (d, [], match routes with [] => text 404 "404 page not found" | _ => text 405 "Method Not Allowed" end)
  | Some ToEvents => (d, [], Answer (handleEvents v q))
  | Some (ToEvent id) => (d, [], Answer (handleEvent v id))
  | Some ToStats => (d, [], Answer (handleStats v q))
  | Some ToVerify => (d, [], Answer (handleVerify v q))
  | Some ToListRules => (d, [], Answer (handleListRules d v))
  | Some (ToPatchRule name) => handlePatchRule d v q user name
  | Some ToListIPRules => (d, [], Answer (handleListIPRules d v))
  | Some ToAddIPRule => handleAddIPRule d v q user
  | Some ToDeleteIPRule => handleDeleteIPRule d v q user
  | Some ToStatus => (d, [], handleStatus v)
  | Some ToLive => (d, [], LiveFeed)
  end.

(** [sessions.Require] *)
Definition require (d : dash) (v : env) (q : request) : handled :=
  match Require_ (v_sessions v) (v_now v) (q_Cookie q) with
  | Served user => handle_guarded d v q (UserFrom (WithUser None user))
  | Refused cleared m =>
      (d, [], Answer (Resp (unauthorized m).1 (unauthorized m).2 cleared))
  end.

(** [spaHandler] and [serveIndex]; the file server answers for a file that exists. *)
Definition spa (v : env) (q : request) : outcome :=
  let name :=
    let p := path_Clean (default (q_Path q) (path_unescape (q_Path q))) in
    if has_prefix "/" p then sdrop 1 p else p in
  let name := if String.eqb name EmptyString then "index.html" else name in
  match v_file v name with
  | Some _ => StaticFile name (has_prefix "assets/" name)
  | None =>
      match v_file v "index.html" with
      | Some body => Index body
      | None => text 404 "dashboard assets are missing from this build"
      end
  end.

(** [securityHeaders] *)
Definition securityHeaders : list (string * string) :=
  [("Content-Security-Policy",
    "default-src 'self'; script-src 'self'; style-src 'self' 'unsafe-inline'; img-src 'self' data:; connect-src 'self' ws: wss:; frame-ancestors 'none'; base-uri 'self'; form-action 'self'");
   ("X-Content-Type-Options", "nosniff"); ("X-Frame-Options", "DENY"); ("Referrer-Policy", "no-referrer")].

(** [Handler] *)
Definition serve (d : dash) (v : env) (q : request) : list (string * string) * handled :=
  (securityHeaders,
   match public (q_Method q) (q_Path q) with
   | ToHealth => (d, [], Answer (handleHealth v))
   | ToLogin => handleLogin d v q
   | ToLogout => handleLogout d v q
   | ToSession => handleSession d v q
   | ToGuarded => require d v q
   | ToSPA => (d, [], spa v q)
   | ToRedirect p => (d, [], Redirected p)
   end).

(** ** What a request may do *)

(** The record of a change: the action and the details the handler posts. *)
Definition record_of (c : change) (ip : string) : string * gobj :=
  match c with
  | Switch name enabled _ =>
      ("rule.set_enabled", [("rule", VString name); ("enabled", VBool enabled); ("ip", VString ip)])
  | Put rule _ =>
      ("ipblock.add", [("cidr", VString (CIDR rule)); ("target", VString (Action rule));
                       ("note", VString (Note rule)); ("ip", VString ip)])
  | Remove prefix => ("ipblock.delete", [("cidr", VString prefix); ("ip", VString ip)])
  end.

Definition actor_of (c : change) (user : string) : Prop :=
  match c with Switch _ _ actor | Put _ actor => actor = user | Remove _ => True end.

(** The store once a change was asked for, now and on the connection as it is. *)
Definition changed (s : store) (c : change) : store := run s (Call (s_now s) (s_fault s) c).

Lemma changed_at s c : at_call s (Call (s_now s) (s_fault s) c) = s.
Proof. by destruct s. Qed.

(** A request that changes nothing of the configuration. *)
Definition quiet (d : dash) (h : handled) : Prop :=
  d_store h.1.1 = d_store d /\ (forall e, e ∈ h.1.2 -> exists b a, e = Posted b a).

(** A request that recorded a change, was told it is committed, and then made it. *)
Definition recorded (d : dash) (v : env) (q : request) (user : string) (h : handled) : Prop :=
  exists c body detail tail,
    h.1.2 = Posted body (Ok (201, detail)) :: Stored c :: tail /\
    (tail = [] \/ exists kind, tail = [Notified kind]) /\
    v_post v body = Ok (201, detail) /\ actor_of c user /\
    admin_body user (record_of c (client_ip v q)).1 (record_of c (client_ip v q)).2 = Some body /\
    h.1.1 = with_store d (changed (d_store d) c).

Lemma RecordAdmin_posts v actor action details :
  forall e, e ∈ (RecordAdmin v actor action details).1 -> exists b a, e = Posted b a.
Proof.
  intros e. unfold RecordAdmin. destruct (admin_body actor action details); cbn [fst].
  - intros ->%list_elem_of_singleton. by eexists _, _.
  - intros He. by apply elem_of_nil in He.
Qed.

Lemma RecordAdmin_ok v actor action details u :
  (RecordAdmin v actor action details).2 = Ok u ->
  exists body detail, admin_body actor action details = Some body /\ v_post v body = Ok (201, detail) /\
    (RecordAdmin v actor action details).1 = [Posted body (Ok (201, detail))].
Proof.
  unfold RecordAdmin. destruct (admin_body actor action details) as [body|]; [|done]. cbn [fst snd].
  destruct (v_post v body) as [[status detail]|] eqn:E; [|done].
  destruct (Z.eqb_spec status 201) as [->|]; cbn [negb]; [|done]. intros _. by exists body, detail.
Qed.

(** A handler that records a change and then makes it, whatever it does when it cannot. *)
Lemma change_effect d v q user c (k : list event -> string -> outcome) (h : handled) :
  actor_of c user ->
  (let '(events, recorded_) := RecordAdmin v user (record_of c (client_ip v q)).1 (record_of c (client_ip v q)).2 in
   match recorded_ with
   | Err m => h = (d, events, k events m)
   | Ok _ => exists tail out, (tail = [] \/ exists kind, tail = [Notified kind]) /\
       h = (with_store d (changed (d_store d) c), events ++ Stored c :: tail, out)
   end) ->
  quiet d h \/ recorded d v q user h.
Proof.
  intros Ha. pose proof (RecordAdmin_posts v user (record_of c (client_ip v q)).1 (record_of c (client_ip v q)).2) as Hp.
  pose proof (RecordAdmin_ok v user (record_of c (client_ip v q)).1 (record_of c (client_ip v q)).2) as Ho.
  destruct (RecordAdmin v user _ _) as [events [u|m]]; cbn [fst snd] in *.
  - intros (tail & out & Ht & ->). right. destruct (Ho u eq_refl) as (body & detail & Hb & Hv & ->).
    by exists c, body, detail, tail.
  - intros ->. left. by split.
Qed.

Lemma quiet_none d out : quiet d (d, [], out).
Proof. split; [done|]. intros e He. by apply elem_of_nil in He. Qed.

Lemma quiet_same d d' out : d_store d' = d_store d -> quiet d (d', [], out).
Proof. intros E. split; [done|]. intros e He. by apply elem_of_nil in He. Qed.

Lemma patch_effect d v q user name :
  quiet d (handlePatchRule d v q user name) \/ recorded d v q user (handlePatchRule d v q user name).
Proof.
  unfold handlePatchRule. destruct (decode_patch (q_Body q)) as [[on|]|]; try (left; apply quiet_none).
  eapply (change_effect d v q user (Switch name on user) (fun _ m => Answer (refuseUnaudited m))); [done|].
  cbn [record_of fst snd]. destruct (RecordAdmin v user _ _) as [events [u|m]]; [|done].
  unfold changed, run. cbn [c_change]. rewrite changed_at.
  destruct (SetEnabled (d_store d) name on user) as [s [rule|[m|m]]]; cbn [fst].
  - exists [Notified "rules"]. eexists. split; [right; by eexists|]. by rewrite <- app_assoc.
  - exists []. eexists. split; [by left|]. done.
  - exists []. eexists. split; [by left|]. done.
Qed.

Lemma add_effect d v q user :
  quiet d (handleAddIPRule d v q user) \/ recorded d v q user (handleAddIPRule d v q user).
Proof.
  unfold handleAddIPRule. destruct (decode_ip (q_Body q)) as [req|]; [|left; apply quiet_none].
  destruct (parsePrefix (CIDR req)) as [prefix|m]; [|left; apply quiet_none].
  set (r := MkIPRule prefix _ _ _ _). destruct (negb _ && negb _); [left; apply quiet_none|].
  eapply (change_effect d v q user (Put r user) (fun _ m => Answer (refuseUnaudited m))); [done|].
  cbn [record_of fst snd]. destruct (RecordAdmin v user _ _) as [events [u|m]]; [|done].
  unfold changed, run. cbn [c_change]. rewrite changed_at.
  destruct (AddIPRule (d_store d) r user) as [s [rule|m]]; cbn [fst].
  - exists [Notified "ipblock"]. eexists. split; [right; by eexists|]. by rewrite <- app_assoc.
  - exists []. eexists. split; [by left|]. done.
Qed.

Lemma delete_effect d v q user :
  quiet d (handleDeleteIPRule d v q user) \/ recorded d v q user (handleDeleteIPRule d v q user).
Proof.
  unfold handleDeleteIPRule. destruct (parsePrefix _) as [prefix|m]; [|left; apply quiet_none].
  eapply (change_effect d v q user (Remove prefix) (fun _ m => Answer (refuseUnaudited m))); [done|].
  cbn [record_of fst snd]. destruct (RecordAdmin v user _ _) as [events [u|m]]; [|done].
  unfold changed, run. cbn [c_change]. rewrite changed_at.
  destruct (DeleteIPRule (d_store d) prefix) as [s [[]|m]]; cbn [fst].
  - exists [Notified "ipblock"]. eexists. split; [right; by eexists|]. by rewrite <- app_assoc.
  - exists []. eexists. split; [by left|]. done.
  - exists []. eexists. split; [by left|]. done.
Qed.

Lemma guarded_effect d v q user :
  quiet d (handle_guarded d v q user) \/ recorded d v q user (handle_guarded d v q user).
Proof.
  unfold handle_guarded. destruct (method_route _ _) as [[]|]; try (left; apply quiet_none);
    [apply patch_effect|apply add_effect|apply delete_effect].
Qed.

Lemma login_effect d v q : quiet d (handleLogin d v q).
Proof.
  unfold handleLogin. destruct (allow _ _ _) as [l []]; cbn [negb]; [|by apply quiet_same].
  destruct (decode_login _) as [[user password]|]; [|by apply quiet_same].
  destruct (Login _ _ user password) as [token|m]; [|by apply quiet_same].
  pose proof (RecordAdmin_posts v user "login" [("ip", VString (client_ip v q))]) as Hp.
  destruct (RecordAdmin v user "login" _) as [events r]. by split.
Qed.

Lemma logout_effect d v q : quiet d (handleLogout d v q).
Proof.
  unfold handleLogout. split; [done|]. cbn [fst snd]. destruct (q_Cookie q) as [value|].
  - destruct (Verify _ _ value) as [user|m]; [apply RecordAdmin_posts|].
    intros e He. by apply elem_of_nil in He.
  - intros e He. by apply elem_of_nil in He.
Qed.

Lemma session_effect d v q : quiet d (handleSession d v q).
Proof.
  unfold handleSession. destruct (q_Cookie q) as [value|]; [|apply quiet_none].
  destruct (Verify _ _ value); apply quiet_none.
Qed.

Lemma serve_effect d v q : let h := (serve d v q).2 in
  quiet d h \/ exists user, Require_ (v_sessions v) (v_now v) (q_Cookie q) = Served user /\ recorded d v q user h.
Proof.
  cbn [serve snd]. destruct (public _ _); try (left; apply quiet_none).
  - left. apply login_effect.
  - left. apply logout_effect.
  - left. apply session_effect.
  - unfold require. destruct (Require_ _ _ _) as [user|cleared m]; [|left; apply quiet_none].
    cbn [UserFrom WithUser default]. destruct (guarded_effect d v q user); [by left|]. right. by exists user.
Qed.

(** Two environments that agree on what is in front of the session check. *)
Record same_front (v w : env) : Prop := {
  sf_now : v_now v = v_now w;
  sf_version : v_version v = v_version w;
  sf_sessions : v_sessions v = v_sessions w;
  sf_trusted : v_trusted v = v_trusted w;
  sf_post : v_post v = v_post w;
  sf_file : v_file v = v_file w
}.

(** *** The two sides of a record *)

(** The engine's audit endpoint as the dashboard sees it: the response that [handleAudit] writes. *)
Definition answer_of (effects : list EngineApi.effect) : result (Z * string) :=
  match rev effects with
  | EngineApi.Respond status body :: _ => Ok (status, body)
  | _ => Err "EOF"
  end.

(** The details the handlers give have text values and switches. *)
Definition plain_value (w : gval) : Prop := match w with VString _ | VBool _ => True | _ => False end.

Lemma admin_payload_plain actor action details : Forall (fun p => plain_value p.2) details ->
  Forall (fun p => plain_value p.2) (admin_payload actor action details).
Proof.
  unfold admin_payload. intros Hd.
  assert (Forall (fun p => plain_value p.2) ([("actor", VString actor); ("action", VString action)] : gobj)) as Hs
    by by repeat constructor.
  revert Hs. generalize ([("actor", VString actor); ("action", VString action)] : gobj).
  induction Hd as [|[k w] details Hw _ IH]; intros p Hp; cbn [foldl]; [done|]. apply IH. cbn [fst snd].
  destruct (_ || _); [done|]. by apply assoc_set_Forall.
Qed.

Lemma admin_payload_head actor action details : exists rest,
  admin_payload actor action details = ("actor", VString actor) :: ("action", VString action) :: rest /\
  NoDup (admin_payload actor action details).*1.
Proof.
  unfold admin_payload.
  assert (forall rest, NoDup (("actor", VString actor) :: ("action", VString action) :: rest : gobj).*1 ->
    exists rest', foldl (fun (payload : gobj) (d : string * gval) =>
      if String.eqb d.1 "actor" || String.eqb d.1 "action" then payload else assoc_set d.1 d.2 payload)
      (("actor", VString actor) :: ("action", VString action) :: rest) details
      = ("actor", VString actor) :: ("action", VString action) :: rest' /\
      NoDup (("actor", VString actor) :: ("action", VString action) :: rest' : gobj).*1) as Hx.
  { induction details as [|[k w] details IH]; intros rest Hnd; cbn [foldl]; [by exists rest|]. cbn [fst snd].
    destruct (String.eqb_spec k "actor") as [|Ne]; cbn [orb]; [by apply IH|].
    destruct (String.eqb_spec k "action") as [|Ne']; [by apply IH|].
    assert (assoc_set k w (("actor", VString actor) :: ("action", VString action) :: rest)
      = ("actor", VString actor) :: ("action", VString action) :: assoc_set k w rest) as E.
    { cbn [assoc_set]. destruct (String.eqb_spec k "actor"); [done|].
      by destruct (String.eqb_spec k "action"). }
    rewrite E. apply IH. rewrite <- E. by apply assoc_set_NoDup. }
  destruct (Hx []) as (rest' & E & Hnd).
  - cbn. apply list.NoDup_cons. split; [|apply NoDup_singleton]. by intros ?%list_elem_of_singleton.
  - exists rest'. rewrite E. by split.
Qed.

Lemma plain_any (m : gobj) : Forall (fun p => plain_value p.2) m -> as_any_map (VObject m) = Some m.
Proof.
  cbn [as_any_map]. induction 1 as [|[k w] m Hw _ IH]; [done|]. cbn [mapM fst snd].
  assert (to_floats w = Some w) as -> by (by destruct w). cbn [mbind option_bind].
  change (mapM (fun p : string * gval => w ← to_floats p.2; Some (p.1, w)) m) with (as_any_map (VObject m)).
  cbn [as_any_map]. by rewrite IH.
Qed.

Lemma plain_norm w : plain_value w -> plain_value (norm w).
Proof. by destruct w. Qed.

Lemma plain_encodes (m : gobj) : Forall (fun p => plain_value p.2) m -> is_Some (marshal (VObject m)).
Proof.
  intros Hm. apply encode_members. eapply List.Forall_impl; [|exact Hm].
  intros [k w] Hw. unfold encodes_value. destruct w; try done; by eexists.
Qed.

Lemma plain_depth (m : gobj) : Forall (fun p => plain_value p.2) m -> depth (VObject m) = 1.
Proof.
  intros Hm. cbn [depth]. assert (foldr Z.max 0 (map (fun p : string * gval => depth p.2) m) = 0) as ->; [|done].
  induction Hm as [|[k w] m Hw _ IH]; [done|]. cbn [map foldr snd]. rewrite IH. by destruct w.
Qed.

Definition good_detail (p : string * gval) : Prop := valid_utf8 p.1 = true /\ plain_value p.2.

Lemma admin_payload_keys actor action details : Forall good_detail details ->
  Forall (fun p => valid_utf8 p.1 = true) (admin_payload actor action details).
Proof.
  unfold admin_payload. intros Hd.
  assert (Forall (fun p => valid_utf8 p.1 = true) ([("actor", VString actor); ("action", VString action)] : gobj)) as Hs
    by (repeat (apply List.Forall_cons; [reflexivity|]); apply List.Forall_nil).
  revert Hs. generalize ([("actor", VString actor); ("action", VString action)] : gobj).
  induction Hd as [|[k w] details [Hk _] _ IH]; intros p Hp; cbn [foldl]; [done|]. apply IH. cbn [fst snd].
  destruct (_ || _); [done|]. by apply assoc_set_Forall.
Qed.

(** The payload as the engine reads it. *)
Definition read_payload (m : gobj) : gobj := sort_keys (map (fun p : string * gval => (p.1, norm p.2)) m).

Lemma read_payload_keys (m : gobj) : (map (fun p : string * gval => (p.1, norm p.2)) m).*1 = m.*1.
Proof. induction m as [|[k w] m IH]; [done|]. cbn. by rewrite IH. Qed.

Lemma admin_body_read actor action details body : Forall good_detail details ->
  admin_body actor action details = Some body -> slen body <= maxDecideBody ->
  decode_limited body ≫= decode_audit
  = Some (MkAudit KindAdmin EmptyString (read_payload (admin_payload actor action details))).
Proof.
  intros Hd Hb Hl. unfold admin_body in Hb. set (payload := admin_payload actor action details) in *.
  assert (Forall (fun p => plain_value p.2) payload) as Hp.
  { apply admin_payload_plain. eapply List.Forall_impl; [|exact Hd]. by intros ? []. }
  unfold decode_limited, decode_upto. rewrite (proj2 (Z.leb_le _ _)) by done.
  rewrite <- (app_nil_str body). rewrite (decode_encode_json true _ _ EmptyString Hb).
  2: { cbn [depth map foldr snd]. change (1 + foldr Z.max 0 (map (fun p : string * gval => depth p.2) payload))
         with (depth (VObject payload)). rewrite (plain_depth _ Hp). unfold max_depth. lia. }
  2: done.
  assert (normal_of payload = read_payload payload) as En.
  { unfold normal_of. cbn [norm]. destruct (admin_payload_head actor action details) as (rest & _ & Hnd).
    apply build_object_sorted; rewrite ?read_payload_keys; [done|].
    apply List.Forall_map. cbn [fst]. by apply admin_payload_keys. }
  assert (as_any_map (VObject (normal_of payload)) = Some (read_payload payload)) as Ea.
  { rewrite En. apply plain_any. unfold read_payload. rewrite sort_keys_perm. apply List.Forall_map.
    eapply List.Forall_impl; [|exact Hp]. intros [k w]. apply plain_norm. }
  change (norm (VObject [("kind", VString KindAdmin); ("payload", VObject payload)]))
    with (VObject [("kind", VString KindAdmin); ("payload", VObject (normal_of payload))]).
  cbn [mbind option_bind]. unfold decode_audit. cbn [as_struct].
  change (get_string "kind" _) with (Some KindAdmin). change (get_string "request_id" _) with (Some EmptyString).
  change (get as_any_map [] "payload" _) with (as_any_map (VObject (normal_of payload))).
  cbn [mbind option_bind]. by rewrite Ea.
Qed.
End Dashboard.

(** ** Properties *)

(** C4: Nothing changes that is not on record.  Whatever is requested, either the configuration
    stays as it is and nothing but audit entries was sent, or the session is a user's and the
    request did, in this order: post the record of one change, naming that user, what is changed
    and where from; be told by the engine that it is committed; make exactly that change to the
    store, once; and at most announce it. *)
Theorem change_recorded_first `{CidrType} `{UnicodePrint} `{Bcrypt} d v q :
  let h := (serve d v q).2 in
  quiet d h \/
  exists user, Require_ (v_sessions v) (v_now v) (q_Cookie q) = Served user /\ recorded d v q user h.
Proof. apply serve_effect. Qed.

(** C5: Without a session nothing can be seen or changed.  For a request whose cookie is not
    accepted, the answer and every call made are the same whatever the audit log, the rules, the
    access list, the engine's status and the number of watchers are: they carry no information
    about them.  What is behind the session answers 401, and the configuration is not touched. *)
Theorem no_session_no_access `{CidrType} `{UnicodePrint} `{Bcrypt} d d' v w q :
  (forall user, Require_ (v_sessions v) (v_now v) (q_Cookie q) <> Served user) ->
  same_front v w -> d_logins d' = d_logins d ->
  let '(headers, (d1, events, out)) := serve d v q in
  serve d' w q = (headers, (with_store d1 (d_store d'), events, out)) /\
  d_store d1 = d_store d /\ (forall e, e ∈ events -> exists b a, e = Posted b a) /\
  (public (q_Method q) (q_Path q) = ToGuarded ->
     d1 = d /\ events = [] /\ exists body cookie, out = Answer (Resp 401 body cookie)).
Proof.
  intros Hn [E1 E2 E3 E4 E5 E6] El. destruct d as [s l], d' as [s' l']. cbn in El. subst l'.
  assert (forall actor action details, RecordAdmin w actor action details = RecordAdmin v actor action details) as Hr.
  { intros. unfold RecordAdmin. by rewrite E5. }
  assert (client_ip w q = client_ip v q) as Hip by (unfold client_ip; by rewrite E4).
  destruct (serve (Dash s l) v q) as [headers [[d1 events] out]] eqn:Es.
  pose proof (serve_effect (Dash s l) v q) as He. rewrite Es in He. cbn [snd] in He.
  destruct He as [[Hq Hev]|(user & Hu & _)]; [|by destruct (Hn user)]. cbn [fst snd] in Hq, Hev.
  unfold serve in Es. injection Es as <- Es. unfold serve.
  split; [f_equal|split; [done|split; [done|]]].
  - destruct (public _ _).
    + injection Es as <- <- <-. unfold handleHealth. by rewrite E2.
    + unfold handleLogin in *. cbn [d_logins] in *. rewrite Hip, <- E1.
      destruct (allow l (v_now v) (client_ip v q)) as [l1 []]; cbn [negb] in *; [|by injection Es as <- <- <-].
      destruct (decode_login _) as [[user password]|]; [|by injection Es as <- <- <-].
      rewrite <- E3. destruct (Login _ _ user password); [|by injection Es as <- <- <-].
      rewrite Hr. destruct (RecordAdmin v user "login" _) as [ev r]. by injection Es as <- <- <-.
    + unfold handleLogout in *. rewrite <- E1, <- E3. injection Es as <- <- <-. f_equal. f_equal.
      destruct (q_Cookie q) as [c|]; [|done]. destruct (Verify _ _ c); [|done]. by rewrite Hr.
    + unfold handleSession in *. rewrite <- E1, <- E3.
      destruct (q_Cookie q) as [c|]; [destruct (Verify _ _ c)|]; by injection Es as <- <- <-.
    + unfold require in *. rewrite <- E1, <- E3. destruct (Require_ _ _ _) as [user|c m]; [by destruct (Hn user)|].
      by injection Es as <- <- <-.
    + injection Es as <- <- <-. unfold spa. by rewrite E6.
    + by injection Es as <- <- <-.
  - intros Hg. rewrite Hg in Es. unfold require in Es.
    destruct (Require_ _ _ _) as [user|c m]; [by destruct (Hn user)|]. injection Es as <- <- <-.
    split; [done|]. split; [done|]. by eexists _, _.
Qed.

(** C17: The record of a change is what the engine commits.  When the engine's endpoint answers
    with what its handler writes, the body the dashboard posts is decoded there to an
    administrative entry whose payload is the details given together with the server's own actor
    and action, which no detail can replace; it is handed to the audit writer once; and the
    dashboard takes it as recorded exactly when the writer reported it committed. *)
Theorem admin_record_end_to_end `{CidrType} `{UnicodePrint} `{Bcrypt} v sync actor action details body :
  Forall good_detail details -> admin_body actor action details = Some body ->
  slen body <= 2 ^ 20 -> v_post v body = answer_of (EngineApi.handleAudit sync body) ->
  exists p text,
    EngineApi.handleAudit sync body
    = [EngineApi.RecordSync_ KindAdmin EmptyString p; EngineApi.Respond (if is_Ok sync then 201 else 503) text] /\
    p ≡ₚ map (fun x : string * gval => (x.1, norm x.2)) (admin_payload actor action details) /\
    assoc "actor" p = Some (VString (fix_utf8 actor)) /\ assoc "action" p = Some (VString (fix_utf8 action)) /\
    ((RecordAdmin v actor action details).2 = Ok tt <-> sync = Ok tt).
Proof.
  intros Hd Hb Hl Hv. pose proof (admin_body_read actor action details body Hd Hb Hl) as Hread.
  set (p := read_payload (admin_payload actor action details)) in *.
  destruct (admin_payload_head actor action details) as (rest & Eh & Hnd).
  assert (NoDup p.*1) as Hnp.
  { unfold p, read_payload. rewrite sort_keys_perm, read_payload_keys. done. }
  assert (forall k w, (k, w) ∈ admin_payload actor action details -> assoc k p = Some (norm w)) as Ha.
  { intros k w Hin. apply assoc_elem_iff; [done|]. unfold p, read_payload. rewrite sort_keys_perm.
    by apply (list_elem_of_fmap_2 (fun x : string * gval => (x.1, norm x.2)) _ (k, w)). }
  assert (exists text, EngineApi.handleAudit sync body
    = [EngineApi.RecordSync_ KindAdmin EmptyString p; EngineApi.Respond (if is_Ok sync then 201 else 503) text]) as [text Ht].
  { unfold EngineApi.handleAudit. rewrite Hread. cbn [aq_Kind aq_RequestID aq_Payload].
    rewrite String.eqb_refl. cbn [negb andb]. destruct sync; cbn [is_Ok]; by eexists. }
  exists p, text. split; [done|]. split; [apply sort_keys_perm|].
  split; [apply (Ha "actor" (VString actor)); rewrite Eh; left|].
  split; [apply (Ha "action" (VString action)); rewrite Eh; right; left|].
  unfold RecordAdmin. rewrite Hb, Hv, Ht. cbn [snd answer_of rev app].
  destruct sync as [[]|m]; cbn [is_Ok]; split; intros Hx; by rewrite ?Hx.
Qed.

(** Switching a rule, on every branch.  With a body that says which way and a store that can
    be reached: when the entry cannot be committed the answer is 503 and nothing is changed; for a
    rule the chain does not have the answer is 404 and no switch changes, although the entry of
    the change is on the record; and for a rule it has the answer is 200, that switch and no
    other is as asked, and the engine is told. *)
Theorem patch_rule_outcomes `{CidrType} `{UnicodePrint} `{Bcrypt} d v q user name on :
  sound (d_store d) -> s_fault (d_store d) = None -> pg_refuse name = None -> pg_refuse user = None ->
  decode_patch (q_Body q) = Some (Some on) ->
  let '(events, out) := (((handlePatchRule d v q user name).1.2), (handlePatchRule d v q user name).2) in
  let s' := d_store (handlePatchRule d v q user name).1.1 in
  match (RecordAdmin v user "rule.set_enabled"
           [("rule", VString name); ("enabled", VBool on); ("ip", VString (client_ip v q))]).2 with
  | Err _ => s' = d_store d /\ exists body, out = Answer (Resp 503 body None)
  | Ok _ =>
      (exists b a, events = [Posted b a; Stored (Switch name on user)] ++
         (if is_Some_dec (switch (d_store d) name) then [Notified "rules"] else [])) /\
      (forall k, switch s' k = if String.eqb name k then (fun _ => on) <$> switch (d_store d) k
                               else switch (d_store d) k) /\
      exists body, out = Answer (Resp (if is_Some_dec (switch (d_store d) name) then 200 else 404) body None)
  end.
Proof.
  intros [Hok Hc] Hf Hp1 Hp2 Hdec. unfold handlePatchRule. rewrite Hdec.
  pose proof (RecordAdmin_ok v user "rule.set_enabled"
    [("rule", VString name); ("enabled", VBool on); ("ip", VString (client_ip v q))]) as Ho.
  destruct (RecordAdmin v user "rule.set_enabled" _) as [events [u|m]]; cbn [fst snd] in *.
  2: { split; [done|]. by eexists. }
  destruct (Ho u eq_refl) as (body & detail & _ & _ & ->).
  pose proof (SetEnabled_view (d_store d) name on user) as [Hview _].
  unfold intended, accepted in Hview. cbn [c_change c_fault forallb] in Hview.
  rewrite Hf, Hp1, Hp2 in Hview. cbn [andb view_of v_switch] in Hview.
  assert (match (SetEnabled (d_store d) name on user).2 with
          | inl _ => is_Some (switch (d_store d) name)
          | inr (UnknownRule _) => switch (d_store d) name = None
          | inr (OtherError _) => False end) as Hres.
  { unfold SetEnabled. rewrite Hf, Hp1, Hp2. unfold switch. cbn [with_rules s_rules].
    rewrite update_rule_find. destruct (List.find _ (s_rules (d_store d))) as [r|] eqn:E; cbn [fmap option_fmap option_map snd].
    - destruct (scan_rule (update_rule _ _ _ _ r)) as [rule|m] eqn:Er; [by eexists|].
      apply find_some in E as [E _]. unfold configs_ok in Hc. rewrite List.Forall_forall in Hc.
      specialize (Hc r E). rewrite <- (update_rule_scan (d_store d) name on user), Er in Hc. done.
    - done. }
  destruct (SetEnabled (d_store d) name on user) as [s' [rule|[m|m]]]; cbn [fst snd d_store with_store] in *; [| |done].
  - destruct (is_Some_dec _) as [_|Hx]; [|done]. split; [by eexists _, _|]. split; [exact Hview|]. by eexists.
  - destruct (is_Some_dec _) as [Hx|_]; [rewrite Hres in Hx; by destruct Hx|].
    split; [by eexists _, _|]. split; [exact Hview|]. by eexists.
Qed.

(** Two audit logs that answer alike as long as they are asked for a page of at most 500 entries,
    from the start or later, and for a window of more than nothing and at most 30 days. *)
Record alike_within (v w : env) : Prop := {
  aw_list f : 1 <= f_Limit f <= 500 -> 0 <= f_Offset f -> v_list v f = v_list w f;
  aw_count f : 1 <= f_Limit f <= 500 -> 0 <= f_Offset f -> v_count v f = v_count w f;
  aw_stats window : 0 < window <= 720 * hour -> v_stats v window = v_stats w window
}.

(** C38: No query asks the audit log for more than it should.  Whatever the query string says —
    missing, negative, overflowing or malformed numbers and durations included — the answers of
    the listing, of the lookup by request and of the statistics depend only on what the log says
    about pages of 1 to 500 entries at an offset that is not negative, and about windows longer
    than nothing and at most 30 days long. *)
Theorem query_bounds v w q id : alike_within v w ->
  handleEvents v q = handleEvents w q /\ handleEvent v id = handleEvent w id /\ handleStats v q = handleStats w q.
Proof.
  intros [Hl Hc Hs]. split; [|split].
  - unfold handleEvents. destruct (parseFilter _) as [filter|]; [|done].
    assert (1 <= f_Limit (Normalized filter) <= 500 /\ 0 <= f_Offset (Normalized filter)) as [H1 H2].
    { unfold Normalized. cbn [f_Limit f_Offset].
      destruct (Z.leb_spec (f_Limit filter) 0), (Z.ltb_spec (f_Offset filter) 0);
        match goal with |- context [500 <? ?x] => destruct (Z.ltb_spec 500 x) end; lia. }
    by rewrite Hl, Hc.
  - unfold handleEvent. by rewrite Hl by (cbn; lia).
  - unfold handleStats. cbv zeta. destruct (String.eqb _ _).
    + by rewrite Hs by (unfold hour, minute, second; lia).
    + destruct (ParseDuration _) as [parsed|]; [|done]. cbn [mbind option_bind].
      destruct (Z.leb_spec parsed 0), (Z.ltb_spec (30 * 24 * hour) parsed); cbn [orb]; try done.
      by rewrite Hs by lia.
Qed.

(** ** A run *)

#[local] Existing Instance RuleStore.Sample.text_cidr.
#[local] Existing Instance IPBlock.ascii_print.
#[local] Existing Instance Auth.plain_bcrypt.

(** An engine that commits every entry. *)
Definition sample_env : env :=
  Env (1700000000 * second) "1.0" sample_manager [] "openshield:events" 2
    (fun body => answer_of (EngineApi.handleAudit (Ok tt) body)) (Ok "null") (fun _ _ => None)
    (fun _ => Ok []) (fun _ => Ok 0) (fun _ => Err "down") (fun _ _ => Err "down") (fun _ => None).

Definition sample_dash : dash := Dash RuleStore.Sample.seeded (newLoginLimiter 10 (15 * minute)).

Definition sample_token : string := issue sample_manager "admin" (1700000000 * second + 60 * second).

Definition off_body : string := "{" +:+ str1 dquote +:+ "enabled" +:+ str1 dquote +:+ ":false}".

Definition patch_request (cookie : option string) (name : string) : request :=
  Req "PATCH" ("/api/v1/rules/" +:+ name) EmptyString "203.0.113.7:5" EmptyString cookie off_body.

(** What a run leaves: the switch of the rule, how many calls were made, and the status. *)
Definition summary (name : string) (h : handled) : option bool * nat * Z :=
  (switch (d_store h.1.1) name, List.length h.1.2,
   match h.2 with Answer r => p_Status r | _ => 0 end).

Example routed : map (fun p => public p.1 p.2)
  [("GET", "/healthz"); ("POST", "/api/v1/login"); ("GET", "/api/v1/login"); ("PATCH", "/api/v1/rules/xss");
   ("GET", "/api"); ("GET", "/"); ("GET", "/events"); ("GET", "//x"); ("GET", "/a/../b/");
   ("HEAD", "/%61pi/v1/session")]
  = [ToHealth; ToLogin; ToGuarded; ToGuarded; ToRedirect "/api/"; ToSPA; ToSPA; ToRedirect "/x";
     ToRedirect "/b/"; ToSession].
Proof. vm_compute. reflexivity. Qed.

Example patched :
  summary "xss" (serve sample_dash sample_env (patch_request (Some sample_token) "xss")).2 = (Some false, 3%nat, 200)
  /\ summary "xss" (serve sample_dash sample_env (patch_request (Some sample_token) "nosuch")).2 = (Some true, 2%nat, 404)
  /\ summary "xss" (serve sample_dash sample_env (patch_request None "xss")).2 = (Some true, 0%nat, 401).
Proof. vm_compute. repeat split. Qed.

(** An engine that answers its status with [null] makes the status page panic. *)
Example status_panics : (serve sample_dash sample_env
    (Req "GET" "/api/v1/status" EmptyString "203.0.113.7:5" EmptyString (Some sample_token) EmptyString)).2.2
  = Panicked.
Proof. vm_compute. reflexivity. Qed.

Lemma no_session_no_access_witness : exists body cookie,
  (serve sample_dash sample_env (patch_request None "xss")).2.2 = Answer (Resp 401 body cookie).
Proof.
  pose proof (no_session_no_access sample_dash sample_dash sample_env sample_env (patch_request None "xss")) as Hx.
  destruct (serve sample_dash sample_env (patch_request None "xss")) as [h [[d1 ev] out]].
  assert (same_front sample_env sample_env) as Hf by by split.
  destruct (Hx ltac:(intros user; vm_compute; discriminate) Hf eq_refl) as (_ & _ & _ & Hg).
  destruct Hg as (_ & _ & body & cookie & E); [vm_compute; reflexivity|]. exists body, cookie. exact E.
Defined.

Lemma admin_record_end_to_end_witness : exists body,
  admin_body "admin" "rule.set_enabled" [("rule", VString "xss"); ("actor", VString "root")] = Some body /\
  (RecordAdmin sample_env "admin" "rule.set_enabled" [("rule", VString "xss"); ("actor", VString "root")]).2 = Ok tt.
Proof.
  set (details := [("rule", VString "xss"); ("actor", VString "root")]).
  destruct (admin_body "admin" "rule.set_enabled" details) as [body|] eqn:E; [|vm_compute in E; discriminate].
  exists body. split; [reflexivity|].
  destruct (admin_record_end_to_end sample_env (Ok tt) "admin" "rule.set_enabled" details body)
    as (p & t & _ & _ & _ & _ & Hx).
  - repeat (apply List.Forall_cons; [split; [vm_compute; reflexivity|exact I]|]). apply List.Forall_nil.
  - exact E.
  - vm_compute in E. injection E as <-. vm_compute. discriminate.
  - reflexivity.
  - apply Hx. reflexivity.
Defined.

Lemma patch_rule_outcomes_witness :
  switch (d_store (handlePatchRule sample_dash sample_env (patch_request None "xss") "admin" "xss").1.1) "xss" = Some false.
Proof.
  pose proof (patch_rule_outcomes sample_dash sample_env (patch_request None "xss") "admin" "xss" false
    RuleStore.Sample.seeded_sound eq_refl eq_refl eq_refl) as Hp.
  assert (decode_patch (q_Body (patch_request None "xss")) = Some (Some false)) as Hd by (vm_compute; reflexivity).
  specialize (Hp Hd). cbv zeta beta in Hp.
  assert ((RecordAdmin sample_env "admin" "rule.set_enabled"
    [("rule", VString "xss"); ("enabled", VBool false);
     ("ip", VString (client_ip sample_env (patch_request None "xss")))]).2 = Ok tt) as Hr by (vm_compute; reflexivity).
  rewrite Hr in Hp. destruct Hp as (_ & Hs & _). rewrite Hs. reflexivity.
Defined.

(** A log that fails when it is asked for more. *)
Definition strict_env : env :=
  Env (1700000000 * second) "1.0" sample_manager [] "openshield:events" 2
    (fun body => answer_of (EngineApi.handleAudit (Ok tt) body)) (Ok "null") (fun _ _ => None)
    (fun f => if f_Limit f <=? 500 then Ok [] else Err "too many") (fun _ => Ok 0)
    (fun _ => Err "down") (fun _ _ => Err "down") (fun _ => None).

Lemma query_bounds_witness :
  let q := Req "GET" "/api/v1/events" "limit=99999999&offset=-3" "203.0.113.7:5" EmptyString None EmptyString in
  handleEvents sample_env q = handleEvents strict_env q.
Proof.
  intros q. apply (query_bounds sample_env strict_env q EmptyString). split; [|done|done].
  intros f Hf _. cbn. destruct (Z.leb_spec (f_Limit f) 500); [done|lia].
Defined.
