(* ===== verification/Dashboard.v ===== *)
(** * The dashboard process

    [dashboard/api/cmd/api/main.go] with [New] of [httpapi.go] and the audit client's addresses:
    the command that hashes the administrator's password, what start-up builds from the
    environment, and a server that answers one request after the other.  Part of what is proved
    holds from the operator's terminal to the cookie in a browser. *)

From S2P Require Import Prelude Utf8 GoText GoMux GoTime Netip Model AuditChain AuditRepo Config RuleStore Auth Support DashApi.

(** ** Hashing the administrator's password *)

(** bcrypt's generator, at its default cost; the salt is the randomness it draws. *)
Class BcryptGenerate := GenerateFromPassword : string -> string -> result string.

(** Docker Compose's reading of an unquoted value of a .env file. *)
Class Compose := interpolate : string -> string.

Definition newline : ascii := bof 10.

(** [strings.ReplaceAll(s, a, b)] for an [a] of one byte. *)
Fixpoint replace_with (a : ascii) (b : string) (s : string) : string :=
  match s with
  | EmptyString => EmptyString
  | String c s => (if Ascii.eqb a c then b else str1 c) +:+ replace_with a b s
  end.

Definition escaped (hash : string) : string := replace_with "$" "$$" hash.

Definition line (s : string) : string := s +:+ str1 newline.

Definition printed (hash : string) : string :=
  line EmptyString
  +:+ line "Copia esta línea en deploy/.env tal cual:"
  +:+ line EmptyString
  +:+ line ("OS_ADMIN_PASSWORD_HASH=" +:+ escaped hash)
  +:+ line EmptyString
  +:+ line "Los '$$' son intencionales: Docker Compose los convierte en un solo '$'."
  +:+ line ("El hash real es: " +:+ hash).

(** What [printPasswordHash] prints. *)
Definition printPasswordHash `{BcryptGenerate} (salt password : string) : result string :=
  hash ← GenerateFromPassword salt password; Ok (printed hash).

(** ** Start-up *)

Section Start.
Context `{CidrType} `{UnicodePrint} `{Bcrypt}.

(** What the process finds: its environment, the servers it connects to, and the tables. *)
Record outside := Outside {
  o_env : Config.env;
  o_version : string;
  o_postgres : string -> result unit;
  o_redis : string -> string -> Z -> result unit;
  o_store : store
}.

(** What stays the same while the server runs, and the state requests share. *)
Record server := Server {
  s_version : string;
  s_sessions : Manager;
  s_trusted : trustedProxies;
  s_channel : string;
  s_engine : string;
  s_dash : dash
}.

(** [httpapi.New]: a throttle of its own, without records. *)
Definition NewServer (version : string) (sessions : Manager) (trusted : trustedProxies)
    (channel engine : string) (rows : store) : server :=
  Server version sessions trusted channel engine (Dash rows (newLoginLimiter 10 (15 * minute))).

Definition sessionOptions (cfg : DashboardConfig) : Options :=
  MkOptions (d_AdminUser cfg) (d_AdminPasswordHash cfg) (d_SessionSecret cfg) (d_SessionTTL cfg)
    (d_SecureCookies cfg).

Definition engineURL (e : Config.env) : string :=
  let url := Getenv e "OS_ENGINE_URL" in
  if String.eqb url EmptyString then "http://engine:8080" else url.

(** [run] up to [ListenAndServe]; the hub it starts, and the subscription that feeds it, are
    [Hub] and [Feed]. *)
Definition start (o : outside) : result server :=
  let '(cfg, err) := LoadDashboard (o_env o) in
  match err with
  | Some m => Err m
  | None =>
      sessions ← Auth.New (sessionOptions cfg);
      _ ← o_postgres o (d_PostgresDSN cfg);
      _ ← o_redis o (d_RedisAddr cfg) (d_RedisPass cfg) (d_RedisDB cfg);
      Ok (NewServer (o_version o) sessions (d_TrustedProxies cfg) (d_EventsChannel cfg)
            (engineURL (o_env o)) (o_store o))
  end.

(** How the server ends: it cannot listen, or a signal stops it. *)
Inductive ending := ListenError (m : string) | Signal (shutdown : result unit).

Definition run (o : outside) (e : ending) : result unit :=
  _ ← start o;
  match e with
  | ListenError m => Err m
  | Signal (Ok _) => Ok tt
  | Signal (Err m) => Err ("http shutdown: " +:+ m)
  end.

(** [main]: what the hashing command printed, and the exit code. *)
Definition main `{BcryptGenerate} (hashPassword salt : string) (o : outside) (e : ending) : option string * Z :=
  if negb (String.eqb hashPassword EmptyString) then
    match printPasswordHash salt hashPassword with
    | Err _ => (None, 1)
    | Ok out => (Some out, 0)
    end
  else match run o e with Err _ => (None, 1) | Ok _ => (None, 0) end.

(** ** Serving *)

(** What one request finds around the server: the time, the live feed's clients, the engine at its
    addresses, Redis, the audit log and the embedded files. *)
Record moment := Moment {
  n_now : Z; n_clients : Z;
  n_post : string -> string -> result (Z * string);
  n_status : string -> result string;
  n_send : string -> string -> option string;
  n_list : Filter -> result (list AuditEntry);
  n_count : Filter -> result Z;
  n_stats : Z -> result Stats;
  n_verify : Z -> Z -> result VerifyResult;
  n_file : string -> option string
}.

Definition env_of (s : server) (m : moment) : DashApi.env :=
  DashApi.Env (n_now m) (s_version s) (s_sessions s) (s_trusted s) (s_channel s) (n_clients m)
    (n_post m (s_engine s +:+ "/v1/audit")) (n_status m (s_engine s +:+ "/v1/status"))
    (n_send m) (n_list m) (n_count m) (n_stats m) (n_verify m) (n_file m).

Definition with_dash (s : server) (d : dash) : server :=
  Server (s_version s) (s_sessions s) (s_trusted s) (s_channel s) (s_engine s) d.

(** The server after a request, and what it answered. *)
Definition handle (s : server) (m : moment) (q : request) : server * outcome :=
  let h := (serve (s_dash s) (env_of s m) q).2 in (with_dash s h.1.1, h.2).

Record visit := Visit { x_now : Z; x_request : request; x_outcome : outcome }.

(** Requests one after the other, with a clock that does not go back.  What the tables hold when a
    request arrives may be another's doing. *)
Inductive visits (s0 : server) : list visit -> server -> Prop :=
| visits_none : visits s0 [] s0
| visits_more h s rows m q s' out : visits s0 h s ->
    (forall x, x ∈ h -> x_now x <= n_now m) ->
    handle (with_dash s (with_store (s_dash s) rows)) m q = (s', out) ->
    visits s0 (h ++ [Visit (n_now m) q out]) s'.

(** The address a request counts for, and the status of a sign-in. *)
Definition visitor (s : server) (x : visit) : string :=
  clientIP (s_trusted s) (q_RemoteAddr (x_request x)) (q_Forwarded (x_request x)).

Definition signIn (x : visit) : option Z :=
  match public (q_Method (x_request x)) (q_Path (x_request x)), x_outcome x with
  | ToLogin, Answer r => Some (p_Status r)
  | _, _ => None
  end.

(** A wrong password of [ip] within the fifteen minutes that end at [t]. *)
Definition guess (s : server) (ip : string) (t : Z) (x : visit) : bool :=
  String.eqb (visitor s x) ip && bool_decide (signIn x = Some 401) &&
  (t - 15 * minute <? x_now x) && (x_now x <=? t).
End Start.

(** ** Sign-ins and the throttle *)

Section Throttle.
Context `{CidrType} `{UnicodePrint} `{Bcrypt}.

(** How the password check of a request ends, when there is one. *)
Definition checked (m : Manager) (now : Z) (body : string) : option bool :=
  '(user, password) ← decode_login body; Some (is_Ok (Login m now user password)).

Definition answer_of_status (o : outcome) : answer :=
  match o with
  | Answer r => if p_Status r =? 429 then Throttled else if p_Status r =? 400 then Malformed
                else if p_Status r =? 200 then Granted else Wrong
  | _ => Wrong
  end.

Definition status_of (a : answer) : Z :=
  match a with Throttled => 429 | Malformed => 400 | Granted => 200 | Wrong => 401 end.

(** The sign-in handler is one attempt on the throttle. *)
Lemma handleLogin_attempt d v q : let h := handleLogin d v q in
  attempt (d_logins d) (v_now v) (client_ip v q) (checked (v_sessions v) (v_now v) (q_Body q))
    = (d_logins h.1.1, answer_of_status h.2) /\
  exists r, h.2 = Answer r /\ p_Status r = status_of (answer_of_status h.2).
Proof.
  unfold handleLogin, attempt, checked. destruct (allow _ _ _) as [l []]; cbn [negb].
  2: { split; [done|]. by eexists. }
  destruct (decode_login _) as [[user password]|]; cbn [mbind option_bind].
  2: { split; [done|]. by eexists. }
  destruct (Login _ _ user password) as [token|m]; cbn [is_Ok].
  - destruct (RecordAdmin v user "login" _) as [events r]. split; [done|]. by eexists.
  - split; [done|]. by eexists.
Qed.

(** No other request touches the throttle. *)
Lemma guarded_logins d v q user : d_logins (handle_guarded d v q user).1.1 = d_logins d.
Proof.
  unfold handle_guarded. destruct (method_route _ _) as [[]|]; try done.
  - unfold handlePatchRule. destruct (decode_patch _) as [[on|]|]; try done.
    destruct (RecordAdmin _ _ _ _) as [ev [u|m]]; [|done].
    by destruct (RuleStore.SetEnabled _ _ _ _) as [s [r|[|]]].
  - unfold handleAddIPRule. destruct (decode_ip _); [|done]. destruct (parsePrefix _); [|done].
    destruct (negb _ && negb _); [done|]. destruct (RecordAdmin _ _ _ _) as [ev [u|m]]; [|done].
    by destruct (AddIPRule _ _ _) as [s [r|m]].
  - unfold handleDeleteIPRule. destruct (parsePrefix _); [|done].
    destruct (RecordAdmin _ _ _ _) as [ev [u|m]]; [|done].
    by destruct (DeleteIPRule _ _) as [s [[]|m]].
Qed.

Lemma serve_logins d v q : public (q_Method q) (q_Path q) <> ToLogin ->
  d_logins (serve d v q).2.1.1 = d_logins d.
Proof.
  intros Hp. cbn [serve snd]. destruct (public _ _); try done.
  - unfold handleSession. destruct (q_Cookie q); [|done]. by destruct (Verify _ _ _).
  - unfold require. destruct (Require_ _ _ _); [apply guarded_logins|done].
Qed.

(** The history of sign-ins in a history of requests. *)
Definition tried_of (s : server) (x : visit) : option tried :=
  match public (q_Method (x_request x)) (q_Path (x_request x)) with
  | ToLogin => Some (Tried (x_now x) (visitor s x)
                       (checked (s_sessions s) (x_now x) (q_Body (x_request x))) (answer_of_status (x_outcome x)))
  | _ => None
  end.

(** A sign-in is answered with the status of what became of it. *)
Definition answered (x : visit) : Prop :=
  public (q_Method (x_request x)) (q_Path (x_request x)) = ToLogin ->
  signIn x = Some (status_of (answer_of_status (x_outcome x))).

(** What a request leaves alone. *)
Definition same_server (s s' : server) : Prop := s_sessions s' = s_sessions s /\ s_trusted s' = s_trusted s.

Lemma visits_logins s0 h s : visits s0 h s ->
  logins (d_logins (s_dash s0)) (omap (tried_of s0) h) (d_logins (s_dash s)) /\ same_server s0 s /\
  Forall answered h.
Proof.
  induction 1 as [|h s rows m q s' out Hv (IH & [Es Et] & Hst) Hle Hh]; [repeat constructor|].
  unfold handle in Hh. cbn [s_dash with_dash] in Hh. injection Hh as <- <-.
  set (v := env_of (with_dash s (with_store (s_dash s) rows)) m).
  set (d := with_store (s_dash s) rows). change (d_logins (s_dash s)) with (d_logins d) in IH.
  rewrite omap_app. cbn [omap list_omap]. split; [|split; [done|]].
  - unfold tried_of at 2. cbn [x_request x_now x_outcome s_dash with_dash].
    pose proof (serve_logins d v q) as Hs. cbn [serve snd] in *. destruct (public (q_Method q) (q_Path q));
      try (rewrite app_nil_r, Hs by done; exact IH).
    destruct (handleLogin_attempt d v q) as [Ha _].
    eapply logins_more; [exact IH| |].
    + intros y (x & Hx & Hy)%list_elem_of_omap. unfold tried_of in Hy.
      destruct (public _ _); try done. injection Hy as <-. cbn. by apply Hle.
    + revert Ha. unfold client_ip, v. cbn [v_trusted v_now v_sessions env_of s_trusted s_sessions with_dash].
      rewrite Es, Et. unfold visitor. cbn [x_request]. done.
  - apply list.Forall_app. split; [exact Hst|]. apply list.Forall_singleton. unfold answered. cbn [x_request x_outcome].
    intros Ep. unfold signIn. cbn [x_request x_outcome serve snd]. rewrite Ep.
    destruct (handleLogin_attempt d v q) as (_ & r & Er & Ers). rewrite Er in *. by rewrite Ers.
Qed.

(** Guesses are the wrong passwords of the history. *)
Lemma guesses_tried s ip t h :
  Forall answered h ->
  List.length (List.filter (guess s ip t) h)
  = List.length (List.filter (wrong_in ip (15 * minute) t) (omap (tried_of s) h)).
Proof.
  induction 1 as [|x h Hx _ IH]; [done|]. cbn [List.filter omap list_omap].
  unfold tried_of at 1, guess at 1.
  destruct (public (q_Method (x_request x)) (q_Path (x_request x))) eqn:Ep;
    try (assert (signIn x = None) as -> by (unfold signIn; by rewrite Ep);
         rewrite bool_decide_eq_false_2, andb_false_r by done; exact IH).
  rewrite (Hx Ep). unfold status_of. cbn [List.filter]. unfold wrong_in at 1. cbn [t_ip t_now t_answer].
  destruct (answer_of_status (x_outcome x));
    [rewrite (bool_decide_eq_false_2 (_ = _)), !andb_false_r by done; exact IH..| |
     rewrite (bool_decide_eq_false_2 (_ = _)), !andb_false_r by done; exact IH].
  rewrite bool_decide_eq_true_2 by done. rewrite !andb_true_r.
  destruct (_ && _ && _); cbn [List.length]; by rewrite IH.
Qed.
End Throttle.

(** ** What start-up builds *)

Section Started.
Context `{CidrType} `{UnicodePrint} `{Bcrypt}.

(** Every setting but the administrator's hash is in order. *)
Record settings_ok (e : Config.env) : Prop := {
  ok_dsn : trim_space (Getenv e "OS_POSTGRES_DSN") <> EmptyString;
  ok_db : is_Some (int_setting e "OS_REDIS_DB" 0);
  ok_ttl : is_Some (int_setting e "OS_SESSION_TTL_S" (8 * 3600));
  ok_cookies : is_Some (bool_setting e "OS_SECURE_COOKIES" false);
  ok_proxies : Forall (fun f => is_Some (parse_prefix f)) (network_fields e "OS_TRUSTED_PROXY");
  ok_secret : 32 <= slen (trim_space (Getenv e "OS_SESSION_SECRET"))
}.

(** The servers answer. *)
Definition reachable (o : outside) : Prop :=
  let cfg := (LoadDashboard (o_env o)).1 in
  is_Ok (o_postgres o (d_PostgresDSN cfg)) = true /\
  is_Ok (o_redis o (d_RedisAddr cfg) (d_RedisPass cfg) (d_RedisDB cfg)) = true.

Definition adminHash (o : outside) : string := trim_space (Getenv (o_env o) "OS_ADMIN_PASSWORD_HASH").

(** The lifetime of a session: eight hours unless a positive one was set, as the machine computes it. *)
Definition lifetime (o : outside) : Z :=
  let ttl := wrap64 (default (8 * 3600) (int_setting (o_env o) "OS_SESSION_TTL_S" (8 * 3600)) * second) in
  if ttl <=? 0 then 8 * 3600 * second else ttl.

Lemma lifetime_range o : 0 < lifetime o < 2 ^ 63.
Proof.
  unfold lifetime. generalize (default (8 * 3600) (int_setting (o_env o) "OS_SESSION_TTL_S" (8 * 3600)) * second).
  intros z. cbv zeta. assert (wrap64 z < 2 ^ 63).
  { unfold wrap64. pose proof (Z.mod_pos_bound (z + 2 ^ 63) (2 ^ 64)). lia. }
  destruct (Z.leb_spec (wrap64 z) 0); [by vm_compute|lia].
Qed.

(** The server that a start on good settings gives. *)
Definition started (o : outside) : server :=
  let cfg := (LoadDashboard (o_env o)).1 in
  NewServer (o_version o)
    (MkManager (str (o_env o) "OS_ADMIN_USER" "admin") (adminHash o)
       (trim_space (Getenv (o_env o) "OS_SESSION_SECRET")) (lifetime o)
       (default false (bool_setting (o_env o) "OS_SECURE_COOKIES" false)))
    (map masked (omap parse_prefix (network_fields (o_env o) "OS_TRUSTED_PROXY")))
    (d_EventsChannel cfg) (engineURL (o_env o)) (o_store o).

Lemma start_result o : match start o with
  | Ok s => s = started o /\ settings_ok (o_env o) /\ has_prefix "$2" (adminHash o) = true /\
            is_Ok (Cost (adminHash o)) = true /\ reachable o
  | Err _ => ~ (settings_ok (o_env o) /\ has_prefix "$2" (adminHash o) = true /\
                is_Ok (Cost (adminHash o)) = true /\ reachable o)
  end.
Proof.
  pose proof (dashboard_config_exact (o_env o)) as Hc. pose proof (dashboard_config_defaults (o_env o)) as Hd.
  unfold start, started, reachable. destruct (LoadDashboard (o_env o)) as [cfg err]. cbn [fst] in *.
  destruct Hc as (Hc & Hs & Hh & Hp). destruct Hd as (Hu & Ht & Hk).
  fold (adminHash o) in Hh. rewrite Hs, Hh in Hc.
  assert (err = None <-> settings_ok (o_env o) /\ has_prefix "$2" (adminHash o) = true) as Hok.
  { rewrite Hc. split; [intros (?&?&?&?&?&?&?)|intros [[] ?]]; repeat split; done. }
  clear Hc. destruct err as [m|]; [intros (Hx & Hy & _); by discriminate (proj2 Hok (conj Hx Hy))|].
  destruct (proj1 Hok eq_refl) as [Hset Hpre]. unfold Auth.New, sessionOptions.
  cbn [o_User o_PasswordHash o_Secret o_TTL o_Secure]. rewrite Hu, Hh, Hs, Ht, Hk, Hp.
  pose proof (str_nonempty (o_env o) "OS_ADMIN_USER" "admin" ltac:(done)) as Hne.
  apply String.eqb_neq in Hne. rewrite Hne. rewrite (proj2 (Z.ltb_ge _ _)) by apply Hset.
  destruct (Cost (adminHash o)) as [c|m]; [|by intros (_ & _ & ? & _)]. cbn [mbind result_bind].
  destruct (o_postgres o _) as [u|m]; [|by intros (_ & _ & _ & ? & _)]. cbn [mbind result_bind].
  destruct (o_redis o _ _ _) as [u'|m]; [|by intros (_ & _ & _ & _ & ?)]. by split.
Qed.

(** When the dashboard starts, and as what.  It starts to listen exactly when every setting is
    absent, empty or well formed, the database is named, the session secret has at least 32 bytes,
    the administrator's hash looks like bcrypt and bcrypt reads it, and PostgreSQL and Redis
    answer; failing any of these it ends with an error.  Once it listens it trusts the networks
    that were listed and no others, its sessions are signed with the configured secret, expire,
    and are given for the configured name and hash only, nobody is on the throttle, and the engine
    it records its changes with has an address. *)
Theorem dashboard_startup o (e : ending) :
  (is_Ok (start o) = true <->
   settings_ok (o_env o) /\ has_prefix "$2" (adminHash o) = true /\ is_Ok (Cost (adminHash o)) = true /\
   reachable o) /\
  (is_Ok (run o e) = true -> is_Ok (start o) = true /\ e = Signal (Ok tt)) /\
  forall s, start o = Ok s ->
    s_trusted s = map masked (omap parse_prefix (network_fields (o_env o) "OS_TRUSTED_PROXY")) /\
    32 <= slen (m_secret (s_sessions s)) /\
    m_secret (s_sessions s) = trim_space (Getenv (o_env o) "OS_SESSION_SECRET") /\
    0 < m_ttl (s_sessions s) /\ m_user (s_sessions s) <> EmptyString /\
    (forall now user password, is_Ok (Login (s_sessions s) now user password) = true <->
       user = str (o_env o) "OS_ADMIN_USER" "admin" /\ CompareHashAndPassword (adminHash o) password = true) /\
    (forall now ip, (allow (d_logins (s_dash s)) now ip).2 = true) /\
    d_store (s_dash s) = o_store o /\ s_engine s <> EmptyString.
Proof.
  pose proof (start_result o) as Hr. unfold run.
  destruct (start o) as [s|m]; (split; [|split]); try done.
  - by destruct Hr as (_ & Hx).
  - destruct e as [m|[[]|m]]; done.
  - intros ? [= <-]. destruct Hr as (-> & Hset & _).
    cbn [started NewServer s_trusted s_sessions m_secret m_ttl m_user s_dash s_engine].
    split; [done|]. split; [apply Hset|]. split; [done|]. split; [apply lifetime_range|].
    split; [by apply str_nonempty|]. split; [|split; [|split; [done|]]].
    + intros now user password. unfold Login. cbn [m_user m_passwordHash].
      destruct (String.eqb_spec user (str (o_env o) "OS_ADMIN_USER" "admin")), (CompareHashAndPassword _ _);
        cbn; intuition congruence.
    + intros now ip. done.
    + unfold engineURL. cbv zeta. by destruct (String.eqb_spec (Getenv (o_env o) "OS_ENGINE_URL") EmptyString).
Qed.
End Started.

(** ** From the hashing command to the environment *)

(** What a hash is written with besides the dollar sign: bcrypt's base 64. *)
Definition plain (c : ascii) : bool :=
  let z := bval c in
  ((48 <=? z) && (z <=? 57)) || ((65 <=? z) && (z <=? 90)) || ((97 <=? z) && (z <=? 122)) || (z =? 46) || (z =? 47).

Definition hash_char (c : ascii) : bool := Ascii.eqb "$" c || plain c.

(** What bcrypt promises of the hashes it makes, and Compose of values written with their
    characters: two dollar signs stand for one, and what is not a dollar sign for itself. *)
Class BcryptLaws `{Bcrypt} `{BcryptGenerate} := {
  generated_cost salt password hash :
    GenerateFromPassword salt password = Ok hash -> is_Ok (Cost hash) = true;
  generated_matches salt password hash :
    GenerateFromPassword salt password = Ok hash -> CompareHashAndPassword hash password = true;
  generated_form salt password hash :
    GenerateFromPassword salt password = Ok hash -> has_prefix "$2" hash = true /\ sall hash_char hash = true
}.

Class ComposeLaws `{Compose} := {
  interpolate_end : interpolate EmptyString = EmptyString;
  interpolate_dollar s : sall hash_char s = true ->
    interpolate (String "$" (String "$" s)) = String "$" (interpolate s);
  interpolate_plain c s : plain c = true -> sall hash_char s = true ->
    interpolate (String c s) = String c (interpolate s)
}.

(** The line an operator copies: what follows the name and the equals sign, on the first line that
    starts with them. *)
Definition pasted (key out : string) : option string :=
  let p := key +:+ "=" in
  l ← list_find (fun l => has_prefix p l = true) (split_on newline out); Some (sdrop (String.length p) l.2).

Lemma sall_escaped s : sall hash_char s = true -> sall hash_char (escaped s) = true.
Proof.
  unfold escaped. induction s as [|c s IH]; [done|]. cbn [sall replace_with]. intros [Hc Hs]%andb_prop.
  destruct (Ascii.eqb_spec "$" c) as [<-|]; cbn; [|rewrite Hc]; by apply IH.
Qed.

Lemma interpolate_escaped `{ComposeLaws} s : sall hash_char s = true -> interpolate (escaped s) = s.
Proof.
  unfold escaped. induction s as [|c s IH]; intros Hall; [apply interpolate_end|].
  cbn [sall] in Hall. apply andb_prop in Hall as [Hc Hs]. cbn [replace_with].
  pose proof (sall_escaped s Hs) as He. unfold escaped in He. unfold hash_char in Hc.
  destruct (Ascii.eqb_spec "$" c) as [<-|Hne]; cbn [String.append str1].
  - by rewrite interpolate_dollar, IH.
  - by rewrite interpolate_plain, IH.
Qed.

Lemma hash_char_solid c : hash_char c = true -> 33 <= bval c < 128 /\ Ascii.eqb newline c = false.
Proof.
  unfold hash_char, plain. destruct (Ascii.eqb_spec "$" c) as [<-|]; [by vm_compute|]. cbn [orb]. intros Hp.
  assert (33 <= bval c < 128) as Hb by (rewrite !orb_true_iff, !andb_true_iff, !Z.leb_le, !Z.eqb_eq in Hp; lia).
  split; [exact Hb|]. destruct (Ascii.eqb_spec newline c) as [<-|]; [|done]. by vm_compute in Hb.
Qed.

Lemma hash_one_line s : sall hash_char s = true -> no_char newline s = true.
Proof.
  unfold no_char. induction s as [|c s IH]; [done|]. cbn [sall]. intros [Hc Hs]%andb_prop.
  apply hash_char_solid in Hc as [_ ->]. by apply IH.
Qed.

Lemma trim_hash s : sall hash_char s = true -> trim_space s = s.
Proof.
  intros Hs. apply trim_visible. eapply sall_impl; [|exact Hs]. intros c [Hc _]%hash_char_solid.
  apply andb_true_intro. split; [apply Z.leb_le|apply Z.ltb_lt]; lia.
Qed.

Lemma line_app s t : line s +:+ t = s +:+ String newline t.
Proof. unfold line. by rewrite app_assoc_str. Qed.

(** The line is there, whatever follows it. *)
Lemma pasted_printed hash : no_char newline (escaped hash) = true ->
  pasted "OS_ADMIN_PASSWORD_HASH" (printed hash) = Some (escaped hash).
Proof.
  intros Hn. unfold printed.
  match goal with |- context [line (_ +:+ escaped hash) +:+ ?l] => set (rest := l) end.
  unfold pasted. rewrite !line_app, !split_on_app by (done || exact Hn).
  set (p := "OS_ADMIN_PASSWORD_HASH" +:+ "=").
  change ("OS_ADMIN_PASSWORD_HASH=" +:+ escaped hash) with (p +:+ escaped hash).
  cbn [list_find]. rewrite !decide_False by done. rewrite decide_True by apply has_prefix_app. done.
Qed.

(** ** Properties *)

Section Properties.
Context `{CidrType} `{UnicodePrint} `{Bcrypt}.

(** C28: From the hashing command to a session.  The line the command prints, pasted into the file
    Compose reads, delivers the hash unharmed, dollar signs included: with all else in order the
    dashboard then starts, and whenever the throttle lets a sign-in through that gives the
    administrator's name and that password, it answers 200 with a cookie that opens a session for
    the administrator until its lifetime ends, to the second. *)
Theorem setup_signs_in `{BcryptGenerate} `{!BcryptLaws} `{ComposeLaws} salt password out :
  printPasswordHash salt password = Ok out ->
  exists line, pasted "OS_ADMIN_PASSWORD_HASH" out = Some line /\
  forall o, o_env o !! "OS_ADMIN_PASSWORD_HASH" = Some (interpolate line) ->
  settings_ok (o_env o) -> reachable o ->
  exists s, start o = Ok s /\
  forall d m q, public (q_Method q) (q_Path q) = ToLogin ->
  decode_login (q_Body q) = Some (m_user (s_sessions s), password) ->
  (allow (d_logins d) (n_now m) (client_ip (env_of s m) q)).2 = true -> 0 <= n_now m < 2 ^ 63 ->
  exists r cookie expiry, (handle (with_dash s d) m q).2 = Answer r /\ p_Status r = 200 /\
    p_Cookie r = Some cookie /\ c_HttpOnly cookie = true /\
    n_now m + lifetime o - second < expiry <= n_now m + lifetime o /\
    forall now, Require_ (s_sessions s) now (Some (c_Value cookie))
      = if expiry <? now then Refused (Some (ClearCookie (s_sessions s))) ErrSessionExpired
        else Served (m_user (s_sessions s)).
Proof.
  intros Hout. destruct (GenerateFromPassword salt password) as [hash|m] eqn:Eh.
  2: unfold printPasswordHash in Hout; by rewrite Eh in Hout.
  assert (out = printed hash) as -> by (unfold printPasswordHash in Hout; rewrite Eh in Hout; by injection Hout).
  destruct (generated_form salt password hash Eh) as [Hpre Hall].
  exists (escaped hash). split.
  { by apply pasted_printed, hash_one_line, sall_escaped. }
  intros o He Hset Hreach.
  assert (adminHash o = hash) as Hh.
  { unfold adminHash, Getenv. rewrite He. cbn [default]. rewrite interpolate_escaped by done. by apply trim_hash. }
  pose proof (start_result o) as Hr. destruct (start o) as [s|m].
  2: { destruct Hr. rewrite Hh. split; [done|]. split; [done|]. split; [|done]. by eapply generated_cost. }
  destruct Hr as (-> & _). exists (started o). split; [done|]. intros d m q Hp Hd Ha Hn.
  unfold handle. cbn [serve snd s_dash with_dash]. rewrite Hp. unfold handleLogin.
  change (client_ip (env_of (with_dash (started o) d) m) q) with (client_ip (env_of (started o) m) q).
  change (v_now (env_of (with_dash (started o) d) m)) with (n_now m).
  destruct (allow (d_logins d) (n_now m) (client_ip (env_of (started o) m) q)) as [l ok]. cbn [snd] in Ha. subst ok.
  cbn [negb]. rewrite Hd. unfold Login at 1.
  change (v_sessions (env_of (with_dash (started o) d) m)) with (s_sessions (started o)).
  rewrite String.eqb_refl. change (m_passwordHash (s_sessions (started o))) with (adminHash o).
  rewrite Hh, (generated_matches salt password hash Eh). cbn [negb orb].
  destruct (RecordAdmin _ _ "login" _) as [events recorded].
  pose proof (lifetime_range o) as Hl.
  eexists _, _, ((n_now m + lifetime o) / second * second). split; [reflexivity|].
  split; [done|]. split; [reflexivity|]. split; [done|]. unfold second. split; [dlia|]. intros now.
  cbn [c_Value SetCookie Require_]. change (m_ttl (s_sessions (started o))) with (lifetime o).
  rewrite verify_issued by (unfold second; dlia). unfold second. by destruct (_ <? _).
Qed.

(** C27: Guessing is throttled at the door.  A started dashboard that answers any requests, one
    after the other, with a clock that does not go back and whatever else changes its tables,
    answers at most twenty wrong passwords of an address in any fifteen minutes, wherever they
    end, as long as that address never signs in, and whatever the other requests are. *)
Theorem guesses_throttled o s h s' ip t :
  start o = Ok s -> visits s h s' ->
  Forall (fun x => visitor s x = ip -> signIn x <> Some 200) h ->
  (List.length (List.filter (guess s ip t) h) <= 20)%nat.
Proof.
  intros Hs Hv Hng. pose proof (start_result o) as Hr. rewrite Hs in Hr. destruct Hr as (-> & _).
  destruct (visits_logins _ _ _ Hv) as (Hl & _ & Hst). rewrite (guesses_tried (started o) ip t h Hst).
  enough (Forall (fun x => t_ip x = ip -> t_answer x <> Granted) (omap (tried_of (started o)) h)) as Hg.
  { apply (login_throttled 10 (15 * minute) _ _ ip t) in Hl; [lia|lia|by vm_compute|exact Hg]. }
  apply list.Forall_forall. intros y (x & Hx & Hy)%list_elem_of_omap.
  rewrite list.Forall_forall in Hng, Hst. specialize (Hng x Hx). specialize (Hst x Hx).
  unfold tried_of in Hy. destruct (public _ _) eqn:Ep; try done. injection Hy as <-. cbn [t_ip t_answer].
  intros Hi Hgr. apply Hng; [exact Hi|]. by rewrite (Hst Ep), Hgr.
Qed.
End Properties.

(** ** Runs *)

#[local] Existing Instance IPBlock.ascii_print.
#[local] Existing Instance RuleStore.Sample.text_cidr.

(** A generator in the place of bcrypt's that keeps to its format. *)
#[local] Instance hex_generate : BcryptGenerate := fun _ password =>
  if 72 <? slen password then Err "bcrypt: password length exceeds 72 bytes"
  else Ok ("$2a$10$" +:+ hex (sbytes password)).

#[local] Instance hex_bcrypt : Bcrypt := {|
  Cost hash := if has_prefix "$2" hash then Ok 10 else Err "hashedSecret too short";
  CompareHashAndPassword hash password := String.eqb hash ("$2a$10$" +:+ hex (sbytes password))
|}.

Lemma plain_hex_digit d : 0 <= d < 16 -> hash_char (hex_digit d) = true.
Proof.
  intros Hd. assert (d ∈ seqZ 0 16) as Hin by (apply elem_of_seqZ; lia).
  assert (Forall (fun z => hash_char (hex_digit z) = true) (seqZ 0 16)) as Hall by (vm_compute; repeat constructor).
  rewrite list.Forall_forall in Hall. by apply Hall.
Qed.

Lemma plain_hex l : Forall (fun z => 0 <= z < 256) l -> sall hash_char (hex l) = true.
Proof.
  induction 1 as [|z l Hz _ IH]; [done|]. cbn [hex sall].
  rewrite !plain_hex_digit, IH by dlia. done.
Qed.

#[local] Instance hex_laws : BcryptLaws.
Proof.
  assert (forall salt password hash, GenerateFromPassword salt password = Ok hash ->
    hash = "$2a$10$" +:+ hex (sbytes password)) as Hg.
  { intros salt password hash. unfold GenerateFromPassword, hex_generate. destruct (_ <? _); [done|by intros [= <-]]. }
  split; intros salt password hash ->%Hg.
  - done.
  - apply String.eqb_refl.
  - split; [done|]. apply (plain_hex (sbytes password)). apply sbytes_range.
Qed.

(** Compose with no variables set: a name after a dollar sign is replaced by nothing. *)
Definition name_char (c : ascii) : bool :=
  let z := bval c in
  ((48 <=? z) && (z <=? 57)) || ((65 <=? z) && (z <=? 90)) || ((97 <=? z) && (z <=? 122)) || (z =? 95).

Fixpoint expand (in_name : bool) (s : string) : string :=
  match s with
  | EmptyString => EmptyString
  | String c s =>
      if Ascii.eqb "$" c then
        match s with
        | String d s' => if Ascii.eqb "$" d then String "$" (expand false s') else expand true s
        | EmptyString => EmptyString
        end
      else if in_name && name_char c then expand true s
      else String c (expand false s)
  end.

#[local] Instance no_variables : Compose := expand false.

#[local] Instance no_variables_laws : ComposeLaws.
Proof.
  split; [done|done|]. intros c s Hc _. unfold interpolate, no_variables. cbn [expand].
  destruct (Ascii.eqb_spec "$" c) as [<-|]; [by vm_compute in Hc|done].
Qed.

(** Without the escape most of the hash is lost. *)
Example raw_hash_lost :
  interpolate "$2a$10$616263" = EmptyString /\ interpolate (escaped "$2a$10$616263") = "$2a$10$616263".
Proof. vm_compute. split; reflexivity. Qed.

(** A deployment set up with the line for one password. *)
Definition sample_out : string := printed ("$2a$10$" +:+ hex (sbytes "correct horse")).

Definition sample_line : string := default EmptyString (pasted "OS_ADMIN_PASSWORD_HASH" sample_out).

Definition sample_outside : outside :=
  Outside (<["OS_POSTGRES_DSN" := "postgres://db"]>
    (<["OS_SESSION_SECRET" := "0123456789abcdef0123456789abcdef"]>
    {["OS_ADMIN_PASSWORD_HASH" := interpolate sample_line]}))
    "1.0" (fun _ => Ok tt) (fun _ _ _ => Ok tt) RuleStore.Sample.seeded.

Definition at_time (now : Z) : moment :=
  Moment now 0 (fun _ _ => Ok (201, EmptyString)) (fun _ => Err "down") (fun _ _ => None)
    (fun _ => Ok []) (fun _ => Ok 0) (fun _ => Err "down") (fun _ _ => Err "down") (fun _ => None).

Definition login_body (password : string) : string :=
  let q (s : string) := str1 dquote +:+ s +:+ str1 dquote in
  "{" +:+ q "user" +:+ ":" +:+ q "admin" +:+ "," +:+ q "password" +:+ ":" +:+ q password +:+ "}".

Definition login_request (password : string) : request :=
  Req "POST" "/api/v1/login" EmptyString "203.0.113.7:5" EmptyString None (login_body password).

Lemma sample_settings : settings_ok (o_env sample_outside).
Proof.
  split.
  - vm_compute. discriminate.
  - eexists. vm_compute. reflexivity.
  - eexists. vm_compute. reflexivity.
  - eexists. vm_compute. reflexivity.
  - apply List.Forall_nil.
  - vm_compute. discriminate.
Defined.

Lemma sample_reachable : reachable sample_outside.
Proof. split; reflexivity. Defined.

Lemma setup_signs_in_witness : exists s r cookie,
  start sample_outside = Ok s /\
  (handle s (at_time (1700000000 * second)) (login_request "correct horse")).2 = Answer r /\
  p_Status r = 200 /\ p_Cookie r = Some cookie /\
  Require_ (s_sessions s) (1700028799 * second) (Some (c_Value cookie)) = Served "admin".
Proof.
  destruct (setup_signs_in "salt" "correct horse" sample_out) as (line & Hl & Hrun); [reflexivity|].
  assert (line = sample_line) as -> by (unfold sample_line; by rewrite Hl).
  destruct (Hrun sample_outside eq_refl sample_settings sample_reachable) as (s & Hs & Hsign).
  assert (s = started sample_outside) as ->.
  { assert (start sample_outside = Ok (started sample_outside)) as Hx by (vm_compute; reflexivity). congruence. }
  destruct (Hsign (s_dash (started sample_outside)) (at_time (1700000000 * second)) (login_request "correct horse"))
    as (r & cookie & expiry & Hr & Hst & Hc & _ & He & Hreq).
  - vm_compute. reflexivity.
  - vm_compute. reflexivity.
  - reflexivity.
  - vm_compute. split; [discriminate|reflexivity].
  - exists (started sample_outside), r, cookie. split; [exact Hs|]. split; [exact Hr|].
    split; [exact Hst|]. split; [exact Hc|]. rewrite Hreq.
    assert (lifetime sample_outside = 8 * 3600 * second) as El by (vm_compute; reflexivity). rewrite El in He.
    cbn [n_now at_time] in He. unfold second in *.
    destruct (Z.ltb_spec expiry (1700028799 * 1000000000)) as [Hlt|_]; [exfalso; lia|reflexivity].
Defined.

Lemma dashboard_startup_witness : is_Ok (start sample_outside) = true /\
  (forall s, start sample_outside = Ok s -> 0 < m_ttl (s_sessions s)).
Proof.
  destruct (dashboard_startup sample_outside (Signal (Ok tt))) as (Hs & _ & Hx). split.
  - apply Hs. split; [exact sample_settings|]. split; [reflexivity|]. split; [reflexivity|exact sample_reachable].
  - intros s Es. apply (Hx s Es).
Defined.

(** A dozen guesses, one a minute. *)
Fixpoint try_passwords (s : server) (now : Z) (l : list string) : list visit :=
  match l with
  | [] => []
  | password :: l =>
      let q := login_request password in
      let '(s', out) := handle (with_dash s (with_store (s_dash s) (d_store (s_dash s)))) (at_time now) q in
      Visit now q out :: try_passwords s' (now + minute) l
  end.

Definition guesses : list string := ["a"; "b"; "c"; "d"; "e"; "f"; "g"; "h"; "i"; "j"; "k"; "correct horse"].

Definition sample_visits : list visit := try_passwords (started sample_outside) (1700000000 * second) guesses.

Example throttled_after_ten : map signIn sample_visits = replicate 10 (Some 401) ++ replicate 2 (Some 429).
Proof. vm_compute. reflexivity. Qed.

Lemma try_passwords_visits s0 h s now l : visits s0 h s -> (forall x, x ∈ h -> x_now x <= now) ->
  exists s', visits s0 (h ++ try_passwords s now l) s'.
Proof.
  revert h s now. induction l as [|password l IH]; intros h s now Hv Hle; cbn [try_passwords].
  - exists s. by rewrite app_nil_r.
  - destruct (handle _ (at_time now) _) as [s' out] eqn:Eh.
    pose proof (visits_more _ h s _ (at_time now) _ s' out Hv Hle Eh) as Hv'.
    destruct (IH _ s' (now + minute) Hv') as [s2 Hs2].
    + intros x [Hx|Hx%list_elem_of_singleton]%elem_of_app; [specialize (Hle x Hx); unfold minute, second; lia|].
      subst x. cbn. unfold minute, second. lia.
    + exists s2. by rewrite <- app_assoc in Hs2.
Qed.

Lemma guesses_throttled_witness :
  (List.length (List.filter (guess (started sample_outside) "203.0.113.7" (1700000900 * second)) sample_visits) <= 20)%nat.
Proof.
  destruct (try_passwords_visits (started sample_outside) [] (started sample_outside) (1700000000 * second) guesses)
    as [s' Hv]; [constructor|intros x Hx; apply elem_of_nil in Hx; contradiction|].
  apply (guesses_throttled sample_outside (started sample_outside) sample_visits s'); [vm_compute; reflexivity|exact Hv|].
  apply List.Forall_forall. intros x Hx _ Hsign.
  assert (In (signIn x) (map signIn sample_visits)) as Hin by (apply in_map; exact Hx).
  rewrite throttled_after_ten, Hsign in Hin. vm_compute in Hin. intuition discriminate.
Defined.
