(* ===== verification/Watch.v ===== *)
(** * Configuration reaching the engine

    [watchConfig], [applyConfig] and [reload] of [engine/cmd/engine/main.go], against the
    configuration store the dashboard writes and the control channel it announces changes on.
    Changes, announcements and the steps of a reload interleave freely; an announcement may be
    lost, or dropped because eight are waiting, and a read of the store may fail. *)

From S2P Require Import Prelude Utf8 GoText GoTime GoJson GoStruct Netip Canonical Model AuditRepo RateLimit Rules IPBlock Patterns Assembly RuleStore Events.

#[local] Set Warnings "-clear-no-such-hyp".

Section Watch.
Context `{CidrType} `{UnicodePrint} {W : Type}.

(** ** One reload *)

(** The store as a read on a connection that fails, or not, finds it. *)
Definition read_at (s : store) (fault : option string) : store :=
  MkStore (s_rules s) (s_ips s) (s_now s) fault.

(** The first half of [applyConfig], and whether it failed. *)
Definition load_switches (e : Engine W) (enabled : result (gmap string bool)) : Engine W * bool :=
  match enabled with Ok on => (Rules.SetEnabled e on, false) | Err _ => (e, true) end.

Definition load_ips (ip : IPBlock.IPBlock) (rules : result (list IPRule)) : IPBlock.IPBlock * bool :=
  match rules with Ok rows => ((IPBlock.Set_ ip rows).1, false) | Err _ => (ip, true) end.

(** The two halves with nothing in between are [applyConfig]. *)
Lemma reload_is_applyConfig `{Regexp} {R} `{Redis R} (e : Engine (world (R := R))) (ip : IPBlock.IPBlock) enabled rules :
  applyConfig e ip enabled rules
  = (match enabled with Ok on => Rules.SetEnabled e on | Err _ => e end, (load_ips ip rules).1).
Proof. by destruct enabled, rules. Qed.

(** ** The engine and the dashboard *)

(** [watchConfig] waiting, about to read the switches, or about to read the access list. *)
Inductive phase := Waiting | Loading | HalfLoaded.

(** The store, the engine, the announcements it has not taken; and, for the theorems, whether a
    change has not been announced since, and whether the last reload failed. *)
Record system := Sys {
  y_store : store; y_engine : Engine W; y_ip : IPBlock.IPBlock; y_queue : list string;
  y_phase : phase; y_unannounced : bool; y_failed : bool
}.

(** What the engine does by itself; [fault] is how its reads go. *)
Inductive engine_step (fault : option string) : system -> system -> Prop :=
| step_take s kind queue : y_phase s = Waiting -> y_queue s = kind :: queue ->
    engine_step fault s (Sys (y_store s) (y_engine s) (y_ip s) queue Loading (y_unannounced s) (y_failed s))
| step_tick s : y_phase s = Waiting ->
    engine_step fault s (Sys (y_store s) (y_engine s) (y_ip s) (y_queue s) Loading (y_unannounced s) (y_failed s))
| step_switches s : y_phase s = Loading ->
    engine_step fault s
      (let '(e, failed) := load_switches (y_engine s) (EnabledMap (read_at (y_store s) fault)) in
       Sys (y_store s) e (y_ip s) (y_queue s) HalfLoaded (y_unannounced s) failed)
| step_ips s : y_phase s = HalfLoaded ->
    engine_step fault s
      (let '(ip, failed) := load_ips (y_ip s) (IPRules (read_at (y_store s) fault)) in
       Sys (y_store s) (y_engine s) ip (y_queue s) Waiting (y_unannounced s) (y_failed s || failed)).

Inductive step : system -> system -> Prop :=
| step_engine fault s s' : engine_step fault s s' -> step s s'
| step_change s c :
    step s (Sys (run (y_store s) c) (y_engine s) (y_ip s) (y_queue s) (y_phase s) true (y_failed s))
| step_announce s kind :
    step s (Sys (y_store s) (y_engine s) (y_ip s) (deliver_control (y_queue s) kind) (y_phase s) false (y_failed s)).

(** The engine at start-up, before its first reload. *)
Definition begin (s : store) (e : Engine W) (ip : IPBlock.IPBlock) : system := Sys s e ip [] Loading false false.

(** ** What it means to be up to date *)

Definition switches_fresh (s : system) : Prop :=
  exists m, EnabledMap (read_at (y_store s) None) = Ok m /\ y_engine s = Rules.SetEnabled (y_engine s) m.

Definition ips_fresh (s : system) : Prop :=
  exists rows, IPRules (read_at (y_store s) None) = Ok rows /\ y_ip s = (IPBlock.Set_ NewIPBlock rows).1.

Definition settled (s : system) : Prop :=
  match y_phase s with
  | Waiting => switches_fresh s /\ ips_fresh s
  | Loading => True
  | HalfLoaded => switches_fresh s
  end.

Record inv (s : system) : Prop := {
  i_sound : sound (y_store s);
  i_queue : Z.of_nat (List.length (y_queue s)) <= control_buffer;
  i_settled : y_unannounced s = true \/ y_queue s <> [] \/ y_failed s = true \/ settled s
}.

Lemma SetEnabled_again (e : Engine W) m : Rules.SetEnabled (Rules.SetEnabled e m) m = Rules.SetEnabled e m.
Proof. done. Qed.

Lemma EnabledMap_fault s m fault : EnabledMap (read_at s fault) = Ok m -> EnabledMap (read_at s None) = Ok m.
Proof. unfold EnabledMap, Rules, read_at. cbn. by destruct fault. Qed.

Lemma IPRules_fault s rows fault : IPRules (read_at s fault) = Ok rows -> IPRules (read_at s None) = Ok rows.
Proof. unfold IPRules, read_at. cbn. by destruct fault. Qed.

Lemma inv_engine fault s s' : inv s -> engine_step fault s s' -> inv s'.
Proof.
  intros [Hs Hq Hd] Hst. destruct Hst as [s k queue Hp Hk|s Hp|s Hp|s Hp].
  - split; cbn; [done| |]; [rewrite Hk in Hq; cbn in Hq; lia|]. by right; right; right.
  - split; cbn; [done..|]. by right; right; right.
  - unfold load_switches. destruct (EnabledMap (read_at (y_store s) fault)) as [m|m] eqn:E.
    + split; cbn; [done..|]. right. right. right. exists m. cbn. split; [by eapply EnabledMap_fault|done].
    + split; cbn; [done..|]. right. right. by left.
  - unfold load_ips. destruct (IPRules (read_at (y_store s) fault)) as [rows|m] eqn:E.
    + split; cbn; [done..|]. rewrite orb_false_r. destruct Hd as [?|[?|[?|Hd]]]; [by left|by right; left|by right; right; left|].
      right. right. right. unfold settled in *. rewrite Hp in Hd. cbn. split; [exact Hd|].
      exists rows. split; [by eapply IPRules_fault|done].
    + split; cbn; [done..|]. right. right. left. apply orb_true_r.
Qed.

Lemma watch_step s s' : inv s -> step s s' -> inv s'.
Proof.
  intros Hs Hst. destruct Hst as [fault s s' Hst|s c|s kind]; [by eapply inv_engine|..]; destruct Hs as [Hs Hq Hd].
  - split; cbn; [by apply run_sound|done|by left].
  - unfold deliver_control, control_buffer in *. split; cbn; [done| |]; destruct (Z.ltb_spec (Z.of_nat (List.length (y_queue s))) 8).
    + rewrite length_app. cbn. unfold control_buffer. lia.
    + done.
    + right. left. by destruct (y_queue s).
    + right. left. intros E. rewrite E in *. cbn in *. lia.
Qed.

Lemma watch_steps s s' : rtc step s s' -> inv s -> inv s'.
Proof. induction 1; eauto using watch_step. Qed.

(** *** The engine by itself *)

Lemma loads s : y_phase s = Loading -> sound (y_store s) ->
  exists s', nsteps (engine_step None) 2 s s' /\ y_phase s' = Waiting /\ y_store s' = y_store s /\
    y_queue s' = y_queue s /\ switches_fresh s' /\ ips_fresh s' /\ rules (y_engine s') = rules (y_engine s).
Proof.
  intros Hp [Hok Hc]. destruct (EnabledMap_spec (read_at (y_store s) None)) as (m & Hm & _).
  { destruct Hok. by split. }
  { done. }
  { done. }
  set (s1 := Sys (y_store s) (Rules.SetEnabled (y_engine s) m) (y_ip s) (y_queue s) HalfLoaded (y_unannounced s) false).
  set (rows := map scan_ip (stable_sort ip_before (s_ips (y_store s)))).
  set (s2 := Sys (y_store s) (Rules.SetEnabled (y_engine s) m) (IPBlock.Set_ (y_ip s) rows).1 (y_queue s) Waiting
               (y_unannounced s) (false || false)).
  exists s2. split; [|repeat split; by eexists].
  apply (nsteps_l _ _ s s1); [|apply nsteps_once].
  - pose proof (step_switches None s Hp) as Hst. rewrite Hm in Hst. exact Hst.
  - pose proof (step_ips None s1 eq_refl) as Hst. exact Hst.
Qed.

Lemma nsteps_more fault n m s t u : nsteps (engine_step fault) n s t -> nsteps (engine_step fault) m t u ->
  nsteps (engine_step fault) (n + m) s u.
Proof. induction 1; cbn; [done|]. intros Hu. eapply nsteps_l; eauto. Qed.

Lemma drains s : y_phase s = Waiting -> sound (y_store s) ->
  exists s' n, nsteps (engine_step None) n s s' /\ (n <= 3 * List.length (y_queue s) + 3)%nat /\
    y_phase s' = Waiting /\ y_queue s' = [] /\ y_store s' = y_store s /\ switches_fresh s' /\ ips_fresh s' /\
    rules (y_engine s') = rules (y_engine s).
Proof.
  remember (y_queue s) as queue eqn:Eq. revert s Eq. induction queue as [|k queue IH]; intros s Eq Hp Hs.
  - destruct (loads (Sys (y_store s) (y_engine s) (y_ip s) (y_queue s) Loading (y_unannounced s) (y_failed s)))
      as (s' & Hn & H1' & H2' & H3' & H4' & H5' & H6'); [done|done|].
    exists s', 3%nat. split; [|cbn in *; rewrite <- Eq in H3'; repeat split; done || lia].
    eapply nsteps_l; [by apply step_tick|exact Hn].
  - destruct (loads (Sys (y_store s) (y_engine s) (y_ip s) queue Loading (y_unannounced s) (y_failed s)))
      as (s' & Hn & H1' & H2' & H3' & _ & _ & H6'); [done|done|]. cbn in H2', H3', H6'.
    destruct (IH s') as (t & n & Ht & Hle & G1 & G2 & G3 & G4 & G5 & G6); [done|done|by rewrite H2'|].
    exists t, (3 + n)%nat. split; [|cbn; repeat split; try done; [lia|congruence|congruence]].
    eapply (nsteps_more None 3 n s s' t); [|done]. eapply nsteps_l; [by apply (step_take _ s k queue)|exact Hn].
Qed.

(** *** Reading the switches of an engine that is up to date *)

Definition switch_on (s : store) (name : string) : bool := default false (switch s name).

Lemma fresh_switch s r : sound (y_store s) -> switches_fresh s -> r ∈ rules (y_engine s) ->
  index (enabled (y_engine s)) (rule_Name r) = switch_on (y_store s) (rule_Name r).
Proof.
  intros [Hok Hc] (m & Hm & He) Hr. rewrite He. rewrite SetEnabled_index by done.
  destruct (EnabledMap_spec (read_at (y_store s) None)) as (m' & Hm' & Hk).
  { destruct Hok. by split. }
  { done. }
  { done. }
  rewrite Hm in Hm'. injection Hm' as <-. unfold index, switch_on. by rewrite Hk.
Qed.

Lemma watch_begin s e ip : sound s -> inv (begin s e ip).
Proof. intros Hs. split; cbn; [done|done|]. by right; right; right. Qed.

Lemma catches_up s : inv s -> exists s' n,
  nsteps (engine_step None) n s s' /\ (n <= 3 * List.length (y_queue s) + 5)%nat /\ y_phase s' = Waiting /\
  y_queue s' = [] /\ y_store s' = y_store s /\ switches_fresh s' /\ ips_fresh s' /\
  rules (y_engine s') = rules (y_engine s).
Proof.
  intros [Hs _ _]. destruct (y_phase s) eqn:Hp.
  - destruct (drains s Hp Hs) as (s' & n & H1' & H2' & H3'). exists s', n. split; [done|]. split; [lia|done].
  - destruct (loads s Hp Hs) as (s1 & G1 & G2 & G3 & G4 & _ & _ & G5).
    destruct (drains s1 G2) as (s' & n & H1' & H2' & H3' & H4' & H5' & H6' & H7' & H8'); [by rewrite G3|].
    exists s', (2 + n)%nat. split; [by eapply nsteps_more|]. rewrite G4 in H2'.
    split; [lia|]. repeat split; try done; congruence.
  - set (s1 := Sys (y_store s) (y_engine s)
        (load_ips (y_ip s) (IPRules (read_at (y_store s) None))).1 (y_queue s) Waiting (y_unannounced s)
        (y_failed s || (load_ips (y_ip s) (IPRules (read_at (y_store s) None))).2)).
    destruct (drains s1) as (s' & n & H1' & H2' & H3' & H4' & H5' & H6' & H7' & H8'); [done|done|].
    exists s', (1 + n)%nat. split; [|repeat split; try done; cbn in *; lia].
    eapply (nsteps_l _ n s s1); [|exact H1'].
    pose proof (step_ips None s Hp) as Hst. unfold s1. by destruct (load_ips _ _).
Qed.
End Watch.

(** ** Properties *)

(** C14: An engine with nothing left to do enforces what is stored.  Whatever the dashboard changed,
    however the announcements came, were lost or found the buffer full, and however the reads of
    a reload interleaved with further changes: when the engine is waiting with no announcement
    left, the last change has been announced and the last reload failed nowhere, then every rule
    of the chain is on exactly when the store says so, and the access list is the one the store
    lists. *)
Theorem config_follows_store `{CidrType} `{UnicodePrint} {W} s0 (e : Engine W) ip s :
  sound s0 -> rtc step (begin s0 e ip) s ->
  y_phase s = Waiting -> y_queue s = [] -> y_unannounced s = false -> y_failed s = false ->
  (forall r, r ∈ rules (y_engine s) ->
     index (enabled (y_engine s)) (rule_Name r) = switch_on (y_store s) (rule_Name r)) /\
  exists rows, IPRules (read_at (y_store s) None) = Ok rows /\ y_ip s = (IPBlock.Set_ NewIPBlock rows).1.
Proof.
  intros Hs Hst Hp Hq Hu Hf. pose proof (watch_steps _ _ Hst (watch_begin s0 e ip Hs)) as [Hs' _ Hd].
  destruct Hd as [Hd|[Hd|[Hd|Hd]]]; [congruence|done|congruence|].
  unfold settled in Hd. rewrite Hp in Hd. destruct Hd as [H1' H2'].
  split; [|exact H2']. intros r Hr. by apply fresh_switch.
Qed.

(** A change takes effect even when its announcement was lost.  From any situation the two
    processes can get into, when the store is left alone and can be read, the engine needs no more
    than thirty steps of its own — the rest of a reload, one reload for each of the at most eight
    announcements waiting, and the periodic one — until its switches and its access list are the
    stored ones. *)
Theorem change_takes_effect `{CidrType} `{UnicodePrint} {W} s0 (e : Engine W) ip s :
  sound s0 -> rtc step (begin s0 e ip) s ->
  exists s' n, nsteps (engine_step None) n s s' /\ (n < 30)%nat /\ y_store s' = y_store s /\
    (forall r, r ∈ rules (y_engine s) ->
       index (enabled (y_engine s')) (rule_Name r) = switch_on (y_store s) (rule_Name r)) /\
    exists rows, IPRules (read_at (y_store s) None) = Ok rows /\ y_ip s' = (IPBlock.Set_ NewIPBlock rows).1.
Proof.
  intros Hs Hst. pose proof (watch_steps _ _ Hst (watch_begin s0 e ip Hs)) as Hi.
  destruct (catches_up s Hi) as (s' & n & H1' & H2' & _ & _ & H5' & H6' & H7' & H8').
  pose proof (i_queue s Hi) as Hq. unfold control_buffer in Hq.
  exists s', n. split; [done|]. split; [lia|]. split; [done|]. split.
  - intros r Hr. rewrite fresh_switch; [by rewrite H5'|rewrite H5'; by apply (i_sound s Hi)|done|by rewrite H8'].
  - destruct H7' as (rows & Hr & E). exists rows. by rewrite H5' in Hr.
Qed.

(** ** A run *)

#[local] Existing Instance RuleStore.Sample.text_cidr.
#[local] Existing Instance IPBlock.ascii_print.

Definition sample_chain : Engine unit :=
  Rules.New (map (fun n => MkRule n (fun w _ => (w, (Model.Allow, EmptyString))) None) ["ipblock"; "xss"]).

Definition sample_begin : system := begin RuleStore.Sample.seeded sample_chain NewIPBlock.

(** The engine loads, the dashboard switches a rule off, and nothing is announced. *)
Definition sample_change : call := Call 10 None (Switch "xss" false "ana").
Definition sample_changed : system :=
  Sys (run RuleStore.Sample.seeded sample_change) sample_chain NewIPBlock [] Loading true false.

Lemma sample_changed_steps : rtc step sample_begin sample_changed.
Proof. apply rtc_once. exact (step_change sample_begin sample_change). Defined.

Lemma change_takes_effect_witness : exists s' : system (W := unit),
  index (enabled (y_engine s')) "xss" = false /\ index (enabled (y_engine s')) "ipblock" = true.
Proof.
  destruct (change_takes_effect RuleStore.Sample.seeded sample_chain NewIPBlock sample_changed
    RuleStore.Sample.seeded_sound sample_changed_steps) as (s' & n & _ & _ & _ & Hx & _).
  exists s'. split.
  - apply (Hx (MkRule "xss" (fun w _ => (w, (Model.Allow, EmptyString))) None)). right. left.
  - apply (Hx (MkRule "ipblock" (fun w _ => (w, (Model.Allow, EmptyString))) None)). left.
Defined.

Lemma config_follows_store_witness : exists s : system (W := unit),
  rtc step sample_begin s /\ index (enabled (y_engine s)) "xss" = true.
Proof.
  set (r1 := EnabledMap (read_at RuleStore.Sample.seeded None)).
  set (s1 := let '(e, failed) := load_switches sample_chain r1 in
             Sys RuleStore.Sample.seeded e NewIPBlock [] HalfLoaded false failed : system (W := unit)).
  set (s2 := let '(ip, failed) := load_ips (y_ip s1) (IPRules (read_at (y_store s1) None)) in
             Sys (y_store s1) (y_engine s1) ip (y_queue s1) Waiting (y_unannounced s1) (y_failed s1 || failed)).
  assert (rtc step sample_begin s2) as Hs.
  { apply (rtc_l _ _ s1); [apply (step_engine None); exact (step_switches None sample_begin eq_refl)|].
    apply rtc_once. apply (step_engine None). exact (step_ips None s1 eq_refl). }
  exists s2. split; [exact Hs|].
  destruct (config_follows_store RuleStore.Sample.seeded sample_chain NewIPBlock s2
    RuleStore.Sample.seeded_sound Hs eq_refl eq_refl eq_refl eq_refl) as [Hx _].
  apply (Hx (MkRule "xss" (fun w _ => (w, (Model.Allow, EmptyString))) None)). right. left.
Defined.
