(* ===== verification/Process.v ===== *)
(** * The engine process

    [run] and [shutdown] of [engine/cmd/engine/main.go]: what start-up does with everything it
    finds, in order, up to the first record; and the end of the process, with requests still being
    served, the audit queue and one deadline of twenty seconds shared by both. *)

From S2P Require Import Prelude Utf8 GoText GoTime GoJson GoJsonRound GoStruct Netip Sha256 Canonical Model AuditChain AuditRepo AuditWriter RateLimit Rules IPBlock Patterns Config Migrate RuleStore Assembly.

(** ** Start-up *)

Section Start.
Context `{UnicodePrint} `{Regexp} `{CidrType} {R : Type} `{Redis R} {L : Type} `{Repository L}
  {S : Type} (exec : S -> string -> result S).

(** What the process finds: its environment, its files, the servers it connects to, what goes wrong
    around the migrations, and what the tables hold once these are applied. *)
Record outside := Outside {
  o_env : Config.env;
  o_version : string;
  o_embedded : string;
  o_read : string -> result string;
  o_postgres : string -> result unit;
  o_redis : string -> string -> Z -> result unit;
  o_migrations : list file;
  o_faults : faults;
  o_db : db (S := S);
  o_log : db (S := S) -> L;
  o_store : db (S := S) -> store;
  o_now : Z;
  o_uuid : string
}.

Record process := MkProcess {
  p_cfg : EngineConfig;
  p_engine : Engine (world (R := R));
  p_ip : IPBlock.IPBlock;
  p_rate : RateLimitRule;
  p_writer : Writer L
}.

(** [writer.Record] with no other caller in between. *)
Definition record_now (w : Writer L) (item : queued) : Writer L :=
  let w1 := enter w item in
  if w_closed w then w1 else default w1 (leave w1 (w_inflight w) [] item).

Definition started_payload (version : string) (e : Engine (world (R := R))) (cfg : EngineConfig) : gobj :=
  [("event", VString "engine_started"); ("version", VString version); ("chain", VStrings (Names e));
   ("ratelimit_limit", VInt (c_RateLimitRequests cfg));
   ("ratelimit_window", VString (duration_str (c_RateLimitWindow cfg)))].

(** [run] up to [ListenAndServe]; the database as it is left, also when start-up fails. *)
Definition run (o : outside) : db (S := S) * result process :=
  let '(cfg, err) := LoadEngine (o_env o) in
  match err, o_postgres o (c_PostgresDSN cfg) with
  | Some m, _ | None, Err m => (o_db o, Err m)
  | None, Ok _ =>
      let '(d, applied) := Migrate.Apply exec (o_faults o) (o_migrations o) (o_db o) in
      (d,
       _ ← applied;
       _ ← o_redis o (c_RedisAddr cfg) (c_RedisPass cfg) (c_RedisDB cfg);
       w ← NewWriter (o_log o d) (c_AuditBuffer cfg) true;
       signatures ← LoadSignatures (o_embedded o) (o_read o) (Getenv (o_env o) "OS_PATTERNS_FILE");
       let limiter := RateLimit.New (c_RateLimitRequests cfg) (c_RateLimitWindow cfg) in
       let '(chain, ip) := applyConfig (engine_of signatures (c_MaxBodyInspect cfg)) NewIPBlock
                             (EnabledMap (o_store o d)) (IPRules (o_store o d)) in
       Ok (MkProcess cfg chain ip (NewRateLimit limiter)
             (record_now w (Queued (build (o_now o) (o_uuid o) KindSystem EmptyString
                                      (started_payload (o_version o) chain cfg)) false))))
  end.
End Start.
Arguments outside {_} L S.

(** ** Shutdown *)

Section Shutdown.
Context {L : Type} `{Repository L}.

(** Where [run] and [shutdown] are, after the server was started: waiting for a signal, in
    [server.Shutdown], about to record, about to close, in the wait of [Close], returned. *)
Inductive phase := Serving | Draining | Announcing | Closing | Awaiting | Exited (r : result WriterStats).

(** [x_expired] is the deadline; [x_idle] counts the handlers that are not inside a call of the
    writer.  A connection that was accepted before can still begin a request while the server is
    shut down. *)
Record proc := Proc { x_phase : phase; x_expired : bool; x_idle : nat; x_writer : Writer L }.

Definition running (p : phase) : Prop := match p with Exited _ => False | _ => True end.

(** A handler that calls the writer is not idle until the call returns. *)
Definition call (x : proc) (item : queued) : proc :=
  Proc (x_phase x) (x_expired x)
    (if w_closed (x_writer x) then x_idle x else pred (x_idle x)) (enter (x_writer x) item).

Definition in_phase (x : proc) (p : phase) : proc := Proc p (x_expired x) (x_idle x) (x_writer x).
Definition with_writer (x : proc) (idle : nat) (w : Writer L) : proc := Proc (x_phase x) (x_expired x) idle w.

(** The record [shutdown] makes. *)
Definition stopping (now : Z) (uuid : string) : queued :=
  Queued (build now uuid KindSystem EmptyString [("event", VString "engine_stopping")]) false.

Inductive pstep : proc -> proc -> Prop :=
| step_request x : running (x_phase x) -> pstep x (with_writer x (S (x_idle x)) (x_writer x))
| step_response x n : running (x_phase x) -> x_idle x = S n -> pstep x (with_writer x n (x_writer x))
| step_record x now uuid kind rid payload sync : running (x_phase x) -> (0 < x_idle x)%nat ->
    pstep x (call x (Queued (build now uuid kind rid payload) sync))
| step_return x w a item b : running (x_phase x) -> w_inflight (x_writer x) = a ++ item :: b ->
    leave (x_writer x) a b item = Some w -> pstep x (with_writer x (S (x_idle x)) w)
| step_give_up x a item b : running (x_phase x) -> w_inflight (x_writer x) = a ++ item :: b ->
    q_done item = true -> pstep x (with_writer x (S (x_idle x)) (set_inflight (x_writer x) (a ++ b)))
| step_write x w : running (x_phase x) -> run_one (x_writer x) = Some w -> pstep x (with_writer x (x_idle x) w)
| step_drained x : running (x_phase x) -> w_closed (x_writer x) = true -> w_queue (x_writer x) = [] ->
    pstep x (with_writer x (x_idle x) (finish (x_writer x)))
| step_listen_error x m : x_phase x = Serving -> pstep x (in_phase x (Exited (Err m)))
| step_signal x : x_phase x = Serving -> pstep x (in_phase x Draining)
| step_deadline x : running (x_phase x) -> x_phase x <> Serving ->
    pstep x (Proc (x_phase x) true (x_idle x) (x_writer x))
| step_shutdown x : x_phase x = Draining -> x_idle x = O -> w_inflight (x_writer x) = [] ->
    pstep x (in_phase x Announcing)
| step_shutdown_late x : x_phase x = Draining -> x_expired x = true -> pstep x (in_phase x Announcing)
| step_announce x now uuid : x_phase x = Announcing ->
    pstep x (Proc Closing (x_expired x) (x_idle x) (record_now (x_writer x) (stopping now uuid)))
| step_close_writer x : x_phase x = Closing -> w_inflight (x_writer x) = [] ->
    pstep x (Proc Awaiting (x_expired x) (x_idle x) (close (x_writer x)))
| step_stopped x : x_phase x = Awaiting -> w_done (x_writer x) = true ->
    pstep x (in_phase x (Exited (Ok (Stats_of (x_writer x)))))
| step_cut_short x : x_phase x = Awaiting -> x_expired x = true ->
    pstep x (in_phase x (Exited (Err "draining the audit queue: context deadline exceeded"))).

Definition serving (w : Writer L) : proc := Proc Serving false 0 w.
End Shutdown.

(** ** Lemmas *)

Section Lemmas.
Context {L : Type} `{Repository L}.

Lemma record_now_steps (w : Writer L) now uuid kind rid payload :
  wsteps w (record_now w (Queued (build now uuid kind rid payload) false)).
Proof.
  set (item := Queued (build now uuid kind rid payload) false). unfold record_now.
  assert (wsteps w (enter w item)) as He by (eapply wsteps_step; [constructor|apply step_enter]).
  destruct (w_closed w) eqn:Ec; [exact He|].
  destruct (leave (enter w item) (w_inflight w) [] item) as [w'|] eqn:El; [|exact He].
  eapply wsteps_step; [exact He|]. eapply step_leave; [|exact El].
  unfold enter. cbn [q_done item]. cbn. by rewrite Ec.
Qed.

(** Every step of the process is a run of the writer. *)
Lemma pstep_writer x y : pstep x y -> wsteps (x_writer x) (x_writer y).
Proof.
  intros Hs. destruct Hs; cbn; try apply wsteps_refl; try apply record_now_steps; try (eapply wsteps_step; [apply wsteps_refl|]).
  - apply step_enter.
  - by eapply step_leave.
  - by eapply step_cancel.
  - by apply step_run.
  - by apply step_finish.
  - by apply step_close.
Qed.

Lemma psteps_writer x y : rtc pstep x y -> wsteps (x_writer x) (x_writer y).
Proof.
  induction 1 as [|x y z Hs _ IH]; [constructor|]. eapply wsteps_trans; [by apply pstep_writer|exact IH].
Qed.
End Lemmas.

(** ** What the process leaves *)

Section Outcome.
Context {L : Type} `{RepositoryLaws L}.

Definition is_stopping (q : queued) : Prop := exists now uuid, q = stopping now uuid.

(** The record of the shutdown went to the writer, or was counted as dropped. *)
Definition announced (w : Writer L) : Prop := (exists q, q ∈ w_sent w /\ is_stopping q) \/ 0 < w_dropped w.

Record pinv (x : proc (L := L)) : Prop := {
  pi_books : books (x_writer x);
  pi_open : w_closed (x_writer x) = true -> x_phase x = Awaiting \/ exists r, x_phase x = Exited r;
  pi_dropped : 0 <= w_dropped (x_writer x);
  pi_announced : x_phase x = Closing \/ x_phase x = Awaiting \/ (exists s, x_phase x = Exited (Ok s)) ->
    announced (x_writer x);
  pi_exit : forall s, x_phase x = Exited (Ok s) -> w_done (x_writer x) = true /\ s = Stats_of (x_writer x)
}.

Lemma wstep_dropped (w w' : Writer L) : wstep w w' -> w_dropped w <= w_dropped w'.
Proof.
  intros Hs. destruct Hs as [w now uuid kind rid p sync|w w2 a item b E Hl| |w w2 Hr| |]; cbn; try lia.
  - unfold enter. cbn [q_done]. destruct sync; cbn; destruct (w_closed w); cbn; lia.
  - unfold leave in Hl. cbn [w_closed set_inflight] in Hl. destruct (w_closed w); [injection Hl as <-; cbn; lia|].
    destruct (_ <? _)%nat; [injection Hl as <-; cbn; lia|]. destruct (q_done item); [done|]. injection Hl as <-. cbn. lia.
  - unfold run_one in Hr. destruct (w_queue w) as [|item q]; [done|].
    destruct (append (receive w q) (q_entry item)) as [w1 o] eqn:Ea. injection Hr as <-. cbn.
    apply append_frame in Ea as (_ & _ & _ & F & _). rewrite F. cbn. lia.
Qed.

Lemma wsteps_monotone (w w' : Writer L) : wsteps w w' ->
  w_dropped w <= w_dropped w' /\ exists l, w_sent w' = w_sent w ++ l.
Proof.
  induction 1 as [w|w w1 w2 _ [IH1 [l IH2]] Hs]; [split; [lia|by exists []; rewrite app_nil_r]|].
  pose proof (wstep_dropped _ _ Hs). destruct (step_sent _ _ Hs) as [l' E].
  split; [lia|]. exists (l ++ l'). by rewrite E, IH2, app_assoc.
Qed.

Lemma announced_later (w w' : Writer L) : wsteps w w' -> announced w -> announced w'.
Proof.
  intros [Hd [l E]]%wsteps_monotone [(q & Hq & Hs)|Ha].
  - left. exists q. split; [|done]. rewrite E. apply elem_of_app. by left.
  - right. lia.
Qed.

(** The log has the entry, sealed. *)
Definition recorded (w : Writer L) (e : AuditEntry) : Prop :=
  exists x s, x ∈ log (w_repo w) /\ same_entry x s /\ sealed_from e s.

(** A failed append is counted. *)
Lemma failure_counted (w : Writer L) e m : books w -> (e, Some m) ∈ w_processed w -> 0 < w_failures w.
Proof.
  intros [_ B2 B3 _ _ _ _ _] Hin. apply list_elem_of_In, in_split in Hin as (a & b & E).
  rewrite E in B2, B3. unfold successes in B2. rewrite List.filter_app, map_app, length_app in B2.
  cbn [List.filter ok_outcome snd] in B2. rewrite !length_map in B2. rewrite length_app in B3. cbn in B3.
  pose proof (List.filter_length_le ok_outcome a). pose proof (List.filter_length_le ok_outcome b). lia.
Qed.

(** What became of the record of the shutdown once the queue is empty. *)
Lemma announced_outcome log0 (w : Writer L) added stored : grown log0 w added stored -> books w ->
  w_queue w = [] -> announced w ->
  exists q, is_stopping q /\
    (recorded w (q_entry q) \/ ((exists m, (q_entry q, Some m) ∈ w_processed w) /\ 0 < w_failures w) \/
     0 < w_dropped w).
Proof.
  intros Hg Hb Hq [(q & Hsent & Hs)|Hd].
  2: { exists (stopping 0 EmptyString). split; [by eexists _, _|by right; right]. }
  exists q. split; [done|].
  assert (exists o, (q_entry q, o) ∈ w_processed w) as [[m|] Ho].
  { pose proof (bk_order _ Hb) as Ho. rewrite Hq, app_nil_r in Ho.
    assert (q_entry q ∈ map fst (w_processed w)) as Hin by (rewrite Ho; by apply (list_elem_of_fmap_2 q_entry)).
    apply list_elem_of_In, in_map_iff in Hin as ([e o] & Ee & Hin). cbn in Ee. subst e.
    exists o. by apply list_elem_of_In. }
  - right. left. split; [by exists m|]. by eapply failure_counted.
  - left. by apply (grown_stored log0 w added stored).
Qed.

(** A record that is not dropped is sent. *)
Lemma record_now_announced (w : Writer L) now uuid : books w -> 0 <= w_dropped w ->
  announced (record_now w (stopping now uuid)) /\ w_closed (record_now w (stopping now uuid)) = w_closed w.
Proof.
  intros Hb Hd. unfold record_now. destruct (w_closed w) eqn:Ec.
  - unfold enter. cbn [q_done stopping w_closed called]. rewrite Ec. split; [right; cbn; lia|done].
  - assert (enter w (stopping now uuid) = set_inflight (called w) (w_inflight w ++ [stopping now uuid])) as ->
      by (unfold enter; cbn [q_done stopping w_closed called]; by rewrite Ec).
    unfold leave. cbn [w_closed set_inflight called w_queue w_cap q_done stopping]. rewrite Ec.
    destruct (_ <? _)%nat; cbn [default]; (split; [|done]).
    + left. eexists. split; [|by eexists _, _]. cbn. apply elem_of_app. right. left.
    + right. cbn. lia.
Qed.

Lemma enter_closed (w : Writer L) item : w_closed (enter w item) = w_closed w.
Proof. unfold enter. destruct (q_done item); cbn; by destruct (w_closed w) eqn:E; cbn. Qed.

Lemma leave_closed (w w' : Writer L) a b item : leave w a b item = Some w' -> w_closed w' = w_closed w.
Proof.
  unfold leave. cbn [w_closed set_inflight]. destruct (w_closed w) eqn:E; [by intros [= <-]|].
  destruct (_ <? _)%nat; [by intros [= <-]|]. destruct (q_done item); [done|by intros [= <-]].
Qed.

Lemma run_one_closed (w w' : Writer L) : run_one w = Some w' -> w_closed w' = w_closed w.
Proof.
  intros Hr. destruct (w_queue w) as [|item q] eqn:E; [unfold run_one in Hr; by rewrite E in Hr|].
  destruct (run_one_total w item q E) as (w1 & E1 & _ & Hc & _). congruence.
Qed.

Lemma pinv_stays x y : pinv x -> wsteps (x_writer x) (x_writer y) -> running (x_phase x) ->
  x_phase y = x_phase x -> w_closed (x_writer y) = w_closed (x_writer x) -> pinv y.
Proof.
  intros [B O D A E] Hw Hr Hp Hc. pose proof (wsteps_monotone _ _ Hw) as [Hd _].
  split; rewrite ?Hp, ?Hc; try done.
  - by eapply steps_books.
  - lia.
  - intros Ha. eapply announced_later; [exact Hw|]. by apply A.
  - intros r Hx. by rewrite Hx in Hr.
Qed.

Lemma pstep_inv x y : pinv x -> pstep x y -> pinv y.
Proof.
  intros Hi Hs. pose proof (pstep_writer _ _ Hs) as Hw. pose proof Hi as [B O D A E].
  pose proof (steps_books _ _ B Hw) as By. pose proof (wsteps_monotone _ _ Hw) as [Hd _].
  assert (0 <= w_dropped (x_writer y)) as Dy by lia.
  destruct Hs as [x Hr|x n Hr Hn|x now uuid kind rid p sync Hr Hi'|x w a item b Hr Hi' Hl|x a item b Hr Hi' Hd'
    |x w Hr Hw'|x Hr Hc Hq|x m Hp|x Hp|x Hr Hp|x Hp Hi' Hf|x Hp He|x now uuid Hp|x Hp Hf|x Hp Hd'|x Hp He].
  1-7, 10: apply (pinv_stays _ _ Hi Hw Hr); [done|].
  - done.
  - done.
  - apply enter_closed.
  - by eapply leave_closed.
  - done.
  - by apply run_one_closed.
  - done.
  - done.
  - split; cbn in *; try done; try (intros Hc; destruct (O Hc) as [?|[? ?]]; congruence).
    + by intros [?|[?|[? ?]]].
  - split; cbn in *; try done; try (intros Hc; destruct (O Hc) as [?|[? ?]]; congruence).
    + by intros [?|[?|[? ?]]].
  - split; cbn in *; try done; try (intros Hc; destruct (O Hc) as [?|[? ?]]; congruence).
    + by intros [?|[?|[? ?]]].
  - split; cbn in *; try done; try (intros Hc; destruct (O Hc) as [?|[? ?]]; congruence).
    + by intros [?|[?|[? ?]]].
  - destruct (record_now_announced (x_writer x) now uuid B D) as [Ha Hc].
    split; cbn in *; try done. rewrite Hc. intros Hcl. destruct (O Hcl) as [?|[? ?]]; congruence.
  - split; cbn in *; try done; [by left|]. intros _. eapply announced_later; [exact Hw|]. apply A. by left.
  - split; cbn in *; try done; [by right; eexists| |].
    + intros _. apply A. by right; left.
    + by intros s [= <-].
  - split; cbn in *; try done; [by right; eexists|]. by intros [?|[?|[? ?]]].
Qed.

Lemma psteps_inv x y : rtc pstep x y -> pinv x -> pinv y.
Proof. induction 1; eauto using pstep_inv. Qed.

Lemma serving_inv w : books w -> w_closed w = false -> 0 <= w_dropped w -> pinv (serving w).
Proof.
  intros Hb Hc Hd. split; cbn; try done; [by rewrite Hc|]. by intros [?|[?|[? ?]]].
Qed.
End Outcome.

(** ** Properties *)

Section Started.
Context `{UnicodePrint} `{Regexp} `{CidrType} {R : Type} `{Redis R} {L : Type} `{Repository L}
  {S : Type} (exec : S -> string -> result S).

Lemma Ok_bind {A B} (r : result A) (f : A -> result B) b : (x ← r; f x) = Ok b -> exists a, r = Ok a /\ f a = Ok b.
Proof. destruct r as [a|m]; [|done]. by exists a. Qed.

Lemma applyConfig_fst (e : Engine (world (R := R))) ip enabled rows :
  applyConfig e ip enabled rows =
    (match enabled with Ok on => Rules.SetEnabled e on | Err _ => e end,
     match rows with Ok rows => (IPBlock.Set_ ip rows).1 | Err _ => ip end).
Proof. by destruct enabled, rows. Qed.

Lemma chain_switches set max enabled (rule : Rule (world (R := R))) : rule ∈ engine_chain set max ->
  index (Rules.enabled match enabled with
                       | Ok on => Rules.SetEnabled (engine_of set max) on
                       | Err _ => engine_of set max end) (rule_Name rule)
  = match enabled with Ok on => index on (rule_Name rule) | Err _ => true end.
Proof.
  intros Hin. destruct enabled as [on|m]; [by apply SetEnabled_index|by apply New_lookup].
Qed.

Lemma record_now_open (w : Writer L) item : w_closed w = false -> q_done item = false ->
  w_queue w = [] -> (0 < w_cap w)%nat ->
  w_queue (record_now w item) = [item] /\ w_head (record_now w item) = w_head w.
Proof.
  intros Hc Hd Hq Hcap. unfold record_now. rewrite Hc.
  assert (enter w item = set_inflight (called w) (w_inflight w ++ [item])) as ->
    by (unfold enter; rewrite Hd; cbn [w_closed called]; by rewrite Hc).
  unfold leave. cbn [w_closed set_inflight called w_queue w_cap]. rewrite Hc, Hq.
  cbn [List.length]. rewrite (proj2 (Nat.ltb_lt 0 (w_cap w)) Hcap). cbn. by rewrite Hq.
Qed.

(** C29: What start-up guarantees.  The engine gets to listening exactly when its environment is
    well formed, the database answers, nothing goes wrong around the migrations that are not
    applied and their SQL succeeds, Redis answers, the last hash of the log can be read, the audit
    buffer is no larger than a channel can be, and all signatures compile; failing any of these it
    does not start, and the database holds the migrations before the failure.  Once it listens the chain is the
    access list, the rate limit and the two signature rules in this order, with a limit and a
    window greater than zero; a rule is off only when the store was read and says so, and the
    access list is the stored one, or empty when it could not be read; and the first entry on its
    way to the log says what was started, linked to the last one that is there. *)
Theorem startup_exact o schema0 d r :
  NoDup (sortedMigrations (o_migrations o)) ->
  applied_up_to exec (o_migrations o) schema0 (o_db o) ->
  run (R := R) (L := L) exec o = (d, r) ->
  let '(cfg, err) := LoadEngine (o_env o) in
  (is_Ok r = true <->
   err = None /\ is_Ok (o_postgres o (c_PostgresDSN cfg)) = true /\
   quiet (o_faults o) (o_migrations o) (o_db o) /\
   is_Some (replay exec (o_migrations o) schema0 (sortedMigrations (o_migrations o))) /\
   is_Ok (o_redis o (c_RedisAddr cfg) (c_RedisPass cfg) (c_RedisDB cfg)) = true /\
   is_Ok (Head (o_log o d)) = true /\ c_AuditBuffer cfg * queued_size <= 2 ^ 48 - 96 /\
   is_Ok (LoadSignatures (o_embedded o) (o_read o) (Getenv (o_env o) "OS_PATTERNS_FILE")) = true) /\
  applied_up_to exec (o_migrations o) schema0 d /\
  forall p, r = Ok p ->
    d_versions d = sortedMigrations (o_migrations o) /\
    map rule_Name (rules (p_engine p)) = ["ipblock"; "ratelimit"; "sqli"; "xss"] /\
    0 < l_limit (limiter (p_rate p)) /\ 0 < l_window (limiter (p_rate p)) /\
    (forall rule, rule ∈ rules (p_engine p) ->
       index (enabled (p_engine p)) (rule_Name rule)
       = match EnabledMap (o_store o d) with Ok on => index on (rule_Name rule) | Err _ => true end) /\
    p_ip p = match IPRules (o_store o d) with Ok rows => (IPBlock.Set_ NewIPBlock rows).1 | Err _ => NewIPBlock end /\
    (exists e, w_queue (p_writer p) = [Queued e false] /\ e_Kind e = KindSystem /\
       assoc "chain" (e_Payload e) = Some (VStrings ["ipblock"; "ratelimit"; "sqli"; "xss"])) /\
    (exists w, NewWriter (o_log o d) (c_AuditBuffer cfg) true = Ok w /\ w_head (p_writer p) = w_head w).
Proof.
  intros Hnd Hd. unfold run. pose proof (engine_config_exact (o_env o)) as Hcfg.
  destruct (LoadEngine (o_env o)) as [cfg err]. destruct Hcfg as [Hcfg _].
  destruct err as [m|].
  { intros [= <- <-]. split; [by split; [|intros []]|]. by split. }
  destruct (proj1 Hcfg eq_refl) as (_ & _ & _ & _ & _ & _ & Hreq & Hwin & _). clear Hcfg.
  destruct (o_postgres o (c_PostgresDSN cfg)) as [u|m].
  2: { intros [= <- <-]. split; [by split; [|intros (_ & ? & _)]|]. by split. }
  destruct (Migrate.Apply exec (o_faults o) (o_migrations o) (o_db o)) as [d1 applied] eqn:Ha. intros [= -> <-].
  destruct (Apply_run exec (o_migrations o) schema0 Hnd (o_faults o) (o_db o) d applied Hd Ha) as (M1 & _ & M3 & M4).
  split; [|split; [exact M1|]].
  - rewrite (and_assoc (quiet _ _ _)), <- M3.
    destruct applied as [[]|m]; [|by split; [|intros (_ & _ & ? & _)]].
    cbn [mbind result_bind]. destruct (o_redis _ _ _ _) as [[]|m]; [|by split; [|intros (_ & _ & _ & ? & _)]].
    cbn [mbind result_bind]. rewrite (and_assoc (is_Ok (Head _) = true)), <- (NewWriter_is_Ok _ _ true).
    destruct (NewWriter _ _ _) as [w|m]; [|by split; [|intros (_ & _ & _ & _ & ? & _)]].
    cbn [mbind result_bind]. destruct (LoadSignatures _ _ _) as [set|m]; [|by split; [|intros (_ & _ & _ & _ & _ & ?)]].
    cbn [mbind result_bind]. rewrite applyConfig_fst. by split.
  - intros p Hp. apply Ok_bind in Hp as ([] & -> & Hp). apply Ok_bind in Hp as (_ & _ & Hp).
    apply Ok_bind in Hp as (w & Hw & Hp). apply Ok_bind in Hp as (set & _ & Hp).
    rewrite applyConfig_fst in Hp. injection Hp as <-. cbn [p_engine p_ip p_rate p_writer limiter NewRateLimit].
    set (on := EnabledMap (o_store o d)). split; [by apply M4|].
    assert (rules match on with
                  | Ok on => Rules.SetEnabled (engine_of set (c_MaxBodyInspect cfg)) on
                  | Err _ => engine_of set (c_MaxBodyInspect cfg) end
            = engine_chain (R := R) set (c_MaxBodyInspect cfg)) as E by by destruct on.
    rewrite E. split; [done|]. split; [done|]. split; [done|].
    split; [intros rule Hrule; by apply chain_switches|]. split; [done|].
    assert (w_closed w = false /\ w_queue w = [] /\ (0 < w_cap w)%nat) as (Wc & Wq & Wp).
    { by apply NewWriter_ok in Hw as (h & cap & _ & ? & ->). }
    destruct (record_now_open w (Queued (build (o_now o) (o_uuid o) KindSystem EmptyString
      (started_payload (o_version o) match on with
         | Ok on => Rules.SetEnabled (engine_of set (c_MaxBodyInspect cfg)) on
         | Err _ => engine_of set (c_MaxBodyInspect cfg) end cfg)) false)) as [Q1 Q2]; try done.
    split; [|by exists w].
    eexists. split; [exact Q1|]. split; [done|]. cbn. unfold Names. by rewrite E.
Qed.
End Started.

Section Stopped.
Context {L : Type} `{RepositoryLaws L}.


(** One request that outlasts the deadline is enough for the queue to be given up: [Close] is left
    nothing of the twenty seconds it shares with [server.Shutdown], and what is queued is lost,
    although the store works.  The chain that is left does not show it. *)
Theorem drain_cut_short w :
  w_closed w = false -> w_inflight w = [] -> exists x,
  rtc pstep (Proc Serving false 1 w) x /\
  x_phase x = Exited (Err "draining the audit queue: context deadline exceeded") /\
  (exists l, w_queue (x_writer x) = w_queue w ++ l) /\ w_processed (x_writer x) = w_processed w /\
  w_repo (x_writer x) = w_repo w.
Proof.
  intros Hc Hf. set (w1 := record_now w (stopping 0 EmptyString)).
  assert (w_inflight w1 = [] /\ (exists l, w_queue w1 = w_queue w ++ l) /\ w_processed w1 = w_processed w /\
    w_repo w1 = w_repo w) as (F1 & F2 & F3 & F4).
  { unfold w1, record_now. rewrite Hc.
    assert (enter w (stopping 0 EmptyString) = set_inflight (called w) (w_inflight w ++ [stopping 0 EmptyString])) as ->
      by (unfold enter; cbn [q_done stopping w_closed called]; by rewrite Hc).
    unfold leave. cbn [w_closed set_inflight called w_queue w_cap q_done stopping]. rewrite Hc, Hf.
    destruct (_ <? _)%nat; cbn; (split; [done|]; split; [|done]); [by eexists|]. exists []. by rewrite app_nil_r. }
  exists (Proc (Exited (Err "draining the audit queue: context deadline exceeded")) true 1 (close w1)).
  split; [|done].
  eapply rtc_l; [by apply step_signal|]. eapply rtc_l; [by apply step_deadline|].
  eapply rtc_l; [by apply step_shutdown_late|]. eapply rtc_l; [by apply (step_announce _ 0 EmptyString)|].
  eapply rtc_l; [by apply step_close_writer|]. apply rtc_once. by apply step_cut_short.
Qed.
End Stopped.

(** ** Runs *)

#[local] Existing Instance RateLimit.map_redis.
#[local] Existing Instance Patterns.literals.
#[local] Existing Instance IPBlock.ascii_print.
#[local] Existing Instance RuleStore.Sample.text_cidr.

(** A signature file with one literal pattern of each kind. *)
Definition small_file : string :=
  let q (s : string) := str1 dquote +:+ s +:+ str1 dquote in
  let one (id pattern : string) := "[{" +:+ q "id" +:+ ":" +:+ q id +:+ "," +:+ q "pattern" +:+ ":" +:+ q pattern +:+ "}]" in
  "{" +:+ q "sqli" +:+ ":" +:+ one "union" "union select" +:+ "," +:+ q "xss" +:+ ":" +:+ one "tag" "<script" +:+ "}".

(** A first start: an empty database, two migrations, the seeded tables. *)
Definition sample_outside : outside (list AuditEntry) string :=
  Outside {["OS_POSTGRES_DSN" := "postgres://db"]} "1.0" small_file (fun _ => Err "no such file")
    (fun _ => Ok tt) (fun _ _ _ => Ok tt) pair_src no_faults (Db EmptyString [])
    (fun _ => []) (fun _ => RuleStore.Sample.seeded) (1700000000 * second) "a".

Lemma startup_sorted : NoDup (sortedMigrations (o_migrations sample_outside)).
Proof.
  assert (sortedMigrations (o_migrations sample_outside) = ["001_audit.sql"; "002_rules.sql"]) as ->
    by (vm_compute; reflexivity).
  repeat (apply list.NoDup_cons; split;
    [rewrite ?elem_of_cons, ?elem_of_nil; intuition congruence|]). apply NoDup_nil_2.
Defined.

Lemma startup_exact_witness :
  is_Ok (run (R := map_store) sample_exec sample_outside).2 = true.
Proof.
  pose proof (startup_exact (R := map_store) sample_exec sample_outside EmptyString
    (run (R := map_store) sample_exec sample_outside).1 (run (R := map_store) sample_exec sample_outside).2
    startup_sorted (conj (prefix_nil _) eq_refl) (surjective_pairing _)) as T.
  destruct (LoadEngine (o_env sample_outside)) as [cfg err] eqn:E.
  destruct T as [[_ T] _]. apply T. repeat split; try reflexivity.
  - transitivity (LoadEngine (o_env sample_outside)).2; [by rewrite E|vm_compute; reflexivity].
  - eexists. vm_compute. reflexivity.
  - assert (c_AuditBuffer cfg = 4096) as -> by
      (transitivity (c_AuditBuffer (LoadEngine (o_env sample_outside)).1); [by rewrite E|vm_compute; reflexivity]).
    discriminate.
Defined.

Definition stop_item : queued := stopping (1700000001 * second) "b".
Definition w_announced : Writer (list AuditEntry) := record_now run_stored stop_item.
Definition w_closing : Writer (list AuditEntry) := close w_announced.
Definition w_flushed : Writer (list AuditEntry) := default w_closing (run_one w_closing).
Definition stopped : proc :=
  Proc (Exited (Ok (Stats_of (finish w_flushed)))) false 0 (finish w_flushed).

Lemma recordable_stopping : recordable (S := list AuditEntry) (q_entry stop_item).
Proof.
  intros q prev Hq Hl. cbn in Hq. vm_compute in Hq. injection Hq as <-.
  split; [|exact I]. assert (prev <> EmptyString) as Hp by (intros ->; discriminate Hl).
  apply entry_ok_check.
  - constructor; [by apply (bool_decide_unpack _)|]. by repeat constructor.
  - reflexivity.
  - reflexivity.
  - unfold fields_of. rewrite seal_prev by done. cbn [forallb].
    replace (slen prev) with 64 by (unfold slen; by rewrite Hl). reflexivity.
Defined.

Lemma flushes : run_one w_closing = Some w_flushed.
Proof. unfold w_flushed. destruct (run_one w_closing) eqn:E; [reflexivity|]. exfalso. vm_compute in E. discriminate. Qed.

Lemma flushed : w_closed w_flushed = true /\ w_queue w_flushed = [] /\ w_inflight w_announced = [].
Proof. vm_compute. repeat split. Qed.

Definition x_at (p : phase) (w : Writer (list AuditEntry)) : proc := Proc p false 0 w.

Lemma stopped_reached : rtc pstep (serving run_stored) stopped.
Proof.
  destruct flushed as (Fc & Fq & Fi).
  apply (rtc_l _ _ (x_at Draining run_stored)); [exact (step_signal (serving run_stored) eq_refl)|].
  apply (rtc_l _ _ (x_at Announcing run_stored)); [exact (step_shutdown (x_at Draining run_stored) eq_refl eq_refl eq_refl)|].
  apply (rtc_l _ _ (x_at Closing w_announced));
    [exact (step_announce (x_at Announcing run_stored) (1700000001 * second) "b" eq_refl)|].
  apply (rtc_l _ _ (x_at Awaiting w_closing)); [exact (step_close_writer (x_at Closing w_announced) eq_refl Fi)|].
  apply (rtc_l _ _ (x_at Awaiting w_flushed)); [exact (step_write (x_at Awaiting w_closing) w_flushed I flushes)|].
  apply (rtc_l _ _ (x_at Awaiting (finish w_flushed)));
    [exact (step_drained (x_at Awaiting w_flushed) I Fc Fq)|].
  apply rtc_once. exact (step_stopped (x_at Awaiting (finish w_flushed)) eq_refl eq_refl).
Defined.

(** The run has no late error, no failed append and no dropped entry. *)
Lemma stopped_clean : ~ late_error AuditWriter.run_start (x_writer stopped) /\
  (0 <? w_failures (finish w_flushed)) = false /\ (0 <? w_dropped (finish w_flushed)) = false.
Proof. split; [apply memory_never_late|]. vm_compute. split; reflexivity. Qed.


Lemma drain_cut_short_run : exists x,
  rtc pstep (Proc Serving false 1 run_queued) x /\ w_queue (x_writer x) <> [] /\
  x_phase x = Exited (Err "draining the audit queue: context deadline exceeded").
Proof.
  destruct (drain_cut_short run_queued) as (x & Hx & Hp & (l & Hq) & _); [done|done|].
  exists x. split; [exact Hx|]. split; [|exact Hp]. by rewrite Hq.
Qed.
