(* ===== verification/System.v ===== *)
(** * From the dashboard to the proxy's verdict

    The components together: a change made through [DashApi], carried by the store and the control
    channel of [Watch] to the engine of [Assembly], and the record of it in the engine's chain. *)

From S2P Require Import Prelude Utf8 GoText GoTime GoJson GoStruct Netip Canonical Model AuditRepo RateLimit Rules IPBlock Patterns Assembly RuleStore Auth Support Events DashApi Watch.

#[local] Set Warnings "-clear-no-such-hyp".

(** A rule that is off decides nothing. *)
Lemma decide_loop_on {W} (on : gmap string bool) (todo : list (Rule W)) w req w' r reason :
  decide_loop on todo w req = (w', Some (r, reason)) -> r ∈ todo /\ index on (rule_Name r) = true.
Proof.
  revert w. induction todo as [|x todo IH]; intros w; cbn [decide_loop]; [done|].
  destruct (index on (rule_Name x)) eqn:E; cbn [negb].
  - destruct (rule_Evaluate x w req) as [w1 [[] m]].
    + intros Hx. destruct (IH w1 Hx). split; [by right|done].
    + intros [= _ <- _]. split; [left|done].
  - intros Hx. destruct (IH w Hx). split; [by right|done].
Qed.

Lemma Decide_on {W} (e : Engine W) w req start stop w' d :
  Decide e w req start stop = (w', d) -> d_Verdict d = Block ->
  exists r, r ∈ rules e /\ index (enabled e) (rule_Name r) = true /\ d_Rule d = rule_Name r.
Proof.
  unfold Decide. destruct (decide_loop _ _ _ _) as [w1 [[r reason]|]] eqn:E; intros [= _ <-]; cbn; [|done].
  intros _. apply decide_loop_on in E as [Hr Ho]. by exists r.
Qed.

(** A PATCH of a rule the store has, on a store that can be written, whose record is committed. *)
Record patch_accepted `{CidrType} `{UnicodePrint} `{Bcrypt} d v q (user name : string) (on : bool) : Prop := {
  pa_sound : sound (d_store d);
  pa_fault : s_fault (d_store d) = None;
  pa_name : pg_refuse name = None;
  pa_user : pg_refuse user = None;
  pa_body : decode_patch (q_Body q) = Some (Some on);
  pa_record : (RecordAdmin v user "rule.set_enabled"
     [("rule", VString name); ("enabled", VBool on); ("ip", VString (client_ip v q))]).2 = Ok tt;
  pa_known : is_Some (switch (d_store d) name)
}.

(** Whatever the world and the request, no decision of the chain is a block by this rule. *)
Definition never_blocks {W} (e : Engine W) (name : string) : Prop :=
  forall w req start stop w' x, Decide e w req start stop = (w', x) -> d_Verdict x = Block -> d_Rule x <> name.

(** C10: What an operator switches off stops blocking.  When a PATCH of a rule is recorded and
    the rule is one the store has, then whatever the engine was doing — in the middle of a reload,
    with announcements waiting, with this one lost — it needs fewer than thirty steps of its own,
    with the store left alone and readable, until no request whatever is blocked by that rule; and
    switching it on makes the chain ask it again. *)
Theorem patch_enforced `{CidrType} `{UnicodePrint} `{Bcrypt} {W} d v q user name on
    s0 (e0 : Engine W) ip0 s :
  patch_accepted d v q user name on ->
  sound s0 -> rtc Watch.step (begin s0 e0 ip0) s ->
  y_store s = d_store (handlePatchRule d v q user name).1.1 ->
  exists s' n, nsteps (engine_step None) n s s' /\ (n < 30)%nat /\
    (forall r, r ∈ rules (y_engine s) -> rule_Name r = name ->
       index (enabled (y_engine s')) (rule_Name r) = on) /\
    (on = false -> never_blocks (y_engine s') name).
Proof.
  intros [Hd Hf Hn Hu Hb Hr Hk] Hs Hst Hy.
  pose proof (SetEnabled_view (d_store d) name on user) as [Hview _].
  unfold intended, accepted in Hview. cbn [c_change c_fault forallb] in Hview.
  rewrite Hf, Hn, Hu in Hview. cbn [andb view_of v_switch] in Hview.
  assert (switch (y_store s) name = Some on) as Hsw.
  { rewrite Hy. unfold handlePatchRule. rewrite Hb. destruct (RecordAdmin v user "rule.set_enabled" _) as [ev r].
    cbn [snd] in Hr. subst r. specialize (Hview name). rewrite String.eqb_refl in Hview.
    destruct (SetEnabled (d_store d) name on user) as [s1 [rule|[m|m]]]; cbn [fst d_store with_store] in *;
      rewrite Hview; by destruct Hk as [b ->]. }
  pose proof (watch_steps _ _ Hst (watch_begin s0 e0 ip0 Hs)) as Hi.
  destruct (catches_up s Hi) as (s' & n & G1 & G2 & _ & _ & G5 & G6 & _ & G8).
  pose proof (i_queue s Hi) as Hq. unfold control_buffer in Hq.
  assert (forall r, r ∈ rules (y_engine s) -> rule_Name r = name ->
    index (enabled (y_engine s')) (rule_Name r) = on) as Hon.
  { intros r Hr' Hname. rewrite fresh_switch; [|rewrite G5; by apply (i_sound s Hi)|done|by rewrite G8].
    rewrite G5, Hname. unfold switch_on. by rewrite Hsw. }
  exists s', n. split; [done|]. split; [lia|]. split; [done|].
  intros -> w req start stop w' x Hx Hblock Hname.
  destruct (Decide_on _ _ _ _ _ _ _ Hx Hblock) as (r & Hin & Hidx & Hrule).
  rewrite (Hon r) in Hidx; [done|by rewrite <- G8|congruence].
Qed.

(** ** A run *)

#[local] Existing Instance RuleStore.Sample.text_cidr.
#[local] Existing Instance IPBlock.ascii_print.
#[local] Existing Instance Auth.plain_bcrypt.

(** The store of the sample dashboard after the sample PATCH, and an engine about to load. *)
Definition patched_dash : dash :=
  (handlePatchRule sample_dash sample_env (patch_request None "xss") "admin" "xss").1.1.

Definition after_patch : Watch.system := begin (d_store patched_dash) sample_chain NewIPBlock.

Lemma patched_sound : sound (d_store patched_dash).
Proof.
  apply (SetEnabled_sound RuleStore.Sample.seeded "xss" false "admin"). exact RuleStore.Sample.seeded_sound.
Defined.

Lemma patch_enforced_witness : exists s' : Watch.system (W := unit),
  index (enabled (y_engine s')) "xss" = false.
Proof.
  assert (decode_patch (q_Body (patch_request None "xss")) = Some (Some false)) as Hd by (vm_compute; reflexivity).
  assert ((RecordAdmin sample_env "admin" "rule.set_enabled"
    [("rule", VString "xss"); ("enabled", VBool false);
     ("ip", VString (client_ip sample_env (patch_request None "xss")))]).2 = Ok tt) as Hr by (vm_compute; reflexivity).
  assert (patch_accepted sample_dash sample_env (patch_request None "xss") "admin" "xss" false) as Ha.
  { split; [exact RuleStore.Sample.seeded_sound|reflexivity|reflexivity|reflexivity|exact Hd|exact Hr|].
    eexists; vm_compute; reflexivity. }
  destruct (patch_enforced sample_dash sample_env (patch_request None "xss") "admin" "xss" false
    (d_store patched_dash) sample_chain NewIPBlock after_patch Ha patched_sound (rtc_refl _ _) eq_refl) as (s' & n & _ & _ & Hx & _).
  exists s'. apply (Hx (MkRule "xss" (fun w _ => (w, (Model.Allow, EmptyString))) None)); [right; left|reflexivity].
Defined.
