(* ===== verification/Proxy.v ===== *)
(** * The proxy's access phase

    [proxy/lua/openshield.lua], the hook nginx runs for every request: it collects what the engine
    needs, asks for a decision and acts on the answer.  lua-cjson is the interface [Cjson]; what
    nginx knows of the request, and the HTTP client, are arguments.  With [serve] of [EngineApi]
    behind it the file follows a request from the client to the verdict it meets. *)

From S2P Require Import Prelude Utf8 GoText GoMux GoTime GoJson GoJsonRound GoStruct Canonical Model Rules Events EngineApi.

(** ** What nginx gives the hook *)

(** A header: one value, or a table of them when it is repeated. *)
Inductive hvalue := One (value : string) | Many (values : list string).

(** The request body after [ngx.req.read_body]. *)
Inductive buffered := NoBody | InMemory (body : string) | OnDisk.

Record request := Req {
  q_request_id : string; q_remote_addr : string; q_method : string; q_uri : string;
  q_args : option string; q_host : string; q_scheme : string;
  q_headers : list (string * hvalue); q_body : buffered
}.

(** [cjson.safe]: a table as JSON, and JSON as a table; nil when it fails. *)
Class Cjson := {
  cjson_encode : gobj -> option string;
  cjson_decode : string -> option gval
}.

(** ** The hook *)

(** The local [env]. *)
Definition env (e : gmap string string) (name fallback : string) : string :=
  match e !! name with
  | Some value => if String.eqb value EmptyString then fallback else value
  | None => fallback
  end.

(** The settings that decide what becomes of a request. *)
Record settings := Settings { ENGINE_URL : string; MAX_BODY : Z; FAIL_MODE : string }.

Definition settings_of (e : gmap string string) (max_body : Z) : settings :=
  Settings (env e "OS_ENGINE_URL" "http://engine:8080") max_body (env e "OS_FAIL_MODE" "open").

(** [string.lower] in the C locale. *)
Definition lua_lower_char (c : ascii) : ascii :=
  if (65 <=? bval c) && (bval c <=? 90) then bof (bval c + 32) else c.

Fixpoint lua_lower (s : string) : string :=
  match s with
  | EmptyString => EmptyString
  | String c s => String (lua_lower_char c) (lua_lower s)
  end.

Definition SKIP_HEADERS : list string :=
  ["authorization"; "proxy-authorization"; "content-length"; "accept-encoding"].

Definition joined (v : hvalue) : string :=
  match v with One value => value | Many values => join ", " values end.

(** In the order [pairs] gives. *)
Definition collect_headers (headers : list (string * hvalue)) : list (string * string) :=
  foldl (fun out (h : string * hvalue) =>
    let key := lua_lower h.1 in
    if existsb (String.eqb key) SKIP_HEADERS then out else assoc_set key (joined h.2) out) [] headers.

(** [ngx.req.set_header]: the header named so, in whatever case, is replaced. *)
Definition set_header (name value : string) (headers : list (string * hvalue)) : list (string * hvalue) :=
  List.filter (fun h => negb (String.eqb (lua_lower h.1) (lua_lower name))) headers ++ [(name, One value)].

(** The headers of the request once the hook has given it its id. *)
Definition given_id (q : request) : list (string * hvalue) :=
  set_header "X-Request-ID" (q_request_id q) (q_headers q).

Definition read_body (max : Z) (b : buffered) : string * bool :=
  if max <=? 0 then (EmptyString, false)
  else
    match b with
    | OnDisk => (EmptyString, true)
    | NoBody => (EmptyString, false)
    | InMemory body => if max <? slen body then (stake (Z.to_nat max) body, true) else (body, false)
    end.

(** What becomes of a request: it goes on to the backend, the hook answers it with a status, the
    Retry-After header and a page, or the hook fails and nginx answers 500. *)
Inductive outcome :=
| Proceed
| Page (status : Z) (retry_after : bool) (page : string)
| HookError.

Definition block_page (status : Z) (message request_id : string) : string :=
  let n := byte_str 10 in
  let title := itoa status +:+ " — " +:+ message in
  let q (s : string) := str1 dquote +:+ s +:+ str1 dquote in
  "<!doctype html>" +:+ n
  +:+ "<html lang=" +:+ q "es" +:+ "><head><meta charset=" +:+ q "utf-8" +:+ "><title>" +:+ title +:+ "</title>" +:+ n
  +:+ "<style>body{font-family:system-ui,sans-serif;margin:4rem auto;max-width:34rem;" +:+ n
  +:+ "padding:0 1.5rem;line-height:1.6;color:#1c1f24}code{background:#e8eaee;" +:+ n
  +:+ "padding:.15rem .35rem;border-radius:.25rem}</style></head><body>" +:+ n
  +:+ "<h1>" +:+ title +:+ "</h1>" +:+ n
  +:+ "<p>Esta solicitud fue bloqueada por open-shield.</p>" +:+ n
  +:+ "<p>Si crees que se trata de un error, comunica esta referencia al equipo técnico:</p>" +:+ n
  +:+ "<p><code>" +:+ request_id +:+ "</code></p>" +:+ n
  +:+ "</body></html>" +:+ n.

Definition deny (status : Z) (request_id : string) : outcome :=
  let message := if status =? 429 then "Too many requests" else "Request blocked" in
  Page status (status =? 429) (block_page status message request_id).

Definition on_engine_error (c : settings) (request_id : string) : outcome :=
  if String.eqb (FAIL_MODE c) "closed" then deny 503 request_id else Proceed.

(** Indexing a decoded value: arrays are tables without the key, and strings have the functions
    of the string library; anything else is an error. *)
Definition lua_index (v : gval) (name : string) : option (option gval) :=
  match v with
  | VObject m => Some (assoc name m)
  | VArray _ | VString _ => Some None
  | _ => None
  end.

Definition member (v : gval) (name : string) : option gval :=
  match lua_index v name with Some f => f | None => None end.

(** [ngx.log] refuses a table. *)
Definition loggable (v : option gval) : bool :=
  match v with Some (VObject _) | Some (VArray _) => false | _ => true end.

(** [decision.status or 403], for [%d]. *)
Definition status_of (v : option gval) : option Z :=
  match v with
  | None | Some (VBool false) => Some 403
  | Some (VNumber l) => parse_int l
  | Some _ => None
  end.

Section Hook.
Context `{Cjson}.

(** The table the hook encodes. *)
Definition decision_request (c : settings) (q : request) : gobj :=
  let body := read_body (MAX_BODY c) (q_body q) in
  [("request_id", VString (q_request_id q)); ("ip", VString (q_remote_addr q));
   ("method", VString (q_method q)); ("path", VString (q_uri q));
   ("query", VString (default EmptyString (q_args q))); ("host", VString (q_host q));
   ("scheme", VString (q_scheme q));
   ("headers", VObject (map (fun h => (h.1, VString h.2)) (collect_headers (given_id q))));
   ("body", VString body.1); ("body_truncated", VBool body.2)].

(** From the decoded decision on. *)
Definition enforce (request_id : string) (decision : gval) : outcome :=
  match lua_index decision "verdict" with
  | None => HookError
  | Some (Some (VString verdict)) =>
      if String.eqb verdict "block" then
        if loggable (member decision "rule") && loggable (member decision "reason") then
          match status_of (member decision "status") with
          | Some status => deny status request_id
          | None => HookError
          end
        else HookError
      else Proceed
  | Some _ => Proceed
  end.

(** From the engine's answer on. *)
Definition act (c : settings) (request_id : string) (answer : result (Z * string)) : outcome :=
  match answer with
  | Err _ => on_engine_error c request_id
  | Ok (status, body) =>
      if negb (status =? 200) then on_engine_error c request_id
      else
        match cjson_decode body with
        | None => on_engine_error c request_id
        | Some decision => enforce request_id decision
        end
  end.

(** [_M.access]; [post] is the client's POST to a URL. *)
Definition access (c : settings) (post : string -> string -> result (Z * string)) (q : request) : outcome :=
  match cjson_encode (decision_request c q) with
  | None => on_engine_error c (q_request_id q)
  | Some payload => act c (q_request_id q) (post (ENGINE_URL c +:+ "/v1/decide") payload)
  end.
End Hook.

(** ** When there is no decision *)

Section FailMode.
Context `{Cjson}.

(** The decision the hook could read: the request was encoded, and the engine answered 200 with
    JSON. *)
Definition asked (c : settings) (post : string -> string -> result (Z * string)) (q : request) : option gval :=
  payload ← cjson_encode (decision_request c q);
  match post (ENGINE_URL c +:+ "/v1/decide") payload with
  | Ok (status, body) => if status =? 200 then cjson_decode body else None
  | Err _ => None
  end.

Definition lets_through (decision : gval) : Prop :=
  exists verdict, lua_index decision "verdict" = Some verdict /\ verdict <> Some (VString "block").

Definition turns_away (decision : gval) (status : Z) : Prop :=
  member decision "verdict" = Some (VString "block") /\
  loggable (member decision "rule") = true /\ loggable (member decision "reason") = true /\
  status_of (member decision "status") = Some status.

Lemma access_asked c post q :
  access c post q = match asked c post q with
                    | None => on_engine_error c (q_request_id q)
                    | Some decision => enforce (q_request_id q) decision
                    end.
Proof.
  unfold access, asked. destruct (cjson_encode _) as [payload|]; [|done]. cbn [mbind option_bind].
  destruct (post _ _) as [[status body]|e]; [|done]. cbn [act]. destruct (status =? 200); [|done]. cbn [negb].
  by destruct (cjson_decode body).
Qed.

Lemma enforce_proceed id v : enforce id v = Proceed <-> lets_through v.
Proof.
  unfold enforce, lets_through. destruct (lua_index v "verdict") as [f|]; [|by split; [|intros (? & ? & _)]].
  destruct f as [[]|]; try (split; [by eexists|done]).
  destruct (String.eqb_spec s "block") as [->|Hs].
  - split; [|by intros (? & [= <-] & ?)]. destruct (_ && _); [|done]. by destruct (status_of _).
  - split; [|done]. intros _. eexists. split; [done|]. congruence.
Qed.

Lemma enforce_page id v status retry page :
  enforce id v = Page status retry page <-> turns_away v status /\ Page status retry page = deny status id.
Proof.
  unfold enforce, turns_away. assert (member v "verdict" = match lua_index v "verdict" with Some f => f | None => None end)
    as -> by done.
  destruct (lua_index v "verdict") as [f|]; [|by split; [|intros [[? _] _]]].
  destruct f as [[]|]; try by split; [|intros [[? _] _]].
  destruct (String.eqb_spec s "block") as [->|Hs]; [|split; [done|]; intros [[[= ->] _] _]; done].
  destruct (loggable (member v "rule")), (loggable (member v "reason")); cbn [andb];
    try by split; [|intros [(_ & ? & ? & _) _]].
  destruct (status_of (member v "status")) as [n|]; [|by split; [|intros [(_ & _ & _ & ?) _]]].
  split.
  - intros E. assert (n = status) as -> by (by unfold deny in E; injection E). done.
  - intros [(_ & _ & _ & [= ->]) ->]. done.
Qed.

Lemma env_fail_mode e n : FAIL_MODE (settings_of e n) = "closed" <-> e !! "OS_FAIL_MODE" = Some "closed".
Proof.
  unfold settings_of, env. cbn [FAIL_MODE]. destruct (e !! "OS_FAIL_MODE") as [v|]; [|done].
  destruct (String.eqb_spec v EmptyString) as [->|]; [done|]. split; [by intros ->|by intros [= ->]].
Qed.

(** C9: What the fail mode decides, and nothing more.  A request goes on to the backend exactly
    when the hook has read a decision that does not block it, or has read none and OS_FAIL_MODE is
    not exactly closed; it is answered with a page exactly when it has read a decision that blocks
    it, with that decision's status, or has read none and the mode is closed, with 503.  The hook
    has read none when the request could not be encoded, the engine did not answer, answered
    another status than 200, or answered something that is not JSON. *)
Theorem fail_mode_exact (e : gmap string string) max_body post q :
  let c := settings_of e max_body in
  (access c post q = Proceed <->
    (asked c post q = None /\ e !! "OS_FAIL_MODE" <> Some "closed") \/
    (exists decision, asked c post q = Some decision /\ lets_through decision)) /\
  (forall status retry page, access c post q = Page status retry page <->
    (asked c post q = None /\ e !! "OS_FAIL_MODE" = Some "closed" /\
      Page status retry page = deny 503 (q_request_id q)) \/
    (exists decision, asked c post q = Some decision /\ turns_away decision status /\
      Page status retry page = deny status (q_request_id q))).
Proof.
  cbn zeta. rewrite access_asked. pose proof (env_fail_mode e max_body) as Hm.
  destruct (asked _ post q) as [v|].
  - split; [rewrite enforce_proceed|intros status retry page; rewrite enforce_page]; split.
    + intros Hv. right. by exists v.
    + intros [[? _]|(d & [= <-] & Hd)]; done.
    + intros Hv. right. by exists v.
    + intros [[? _]|(d & [= <-] & Hd)]; done.
  - unfold on_engine_error.
    destruct (String.eqb_spec (FAIL_MODE (settings_of e max_body)) "closed") as [E|E]; rewrite Hm in E;
      (split; [|intros status retry page]); split.
    + done.
    + by intros [[_ ?]|(? & ? & _)].
    + intros Ed. left. split; [done|]. by split.
    + by intros [(_ & _ & ->)|(? & ? & _)].
    + intros _. by left.
    + done.
    + done.
    + by intros [(_ & ? & _)|(? & ? & _)].
Qed.
End FailMode.

(** ** What the hook relies on *)

(** A table of the kind the hook encodes: text keys without repetition; strings, booleans and
    tables of strings. *)
Definition good_keys {V} (m : list (string * V)) : Prop :=
  NoDup m.*1 /\ Forall (fun p => valid_utf8 p.1 = true) m.

Definition string_table (v : gval) : Prop :=
  match v with
  | VString _ | VBool _ => True
  | VObject m => good_keys m /\ Forall string_valued m
  | _ => False
  end.

Definition good_table (m : gobj) : Prop := good_keys m /\ Forall (fun p => string_table p.2) m.

(** The most bytes a value takes: six for each byte of a string, and the punctuation. *)
Definition text_room (s : string) : Z := 6 * slen s + 2.

Fixpoint room (v : gval) : Z :=
  match v with
  | VString s => text_room s
  | VBool _ => 5
  | VObject m => 2 + foldr Z.add 0 (map (fun p : string * gval => text_room p.1 + room p.2 + 2) m)
  | _ => 0
  end.

(** Such a table is always encoded, as JSON that reads back as the table up to the order of keys
    and with replacement runes for bytes that are not text, in the room above; and what Go writes
    for a struct is read as its fields. *)
Class CjsonLaws `{Cjson} := {
  cjson_writes m : good_table m -> exists s v, cjson_encode m = Some s /\ slen s <= room (VObject m) /\
    decode_json s = Some v /\ geq v (norm (VObject m));
  cjson_reads (m : gobj) es : good_keys m -> depth (VObject m) < 1000 ->
    Forall2 (same_keys (fun v e => encode true v = Some e)) m es ->
    cjson_decode (enc_struct es +:+ byte_str 10) = Some (VObject (map (fun p => (p.1, norm p.2)) m))
}.

(** ** The interface can be implemented

    [encoding/json] itself, without HTML escapes. *)

Definition go_encode (m : gobj) : option string := encode false (VObject m).
Definition go_decode (s : string) : option gval := unmarshal s.

Lemma esc_rune_room html r : rune_wf r -> slen (esc_rune html r) <= 6 * slen (r_src r).
Proof.
  intros Hr%rune_wf_nonempty. unfold esc_rune. unfold slen in *.
  assert (forall v, String.length (esc_hex v) = 6%nat) as Eh by done.
  repeat case_match; rewrite ?Eh; cbn; lia.
Qed.

Lemma quote_room html s : slen (json_quote html s) <= text_room s.
Proof.
  unfold json_quote, text_room. rewrite !slen_app. change (slen (str1 dquote)) with 1.
  enough (slen (json_body html s) <= 6 * slen s) by lia.
  unfold json_body. rewrite <- (runes_concat s) at 2. generalize (runes_wf s).
  induction (runes s) as [|r l IH]; intros Hw; [done|]. apply list.Forall_cons in Hw as [Hr Hw].
  cbn [map sconcat]. rewrite !slen_app. pose proof (esc_rune_room html r Hr). specialize (IH Hw). lia.
Qed.

Definition total (l : list Z) : Z := foldr Z.add 0 l.

Lemma total_perm l l' : l ≡ₚ l' -> total l = total l'.
Proof. unfold total. induction 1; cbn; lia. Qed.

Lemma total_le l l' : Forall2 Z.le l l' -> total l <= total l'.
Proof. unfold total. induction 1; cbn; lia. Qed.

Lemma join_len sep l : slen (join sep l) <= total (map (fun s => slen s + slen sep) l).
Proof.
  unfold total. induction l as [|s [|t l] IH]; [done| |].
  - cbn. unfold slen. lia.
  - rewrite join_cons2, !slen_app. cbn [map foldr] in IH |- *. lia.
Qed.

Lemma enc_object_room html (es : list (string * string)) :
  slen (enc_object html es) <= 2 + total (map (fun p => text_room p.1 + slen p.2 + 2) es).
Proof.
  unfold enc_object. rewrite !slen_app. change (slen "{") with 1. change (slen "}") with 1.
  etransitivity; [apply Z.add_le_mono_l, Z.add_le_mono_r, join_len|]. rewrite map_map.
  rewrite (total_perm (map _ (sort_keys es)) (map _ es)) by by rewrite sort_keys_perm.
  enough (total (map (fun p : string * string => slen (json_quote html p.1 +:+ ":" +:+ p.2) + slen ",") es)
    <= total (map (fun p => text_room p.1 + slen p.2 + 2) es)) by lia.
  apply total_le. induction es as [|[k e] es IH]; cbn [map]; constructor; [|exact IH].
  cbn [fst snd]. rewrite !slen_app. change (slen ":") with 1. change (slen ",") with 1.
  pose proof (quote_room html k). lia.
Qed.

Lemma members_room m e : encode false (VObject m) = Some e ->
  Forall (fun p => forall e, encode false p.2 = Some e -> slen e <= room p.2) m -> slen e <= room (VObject m).
Proof.
  cbn [encode]. destruct (mapM _ m) as [es|] eqn:Em; [|done]. intros [= <-] Hm.
  cbn [room]. etransitivity; [apply enc_object_room|].
  enough (total (map (fun p => text_room p.1 + slen p.2 + 2) es)
    <= total (map (fun p : string * gval => text_room p.1 + room p.2 + 2) m)) by (unfold total in *; lia).
  apply total_le. apply mapM_Some in Em.
  induction Em as [|[k v] [k' e] m es Hp _ IHm]; cbn [map]; [constructor|].
  apply list.Forall_cons in Hm as [Hv Hm]. constructor; [|by apply IHm]. cbn [snd fst] in *.
  destruct (encode false v) as [e'|]; [|done]. cbn in Hp. injection Hp as <- <-. specialize (Hv _ eq_refl). lia.
Qed.

Lemma string_room v : string_table v -> forall e, encode false v = Some e -> slen e <= room v.
Proof.
  intros Hv e He. destruct v; try done.
  - injection He as <-. by destruct b.
  - injection He as <-. apply quote_room.
  - eapply members_room; [exact He|]. destruct Hv as [_ Hv]. eapply List.Forall_impl; [|exact Hv].
    intros [k v] [s Es] e' He'. cbn in *. subst v. injection He' as <-. apply quote_room.
Qed.

Lemma string_table_encodes v : string_table v -> is_Some (encode false v) /\ depth v <= 1.
Proof.
  destruct v; try done; intros Hv; try (split; [by eexists|done]).
  destruct Hv as [_ Hv]. split; [|by rewrite (string_members_depth _ Hv)].
  cbn [encode]. assert (is_Some (mapM (fun p : string * gval => e ← encode false p.2; Some (p.1, e)) m)) as [es ->];
    [|by eexists].
  apply mapM_is_Some_2. eapply List.Forall_impl; [|exact Hv]. intros [k v] [s Es]. cbn in Es. subst v. by eexists.
Qed.

#[local] Instance go_cjson : Cjson := {| cjson_encode := go_encode; cjson_decode := go_decode |}.

Lemma good_table_encodes m : good_table m -> exists e, go_encode m = Some e /\ depth (VObject m) <= 2.
Proof.
  intros [_ Hm]. assert (Forall (fun p => is_Some (encode false p.2) /\ depth p.2 <= 1) m) as Hd.
  { eapply List.Forall_impl; [|exact Hm]. intros p. apply string_table_encodes. }
  assert (is_Some (mapM (fun p : string * gval => e ← encode false p.2; Some (p.1, e)) m)) as [es E].
  { apply mapM_is_Some_2. eapply List.Forall_impl; [|exact Hd]. intros [k v] [[e He] _].
    exists (k, e). cbn [snd] in He. change ((e ← encode false v; Some (k, e)) = Some (k, e)). by rewrite He. }
  exists (enc_object false es). split.
  - change (go_encode m) with (es ← mapM (fun p : string * gval => e ← encode false p.2; Some (p.1, e)) m;
      Some (enc_object false es)). by rewrite E.
  - cbn [depth]. assert (foldr Z.max 0 (map (fun p : string * gval => depth p.2) m) <= 1); [|lia].
    clear E Hm. induction Hd as [|p m [_ Hp] _ IH]; cbn; lia.
Qed.

#[local] Instance go_cjson_laws : CjsonLaws.
Proof.
  split.
  - intros m Hm. destruct (good_table_encodes m Hm) as (e & He & Hd). exists e, (norm (VObject m)).
    split; [done|]. split; [|split].
    + eapply members_room; [exact He|]. destruct Hm as [_ Hm]. eapply List.Forall_impl; [|exact Hm].
      intros p. apply string_room.
    + rewrite <- (app_nil_str e). eapply decode_encode_json; [exact He| |done]. unfold max_depth. lia.
    + reflexivity.
  - intros m es [Hnd Hk] Hd He.
    assert (Forall2 (same_keys (fun e n => reads (max_depth - 1) e n /\ good_head e)) es
      (map (fun p => (p.1, norm p.2)) m)) as Hr.
    { cbn [depth] in Hd. assert (1 + foldr Z.max 0 (map (fun p : string * gval => depth p.2) m) <= max_depth) as Hd'
        by (unfold max_depth; lia). apply depth_elem in Hd'. clear Hd Hnd Hk.
      induction He as [|[k v] [k' e] m es [Ek Hv] _ IH]; cbn [map]; constructor.
      - cbn in *. split; [done|]. apply list.Forall_cons in Hd' as [Hd' _]. by eapply encode_reads.
      - apply list.Forall_cons in Hd' as [_ Hd']. by apply IH. }
    apply reads_struct in Hr as [Hr Hg]; [|done]. unfold cjson_decode, go_cjson, go_decode, unmarshal.
    rewrite (skip_ws_good _ _ Hg), Hr by (rewrite ?length_app_str; (lia || done)).
    cbn [mbind option_bind]. change (skip_ws (byte_str 10)) with EmptyString. cbn [String.eqb]. do 2 f_equal.
    rewrite build_object_fresh; [done| |].
    + cbn [app]. rewrite map_map. exact Hnd.
    + apply List.Forall_map. exact Hk.
Qed.

(** ** What the engine reads *)

Lemma field_here name (m : gobj) v : (name, v) ∈ m -> NoDup m.*1 ->
  (forall k, k ∈ m.*1 -> selects name k = true -> k = name) -> field name m = Some v.
Proof.
  intros Hin Hnd Hk. destruct (field name m) as [w|] eqn:E.
  - destruct (field_elem name m w E) as (k & Hw & Hs).
    rewrite (Hk k) in Hw by (done || by apply (list_elem_of_fmap_2 fst _ (k, w))).
    f_equal. apply assoc_elem_iff in Hw, Hin; [|done..]. congruence.
  - exfalso. clear Hnd Hk. induction m as [|[k w] m IH]; [by apply elem_of_nil in Hin|]. cbn [field] in E.
    destruct (field name m) eqn:Em; [done|]. apply elem_of_cons in Hin as [[= <- <-]|Hin]; [|by apply IH].
    unfold selects in E. by rewrite String.eqb_refl in E.
Qed.

Lemma same_keys_fst {V W} (P : V -> W -> Prop) l k : Forall2 (same_keys P) l k -> l.*1 = k.*1.
Proof. induction 1 as [|p p' l k [E _] _ IH]; [done|]. cbn. by rewrite E, IH. Qed.

Lemma same_keys_elem {V W} (P : V -> W -> Prop) l k name w : Forall2 (same_keys P) l k -> (name, w) ∈ k ->
  exists v, (name, v) ∈ l /\ P v w.
Proof.
  induction 1 as [|[n v] [n' w'] l k [E Hp] _ IH]; [by intros ?%elem_of_nil|]. cbn in E, Hp. subst n'.
  intros [[= -> ->]|Hin]%elem_of_cons; [exists v; split; [by left|done]|].
  destruct (IH Hin) as (v' & Hv & Hw). exists v'. split; [by right|done].
Qed.

Lemma geq_members m' m : geq (VObject m') (VObject m) -> exists m1, m' ≡ₚ m1 /\ Forall2 (same_keys geq) m1 m.
Proof.
  inversion 1 as [| |? m1 ? Hp Hf]; subst; [|by exists m1].
  exists m. split; [done|]. clear. induction m as [|p m IH]; constructor; [|exact IH]. split; [done|apply geq_refl].
Qed.

Lemma geq_object_field m' m name w : geq (VObject m') (VObject m) -> (name, w) ∈ m -> NoDup m.*1 ->
  (forall k, k ∈ m.*1 -> selects name k = true -> k = name) ->
  exists v, field name m' = Some v /\ geq v w.
Proof.
  intros (m1 & Hp & Hf)%geq_members Hin Hnd Hk. pose proof (same_keys_fst _ _ _ Hf) as Ek.
  assert (m'.*1 ≡ₚ m.*1) as Hkeys by (by rewrite Hp, Ek).
  destruct (same_keys_elem _ _ _ _ _ Hf Hin) as (v & Hv & Hg). exists v. split; [|done].
  apply field_here; [by rewrite Hp|by rewrite Hkeys|]. intros k. rewrite Hkeys. apply Hk.
Qed.

Lemma geq_string v s : geq v (VString s) -> v = VString s.
Proof. by inversion 1. Qed.

Lemma geq_bool v b : geq v (VBool b) -> v = VBool b.
Proof. by inversion 1. Qed.

Definition strings (l : list (string * string)) : gobj := map (fun h => (h.1, VString h.2)) l.

Lemma as_strings l : as_string_map (VObject (strings l)) = Some l.
Proof.
  cbn [as_string_map]. unfold strings. induction l as [|[k s] l IH]; [done|]. cbn [map mapM snd fst].
  cbn [mbind option_bind]. by rewrite IH.
Qed.

Lemma geq_strings m l : geq (VObject m) (VObject (strings l)) -> exists l', l' ≡ₚ l /\ m = strings l'.
Proof.
  intros (m1 & Hp & Hf)%geq_members. assert (m1 = strings l) as ->.
  { clear Hp. unfold strings in *. remember (map _ l) as k eqn:Ek. revert l Ek.
    induction Hf as [|[n v] [n' w] m1 k [En Hg] _ IH]; intros [|h l]; intros [=]; [done|]. cbn in *. subst.
    apply geq_string in Hg as ->. cbn. f_equal. by apply (IH l). }
  apply (Permutation_map_inv (fun h : string * string => (h.1, VString h.2))) in Hp as (l' & -> & Hl).
  exists l'. by split.
Qed.

(** The fields of a decision request. *)
Definition field_names : list string :=
  ["request_id"; "ip"; "method"; "path"; "query"; "host"; "scheme"; "headers"; "body"; "body_truncated"].

Lemma names_apart name k : name ∈ field_names -> k ∈ field_names -> selects name k = true -> k = name.
Proof.
  assert (forallb (fun n => forallb (fun k => negb (selects n k) || String.eqb k n) field_names) field_names = true) as Hall
    by (vm_compute; reflexivity).
  intros Hn%list_elem_of_In Hk%list_elem_of_In Hs. rewrite forallb_forall in Hall. specialize (Hall name Hn).
  rewrite forallb_forall in Hall. specialize (Hall k Hk). rewrite Hs in Hall. by apply String.eqb_eq.
Qed.

(** nginx takes letters, digits, hyphens and underscores in a header's name. *)
Definition names_ok (q : request) : Prop := Forall (fun h : string * hvalue => ascii_only h.1 = true) (q_headers q).

Lemma given_id_ok q : names_ok q -> Forall (fun h : string * hvalue => ascii_only h.1 = true) (given_id q).
Proof.
  intros Hn. unfold given_id, set_header. apply list.Forall_app. split; [|by repeat constructor].
  apply list.Forall_forall. intros h [Hh _]%list_elem_of_In%filter_In. apply list_elem_of_In in Hh.
  exact (proj1 (list.Forall_forall _ _) Hn h Hh).
Qed.

Lemma lua_lower_ascii s : ascii_only s = true -> ascii_only (lua_lower s) = true.
Proof.
  unfold ascii_only. induction s as [|c s IH]; [done|]. cbn [lua_lower sall]. intros [Hc Hs]%andb_prop.
  rewrite (IH Hs), andb_true_r. unfold lua_lower_char.
  destruct (Z.leb_spec 65 (bval c)), (Z.leb_spec (bval c) 90); cbn [andb]; try done.
  rewrite bval_bof by lia. lia.
Qed.

Lemma collect_good (headers : list (string * hvalue)) :
  Forall (fun h : string * hvalue => ascii_only h.1 = true) headers -> good_keys (collect_headers headers).
Proof.
  unfold collect_headers. intros Hh.
  assert (forall out : list (string * string), good_keys out -> good_keys (foldl (fun out (h : string * hvalue) =>
    let key := lua_lower h.1 in
    if existsb (String.eqb key) SKIP_HEADERS then out else assoc_set key (joined h.2) out) out headers)) as Hx.
  2: { apply Hx. split; [apply NoDup_nil_2|constructor]. }
  induction Hh as [|[n v] headers Hn _ IH]; intros out Ho; cbn [foldl]; [done|]. apply IH. cbn [fst snd] in *.
  destruct (existsb _ _); [done|]. destruct Ho as [Hnd Hk]. split; [by apply assoc_set_NoDup|].
  apply assoc_set_Forall; [|done]. by apply ascii_valid, lua_lower_ascii.
Qed.

Section Read.
Context `{CjsonLaws}.

Lemma decision_request_keys c q : (decision_request c q).*1 = field_names.
Proof. done. Qed.

Lemma field_names_NoDup : NoDup field_names.
Proof. apply (bool_decide_unpack _). vm_compute. exact I. Qed.

Lemma decision_request_good c q : names_ok q -> good_table (decision_request c q).
Proof.
  intros Hn. pose proof (collect_good _ (given_id_ok q Hn)) as [Hnd Hk]. split; [split|].
  - rewrite decision_request_keys. apply field_names_NoDup.
  - repeat constructor.
  - repeat constructor; cbn.
    + rewrite <- list_fmap_compose. exact Hnd.
    + apply List.Forall_map. exact Hk.
    + apply List.Forall_map. apply list.Forall_true. intros h. by eexists.
Qed.

(** The headers the engine is sent. *)
Definition sent_headers (q : request) : list (string * string) :=
  map (fun h => (h.1, fix_utf8 h.2)) (collect_headers (given_id q)).

(** The request the engine sees, its headers in some order. *)
Definition seen (c : settings) (q : request) (headers : list (string * string)) : decideRequest :=
  MkDecide (fix_utf8 (q_request_id q)) (fix_utf8 (q_remote_addr q)) (fix_utf8 (q_method q)) (fix_utf8 (q_uri q))
    (fix_utf8 (default EmptyString (q_args q))) (fix_utf8 (q_host q)) (fix_utf8 (q_scheme q)) headers
    (fix_utf8 (read_body (MAX_BODY c) (q_body q)).1) (read_body (MAX_BODY c) (q_body q)).2.

(** The fields of what the engine decodes. *)
Lemma decoded_field c q v name w : names_ok q -> geq v (norm (VObject (decision_request c q))) ->
  (name, w) ∈ decision_request c q -> exists m v', v = VObject m /\ field name m = Some v' /\ geq v' (norm w).
Proof.
  intros Hn Hv Hin. destruct (decision_request_good c q Hn) as [[Hnd Hk] _]. cbn [norm] in Hv.
  set (n := map (fun p : string * gval => (p.1, norm p.2)) (decision_request c q)) in *.
  assert (n.*1 = field_names) as En by (unfold n; rewrite <- list_fmap_compose; apply decision_request_keys).
  rewrite build_object_sorted in Hv; [|by rewrite En; apply field_names_NoDup|by apply List.Forall_map].
  symmetry in Hv. destruct (geq_object_inv _ _ Hv) as [m ->]. symmetry in Hv.
  assert ((sort_keys n).*1 ≡ₚ field_names) as Ek by (by rewrite sort_keys_perm, En).
  destruct (geq_object_field m (sort_keys n) name (norm w) Hv) as (v' & Hf & Hg).
  - rewrite sort_keys_perm. by apply (list_elem_of_fmap_2 (fun p : string * gval => (p.1, norm p.2)) _ (name, w)).
  - rewrite Ek. apply field_names_NoDup.
  - intros k. rewrite Ek. intros Hin'. apply names_apart; [|done].
    rewrite <- (decision_request_keys c q). by apply (list_elem_of_fmap_2 fst _ (name, w)).
  - by exists m, v'.
Qed.

Lemma norm_strings l : good_keys l ->
  norm (VObject (strings l)) = VObject (strings (sort_keys (map (fun h => (h.1, fix_utf8 h.2)) l))).
Proof.
  intros [Hnd Hk]. cbn [norm]. unfold strings. rewrite map_map. cbn [fst snd norm].
  rewrite build_object_sorted.
  - f_equal. change (map (fun h : string * string => (h.1, VString h.2))) with (map_vals VString).
    rewrite <- sort_keys_map_vals. unfold map_vals. by rewrite map_map.
  - rewrite <- list_fmap_compose. exact Hnd.
  - by apply List.Forall_map.
Qed.

Ltac in_list := repeat first [by left|right].

Lemma payload_read c q : names_ok q -> room (VObject (decision_request c q)) <= maxDecideBody ->
  exists s headers, cjson_encode (decision_request c q) = Some s /\ headers ≡ₚ sent_headers q /\
    decode_limited s ≫= decode_decide = Some (seen c q headers).
Proof.
  intros Hn Hr. destruct (cjson_writes _ (decision_request_good c q Hn)) as (s & v & Hs & Hl & Hd & Hv).
  pose proof (fun name w => decoded_field c q v name w Hn Hv) as Hf.
  destruct (Hf "ip" (VString (q_remote_addr q))) as (m & _ & -> & _); [in_list|].
  assert (forall name t, (name, VString t) ∈ decision_request c q -> get_string name m = Some (fix_utf8 t)) as Htext.
  { intros name t Hin. destruct (Hf name _ Hin) as (m' & v' & [= <-] & E & G). apply geq_string in G as ->.
    unfold get_string, get. by rewrite E. }
  assert (get_bool "body_truncated" m = Some (read_body (MAX_BODY c) (q_body q)).2) as Htr.
  { destruct (Hf "body_truncated" (VBool (read_body (MAX_BODY c) (q_body q)).2)) as (m' & v' & [= <-] & E & G); [in_list|].
    apply geq_bool in G as ->. unfold get_bool, get. by rewrite E. }
  destruct (Hf "headers" (VObject (strings (collect_headers (given_id q))))) as (m' & v' & [= <-] & E & G); [in_list|].
  rewrite norm_strings in G by by apply collect_good, given_id_ok. symmetry in G. destruct (geq_object_inv _ _ G) as [mh ->].
  symmetry in G. apply geq_strings in G as (headers & Hh & ->).
  assert (get as_string_map [] "headers" m = Some headers) as Hget
    by (unfold get; rewrite E; apply as_strings).
  exists s, headers. split; [done|]. split; [by rewrite Hh, sort_keys_perm|].
  unfold decode_limited, decode_upto. rewrite (proj2 (Z.leb_le _ _)), Hd by lia. cbn [mbind option_bind].
  unfold decode_decide, as_struct. rewrite !(Htext _ _) by in_list. cbn [mbind option_bind].
  rewrite Hget. cbn [mbind option_bind]. by rewrite Htr.
Qed.
End Read.

(** ** How large a decision request gets *)

Definition header_bytes (h : string * hvalue) : Z := slen h.1 + slen (joined h.2) + 1.

(** What nginx keeps in memory of a request: a body of at most 64 KiB ([client_body_buffer_size] of
    [proxy/nginx.conf]) and a head of at most 32 KiB, for which there is room to spare here. *)
Definition head_bytes (q : request) : Z :=
  slen (q_request_id q) + slen (q_remote_addr q) + slen (q_method q) + slen (q_uri q)
  + slen (default EmptyString (q_args q)) + slen (q_host q) + slen (q_scheme q)
  + total (map header_bytes (q_headers q)).

Record limits (q : request) : Prop := {
  lim_head : head_bytes q <= 50000;
  lim_body : forall b, q_body q = InMemory b -> slen b <= 65536
}.

Lemma lua_lower_len s : slen (lua_lower s) = slen s.
Proof. unfold slen. f_equal. induction s as [|c s IH]; [done|]. cbn. by rewrite IH. Qed.

Definition member_room (h : string * string) : Z := text_room h.1 + text_room h.2 + 2.

Lemma member_room_nonneg h : 0 <= member_room h.
Proof. unfold member_room, text_room, slen. lia. Qed.

Lemma assoc_set_room k v m : total (map member_room (assoc_set k v m)) <= total (map member_room m) + member_room (k, v).
Proof.
  unfold total. induction m as [|[k' v'] m IH]; cbn [assoc_set map foldr]; [lia|].
  destruct (String.eqb k k'); cbn [map foldr]; [|lia].
  pose proof (member_room_nonneg (k', v')). lia.
Qed.

Lemma collect_room (headers : list (string * hvalue)) : total (map member_room (collect_headers headers))
  <= 6 * total (map header_bytes headers).
Proof.
  unfold collect_headers.
  enough (forall out, total (map member_room (foldl (fun out (h : string * hvalue) =>
    let key := lua_lower h.1 in
    if existsb (String.eqb key) SKIP_HEADERS then out else assoc_set key (joined h.2) out) out headers))
    <= total (map member_room out) + 6 * total (map header_bytes headers))
    as Hx by exact (Hx []).
  induction headers as [|[n v] headers IH]; intros out; cbn [foldl map fst snd]; [unfold total; cbn; lia|].
  etransitivity; [apply IH|]. unfold total in *. cbn [foldr].
  destruct (existsb _ _); [unfold header_bytes, slen; lia|].
  pose proof (assoc_set_room (lua_lower n) (joined v) out) as Ha. unfold total in Ha.
  assert (member_room (lua_lower n, joined v) = 6 * header_bytes (n, v)) as Em.
  { unfold member_room, text_room, header_bytes. cbn [fst snd]. rewrite lua_lower_len. lia. }
  lia.
Qed.

Lemma filter_bytes f (l : list (string * hvalue)) : total (map header_bytes (List.filter f l)) <= total (map header_bytes l).
Proof.
  unfold total. induction l as [|h l IH]; [done|]. cbn [List.filter map foldr].
  assert (0 <= header_bytes h) by (unfold header_bytes, slen; lia).
  destruct (f h); cbn [map foldr]; lia.
Qed.

Lemma given_id_bytes q :
  total (map header_bytes (given_id q)) <= total (map header_bytes (q_headers q)) + slen (q_request_id q) + 13.
Proof.
  unfold given_id, set_header. rewrite map_app. pose proof (filter_bytes
    (fun h => negb (String.eqb (lua_lower h.1) (lua_lower "X-Request-ID"))) (q_headers q)) as Hf.
  unfold total in *. rewrite foldr_app. cbn [map foldr header_bytes fst snd joined].
  change (slen "X-Request-ID") with 12.
  assert (forall l z, foldr Z.add z l = foldr Z.add 0 l + z) as ->
    by (intros l z; induction l as [|x l IH]; cbn [foldr]; lia).
  unfold header_bytes at 2. cbn [fst snd joined]. change (slen "X-Request-ID") with 12. lia.
Qed.

Lemma stake_len n s : slen (stake n s) <= slen s.
Proof. unfold slen. revert s. induction n as [|n IH]; intros [|c s]; cbn [stake String.length]; try lia. specialize (IH s). lia. Qed.

Lemma read_body_len max q : limits q -> slen (read_body max (q_body q)).1 <= 65536.
Proof.
  intros [_ Hb]. unfold read_body. destruct (max <=? 0); [by vm_compute|].
  destruct (q_body q) as [|b|]; [by vm_compute| |by vm_compute]. specialize (Hb b eq_refl).
  pose proof (stake_len (Z.to_nat max) b). destruct (max <? slen b); cbn [fst]; lia.
Qed.

Lemma id_bytes q : slen (q_request_id q) <= head_bytes q.
Proof.
  unfold head_bytes. assert (0 <= total (map header_bytes (q_headers q))); [|unfold slen; lia].
  unfold total. induction (q_headers q) as [|h l IH]; [done|]. cbn [map foldr]. unfold header_bytes at 1, slen. lia.
Qed.

Lemma request_room `{Cjson} c q : limits q -> room (VObject (decision_request c q)) <= maxDecideBody.
Proof.
  intros Hl. pose proof (read_body_len (MAX_BODY c) q Hl) as Hb. destruct Hl as [Hh _].
  pose proof (collect_room (given_id q)) as Hc. pose proof (given_id_bytes q) as Hg.
  pose proof (id_bytes q) as Hid. unfold head_bytes in *. unfold decision_request.
  cbn [room map foldr fst snd]. rewrite map_map. cbn [fst snd room].
  change (foldr Z.add 0 (map (fun h : string * string => text_room h.1 + text_room h.2 + 2) (collect_headers (given_id q))))
    with (total (map member_room (collect_headers (given_id q)))).
  unfold text_room.
  repeat match goal with |- context [slen (String ?a ?s)] =>
    let v := eval vm_compute in (slen (String a s)) in change (slen (String a s)) with v end.
  unfold maxDecideBody. lia.
Qed.

(** ** What the hook reads *)

Section Verdict.
Context `{CjsonLaws} `{UnicodePrint}.

(** The engine's answer as a table. *)
Definition response_fields (d : Decision) (requestID : string) : gobj :=
  [("verdict", VString (verdict_str (d_Verdict d)))]
  ++ (if String.eqb (d_Rule d) EmptyString then [] else [("rule", VString (d_Rule d))])
  ++ (if String.eqb (d_Reason d) EmptyString then [] else [("reason", VString (d_Reason d))])
  ++ (if d_Status d =? 0 then [] else [("status", VInt (d_Status d))])
  ++ [("request_id", VString requestID); ("decision_ms", VFloat (DecisionMS d))].

Lemma response_read d id ms : float_lit (DecisionMS d) = Some ms ->
  cjson_decode (decide_response d id) = Some (VObject (map (fun p => (p.1, norm p.2)) (response_fields d id))).
Proof.
  intros Hms. unfold decide_response, omitempty. rewrite Hms. apply cjson_reads.
  - split.
    + unfold response_fields.
      destruct (String.eqb (d_Rule d) EmptyString), (String.eqb (d_Reason d) EmptyString), (d_Status d =? 0);
        apply (bool_decide_unpack _); vm_compute; exact I.
    + unfold response_fields.
      destruct (String.eqb (d_Rule d) EmptyString), (String.eqb (d_Reason d) EmptyString), (d_Status d =? 0);
        repeat (apply List.Forall_cons; [reflexivity|]); apply List.Forall_nil.
  - unfold response_fields.
    destruct (String.eqb (d_Rule d) EmptyString), (String.eqb (d_Reason d) EmptyString), (d_Status d =? 0); done.
  - unfold response_fields.
    destruct (String.eqb (d_Rule d) EmptyString), (String.eqb (d_Reason d) EmptyString), (d_Status d =? 0);
      cbn [app]; repeat (apply List.Forall2_cons; [split; [reflexivity|first [reflexivity|exact Hms]]|]);
      apply List.Forall2_nil.
Qed.

Lemma response_verdict d id :
  assoc "verdict" (map (fun p => (p.1, norm p.2)) (response_fields d id)) = Some (VString (fix_utf8 (verdict_str (d_Verdict d)))).
Proof. reflexivity. Qed.

Lemma response_status d id :
  assoc "status" (map (fun p => (p.1, norm p.2)) (response_fields d id))
  = if d_Status d =? 0 then None else Some (VNumber (itoa (d_Status d))).
Proof.
  unfold response_fields.
  destruct (String.eqb (d_Rule d) EmptyString), (String.eqb (d_Reason d) EmptyString), (d_Status d =? 0); reflexivity.
Qed.

Lemma response_loggable d id name : name = "rule" \/ name = "reason" ->
  loggable (assoc name (map (fun p => (p.1, norm p.2)) (response_fields d id))) = true.
Proof.
  unfold response_fields.
  intros [-> | ->]; destruct (String.eqb (d_Rule d) EmptyString), (String.eqb (d_Reason d) EmptyString), (d_Status d =? 0);
    reflexivity.
Qed.

(** What the hook does with a decision. *)
Definition enforced (d : Decision) (request_id : string) : outcome :=
  match d_Verdict d with
  | Allow => Proceed
  | Block => deny (if d_Status d =? 0 then 403 else d_Status d) request_id
  end.

Lemma act_decision c id id' d ms : float_lit (DecisionMS d) = Some ms -> 0 <= d_Status d < 1000 ->
  act c id (Ok (200, decide_response d id')) = enforced d id.
Proof.
  intros Hms Hst. unfold act, enforce. cbn [Z.eqb Pos.eqb negb]. rewrite (response_read d id' ms Hms).
  unfold member. cbn [lua_index]. rewrite response_verdict, response_status, !response_loggable by auto. unfold enforced.
  destruct (d_Verdict d); [done|]. change (String.eqb (fix_utf8 (verdict_str Block)) "block") with true. cbv iota.
  destruct (d_Status d =? 0); [done|]. unfold status_of. rewrite parse_int_itoa; [done|]. unfold in_int64, int64_min, int64_max. lia.
Qed.

(** The engine at the hook's address. *)
Definition engine_at {W} (sv : Server W) (w : W) (a : around) (base url body : string) : result (Z * string) :=
  match strip_prefix base url with
  | Some path => answer (serve sv w a "POST" path body).2
  | None => Err "no route to host"
  end.

Lemma strip_prefix_app p s : strip_prefix p (p +:+ s) = Some s.
Proof. induction p as [|c p IH]; [done|]. cbn. by rewrite Ascii.eqb_refl. Qed.

(** The chain's statuses are HTTP statuses, or 0 where a rule names none. *)
Definition statuses_ok {W} (e : Engine W) : Prop := Forall (fun r => 0 <= blockStatus r < 1000) (rules e).

Lemma decide_status {W} (e : Engine W) w req start stop w' d : statuses_ok e ->
  Decide e w req start stop = (w', d) -> 0 <= d_Status d < 1000 /\ DecisionMS d = millisSince start stop.
Proof.
  intros He. unfold Decide. pose proof (decide_loop_spec (enabled e) (rules e) w req) as Hl.
  destruct (decide_loop (enabled e) (rules e) w req) as [w1 [[rule reason]|]]; intros E0;
    injection E0 as _ <-; cbn [d_Status DecisionMS]; (split; [|reflexivity]); [|cbn [d_Status]; lia].
  destruct Hl as (pre & post & w2 & E & _). unfold statuses_ok in He. rewrite E in He.
  apply list.Forall_app in He as [_ He]. by apply list.Forall_cons in He as [He _].
Qed.

(** The engine's answer to what the hook posts. *)
Lemma serve_decides {W} (sv : Server W) (w : W) a payload req w' d :
  (decode_limited payload ≫= decode_decide) = Some req ->
  Decide (sv_engine sv) w (request_context req (r_now a)) (r_start a) (r_stop a) = (w', d) ->
  serve sv w a "POST" "/v1/decide" payload =
    (w', [Respond 200 (decide_response d (dq_RequestID req));
          Record_ KindTraffic (dq_RequestID req) (trafficPayload req (request_context req (r_now a)) d)]).
Proof.
  intros Hd Ed. change (serve sv w a "POST" "/v1/decide" payload)
    with (handleDecide (sv_engine sv) w payload (r_now a) (r_start a) (r_stop a)).
  unfold handleDecide. by rewrite Hd, Ed.
Qed.

Lemma access_decides {W} c (sv : Server W) (w : W) a q ms :
  names_ok q -> limits q -> statuses_ok (sv_engine sv) ->
  float_lit (millisSince (r_start a) (r_stop a)) = Some ms ->
  exists headers payload, headers ≡ₚ sent_headers q /\ cjson_encode (decision_request c q) = Some payload /\
    (decode_limited payload ≫= decode_decide) = Some (seen c q headers) /\
    access c (engine_at sv w a (ENGINE_URL c)) q =
      enforced (Decide (sv_engine sv) w (request_context (seen c q headers) (r_now a)) (r_start a) (r_stop a)).2
        (q_request_id q).
Proof.
  intros Hn Hl He Hms.
  destruct (payload_read c q Hn (request_room c q Hl)) as (payload & headers & Hp & Hh & Hd).
  exists headers, payload. split; [done|]. split; [done|]. split; [done|].
  destruct (Decide (sv_engine sv) w (request_context (seen c q headers) (r_now a)) (r_start a) (r_stop a))
    as [w' d] eqn:Ed.
  unfold access. rewrite Hp. unfold engine_at. rewrite strip_prefix_app, (serve_decides sv w a _ _ _ _ Hd Ed).
  cbn [snd answer].
  destruct (decide_status _ _ _ _ _ _ _ He Ed) as [Hst Hd']. apply (act_decision _ _ _ _ ms); [by rewrite Hd'|done].
Qed.

End Verdict.

(** ** A request that meets its verdict *)

#[local] Instance no_print : UnicodePrint := fun _ => false.

Definition sample_settings : settings := settings_of ∅ 8192.

Definition sample_request : request :=
  Req "r-1" "10.0.0.7" "GET" "/search" (Some "q=1") "shop" "https"
    [("Host", One "shop"); ("Cookie", Many ["a=1"; "b=2"]); ("Authorization", One "Basic x")] NoBody.

Lemma sample_limits : limits sample_request.
Proof. split; [by vm_compute|done]. Qed.

