(* ===== verification/Access.v ===== *)
(** * The access list, from the dashboard to the proxy

    An entry an operator adds in the dashboard goes through its normal form ([Support.parsePrefix]),
    the store's network type, the engine's reload ([Watch]) and the rule ([IPBlock]) to what the
    hook ([Proxy]) does with a client's request. *)

From S2P Require Import Prelude Utf8 GoText GoTime GoJson GoStruct Netip NetipRound Canonical Model AuditRepo RateLimit Rules IPBlock Patterns Assembly RuleStore Auth Support Events DashApi Watch GoMux EngineApi Proxy.

(** ** The normal form of an entry *)

Section Normal.
Context `{UnicodePrint}.

Lemma masked_again p : prefix_wf p -> masked (masked p) = masked p.
Proof.
  intros (_ & _ & Hb). destruct p as [[v|v z] b]; unfold masked; cbn [p_addr p_bits bit_len] in *; do 2 f_equal;
    unfold clear_low; rewrite Z.div_mul; (done || apply Z.pow_nonzero; lia).
Qed.

Lemma masked_host a : masked (prefix_from a (bit_len a)) = prefix_from a (bit_len a).
Proof.
  destruct a as [v|v z]; unfold masked, prefix_from, clear_low; cbn [p_addr p_bits bit_len without_zone];
    rewrite Z.sub_diag; change (2 ^ 0) with 1; by rewrite Z.div_1_r, Z.mul_1_r.
Qed.

Lemma parsed_masked value p : ParsePrefix value = Ok p -> masked p = p.
Proof.
  unfold ParsePrefix. destruct (parse_prefix value) as [q|] eqn:E.
  - intros [= <-]. apply masked_again. eauto with shield.
  - destruct (parse_addr value) as [a|]; [|done]. intros [= <-]. apply masked_host.
Qed.

(** The dashboard's parser is the engine's, printed. *)
Lemma parsePrefix_engine value text : parsePrefix value = Ok text ->
  exists p, ParsePrefix (trim_space value) = Ok p /\ text = prefix_str p.
Proof.
  unfold parsePrefix, ParsePrefix. destruct (String.eqb _ EmptyString); [done|].
  destruct (parse_prefix (trim_space value)) as [p|]; [intros [= <-]; by eexists|].
  destruct (parse_addr (trim_space value)) as [a|]; [|done]. intros [= <-]. by eexists.
Qed.

Lemma entry_range value text : parsePrefix value = Ok text -> exists p,
  text = prefix_str p /\ ParsePrefix (trim_space value) = Ok p /\ prefix_wf p /\ masked p = p /\
  parse_prefix (prefix_str p) = Some p.
Proof.
  intros (p & Hp & ->)%parsePrefix_engine. pose proof (ParsePrefix_wf _ _ Hp) as Hw. exists p.
  split; [done|]. split; [done|]. split; [done|]. split; [by eapply parsed_masked|by apply parse_prefix_str].
Qed.

(** Two texts that stand for the same addresses. *)
Definition same_addresses (s t : string) : Prop := forall a, addr_wf a -> covers s a = covers t a.

Lemma entry_covers value text : parsePrefix value = Ok text -> same_addresses text (trim_space value).
Proof.
  intros (p & -> & Hp & Hw & Hm & Hps)%entry_range a Ha.
  rewrite <- (ParsePrefix_contains _ p a Ha Hp). unfold covers. by rewrite Hps.
Qed.

Lemma prefix_str_visible p : prefix_wf p -> sall visible (prefix_str p) = true.
Proof.
  intros (Hw & Hz & Hb). unfold prefix_str. rewrite !sall_app.
  assert (sall visible (addr_str (p_addr p)) = true) as ->.
  { eapply sall_impl; [|by apply (printed_chars (p_addr p)), addr_printed]. intros c. unfold addr_char, visible, hex_digit_val.
    cbv zeta. pose proof (bval_bound c). destruct (Ascii.eqb_spec c "."); [by subst|].
    destruct (Ascii.eqb_spec c ":"); [by subst|].
    destruct (Z.leb_spec 48 (bval c)), (Z.leb_spec (bval c) 57), (Z.leb_spec 97 (bval c)), (Z.leb_spec (bval c) 102),
      (Z.leb_spec 65 (bval c)), (Z.leb_spec (bval c) 70); cbn [andb orb]; try discriminate; intros _;
      apply andb_true_intro; (split; [apply Z.leb_le|apply Z.ltb_lt]; lia). }
  assert (Forall (fun b => sall visible (itoa b) = true) (seqZ 0 129)) as Hbits
    by (apply (bool_decide_unpack _); vm_compute; exact I).
  rewrite list.Forall_forall in Hbits. rewrite Hbits; [done|]. apply elem_of_seqZ.
  destruct (p_addr p); cbn [bit_len] in Hb; lia.
Qed.

(** C25: An entry of the access list is stored as what was typed.  The text the dashboard sends to
    the store for an address or a range is a range that reads back, written in one way: it stands
    for the addresses the typed text stands for, the engine reads the same range in it, and it is
    its own normal form, so that the text a list shows is the one that removes the entry. *)
Theorem entry_normal_form value text : parsePrefix value = Ok text ->
  parsePrefix text = Ok text /\ is_Some (parse_prefix text) /\ ParsePrefix text = ParsePrefix (trim_space value) /\
  same_addresses text (trim_space value).
Proof.
  intros Hv. destruct (entry_range value text Hv) as (p & -> & Hp & Hw & Hm & Hps).
  assert (ParsePrefix (prefix_str p) = Ok p) as Ht by (unfold ParsePrefix; by rewrite Hps, Hm).
  split; [|split; [|split]].
  - unfold parsePrefix. rewrite trim_visible, Hps, Hm by by apply prefix_str_visible.
    destruct (String.eqb_spec (prefix_str p) EmptyString) as [E|]; [by rewrite E in Hps|done].
  - rewrite Hps. by eexists.
  - by rewrite Ht, Hp.
  - by apply entry_covers.
Qed.
End Normal.

(** ** A ban *)

(** The network type prints what it was given in normal form. *)
Class CidrNetwork `{CidrType} : Prop := cidr_prints text p c :
  parse_prefix text = Some p -> masked p = p -> cidr_in text = Some c -> forall a, covers (cidr_out c) a = covers text a.

Section Ban.
Context `{CidrNetwork} `{UnicodePrint} `{Bcrypt}.

(** The request adds an entry that denies the address, and is answered 201. *)
Record ban d v q user d' a : Prop := {
  ban_answer : exists events r, handleAddIPRule d v q user = (d', events, Answer r) /\ p_Status r = 201;
  ban_entry : exists req, decode_ip (q_Body q) = Some req /\ Action req = ActionDeny /\
    covers (trim_space (CIDR req)) a = true
}.

(** No entry of the store allows the address, and the access list is on. *)
Record bannable (s : store) a : Prop := {
  ban_on : switch_on s "ipblock" = true;
  ban_alone row : row ∈ s_ips s -> ir_action row = ActionAllow -> covers (cidr_out (ir_cidr row)) a = false
}.

(** What an addition that is answered 201 leaves in the store. *)
Lemma addition_stored d v q user d' events r : handleAddIPRule d v q user = (d', events, Answer r) -> p_Status r = 201 ->
  exists req text c, decode_ip (q_Body q) = Some req /\ parsePrefix (CIDR req) = Ok text /\ cidr_in text = Some c /\
    exists row, row ∈ s_ips (d_store d') /\ ir_cidr row = c /\ ir_action row = Action req.
Proof.
  unfold handleAddIPRule. destruct (decode_ip (q_Body q)) as [req|]; [|intros [= _ _ <-]; done].
  destruct (parsePrefix (CIDR req)) as [text|m] eqn:Ep; [|intros [= _ _ <-]; done]. cbv zeta. cbn [Action CIDR Note].
  destruct (negb _ && negb _) eqn:Ea; [intros [= _ _ <-]; done|].
  destruct (RecordAdmin _ _ _ _) as [ev [u|m]]; [|intros [= _ _ <-]; done].
  destruct (AddIPRule (d_store d) _ user) as [s [rule|m]] eqn:Es; [|intros [= _ _ <-]; done].
  intros [= <- _ _] _. unfold AddIPRule in Es. cbn [Action CIDR Note] in Es. rewrite Ea in Es.
  destruct (s_fault (d_store d)), (pg_refuse (Note req)), (pg_refuse user); try discriminate.
  destruct (cidr_in text) as [c|] eqn:Ec; [|discriminate]. injection Es as <- _. exists req, text, c.
  split; [done|]. split; [done|]. split; [done|]. set (row := IPRow c (Action req) (Note req) (s_now (d_store d)) user).
  exists row. split; [|done]. cbn [d_store with_store with_ips s_ips].
  pose proof (upsert_find row (s_ips (d_store d)) c) as Hf.
  rewrite bool_decide_eq_true_2 in Hf by done. apply List.find_some in Hf as [Hf _]. by apply list_elem_of_In.
Qed.

Lemma watch_rules {W} (s t : Watch.system (W := W)) : rtc Watch.step s t -> rules (y_engine t) = rules (y_engine s).
Proof.
  induction 1 as [|s s1 t Hst _ IH]; [done|]. rewrite IH. clear IH. destruct Hst as [fault s s1 He|s c|s kind]; [|done..].
  destruct He as [s k queue|s|s|s]; [done|done|by destruct (EnabledMap (read_at (y_store s) fault))|].
  by destruct (IPRules (read_at (y_store s) fault)).
Qed.

(** A denied address is blocked by the first rule of the chain. *)
Lemma ban_first `{Regexp} {R} `{Redis R} set max (e : Engine (world (R := R))) w req start stop :
  rules e = engine_chain set max -> Rules.index (enabled e) "ipblock" = true -> denied w req ->
  let x := (Decide e w req start stop).2 in d_Verdict x = Block /\ d_Status x = 403.
Proof.
  intros Hr Hon Hd. unfold Decide. rewrite Hr. unfold engine_chain, denied in *.
  destruct (IPBlock.Evaluate (w_ip w) req) as [verdict reason] eqn:E. cbn [fst] in Hd. subst verdict.
  rewrite (loop_step _ ip_rule _ w w Block reason) by (cbn; by rewrite E).
  change (rule_Name ip_rule) with "ipblock". rewrite Hon. done.
Qed.

(** The list blocks what an entry of it denies and none allows. *)
Lemma list_blocks ip rows req a e : parse_addr (IP req) = Some a -> e ∈ rows -> Action e = ActionDeny ->
  covers (CIDR e) a = true -> (forall e, e ∈ rows -> Action e = ActionAllow -> covers (CIDR e) a = false) ->
  (IPBlock.Evaluate (IPBlock.Set_ ip rows).1 req).1 = Block.
Proof.
  intros Ha He Hact Hcov Hallow. pose proof (parse_addr_wf _ _ Ha) as Hw. apply Evaluate_block. exists a. split; [done|].
  unfold IPBlock.Set_. cbn [fst IPBlock.allow IPBlock.deny]. destruct (load_rows_spec rows) as (-> & -> & _).
  rewrite !prefixes_covers by done. split; [by exists e|].
  intros (e' & He' & Hact' & Hcov'). by rewrite Hallow in Hcov'.
Qed.

(** C6: A banned client is turned away at the door.  When the dashboard has answered 201 to a deny
    entry that covers a client's address, no entry of the list allows it and the access list is
    on, then whatever the engine was doing, and even when the announcement was lost, it needs
    fewer than thirty steps of its own until every request of that client is answered by the
    proxy with 403 and the block page, whatever it asks for and whatever the other rules, the rate
    limit's store and the fail mode say. *)
Theorem ban_enforced `{Cjson} `{!CjsonLaws} `{Regexp} {R} `{Redis R} set max d v q user d'
    s0 ip0 (s : Watch.system (W := world (R := R))) a :
  ban d v q user d' a -> sound s0 -> rtc Watch.step (begin s0 (engine_of set max) ip0) s -> y_store s = d_store d' ->
  bannable (y_store s) a ->
  exists s' n, nsteps (engine_step None) n s s' /\ (n < 30)%nat /\
    forall ready version c w x client ms, w_ip w = y_ip s' -> names_ok client -> limits client ->
      float_lit (millisSince (r_start x) (r_stop x)) = Some ms ->
      parse_addr (fix_utf8 (q_remote_addr client)) = Some a ->
      access c (engine_at (EngineApi.New (MkOptions (y_engine s') ready version)) w x (ENGINE_URL c)) client
      = Proxy.deny 403 (q_request_id client).
Proof.
  intros [(events & r & Hh & Hst) (req & Hreq & Hact & Hcov)] Hs Hsteps Hy [Hon Hallow].
  destruct (addition_stored _ _ _ _ _ _ _ Hh Hst) as (req' & text & net & Hr' & Hp & Hc & row & Hrow & Hrc & Hra).
  rewrite Hreq in Hr'. injection Hr' as <-. rewrite <- Hy in Hrow. rewrite Hact in Hra.
  pose proof (watch_steps _ _ Hsteps (watch_begin s0 (engine_of set max) ip0 Hs)) as Hi.
  destruct (catches_up s Hi) as (s' & n & G1 & G2 & _ & _ & G5 & G6 & (rows & Grows & Gip) & G8).
  pose proof (i_queue s Hi) as Hq. unfold control_buffer in Hq.
  assert (rules (y_engine s') = engine_chain set max) as Hrules by (rewrite G8; exact (watch_rules _ _ Hsteps)).
  exists s', n. split; [done|]. split; [lia|]. intros ready version c w x client ms Hw Hn Hl Hms Ha.
  destruct (access_decides c (EngineApi.New (MkOptions (y_engine s') ready version)) w x client ms Hn Hl) as
    (headers & payload & _ & _ & _ & Hacc); [|exact Hms|].
  { unfold statuses_ok. cbn [sv_engine EngineApi.New o_Engine]. rewrite Hrules. apply chain_statuses. }
  rewrite Hacc. cbn [sv_engine EngineApi.New o_Engine]. unfold enforced.
  match goal with |- context [Decide _ _ ?rq ?t ?u] =>
    destruct (ban_first set max (y_engine s') w rq t u) as [-> ->]; [exact Hrules| | |reflexivity] end.
  - change "ipblock" with (rule_Name (ip_rule (R := R))).
    rewrite (fresh_switch s' ip_rule); [by rewrite G5|rewrite G5; by apply (i_sound s Hi)|done|rewrite Hrules; left].
  - unfold denied. rewrite Hw, Gip. rewrite G5 in Grows. cbn [read_at] in Grows. unfold IPRules in Grows. cbn [s_fault] in Grows.
    injection Grows as <-.
    assert (forall z, z ∈ map scan_ip (stable_sort ip_before (s_ips (y_store s))) <->
      exists row, z = scan_ip row /\ row ∈ s_ips (y_store s)) as Hlist
      by (intros z; rewrite list_elem_of_fmap; by setoid_rewrite stable_sort_perm).
    apply (list_blocks _ _ _ a (scan_ip row)); [exact Ha|apply Hlist; by exists row|done| |].
    + cbn [scan_ip CIDR]. rewrite Hrc. destruct (entry_range _ _ Hp) as (p & Et & _ & _ & Hm & Hps).
      rewrite <- Et in Hps. rewrite (cidr_prints text p net Hps Hm Hc).
      rewrite (entry_covers _ _ Hp) by by eapply parse_addr_wf. exact Hcov.
    + intros z (row' & -> & Hrow')%Hlist Hact'. by apply Hallow.
Qed.
End Ban.

(** ** A run *)

#[local] Existing Instance RuleStore.Sample.text_cidr.
#[local] Existing Instance IPBlock.ascii_print.
#[local] Existing Instance Auth.plain_bcrypt.
#[local] Existing Instance RateLimit.map_redis.
#[local] Existing Instance Patterns.literals.
#[local] Existing Instance Proxy.go_cjson.
#[local] Existing Instance Proxy.go_cjson_laws.

Lemma text_cidr_prints : CidrNetwork.
Proof.
  intros text p c _ _ Hc a. cbn in Hc. destruct (String.eqb text EmptyString); [discriminate|]. by injection Hc as <-.
Qed.
#[local] Existing Instance text_cidr_prints.

(** A range with a zone is read as one address, whose zone takes up the length. *)
Example normal_forms : map parsePrefix [" 10.1.2.3/8"; "2001:DB8:0:0:1::7"; "::ffff:10.0.0.1"; "fe80::%eth0/64"; "10.0.0.300"]
  = [Ok "10.0.0.0/8"; Ok "2001:db8::1:0:0:7/128"; Ok "::ffff:10.0.0.1/128";
     Ok "fe80::/128";
     Err (quote "10.0.0.300" +:+ " is neither an IP address nor a CIDR range")].
Proof. vm_compute. reflexivity. Qed.

Lemma entry_normal_form_witness : covers "2001:db8::/32" (V6 (0x20010db8 * 2 ^ 96 + 7) EmptyString) = true.
Proof.
  destruct (entry_normal_form "2001:0DB8:0:ffff::1/32" "2001:db8::/32") as (_ & _ & _ & Hc).
  - vm_compute. reflexivity.
  - rewrite Hc; [vm_compute; reflexivity|]. vm_compute. split; [discriminate|reflexivity].
Defined.

Definition ban_request : DashApi.request :=
  DashApi.Req "POST" "/api/v1/ip-rules" EmptyString "198.51.100.9:5" EmptyString (Some sample_token)
    (replace_char "'" dquote "{'cidr':'203.0.113.77/24','action':'deny'}").

Definition banned : handled := handleAddIPRule sample_dash sample_env ban_request "admin".

Definition banned_client : Proxy.request :=
  Proxy.Req "r-3" "203.0.113.5" "GET" "/" None "shop" "https" [("Host", One "shop")] NoBody.

Definition banned_store : store := d_store banned.1.1.

Lemma banned_sound : sound banned_store.
Proof.
  change (sound (run Sample.seeded (Call 0 None (Put (MkIPRule "203.0.113.0/24" "deny" EmptyString 0 EmptyString) "admin")))).
  apply run_sound, Sample.seeded_sound.
Qed.

Lemma banned_answer : exists r,
  handleAddIPRule sample_dash sample_env ban_request "admin" = (banned.1.1, banned.1.2, Answer r) /\ p_Status r = 201.
Proof.
  assert (exists r, banned.2 = Answer r /\ p_Status r = 201) as (r & Er & Hr)
    by (eexists; split; [vm_compute; reflexivity|reflexivity]).
  exists r. split; [|exact Hr]. rewrite <- Er. fold banned. by destruct banned as [[? ?] ?].
Qed.

Lemma banned_listed : s_ips banned_store = [IPRow "203.0.113.0/24" "deny" EmptyString 0 "admin"].
Proof. vm_compute. reflexivity. Qed.

Definition banned_world (s : Watch.system (W := world (R := map_store))) : world (R := map_store) :=
  World (y_ip s) (NewRateLimit (RateLimit.New 2 (60 * second))) ∅ 0 Answered false.

Lemma ban_enforced_witness : exists s' : Watch.system (W := world (R := map_store)),
  access sample_settings
    (engine_at (EngineApi.New (MkOptions (y_engine s') None "1.0")) (banned_world s') sample_around "http://engine:8080")
    banned_client = Proxy.deny 403 "r-3".
Proof.
  destruct banned_answer as (r & E & Hr).
  destruct (ban_enforced sample_set 0 sample_dash sample_env ban_request "admin" banned.1.1 banned_store NewIPBlock
    (begin banned_store (engine_of sample_set 0) NewIPBlock) (V4 (203 * 2 ^ 24 + 113 * 2 ^ 8 + 5)))
    as (s' & n & _ & _ & Hx).
  - split; [exists banned.1.2, r; exact (conj E Hr)|]. exists (MkIPRule "203.0.113.77/24" "deny" EmptyString zero_time EmptyString).
    split; [vm_compute; reflexivity|]. split; [reflexivity|vm_compute; reflexivity].
  - exact banned_sound.
  - apply rtc_refl.
  - reflexivity.
  - split; [vm_compute; reflexivity|]. intros row Hrow Hact. exfalso. cbn [begin y_store] in Hrow.
    rewrite banned_listed in Hrow. apply list_elem_of_singleton in Hrow as ->. discriminate Hact.
  - exists s'. apply (Hx None "1.0" sample_settings (banned_world s') sample_around banned_client "1.5").
    + reflexivity.
    + repeat constructor.
    + split; [vm_compute; discriminate|intros b Hb; discriminate].
    + vm_compute. reflexivity.
    + vm_compute. reflexivity.
Defined.
