(* ===== verification/Shield.v ===== *)
(** * The whole path of a request

    nginx's hook ([Proxy]) in front of the engine with the chain [run] builds ([Assembly]) and the
    signatures built into it ([Signatures]): what a request carries through the hook and the
    engine's JSON to the signatures, and what the way there hides from them. *)

From S2P Require Import Prelude Utf8 GoText GoTime GoJson GoStruct Canonical Model RateLimit Rules IPBlock Patterns Assembly Regex Signatures GoMux EngineApi Proxy.

(** ** Text on the way *)

Lemma encode_byte c : bval c < 0x80 -> encode_rune (bval c) = str1 c.
Proof.
  intros Hc. pose proof (bval_bound c). unfold encode_rune. assert (valid_rune (bval c) = true) as ->.
  { unfold valid_rune. zbool; lia. }
  rewrite (proj2 (Z.ltb_lt _ _) Hc). unfold byte_str. by rewrite bof_bval.
Qed.

Lemma lua_lower_byte c : bval c < 0x80 ->
  bval (lua_lower_char c) < 0x80 /\ rune_lower (bval (lua_lower_char c)) = bval (lua_lower_char c).
Proof.
  intros Hc. pose proof (bval_bound c). unfold lua_lower_char, rune_lower.
  destruct (Z.leb_spec 65 (bval c)), (Z.leb_spec (bval c) 90); cbn [andb]; rewrite ?bval_bof by lia; split; try lia;
    rewrite (proj2 (Z.ltb_lt _ 128)) by lia;
    match goal with |- (if (65 <=? ?x) && (?x <=? 90) then _ else _) = _ =>
      destruct (Z.leb_spec 65 x), (Z.leb_spec x 90) end; cbn [andb]; lia.
Qed.

(** The engine's lower-casing leaves the hook's alone. *)
Lemma lower_again s : ascii_only s = true -> to_lower (lua_lower s) = lua_lower s.
Proof.
  unfold ascii_only, to_lower, map_runes. induction s as [|c s IH]; [done|]. cbn [sall lua_lower].
  intros [Hc Hs]%andb_prop. apply Z.ltb_lt in Hc. destruct (lua_lower_byte c Hc) as [Hl Hr].
  rewrite runes_ascii_cons by done. cbn [map sconcat r_val]. rewrite Hr, IH by done. by rewrite encode_byte.
Qed.

Definition is_lower (s : string) : Prop := to_lower s = s.

Lemma collect_lower (headers : list (string * hvalue)) :
  Forall (fun h : string * hvalue => ascii_only h.1 = true) headers ->
  Forall (fun h => is_lower h.1) (collect_headers headers).
Proof.
  unfold collect_headers. intros Hh. generalize (@List.Forall_nil (string * string) (fun h => is_lower h.1)).
  generalize (@nil (string * string)).
  induction Hh as [|[n v] headers Hn _ IH]; intros out Ho; cbn [foldl]; [done|]. apply IH. cbn [fst snd].
  destruct (existsb _ _); [done|].
  apply assoc_set_Forall; [|done]. by apply lower_again.
Qed.

Lemma lowercase_idle l : NoDup l.*1 -> Forall (fun h => is_lower h.1) l -> lowercaseKeys l = l.
Proof.
  unfold lowercaseKeys. intros Hnd Hl.
  enough (forall out, NoDup (out ++ l).*1 ->
    foldl (fun out (h : string * string) => assoc_set (to_lower h.1) h.2 out) out l = out ++ l) as Hx by by apply Hx.
  clear Hnd. induction Hl as [|[k v] l Hk _ IH]; intros out Hnd; cbn [foldl]; [by rewrite app_nil_r|].
  cbn [fst snd] in *. rewrite Hk, assoc_set_fresh.
  - rewrite IH; rewrite <- app_assoc; done.
  - rewrite fmap_app in Hnd. apply list.NoDup_app in Hnd as (_ & Hd & _). intros Hin. apply (Hd _ Hin). left.
Qed.

(** ** What the signatures are shown *)

Section Shown.
Context `{CjsonLaws}.

(** The texts of a request the signatures are meant for: its path and its query as they were sent,
    the inspected part of its body, and the headers that are neither dropped nor excluded. *)
Definition carried (c : settings) (q : request) : list string :=
  [q_uri q; default EmptyString (q_args q); (read_body (MAX_BODY c) (q_body q)).1]
  ++ map snd (List.filter (fun h => negb (skipHeader h.1)) (collect_headers (given_id q))).

Lemma parts_seen c q headers now : names_ok q -> headers ≡ₚ sent_headers q ->
  parts (request_context (seen c q headers) now) ≡ₚ map fix_utf8 (carried c q).
Proof.
  intros Hn Hh. pose proof (collect_good _ (given_id_ok q Hn)) as [Hnd _]. pose proof (collect_lower _ (given_id_ok q Hn)) as Hlow.
  assert (lowercaseKeys headers = headers) as Hid.
  { apply lowercase_idle.
    - rewrite Hh. unfold sent_headers. rewrite <- list_fmap_compose. exact Hnd.
    - rewrite Hh. unfold sent_headers. by apply List.Forall_map. }
  unfold parts, carried, request_context. cbn [Path Query Body Headers seen dq_Path dq_Query dq_Body dq_Headers].
  rewrite Hid. rewrite map_app. apply Permutation_app; [done|].
  transitivity (map snd (List.filter (fun h : string * string => negb (skipHeader h.1)) (sent_headers q)));
    [by apply Permutation_map, filter_perm|].
  unfold sent_headers. generalize (collect_headers (given_id q)) as l. intros l. apply Permutation_refl'.
  induction l as [|[k v] l IH]; [done|]. cbn [map List.filter fst snd]. destruct (negb (skipHeader k)); [|exact IH].
  cbn [map fst snd]. by rewrite IH.
Qed.
End Shown.

(** ** The engine behind the hook *)

Section Shield.
Context `{CjsonLaws} `{UnicodePrint} {R : Type} `{Redis R}.

(** The engine [run] builds, with its switches. *)
Definition engine_server (set : SignatureSet) (max : Z) (on : gmap string bool)
    (ready : option (pings -> result unit)) (version : string) : Server (world (R := R)) :=
  EngineApi.New (MkOptions (SetEnabled (engine_of set max) on) ready version).

Lemma engine_statuses set max on ready version :
  statuses_ok (sv_engine (engine_server set max on ready version)).
Proof. apply (chain_statuses set max). Qed.


(** ** What the way there hides *)

(** [n] bytes that are no text. *)
Fixpoint broken (n : nat) (rest : string) : string :=
  match n with O => rest | S n => String (bof 0xFF) (broken n rest) end.

Definition with_args (q : request) (args : string) : request :=
  Req (q_request_id q) (q_remote_addr q) (q_method q) (q_uri q) (Some args) (q_host q) (q_scheme q) (q_headers q) (q_body q).

Fixpoint replaced (n : nat) (rest : string) : string :=
  match n with O => rest | S n => encode_rune rune_error +:+ replaced n rest end.

Lemma fix_broken n rest : fix_utf8 (broken n rest) = replaced n (fix_utf8 rest).
Proof.
  induction n as [|n IH]; [done|]. cbn [broken replaced]. rewrite <- IH. unfold fix_utf8. rewrite runes_unfold.
  assert (decode_rune (String (bof 0xFF) (broken n rest)) = Some (bad_rune (bof 0xFF), broken n rest)) as ->; [|done].
  by destruct (broken n rest) as [|? [|? [|? ?]]].
Qed.

(** What is scanned of enough of them. *)
Lemma stake_replaced n m x y : (m <= 3 * n)%nat -> stake m (replaced n x) = stake m (replaced n y).
Proof.
  revert m. induction n as [|n IH]; intros m Hm; [by destruct m; [|lia]|].
  cbn [replaced]. change (encode_rune rune_error) with (String (bof 0xEF) (String (bof 0xBF) (str1 (bof 0xBD)))).
  destruct m as [|[|[|m]]]; [done..|]. cbn. by rewrite (IH m) by lia.
Qed.

Lemma forms_broken max n x y : 0 < max <= 3 * Z.of_nat n ->
  forms max (fix_utf8 (broken n x)) = forms max (fix_utf8 (broken n y)).
Proof.
  intros Hm. rewrite !fix_broken. unfold forms.
  rewrite (stake_replaced n (Z.to_nat max) (fix_utf8 x) (fix_utf8 y)) by lia.
  destruct n as [|n]; [lia|done].
Qed.

(** The verdict of the chain on two requests from one address that show the same forms. *)
Lemma same_outcome set max on (w : world (R := R)) req req' start stop id :
  IP req' = IP req -> member_of req' = member_of req ->
  (forall sigs, matched sigs max req' <-> matched sigs max req) ->
  enforced (Decide (SetEnabled (engine_of set max) on) w req' start stop).2 id
  = enforced (Decide (SetEnabled (engine_of set max) on) w req start stop).2 id.
Proof.
  intros Hip Hm Hs.
  destruct (chain_status set max on w req start stop) as (ip & rate & sqli & xss & Hi & Hr & Hq & Hx & E).
  destruct (chain_status set max on w req' start stop) as (ip' & rate' & sqli' & xss' & Hi' & Hr' & Hq' & Hx' & E').
  assert (ip' = ip /\ rate' = rate /\ sqli' = sqli /\ xss' = xss) as (-> & -> & -> & ->).
  { assert (denied w req' = denied w req) as Ed by (unfold denied, IPBlock.Evaluate; by rewrite Hip).
    assert (limited w req' <-> limited w req) as El.
    { unfold limited, rl_Evaluate. rewrite Hip, Hm.
      destruct (Allow _ _ _ _ _ _) as [r [res|]]; [|done]. by destruct (Limited res). }
    rewrite Ed in Hi'. rewrite El in Hr'. rewrite Hs in Hq', Hx'.
    split; [apply eq_true_iff_eq; by rewrite Hi, Hi'|]. split; [apply eq_true_iff_eq; by rewrite Hr, Hr'|].
    split; [apply eq_true_iff_eq; by rewrite Hq, Hq'|]. apply eq_true_iff_eq; by rewrite Hx, Hx'. }
  unfold enforced. cbn zeta in E, E'. rewrite <- E in E'. injection E' as -> ->. done.
Qed.
Lemma carried_matched sigs max c q n x y headers headers' now :
  names_ok q -> headers ≡ₚ sent_headers q -> headers' ≡ₚ sent_headers q -> scan_limit max <= 3 * Z.of_nat n ->
  matched sigs max (request_context (seen c (with_args q (broken n x)) headers) now) ->
  matched sigs max (request_context (seen c (with_args q (broken n y)) headers') now).
Proof.
  intros Hn Hh Hh' Hm (part & form & Hp & Hf & Hhit). unfold matched, some_form.
  setoid_rewrite (parts_seen c (with_args q (broken n y)) headers' now Hn Hh').
  rewrite (parts_seen c (with_args q (broken n x)) headers now Hn Hh) in Hp.
  change (maxScan (NewPatternRule EmptyString sigs max)) with (scan_limit max) in *.
  unfold carried in *. cbn [map app default q_uri q_args q_body q_headers with_args] in *.
  apply elem_of_cons in Hp as [->|Hp]; [exists (fix_utf8 (q_uri q)), form; split; [left|done]|].
  apply elem_of_cons in Hp as [->|Hp].
  - exists (fix_utf8 (broken n y)), form. split; [right; left|]. split; [|done].
    rewrite (forms_broken _ _ _ x); [done|]. split; [|done]. unfold scan_limit. destruct (Z.leb_spec max 0); lia.
  - exists part, form. split; [by do 2 right|done].
Qed.

(** C33: Bytes that are no text push what follows them out of the scan.  The limit on a scanned part
    is applied after JSON has replaced every such byte by three, so a query that starts with a
    third as many of them as are scanned, 2,731 with the default of 8,192, has the same outcome
    whatever comes next: nothing after them is looked at, although the query is far shorter than
    the limit. *)
Theorem broken_bytes_hide_the_rest set max on ready version c (w : world (R := R)) a q n x y ms :
  names_ok q -> limits (with_args q (broken n x)) -> limits (with_args q (broken n y)) ->
  float_lit (millisSince (r_start a) (r_stop a)) = Some ms -> scan_limit max <= 3 * Z.of_nat n ->
  let post := engine_at (engine_server set max on ready version) w a (ENGINE_URL c) in
  access c post (with_args q (broken n x)) = access c post (with_args q (broken n y)).
Proof.
  intros Hn Hx Hy Hms Hlen post. assert (statuses_ok (sv_engine (engine_server set max on ready version))) as He by apply engine_statuses.
  destruct (access_decides c (engine_server set max on ready version) w a (with_args q (broken n x)) ms Hn Hx He Hms)
    as (headers & text & Hh & _ & _ & Ha).
  destruct (access_decides c (engine_server set max on ready version) w a (with_args q (broken n y)) ms Hn Hy He Hms)
    as (headers' & text' & Hh' & _ & _ & Ha').
  unfold post. rewrite Ha, Ha'. cbn [q_request_id with_args].
  apply same_outcome; [done|done|]. intros sigs. split; by apply carried_matched.
Qed.
End Shield.

(** ** An attack on its way *)

#[local] Existing Instance RateLimit.map_redis.
#[local] Existing Instance IPBlock.ascii_print.
#[local] Existing Instance Proxy.go_cjson.
#[local] Existing Instance Proxy.go_cjson_laws.

Definition attack_request (args : string) : request :=
  Req "r-2" "192.0.2.1" "GET" "/search" (Some args) "shop" "https"
    [("Host", One "shop"); ("User-Agent", One "curl/8.5.0")] NoBody.

Lemma attack_limits args : slen args <= 4000 -> limits (attack_request args).
Proof.
  intros Ha. split; [|done]. unfold head_bytes. cbn [attack_request q_args default q_request_id q_remote_addr q_method
    q_uri q_host q_scheme q_headers]. change (total _) with 30. unfold slen in *. cbn [String.length id]. lia.
Qed.

Definition built_in (set : SignatureSet) : Prop := LoadSignatures defaultPatterns no_file EmptyString = Ok set.

Lemma built_in_loads : exists set, built_in set.
Proof.
  assert (is_Ok (LoadSignatures defaultPatterns no_file EmptyString) = true) as Ho by (vm_compute; reflexivity).
  unfold built_in. destruct (LoadSignatures defaultPatterns no_file EmptyString) as [set|]; [by exists set|discriminate].
Qed.

(** The engine as it starts, behind the hook. *)
Definition started (set : SignatureSet) (max : Z) : string -> string -> result (Z * string) :=
  engine_at (engine_server set max all_on (Some dependencies) "1.0") sample_world sample_around "http://engine:8080".


(** With thirty bytes scanned: the attack is blocked; behind ten such bytes it goes through. *)
Definition attack : string := "' union select 1".

Definition outcome_of (args : string) : option outcome :=
  match LoadSignatures defaultPatterns no_file EmptyString with
  | Ok set => Some (access sample_settings (started set 30) (attack_request args))
  | Err _ => None
  end.

Example attack_outcomes :
  outcome_of attack = Some (deny 403 "r-2") /\ outcome_of (broken 10 attack) = Some Proceed.
Proof. vm_compute. split; reflexivity. Qed.

Lemma broken_bytes_hide_the_rest_witness : exists set, built_in set /\
  access sample_settings (started set 30) (attack_request (broken 10 attack))
  = access sample_settings (started set 30) (attack_request (broken 10 EmptyString)).
Proof.
  destruct built_in_loads as [set E]. exists set. split; [exact E|].
  refine (broken_bytes_hide_the_rest set 30 all_on (Some dependencies) "1.0" sample_settings sample_world
    sample_around (attack_request EmptyString) 10 attack EmptyString "1.5" _ _ _ _ _).
  - repeat constructor.
  - apply attack_limits. vm_compute. discriminate.
  - apply attack_limits. vm_compute. discriminate.
  - vm_compute. reflexivity.
  - vm_compute. discriminate.
Defined.
