(* ===== verification/DemoBackend.v ===== *)
(** * The demo backend

    [examples/demo-backend/main.go], the application behind the proxy in the repository's own
    deployment: it shows the request that reached it.  The page stands here byte for byte; a
    tilde, which it does not have, stands for a double quote. *)

From S2P Require Import Prelude Utf8 GoText GoTime GoJson GoStruct Canonical Model Rules Signatures GoMux EngineApi Proxy.

(** ** The standard library *)

(** A byte a header's name may have. *)
Definition token_byte (c : ascii) : bool :=
  let z := bval c in
  ((48 <=? z) && (z <=? 57)) || ((65 <=? z) && (z <=? 90)) || ((97 <=? z) && (z <=? 122))
  || existsb (fun d => Ascii.eqb c d) (list_ascii_of_string "!#$%&'*+-.^_`|~").

Fixpoint canonical_from (upper : bool) (s : string) : string :=
  match s with
  | EmptyString => EmptyString
  | String c s =>
      let z := bval c in
      let c' := if upper then (if (97 <=? z) && (z <=? 122) then bof (z - 32) else c)
                else lua_lower_char c in
      String c' (canonical_from (Ascii.eqb c "-") s)
  end.

(** [textproto.CanonicalMIMEHeaderKey] *)
Definition CanonicalHeaderKey (s : string) : string :=
  if sall token_byte s then canonical_from true s else s.

(** [http.Header]: the values under each canonical name. *)
Definition header := list (string * list string).

(** [Header.Get] *)
Definition Get (h : header) (name : string) : string :=
  match assoc (CanonicalHeaderKey name) h with Some (v :: _) => v | _ => EmptyString end.

(** [html.EscapeString] *)
Definition escape_byte (c : ascii) : string :=
  if Ascii.eqb c "&" then "&amp;"
  else if Ascii.eqb c "'" then "&#39;"
  else if Ascii.eqb c "<" then "&lt;"
  else if Ascii.eqb c ">" then "&gt;"
  else if Ascii.eqb c dquote then "&#34;"
  else str1 c.

Fixpoint EscapeString (s : string) : string :=
  match s with
  | EmptyString => EmptyString
  | String c s => escape_byte c +:+ EscapeString s
  end.

(** [fmt.Sprintf] with the verbs [%s] and [%%]. *)
Fixpoint sprintf (format : string) (args : list string) : string :=
  match format with
  | EmptyString => EmptyString
  | String c rest =>
      match rest with
      | String d rest' =>
          if Ascii.eqb c "%" then
            if Ascii.eqb d "s" then
              match args with
              | a :: args => a +:+ sprintf rest' args
              | [] => "%!s(MISSING)" +:+ sprintf rest' []
              end
            else if Ascii.eqb d "%" then String "%" (sprintf rest' args)
            else String c (sprintf rest args)
          else String c (sprintf rest args)
      | EmptyString => String c EmptyString
      end
  end.

(** ** The handlers *)

(** A request as [net/http] gives it to a handler. *)
Record brequest := BRequest {
  b_Method : string; b_Path : string; b_EscapedPath : string; b_RawQuery : string; b_Header : header
}.

(** [echoJSON] *)
Definition echoJSON (r : brequest) : string :=
  default EmptyString (encode true (VObject
    [("method", VString (b_Method r)); ("path", VString (b_Path r)); ("query", VString (b_RawQuery r));
     ("request_id", VString (Get (b_Header r) "X-Request-ID"));
     ("client_ip", VString (Get (b_Header r) "X-Real-IP"))])) +:+ byte_str 10.

Definition demoPage : string := unquoted
"<!doctype html>
<html lang=~es~><head><meta charset=~utf-8~>
<title>Aplicación protegida — open-shield</title>
<style>
 body{font-family:system-ui,sans-serif;margin:3rem auto;max-width:48rem;
      padding:0 1.5rem;line-height:1.6;color:#1c1f24;background:#f7f8fa}
 .ok{background:#e6f4ea;border-left:4px solid #1e8e3e;padding:.75rem 1rem;
     border-radius:.25rem;margin:1.5rem 0}
 table{border-collapse:collapse;width:100%%;margin-top:1rem;background:#fff;
       border-radius:.4rem;overflow:hidden;font-size:.9rem}
 th,td{padding:.5rem .75rem;text-align:left;border-bottom:1px solid #e8eaee;
       vertical-align:top}
 th{width:14rem;font-weight:600;color:#4a5058}
 code{background:#e8eaee;padding:.15rem .35rem;border-radius:.25rem}
</style></head><body>

<h1>Aplicación protegida</h1>

<div class=~ok~>
  Esta petición atravesó el proxy y el motor de reglas la permitió.
</div>

<p>Identificador de correlación — el mismo que aparece en el log de auditoría:</p>
<p><code>%s</code></p>

<table>
 <tr><th>Método</th><td>%s</td></tr>
 <tr><th>Ruta</th><td>%s</td></tr>
 <tr><th>Query</th><td>%s</td></tr>
 <tr><th>IP de origen (X-Real-IP)</th><td>%s</td></tr>
 %s
</table>

<p style=~margin-top:2rem;font-size:.9rem;color:#4a5058~>
 Prueba a pedir <code>/?id=1' OR '1'='1</code> — el motor debería bloquearla
 antes de que llegue hasta aquí.
</p>
</body></html>
".

Definition no_id : string := "(none — this request did not come through the proxy)".

(** The id the page shows. *)
Definition shown_id (r : brequest) : string :=
  let id := Get (b_Header r) "X-Request-ID" in
  if String.eqb id EmptyString then no_id else id.

(** A row of the page's table, and the rows of the sorted names. *)
Definition row (h : header) (name : string) : string :=
  sprintf "<tr><th>%s</th><td>%s</td></tr>" [EscapeString name; EscapeString (Get h name)].

Definition header_rows (h : header) : string := sconcat (map (row h) (sort_keys h).*1).

(** [page] *)
Definition page (r : brequest) : string :=
  sprintf demoPage
    [EscapeString (shown_id r); EscapeString (b_Method r); EscapeString (b_Path r);
     EscapeString (b_RawQuery r); EscapeString (Get (b_Header r) "X-Real-IP"); header_rows (b_Header r)].

Inductive broute := BHealth | BEcho | BPage.

(** The patterns: the health check by GET, the echo at its path, everything else the page. *)
Definition broute_of (method path : string) : broute :=
  if same (segments path) ["healthz"] && is_get method then BHealth
  else if same (segments path) ["api"; "echo"] then BEcho
  else BPage.

(** An answer: a redirect to the cleaned path, or a status, a type and a body. *)
Inductive banswer := Moved (path : string) | Answer (status : Z) (content_type body : string).

(** The server [main] starts. *)
Definition demo_serve (r : brequest) : banswer :=
  let clean := cleanPath (b_EscapedPath r) in
  if negb (String.eqb clean (b_EscapedPath r)) then Moved clean
  else
    match broute_of (b_Method r) (b_EscapedPath r) with
    | BHealth => Answer 200 "application/json" (unquoted "{~status~:~ok~,~component~:~demo-backend~}")
    | BEcho => Answer 200 "application/json; charset=utf-8" (echoJSON r)
    | BPage => Answer 200 "text/html; charset=utf-8" (page r)
    end.

(** [DEMO_ADDR]. *)
Definition demo_addr (e : gmap string string) : string :=
  let addr := default EmptyString (e !! "DEMO_ADDR") in
  if String.eqb addr EmptyString then ":3000" else addr.

(** ** Formats *)

(** A format as its text: what comes before the first [%s], and after each. *)
Fixpoint pieces (format : string) : string * list string :=
  match format with
  | EmptyString => (EmptyString, [])
  | String c rest =>
      match rest with
      | String d rest' =>
          if Ascii.eqb c "%" then
            if Ascii.eqb d "s" then let '(t, ts) := pieces rest' in (EmptyString, t :: ts)
            else if Ascii.eqb d "%" then let '(t, ts) := pieces rest' in (String "%" t, ts)
            else let '(t, ts) := pieces rest in (String c t, ts)
          else let '(t, ts) := pieces rest in (String c t, ts)
      | EmptyString => (String c EmptyString, [])
      end
  end.

Fixpoint filled (texts args : list string) : string :=
  match texts, args with
  | t :: texts, a :: args => a +:+ t +:+ filled texts args
  | _, _ => EmptyString
  end.

Lemma sprintf_two c d rest args : sprintf (String c (String d rest)) args =
  if Ascii.eqb c "%" then
    if Ascii.eqb d "s" then
      match args with
      | a :: args => a +:+ sprintf rest args
      | [] => "%!s(MISSING)" +:+ sprintf rest []
      end
    else if Ascii.eqb d "%" then String "%" (sprintf rest args)
    else String c (sprintf (String d rest) args)
  else String c (sprintf (String d rest) args).
Proof. done. Qed.

Lemma pieces_two c d rest : pieces (String c (String d rest)) =
  if Ascii.eqb c "%" then
    if Ascii.eqb d "s" then (EmptyString, (pieces rest).1 :: (pieces rest).2)
    else if Ascii.eqb d "%" then (String "%" (pieces rest).1, (pieces rest).2)
    else (String c (pieces (String d rest)).1, (pieces (String d rest)).2)
  else (String c (pieces (String d rest)).1, (pieces (String d rest)).2).
Proof.
  change (pieces (String c (String d rest))) with
    (if Ascii.eqb c "%" then
       if Ascii.eqb d "s" then let '(t, ts) := pieces rest in (EmptyString, t :: ts)
       else if Ascii.eqb d "%" then let '(t, ts) := pieces rest in (String "%" t, ts)
       else let '(t, ts) := pieces (String d rest) in (String c t, ts)
     else let '(t, ts) := pieces (String d rest) in (String c t, ts)).
  by destruct (pieces rest), (pieces (String d rest)).
Qed.

Lemma sprintf_pieces format args : List.length args = List.length (pieces format).2 ->
  sprintf format args = (pieces format).1 +:+ filled (pieces format).2 args.
Proof.
  enough (forall n format args, (String.length format <= n)%nat -> List.length args = List.length (pieces format).2 ->
    sprintf format args = (pieces format).1 +:+ filled (pieces format).2 args) as Hx by by apply (Hx (String.length format)).
  clear. intros n. induction n as [|n IH]; intros [|c [|d rest]] args Hn Ha; cbn [String.length] in Hn; try lia;
    try by destruct args.
  rewrite sprintf_two. rewrite pieces_two in *.
  destruct (Ascii.eqb c "%"); [destruct (Ascii.eqb d "s"); [|destruct (Ascii.eqb d "%")]|].
  - destruct args as [|a args]; [done|]. cbn [fst snd List.length filled String.append] in *. f_equal. apply IH; lia.
  - cbn [fst snd String.append] in *. f_equal. apply IH; [lia|done].
  - cbn [fst snd String.append] in *. f_equal. apply IH; [cbn [String.length]; lia|done].
  - cbn [fst snd String.append] in *. f_equal. apply IH; [cbn [String.length]; lia|done].
Qed.

(** ** Text in a page *)

Definition is_markup (c : ascii) : bool :=
  Ascii.eqb c "<" || Ascii.eqb c ">" || Ascii.eqb c "'" || Ascii.eqb c dquote.

(** The markup of a text: its angle brackets and quotes, in order. *)
Fixpoint markup (s : string) : string :=
  match s with
  | EmptyString => EmptyString
  | String c s => if is_markup c then String c (markup s) else markup s
  end.

Lemma markup_app s t : markup (s +:+ t) = markup s +:+ markup t.
Proof. induction s as [|c s IH]; [done|]. cbn. rewrite IH. by destruct (is_markup c). Qed.

Lemma markup_escape s : markup (EscapeString s) = EmptyString.
Proof.
  induction s as [|c s IH]; [done|]. cbn [EscapeString]. rewrite markup_app, IH. unfold escape_byte.
  destruct (Ascii.eqb_spec c "&"); [done|]. destruct (Ascii.eqb_spec c "'") as [|H1]; [done|].
  destruct (Ascii.eqb_spec c "<") as [|H2]; [done|]. destruct (Ascii.eqb_spec c ">") as [|H3]; [done|].
  destruct (Ascii.eqb_spec c dquote) as [|H4]; [done|]. cbn [markup str1]. unfold is_markup.
  apply Ascii.eqb_neq in H1, H2, H3, H4. by rewrite H1, H2, H3, H4.
Qed.

Lemma filled_markup texts args args' : Forall2 (fun a b => markup a = markup b) args args' ->
  markup (filled texts args) = markup (filled texts args').
Proof.
  intros Ha. revert texts. induction Ha as [|a b args args' E _ IH]; intros [|t texts]; cbn [filled]; try done.
  by rewrite !markup_app, E, IH.
Qed.

(** What each byte becomes tells it from the others, and from the markup around it. *)
Lemma escape_byte_inj c d x y : escape_byte c +:+ x = escape_byte d +:+ y -> c = d /\ x = y.
Proof.
  unfold escape_byte.
  repeat match goal with |- context [Ascii.eqb ?a ?b] => destruct (Ascii.eqb_spec a b); [subst a|] end;
    cbn [String.append str1]; first [by intros [=]; subst | intros [=]; by subst].
Qed.

Lemma escape_byte_text c x y : escape_byte c +:+ x <> String "<" y.
Proof.
  unfold escape_byte.
  repeat match goal with |- context [Ascii.eqb ?a ?b] => destruct (Ascii.eqb_spec a b); [subst a|] end;
    cbn [String.append str1]; intros [=]; by subst.
Qed.

Lemma escape_peel s t x y : EscapeString s +:+ String "<" x = EscapeString t +:+ String "<" y -> s = t /\ x = y.
Proof.
  revert t. induction s as [|c s IH]; intros [|d t]; cbn [EscapeString String.append]; rewrite ?app_assoc_str.
  - by intros [=].
  - intros E. symmetry in E. by apply escape_byte_text in E.
  - intros E. by apply escape_byte_text in E.
  - intros [<- E]%escape_byte_inj. by destruct (IH t E) as [<- <-].
Qed.

(** The page around what is inserted: five texts that begin with markup, and the last. *)
Lemma page_frame : exists t1 t2 t3 t4 t5 t6,
  (pieces demoPage).2 = [String "<" t1; String "<" t2; String "<" t3; String "<" t4; String "<" t5; t6].
Proof. vm_compute. do 6 eexists. reflexivity. Qed.

Definition inserted (r : brequest) : list string :=
  [EscapeString (shown_id r); EscapeString (b_Method r); EscapeString (b_Path r);
   EscapeString (b_RawQuery r); EscapeString (Get (b_Header r) "X-Real-IP"); header_rows (b_Header r)].

Lemma page_pieces r : page r = (pieces demoPage).1 +:+ filled (pieces demoPage).2 (inserted r).
Proof. apply sprintf_pieces. destruct page_frame as (? & ? & ? & ? & ? & ? & E). by rewrite E. Qed.

Definition row_markup : string := markup "<tr><th></th><td></td></tr>".

Lemma row_has_markup h name : markup (row h name) = row_markup.
Proof.
  unfold row. rewrite sprintf_pieces by done. rewrite markup_app.
  rewrite (filled_markup _ _ [EmptyString; EmptyString]).
  - by vm_compute.
  - repeat constructor; apply markup_escape.
Qed.

Lemma rows_markup h h' : List.length h = List.length h' -> markup (header_rows h) = markup (header_rows h').
Proof.
  intros E. assert (List.length (sort_keys h).*1 = List.length (sort_keys h').*1) as El
    by (rewrite !length_fmap, !sort_keys_perm; exact E).
  unfold header_rows. clear E. revert El. generalize (sort_keys h).*1 as l, (sort_keys h').*1 as l'.
  induction l as [|n l IH]; intros [|n' l'] El; cbn [map sconcat];
    [reflexivity|discriminate El|discriminate El|].
  rewrite !markup_app, !row_has_markup. f_equal. apply IH. by injection El.
Qed.

Lemma app_str_cancel p x y : p +:+ x = p +:+ y -> x = y.
Proof. induction p as [|c p IH]; [done|]. cbn. intros [=]. by apply IH. Qed.

(** The demo page shows a request as text.  Whatever a request carries in its method, its
    path, its query, its address and the names and values of its headers, the markup of the page,
    its angle brackets and quotes in order, is that of any other request with as many headers:
    nothing of the request becomes an element or leaves one.  And what is shown is what arrived:
    from the page the id, the method, the path, the query and the address can be told. *)
Theorem page_inert r r' :
  (List.length (b_Header r) = List.length (b_Header r') -> markup (page r) = markup (page r')) /\
  (page r = page r' -> shown_id r = shown_id r' /\ b_Method r = b_Method r' /\ b_Path r = b_Path r' /\
    b_RawQuery r = b_RawQuery r' /\ Get (b_Header r) "X-Real-IP" = Get (b_Header r') "X-Real-IP").
Proof.
  rewrite !page_pieces. split.
  - intros E. rewrite !markup_app. f_equal. apply filled_markup. unfold inserted.
    repeat (apply List.Forall2_cons; [rewrite ?markup_escape; done || by apply rows_markup|]). apply List.Forall2_nil.
  - intros E%app_str_cancel. destruct page_frame as (t1 & t2 & t3 & t4 & t5 & t6 & Ef). rewrite Ef in E.
    cbn [filled inserted] in E. cbn [String.append] in E.
    apply escape_peel in E as [? E].
    do 4 (apply app_str_cancel, escape_peel in E as [? E]). done.
Qed.

(** ** One id from the log to the page *)

(** The headers as [net/http] reads them. *)
Definition add_header (m : header) (h : string * hvalue) : header :=
  let key := CanonicalHeaderKey h.1 in
  assoc_set key (default [] (assoc key m) ++ match h.2 with One v => [v] | Many vs => vs end) m.

Definition arrived (headers : list (string * hvalue)) : header := foldl add_header [] headers.

Lemma lower_idem_char c : lua_lower_char (lua_lower_char c) = lua_lower_char c.
Proof.
  unfold lua_lower_char. destruct (Z.leb_spec 65 (bval c)), (Z.leb_spec (bval c) 90); cbn [andb];
    rewrite ?bval_bof by lia;
    match goal with |- context [(65 <=? ?x) && (?x <=? 90)] =>
      destruct (Z.leb_spec 65 x), (Z.leb_spec x 90) end; cbn [andb]; done || lia.
Qed.

Lemma lower_canonical s : lua_lower (CanonicalHeaderKey s) = lua_lower s.
Proof.
  unfold CanonicalHeaderKey. destruct (sall token_byte s); [|done]. generalize true as up.
  induction s as [|c s IH]; intros up; [done|]. cbn [canonical_from lua_lower]. rewrite IH. f_equal.
  destruct up; [|apply lower_idem_char].
  destruct (Z.leb_spec 97 (bval c)), (Z.leb_spec (bval c) 122); cbn [andb]; try done.
  unfold lua_lower_char. rewrite bval_bof by lia.
  rewrite (proj2 (Z.leb_le 65 _)), (proj2 (Z.leb_le _ 90)) by lia. cbn [andb].
  rewrite (proj2 (Z.leb_gt _ 90)), andb_false_r by lia.
  replace (bval c - 32 + 32) with (bval c) by lia. apply bof_bval.
Qed.

Lemma arrived_other key headers :
  Forall (fun h : string * hvalue => CanonicalHeaderKey h.1 <> key) headers -> assoc key (arrived headers) = None.
Proof.
  unfold arrived. assert (assoc key ([] : header) = None) as Hm by done. revert Hm. generalize ([] : header) as m.
  intros m Hm Hh. revert m Hm. induction Hh as [|h headers Hk _ IH]; intros m Hm; [done|]. cbn [foldl]. apply IH.
  unfold add_header. by rewrite assoc_set_ne.
Qed.

(** The hook's id is the only one that arrives. *)
Lemma arrived_id q : Get (arrived (given_id q)) "X-Request-ID" = q_request_id q.
Proof.
  unfold given_id, set_header. set (key := CanonicalHeaderKey "X-Request-ID").
  unfold Get, arrived. fold key. rewrite foldl_app. cbn [foldl]. fold (arrived (List.filter
    (fun h : string * hvalue => negb (String.eqb (lua_lower h.1) (lua_lower "X-Request-ID"))) (q_headers q))).
  unfold add_header. cbn [fst snd]. fold key. rewrite assoc_set_eq, arrived_other; [done|].
  apply list.Forall_forall. intros h [_ Hh]%list_elem_of_In%filter_In Hk.
  apply negb_true_iff, String.eqb_neq in Hh. apply Hh. by rewrite <- lower_canonical, Hk.
Qed.

Lemma echo_text r : echoJSON r = "{" +:+ join "," [
    json_quote true "client_ip" +:+ ":" +:+ json_quote true (Get (b_Header r) "X-Real-IP");
    json_quote true "method" +:+ ":" +:+ json_quote true (b_Method r);
    json_quote true "path" +:+ ":" +:+ json_quote true (b_Path r);
    json_quote true "query" +:+ ":" +:+ json_quote true (b_RawQuery r);
    json_quote true "request_id" +:+ ":" +:+ json_quote true (Get (b_Header r) "X-Request-ID")] +:+ "}" +:+ byte_str 10.
Proof.
  unfold echoJSON. generalize (Get (b_Header r) "X-Real-IP") as a, (Get (b_Header r) "X-Request-ID") as i.
  destruct r as [m p e qr h]. cbn [b_Method b_Path b_RawQuery b_Header]. intros a i.
  match goal with |- default _ ?e +:+ ?n = _ => assert (e = Some (enc_object true [("method", json_quote true m);
    ("path", json_quote true p); ("query", json_quote true qr); ("request_id", json_quote true i);
    ("client_ip", json_quote true a)])) as -> by done end.
  unfold enc_object. cbn [default from_option id]. rewrite !app_assoc_str. reflexivity.
Qed.

(** C32: One id from the log to the backend.  When nginx lets a request through with the engine
    reachable, the entry the engine recorded of it carries the id nginx gave it, and so does the
    request that reaches the backend, where both handlers show it, whatever ids the client put in
    headers of its own. *)
Theorem id_correlates `{CjsonLaws} `{UnicodePrint} {W} c (sv : Server W) (w : W) a q ms (r : brequest) :
  names_ok q -> limits q -> statuses_ok (sv_engine sv) ->
  float_lit (millisSince (r_start a) (r_stop a)) = Some ms ->
  valid_utf8 (q_request_id q) = true -> q_request_id q <> EmptyString -> b_Header r = arrived (given_id q) ->
  exists payload w' text entry, cjson_encode (decision_request c q) = Some payload /\
    serve sv w a "POST" "/v1/decide" payload = (w', [Respond 200 text; Record_ KindTraffic (q_request_id q) entry]) /\
    shown_id r = q_request_id q /\
    echoJSON r = "{" +:+ join "," [
      json_quote true "client_ip" +:+ ":" +:+ json_quote true (Get (b_Header r) "X-Real-IP");
      json_quote true "method" +:+ ":" +:+ json_quote true (b_Method r);
      json_quote true "path" +:+ ":" +:+ json_quote true (b_Path r);
      json_quote true "query" +:+ ":" +:+ json_quote true (b_RawQuery r);
      json_quote true "request_id" +:+ ":" +:+ json_quote true (q_request_id q)] +:+ "}" +:+ byte_str 10.
Proof.
  intros Hn Hl He Hms Hv Hne Hr.
  destruct (access_decides c sv w a q ms Hn Hl He Hms) as (headers & payload & _ & Hp & Hd & _).
  destruct (Decide (sv_engine sv) w (request_context (seen c q headers) (r_now a)) (r_start a) (r_stop a))
    as [w' d] eqn:Ed.
  pose proof (serve_decides sv w a _ _ _ _ Hd Ed) as Es. cbn [dq_RequestID seen] in Es.
  rewrite (fix_utf8_valid _ Hv) in Es. eexists payload, w', _, _. split; [done|]. split; [exact Es|].
  rewrite echo_text. unfold shown_id. rewrite Hr, arrived_id. split; [|done].
  by destruct (String.eqb_spec (q_request_id q) EmptyString).
Qed.

(** ** Requests that arrive *)

#[local] Existing Instance Proxy.go_cjson.
#[local] Existing Instance Proxy.go_cjson_laws.
#[local] Existing Instance Proxy.no_print.

Definition arrived_request (id path : string) : brequest :=
  BRequest "GET" path path (unquoted "q=<b>~'&") (arrived (set_header "X-Request-ID" id [("x-real-ip", One "10.0.0.7")])).

Example demo_routes : map (fun p => match demo_serve (BRequest p.1 p.2 p.2 EmptyString []) with
                                    | Moved clean => clean | Answer _ t _ => t end)
    [("GET", "/healthz"); ("POST", "/healthz"); ("DELETE", "/api/echo"); ("GET", "/api/echo/"); ("GET", "/a/../b")]
  = ["application/json"; "text/html; charset=utf-8"; "application/json; charset=utf-8"; "text/html; charset=utf-8"; "/b"].
Proof. vm_compute. reflexivity. Qed.

Example echoed : echoJSON (arrived_request "r-1" "/api/echo") = unquoted
  "{~client_ip~:~10.0.0.7~,~method~:~GET~,~path~:~/api/echo~,~query~:~q=\u003cb\u003e\~'\u0026~,~request_id~:~r-1~}"
  +:+ byte_str 10.
Proof. vm_compute. reflexivity. Qed.

Lemma page_inert_witness :
  markup (page (arrived_request "r-1" "/<script>")) = markup (page (arrived_request "r-2" "/")).
Proof.
  apply (proj1 (page_inert (arrived_request "r-1" "/<script>") (arrived_request "r-2" "/"))). reflexivity.
Defined.

Lemma id_correlates_witness :
  shown_id (BRequest "GET" "/search" "/search" "q=1" (arrived (given_id sample_request))) = "r-1".
Proof.
  destruct (id_correlates sample_settings sample_server tt sample_around sample_request "1.5"
    (BRequest "GET" "/search" "/search" "q=1" (arrived (given_id sample_request))))
    as (payload & w' & text & entry & _ & _ & Hid & _).
  - repeat constructor.
  - apply sample_limits.
  - repeat constructor; cbn; lia.
  - vm_compute. reflexivity.
  - reflexivity.
  - discriminate.
  - reflexivity.
  - exact Hid.
Defined.
